(** * Verification of the virtual-tree reconciliation engine (RenderingEngine)

    A shallow embedding of [RenderingEngine] and of its per-pass
    [RenderingState]: the capture phase ([_capture], [_create],
    [_forEachComponent], [_linkComponent], [_propagateLinking]), the update
    phase ([_update] with its dual-cursor merge, the child helpers,
    [_updateDOMElement], [_updateHash], [_updateListeners]), adoption
    ([_adopt], [_createEl], [_propagateForwardedEl]), the notification
    traversal [_triggerDidUpdate] and the entry point [_render].

    JavaScript objects live in a store indexed by identities; every function
    of the engine is a computation in a state-and-exception monad over that
    store.  Calls into collaborators (component hooks, the element factory)
    are recorded in an event log, which is what the temporal statements talk
    about.  The configuration modelled is the default one:
    [substanceGlobals.DEBUG_RENDERING] and [VERBOSE_RENDERING_ENGINE] unset;
    [console.assert]/[console.error] do not alter control flow and are
    omitted.  The incremental entry [_renderChild] (with its fake parent) is
    not covered. *)

From Stdlib Require Import Ascii.
From stdpp Require Import gmap strings list fin_maps pretty.

(** ** Data model *)

(** A JS [Map] keeps its insertion order and has unique keys: an association
    list, read with [Map_get] and written with [Map_set]. *)
Fixpoint Map_get {A} (k : string) (m : list (string * A)) : option A :=
  match m with
  | [] => None
  | (k', v) :: m' => if decide (k = k') then Some v else Map_get k m'
  end.

Fixpoint Map_set {A} (k : string) (v : A) (m : list (string * A)) : list (string * A) :=
  match m with
  | [] => [(k, v)]
  | (k', v') :: m' => if decide (k = k') then (k, v) :: m' else (k', v') :: Map_set k v m'
  end.

Definition Map_keys {A} (m : list (string * A)) : list string := m.*1.

Abbreviation Hash := (list (string * string)).
Abbreviation Props := (list (string * string)).
Abbreviation Listener := (string * string)%type.
Abbreviation RefMap := (list (string * nat)).

(** [comp.constructor] / [vel.ComponentClass]. *)
Inductive Class := ElementComponent | TextNodeComponent | UserClass (name : string).

#[global] Instance Class_eq_dec : EqDecision Class.
Proof. solve_decision. Defined.

Definition Class_name (c : Class) : string :=
  match c with
  | ElementComponent => "ElementComponent"
  | TextNodeComponent => "TextNodeComponent"
  | UserClass n => n
  end.

(** Modelled from the spec: the descriptor variants ([VirtualElement] is not
    under src).  "Virtual Descriptor — one of three variants": a descriptor
    answers exactly one of [_isVirtualComponent], [_isVirtualHTMLElement],
    [_isVirtualTextNode]. *)
Inductive VKind := VirtualComponent | VirtualHTMLElement | VirtualTextNode.

#[global] Instance VKind_eq_dec : EqDecision VKind.
Proof. solve_decision. Defined.

(** The element properties a descriptor carries (what [_copy], [_clear] and
    [_merge] act on). *)
Record ElementProps := mkEProps {
  ep_attributes : Hash;
  ep_htmlProps : Hash;
  ep_eventListeners : list Listener
}.

Definition no_eprops : ElementProps := mkEProps [] [] [].

Record VirtualElement := mkVel {
  v_kind : VKind;
  v_comp : option nat;
  v_parent : option nat;
  v_children : list nat;
  v_ref : option string;
  v_ComponentClass : Class;
  v_props : Props;
  v_tagName : string;
  v_text : string;
  v_eprops : ElementProps;
  v_innerHTMLString : option string;
  v_forwardedEl : option nat;
  v_isForwarding : bool;
  v_isForwarded : bool;
  v_context : option nat;
  v_elementProps : option ElementProps;
  v_preliminaryParent : option nat;
  v_owner : option nat;
  v_components : option (list (nat * option nat))
}.

Definition set_v_comp (x : option nat) (r : VirtualElement) : VirtualElement :=
  {| v_kind := v_kind r; v_comp := x; v_parent := v_parent r; v_children := v_children r;
     v_ref := v_ref r; v_ComponentClass := v_ComponentClass r; v_props := v_props r;
     v_tagName := v_tagName r; v_text := v_text r; v_eprops := v_eprops r; v_innerHTMLString
     := v_innerHTMLString r; v_forwardedEl := v_forwardedEl r; v_isForwarding :=
     v_isForwarding r; v_isForwarded := v_isForwarded r; v_context := v_context r;
     v_elementProps := v_elementProps r; v_preliminaryParent := v_preliminaryParent r;
     v_owner := v_owner r; v_components := v_components r |}.
Definition set_v_parent (x : option nat) (r : VirtualElement) : VirtualElement :=
  {| v_kind := v_kind r; v_comp := v_comp r; v_parent := x; v_children := v_children r;
     v_ref := v_ref r; v_ComponentClass := v_ComponentClass r; v_props := v_props r;
     v_tagName := v_tagName r; v_text := v_text r; v_eprops := v_eprops r; v_innerHTMLString
     := v_innerHTMLString r; v_forwardedEl := v_forwardedEl r; v_isForwarding :=
     v_isForwarding r; v_isForwarded := v_isForwarded r; v_context := v_context r;
     v_elementProps := v_elementProps r; v_preliminaryParent := v_preliminaryParent r;
     v_owner := v_owner r; v_components := v_components r |}.
Definition set_v_children (x : list nat) (r : VirtualElement) : VirtualElement :=
  {| v_kind := v_kind r; v_comp := v_comp r; v_parent := v_parent r; v_children := x; v_ref
     := v_ref r; v_ComponentClass := v_ComponentClass r; v_props := v_props r; v_tagName :=
     v_tagName r; v_text := v_text r; v_eprops := v_eprops r; v_innerHTMLString :=
     v_innerHTMLString r; v_forwardedEl := v_forwardedEl r; v_isForwarding := v_isForwarding
     r; v_isForwarded := v_isForwarded r; v_context := v_context r; v_elementProps :=
     v_elementProps r; v_preliminaryParent := v_preliminaryParent r; v_owner := v_owner r;
     v_components := v_components r |}.
Definition set_v_props (x : Props) (r : VirtualElement) : VirtualElement :=
  {| v_kind := v_kind r; v_comp := v_comp r; v_parent := v_parent r; v_children :=
     v_children r; v_ref := v_ref r; v_ComponentClass := v_ComponentClass r; v_props := x;
     v_tagName := v_tagName r; v_text := v_text r; v_eprops := v_eprops r; v_innerHTMLString
     := v_innerHTMLString r; v_forwardedEl := v_forwardedEl r; v_isForwarding :=
     v_isForwarding r; v_isForwarded := v_isForwarded r; v_context := v_context r;
     v_elementProps := v_elementProps r; v_preliminaryParent := v_preliminaryParent r;
     v_owner := v_owner r; v_components := v_components r |}.
Definition set_v_tagName (x : string) (r : VirtualElement) : VirtualElement :=
  {| v_kind := v_kind r; v_comp := v_comp r; v_parent := v_parent r; v_children :=
     v_children r; v_ref := v_ref r; v_ComponentClass := v_ComponentClass r; v_props :=
     v_props r; v_tagName := x; v_text := v_text r; v_eprops := v_eprops r;
     v_innerHTMLString := v_innerHTMLString r; v_forwardedEl := v_forwardedEl r;
     v_isForwarding := v_isForwarding r; v_isForwarded := v_isForwarded r; v_context :=
     v_context r; v_elementProps := v_elementProps r; v_preliminaryParent :=
     v_preliminaryParent r; v_owner := v_owner r; v_components := v_components r |}.
Definition set_v_eprops (x : ElementProps) (r : VirtualElement) : VirtualElement :=
  {| v_kind := v_kind r; v_comp := v_comp r; v_parent := v_parent r; v_children :=
     v_children r; v_ref := v_ref r; v_ComponentClass := v_ComponentClass r; v_props :=
     v_props r; v_tagName := v_tagName r; v_text := v_text r; v_eprops := x;
     v_innerHTMLString := v_innerHTMLString r; v_forwardedEl := v_forwardedEl r;
     v_isForwarding := v_isForwarding r; v_isForwarded := v_isForwarded r; v_context :=
     v_context r; v_elementProps := v_elementProps r; v_preliminaryParent :=
     v_preliminaryParent r; v_owner := v_owner r; v_components := v_components r |}.
Definition set_v_innerHTMLString (x : option string) (r : VirtualElement) : VirtualElement :=
  {| v_kind := v_kind r; v_comp := v_comp r; v_parent := v_parent r; v_children :=
     v_children r; v_ref := v_ref r; v_ComponentClass := v_ComponentClass r; v_props :=
     v_props r; v_tagName := v_tagName r; v_text := v_text r; v_eprops := v_eprops r;
     v_innerHTMLString := x; v_forwardedEl := v_forwardedEl r; v_isForwarding :=
     v_isForwarding r; v_isForwarded := v_isForwarded r; v_context := v_context r;
     v_elementProps := v_elementProps r; v_preliminaryParent := v_preliminaryParent r;
     v_owner := v_owner r; v_components := v_components r |}.
Definition set_v_forwardedEl (x : option nat) (r : VirtualElement) : VirtualElement :=
  {| v_kind := v_kind r; v_comp := v_comp r; v_parent := v_parent r; v_children :=
     v_children r; v_ref := v_ref r; v_ComponentClass := v_ComponentClass r; v_props :=
     v_props r; v_tagName := v_tagName r; v_text := v_text r; v_eprops := v_eprops r;
     v_innerHTMLString := v_innerHTMLString r; v_forwardedEl := x; v_isForwarding :=
     v_isForwarding r; v_isForwarded := v_isForwarded r; v_context := v_context r;
     v_elementProps := v_elementProps r; v_preliminaryParent := v_preliminaryParent r;
     v_owner := v_owner r; v_components := v_components r |}.
Definition set_v_isForwarding (x : bool) (r : VirtualElement) : VirtualElement :=
  {| v_kind := v_kind r; v_comp := v_comp r; v_parent := v_parent r; v_children :=
     v_children r; v_ref := v_ref r; v_ComponentClass := v_ComponentClass r; v_props :=
     v_props r; v_tagName := v_tagName r; v_text := v_text r; v_eprops := v_eprops r;
     v_innerHTMLString := v_innerHTMLString r; v_forwardedEl := v_forwardedEl r;
     v_isForwarding := x; v_isForwarded := v_isForwarded r; v_context := v_context r;
     v_elementProps := v_elementProps r; v_preliminaryParent := v_preliminaryParent r;
     v_owner := v_owner r; v_components := v_components r |}.
Definition set_v_isForwarded (x : bool) (r : VirtualElement) : VirtualElement :=
  {| v_kind := v_kind r; v_comp := v_comp r; v_parent := v_parent r; v_children :=
     v_children r; v_ref := v_ref r; v_ComponentClass := v_ComponentClass r; v_props :=
     v_props r; v_tagName := v_tagName r; v_text := v_text r; v_eprops := v_eprops r;
     v_innerHTMLString := v_innerHTMLString r; v_forwardedEl := v_forwardedEl r;
     v_isForwarding := v_isForwarding r; v_isForwarded := x; v_context := v_context r;
     v_elementProps := v_elementProps r; v_preliminaryParent := v_preliminaryParent r;
     v_owner := v_owner r; v_components := v_components r |}.
Definition set_v_context (x : option nat) (r : VirtualElement) : VirtualElement :=
  {| v_kind := v_kind r; v_comp := v_comp r; v_parent := v_parent r; v_children :=
     v_children r; v_ref := v_ref r; v_ComponentClass := v_ComponentClass r; v_props :=
     v_props r; v_tagName := v_tagName r; v_text := v_text r; v_eprops := v_eprops r;
     v_innerHTMLString := v_innerHTMLString r; v_forwardedEl := v_forwardedEl r;
     v_isForwarding := v_isForwarding r; v_isForwarded := v_isForwarded r; v_context := x;
     v_elementProps := v_elementProps r; v_preliminaryParent := v_preliminaryParent r;
     v_owner := v_owner r; v_components := v_components r |}.
Definition set_v_elementProps (x : option ElementProps) (r : VirtualElement) : VirtualElement :=
  {| v_kind := v_kind r; v_comp := v_comp r; v_parent := v_parent r; v_children :=
     v_children r; v_ref := v_ref r; v_ComponentClass := v_ComponentClass r; v_props :=
     v_props r; v_tagName := v_tagName r; v_text := v_text r; v_eprops := v_eprops r;
     v_innerHTMLString := v_innerHTMLString r; v_forwardedEl := v_forwardedEl r;
     v_isForwarding := v_isForwarding r; v_isForwarded := v_isForwarded r; v_context :=
     v_context r; v_elementProps := x; v_preliminaryParent := v_preliminaryParent r; v_owner
     := v_owner r; v_components := v_components r |}.
Definition set_v_components (x : option (list (nat * option nat))) (r : VirtualElement) : VirtualElement :=
  {| v_kind := v_kind r; v_comp := v_comp r; v_parent := v_parent r; v_children :=
     v_children r; v_ref := v_ref r; v_ComponentClass := v_ComponentClass r; v_props :=
     v_props r; v_tagName := v_tagName r; v_text := v_text r; v_eprops := v_eprops r;
     v_innerHTMLString := v_innerHTMLString r; v_forwardedEl := v_forwardedEl r;
     v_isForwarding := v_isForwarding r; v_isForwarded := v_isForwarded r; v_context :=
     v_context r; v_elementProps := v_elementProps r; v_preliminaryParent :=
     v_preliminaryParent r; v_owner := v_owner r; v_components := x |}.

(** What a component remembers from its previous pass ([comp.__internal__]). *)
Record InternalComponentData := mkICD {
  icd_refs : RefMap;
  icd_foreignRefs : RefMap;
  icd_internalRefs : option RefMap;
  icd_elementProps : option ElementProps
}.

Definition new_InternalComponentData : InternalComponentData :=
  mkICD [] [] (Some []) None.

Record Component := mkComp {
  c_class : Class;
  c_props : Props;
  c_state : Props;
  c_el : option nat;
  c_parent : option nat;
  c_internal : option InternalComponentData;
  c_ref : option string;
  c_owner : option nat;
  c_forwardedComp : option nat;
  c_refs : list (string * nat);
  c_mounted : bool
}.

Definition set_c_props (x : Props) (r : Component) : Component :=
  {| c_class := c_class r; c_props := x; c_state := c_state r; c_el := c_el r; c_parent :=
     c_parent r; c_internal := c_internal r; c_ref := c_ref r; c_owner := c_owner r;
     c_forwardedComp := c_forwardedComp r; c_refs := c_refs r; c_mounted := c_mounted r |}.
Definition set_c_el (x : option nat) (r : Component) : Component :=
  {| c_class := c_class r; c_props := c_props r; c_state := c_state r; c_el := x; c_parent
     := c_parent r; c_internal := c_internal r; c_ref := c_ref r; c_owner := c_owner r;
     c_forwardedComp := c_forwardedComp r; c_refs := c_refs r; c_mounted := c_mounted r |}.
Definition set_c_parent (x : option nat) (r : Component) : Component :=
  {| c_class := c_class r; c_props := c_props r; c_state := c_state r; c_el := c_el r;
     c_parent := x; c_internal := c_internal r; c_ref := c_ref r; c_owner := c_owner r;
     c_forwardedComp := c_forwardedComp r; c_refs := c_refs r; c_mounted := c_mounted r |}.
Definition set_c_internal (x : option InternalComponentData) (r : Component) : Component :=
  {| c_class := c_class r; c_props := c_props r; c_state := c_state r; c_el := c_el r;
     c_parent := c_parent r; c_internal := x; c_ref := c_ref r; c_owner := c_owner r;
     c_forwardedComp := c_forwardedComp r; c_refs := c_refs r; c_mounted := c_mounted r |}.
Definition set_c_ref (x : option string) (r : Component) : Component :=
  {| c_class := c_class r; c_props := c_props r; c_state := c_state r; c_el := c_el r;
     c_parent := c_parent r; c_internal := c_internal r; c_ref := x; c_owner := c_owner r;
     c_forwardedComp := c_forwardedComp r; c_refs := c_refs r; c_mounted := c_mounted r |}.
Definition set_c_owner (x : option nat) (r : Component) : Component :=
  {| c_class := c_class r; c_props := c_props r; c_state := c_state r; c_el := c_el r;
     c_parent := c_parent r; c_internal := c_internal r; c_ref := c_ref r; c_owner := x;
     c_forwardedComp := c_forwardedComp r; c_refs := c_refs r; c_mounted := c_mounted r |}.
Definition set_c_forwardedComp (x : option nat) (r : Component) : Component :=
  {| c_class := c_class r; c_props := c_props r; c_state := c_state r; c_el := c_el r;
     c_parent := c_parent r; c_internal := c_internal r; c_ref := c_ref r; c_owner :=
     c_owner r; c_forwardedComp := x; c_refs := c_refs r; c_mounted := c_mounted r |}.
Definition set_c_refs (x : list (string * nat)) (r : Component) : Component :=
  {| c_class := c_class r; c_props := c_props r; c_state := c_state r; c_el := c_el r;
     c_parent := c_parent r; c_internal := c_internal r; c_ref := c_ref r; c_owner :=
     c_owner r; c_forwardedComp := c_forwardedComp r; c_refs := x; c_mounted := c_mounted r
     |}.
Definition set_c_mounted (x : bool) (r : Component) : Component :=
  {| c_class := c_class r; c_props := c_props r; c_state := c_state r; c_el := c_el r;
     c_parent := c_parent r; c_internal := c_internal r; c_ref := c_ref r; c_owner :=
     c_owner r; c_forwardedComp := c_forwardedComp r; c_refs := c_refs r; c_mounted := x |}.

Inductive NodeKind := ElementNode | TextNode.

#[global] Instance NodeKind_eq_dec : EqDecision NodeKind.
Proof. solve_decision. Defined.

Record DOMNode := mkNode {
  n_kind : NodeKind;
  n_tagName : string;
  n_textContent : string;
  n_attributes : Hash;
  n_htmlProps : Hash;
  n_listeners : list Listener;
  n_childNodes : list nat;
  n_parentNode : option nat;
  n_comp : option nat;
  n_hasInnerHTML : bool;
  n_innerHTML : string
}.

Definition set_n_tagName (x : string) (r : DOMNode) : DOMNode :=
  {| n_kind := n_kind r; n_tagName := x; n_textContent := n_textContent r; n_attributes :=
     n_attributes r; n_htmlProps := n_htmlProps r; n_listeners := n_listeners r;
     n_childNodes := n_childNodes r; n_parentNode := n_parentNode r; n_comp := n_comp r;
     n_hasInnerHTML := n_hasInnerHTML r; n_innerHTML := n_innerHTML r |}.
Definition set_n_textContent (x : string) (r : DOMNode) : DOMNode :=
  {| n_kind := n_kind r; n_tagName := n_tagName r; n_textContent := x; n_attributes :=
     n_attributes r; n_htmlProps := n_htmlProps r; n_listeners := n_listeners r;
     n_childNodes := n_childNodes r; n_parentNode := n_parentNode r; n_comp := n_comp r;
     n_hasInnerHTML := n_hasInnerHTML r; n_innerHTML := n_innerHTML r |}.
Definition set_n_attributes (x : Hash) (r : DOMNode) : DOMNode :=
  {| n_kind := n_kind r; n_tagName := n_tagName r; n_textContent := n_textContent r;
     n_attributes := x; n_htmlProps := n_htmlProps r; n_listeners := n_listeners r;
     n_childNodes := n_childNodes r; n_parentNode := n_parentNode r; n_comp := n_comp r;
     n_hasInnerHTML := n_hasInnerHTML r; n_innerHTML := n_innerHTML r |}.
Definition set_n_htmlProps (x : Hash) (r : DOMNode) : DOMNode :=
  {| n_kind := n_kind r; n_tagName := n_tagName r; n_textContent := n_textContent r;
     n_attributes := n_attributes r; n_htmlProps := x; n_listeners := n_listeners r;
     n_childNodes := n_childNodes r; n_parentNode := n_parentNode r; n_comp := n_comp r;
     n_hasInnerHTML := n_hasInnerHTML r; n_innerHTML := n_innerHTML r |}.
Definition set_n_listeners (x : list Listener) (r : DOMNode) : DOMNode :=
  {| n_kind := n_kind r; n_tagName := n_tagName r; n_textContent := n_textContent r;
     n_attributes := n_attributes r; n_htmlProps := n_htmlProps r; n_listeners := x;
     n_childNodes := n_childNodes r; n_parentNode := n_parentNode r; n_comp := n_comp r;
     n_hasInnerHTML := n_hasInnerHTML r; n_innerHTML := n_innerHTML r |}.
Definition set_n_childNodes (x : list nat) (r : DOMNode) : DOMNode :=
  {| n_kind := n_kind r; n_tagName := n_tagName r; n_textContent := n_textContent r;
     n_attributes := n_attributes r; n_htmlProps := n_htmlProps r; n_listeners :=
     n_listeners r; n_childNodes := x; n_parentNode := n_parentNode r; n_comp := n_comp r;
     n_hasInnerHTML := n_hasInnerHTML r; n_innerHTML := n_innerHTML r |}.
Definition set_n_parentNode (x : option nat) (r : DOMNode) : DOMNode :=
  {| n_kind := n_kind r; n_tagName := n_tagName r; n_textContent := n_textContent r;
     n_attributes := n_attributes r; n_htmlProps := n_htmlProps r; n_listeners :=
     n_listeners r; n_childNodes := n_childNodes r; n_parentNode := x; n_comp := n_comp r;
     n_hasInnerHTML := n_hasInnerHTML r; n_innerHTML := n_innerHTML r |}.
Definition set_n_comp (x : option nat) (r : DOMNode) : DOMNode :=
  {| n_kind := n_kind r; n_tagName := n_tagName r; n_textContent := n_textContent r;
     n_attributes := n_attributes r; n_htmlProps := n_htmlProps r; n_listeners :=
     n_listeners r; n_childNodes := n_childNodes r; n_parentNode := n_parentNode r; n_comp
     := x; n_hasInnerHTML := n_hasInnerHTML r; n_innerHTML := n_innerHTML r |}.
Definition set_n_hasInnerHTML (x : bool) (r : DOMNode) : DOMNode :=
  {| n_kind := n_kind r; n_tagName := n_tagName r; n_textContent := n_textContent r;
     n_attributes := n_attributes r; n_htmlProps := n_htmlProps r; n_listeners :=
     n_listeners r; n_childNodes := n_childNodes r; n_parentNode := n_parentNode r; n_comp
     := n_comp r; n_hasInnerHTML := x; n_innerHTML := n_innerHTML r |}.
Definition set_n_innerHTML (x : string) (r : DOMNode) : DOMNode :=
  {| n_kind := n_kind r; n_tagName := n_tagName r; n_textContent := n_textContent r;
     n_attributes := n_attributes r; n_htmlProps := n_htmlProps r; n_listeners :=
     n_listeners r; n_childNodes := n_childNodes r; n_parentNode := n_parentNode r; n_comp
     := n_comp r; n_hasInnerHTML := n_hasInnerHTML r; n_innerHTML := x |}.

Record Context := mkCtx {
  ctx_owner : option nat;
  ctx_refs : RefMap;
  ctx_foreignRefs : RefMap;
  ctx_internalRefs : option RefMap;
  ctx_components : list nat
}.

Definition set_ctx_internalRefs (x : option RefMap) (r : Context) : Context :=
  {| ctx_owner := ctx_owner r; ctx_refs := ctx_refs r; ctx_foreignRefs := ctx_foreignRefs r;
     ctx_internalRefs := x; ctx_components := ctx_components r |}.

(** Objects a pass can tag: descriptors and instances. *)
Inductive ObjRef := OVel (v : nat) | OComp (c : nat).

#[global] Instance ObjRef_eq_dec : EqDecision ObjRef.
Proof. solve_decision. Defined.

#[global] Instance ObjRef_countable : Countable ObjRef.
Proof.
  refine (inj_countable' (λ o, match o with OVel v => inl v | OComp c => inr c end)
                         (λ s, match s with inl v => OVel v | inr c => OComp c end) _).
  by intros [].
Defined.

(** The symbols used as keys of the per-pass info object. *)
Inductive Key :=
  | CAPTURED | DETACHED | LINKED | MAPPED | NEW | OLDPROPS | OLDSTATE
  | RELOCATED | RENDERED | SKIPPED | UPDATED.

#[global] Instance Key_eq_dec : EqDecision Key.
Proof. solve_decision. Defined.

(** Values stored under a key: [true], or a props/state snapshot. *)
Inductive Val := VTrue | VData (p : Props).

(** [obj[state.id]]: a plain object used as a dictionary. *)
Abbreviation Info := (list (Key * Val)).

Fixpoint Info_get (k : Key) (i : Info) : option Val :=
  match i with
  | [] => None
  | (k', v) :: i' => if decide (k = k') then Some v else Info_get k i'
  end.

(** ** Calls into collaborators *)

Inductive DomOp :=
  | CreateElement (n : nat) (tagName : string)
  | CreateTextNode (n : nat) (text : string)
  | SetAttribute (n : nat) (k v : string)
  | RemoveAttribute (n : nat) (k : string)
  | SetProperty (n : nat) (k v : string)
  | RemoveProperty (n : nat) (k : string)
  | RemoveAllEventListeners (n : nat)
  | AddEventListener (n : nat) (l : Listener)
  | SetTextContent (n : nat) (text : string)
  | SetTagName (n : nat) (tagName : string)
  | Empty (n : nat)
  | SetInnerHTML (n : nat) (html : string)
  | AppendChild (parent child : nat)
  | InsertBefore (parent child before : nat)
  | RemoveChild (parent child : nat)
  | ReplaceChild (parent oldChild newChild : nat)
  | Remove (n : nat).

(** What [_capture] observes of the value returned by [comp.render]. *)
Inductive RenderShape := ShNil | ShComponent | ShElement | ShOther.

Inductive Event :=
  | EvCreateComponent (c : nat) (cls : Class) (parent : option nat)
  | EvRender (c : nat) (shape : RenderShape)
  | EvSetProps (c : nat) (props : Props)
  | EvSetParent (c : nat) (parent : nat)
  | EvDidUpdate (c : nat) (oldProps oldState : option Val)
  | EvTriggerDidMount (c : nat)
  | EvTriggerDispose (c : nat)
  | EvDom (op : DomOp).

(** Errors.  [EmptyRenderResult] is [Error('Component.render() returned
    nil.')], [InvalidRenderResult] is [Error('render() must return a plain
    element or a Component')], [IncompatibleElement] is [Error('Provided DOM
    element is not compatible.')]; [TypeError] is what the JS runtime raises
    when a property of [undefined]/[null] is read.  [OutOfFuel] is not an
    error of the program: it marks a run cut short by the recursion bound of
    the embedding. *)
Inductive Error :=
  | EmptyRenderResult | InvalidRenderResult | IncompatibleElement | TypeError | OutOfFuel.

#[global] Instance Error_eq_dec : EqDecision Error.
Proof. solve_decision. Defined.

(** What [comp.render($$)] returns: a falsy value, a descriptor, or any other
    value. *)
Inductive RenderResult := RNil | RVel (v : nat) | ROther.

(** ** The store *)

Record Machine := mkMachine {
  m_vels : gmap nat VirtualElement;
  m_ctxs : gmap nat Context;
  m_comps : gmap nat Component;
  m_nodes : gmap nat DOMNode;
  m_next : nat;
  m_tags : gmap (nat * ObjRef) Info;
  m_polluted : list ObjRef;
  m_contexts : list nat;
  m_stateId : nat;
  m_log : list Event
}.

Definition set_m_vels (x : gmap nat VirtualElement) (r : Machine) : Machine :=
  {| m_vels := x; m_ctxs := m_ctxs r; m_comps := m_comps r; m_nodes := m_nodes r; m_next :=
     m_next r; m_tags := m_tags r; m_polluted := m_polluted r; m_contexts := m_contexts r;
     m_stateId := m_stateId r; m_log := m_log r |}.
Definition set_m_ctxs (x : gmap nat Context) (r : Machine) : Machine :=
  {| m_vels := m_vels r; m_ctxs := x; m_comps := m_comps r; m_nodes := m_nodes r; m_next :=
     m_next r; m_tags := m_tags r; m_polluted := m_polluted r; m_contexts := m_contexts r;
     m_stateId := m_stateId r; m_log := m_log r |}.
Definition set_m_comps (x : gmap nat Component) (r : Machine) : Machine :=
  {| m_vels := m_vels r; m_ctxs := m_ctxs r; m_comps := x; m_nodes := m_nodes r; m_next :=
     m_next r; m_tags := m_tags r; m_polluted := m_polluted r; m_contexts := m_contexts r;
     m_stateId := m_stateId r; m_log := m_log r |}.
Definition set_m_nodes (x : gmap nat DOMNode) (r : Machine) : Machine :=
  {| m_vels := m_vels r; m_ctxs := m_ctxs r; m_comps := m_comps r; m_nodes := x; m_next :=
     m_next r; m_tags := m_tags r; m_polluted := m_polluted r; m_contexts := m_contexts r;
     m_stateId := m_stateId r; m_log := m_log r |}.
Definition set_m_next (x : nat) (r : Machine) : Machine :=
  {| m_vels := m_vels r; m_ctxs := m_ctxs r; m_comps := m_comps r; m_nodes := m_nodes r;
     m_next := x; m_tags := m_tags r; m_polluted := m_polluted r; m_contexts := m_contexts
     r; m_stateId := m_stateId r; m_log := m_log r |}.
Definition set_m_tags (x : gmap (nat * ObjRef) Info) (r : Machine) : Machine :=
  {| m_vels := m_vels r; m_ctxs := m_ctxs r; m_comps := m_comps r; m_nodes := m_nodes r;
     m_next := m_next r; m_tags := x; m_polluted := m_polluted r; m_contexts := m_contexts
     r; m_stateId := m_stateId r; m_log := m_log r |}.
Definition set_m_polluted (x : list ObjRef) (r : Machine) : Machine :=
  {| m_vels := m_vels r; m_ctxs := m_ctxs r; m_comps := m_comps r; m_nodes := m_nodes r;
     m_next := m_next r; m_tags := m_tags r; m_polluted := x; m_contexts := m_contexts r;
     m_stateId := m_stateId r; m_log := m_log r |}.
Definition set_m_contexts (x : list nat) (r : Machine) : Machine :=
  {| m_vels := m_vels r; m_ctxs := m_ctxs r; m_comps := m_comps r; m_nodes := m_nodes r;
     m_next := m_next r; m_tags := m_tags r; m_polluted := m_polluted r; m_contexts := x;
     m_stateId := m_stateId r; m_log := m_log r |}.
Definition set_m_stateId (x : nat) (r : Machine) : Machine :=
  {| m_vels := m_vels r; m_ctxs := m_ctxs r; m_comps := m_comps r; m_nodes := m_nodes r;
     m_next := m_next r; m_tags := m_tags r; m_polluted := m_polluted r; m_contexts :=
     m_contexts r; m_stateId := x; m_log := m_log r |}.
Definition set_m_log (x : list Event) (r : Machine) : Machine :=
  {| m_vels := m_vels r; m_ctxs := m_ctxs r; m_comps := m_comps r; m_nodes := m_nodes r;
     m_next := m_next r; m_tags := m_tags r; m_polluted := m_polluted r; m_contexts :=
     m_contexts r; m_stateId := m_stateId r; m_log := x |}.

Definition blank_vel : VirtualElement :=
  mkVel VirtualHTMLElement None None [] None ElementComponent [] "" "" no_eprops None
        None false false None None None None None.
Definition blank_comp : Component :=
  mkComp ElementComponent [] [] None None None None None None [] false.
Definition blank_node : DOMNode :=
  mkNode ElementNode "" "" [] [] [] [] None None false "".
Definition blank_ctx : Context := mkCtx None [] [] None [].

#[global] Instance VirtualElement_inhabited : Inhabited VirtualElement := populate blank_vel.
#[global] Instance Component_inhabited : Inhabited Component := populate blank_comp.
#[global] Instance DOMNode_inhabited : Inhabited DOMNode := populate blank_node.
#[global] Instance Context_inhabited : Inhabited Context := populate blank_ctx.

Definition empty_machine : Machine := mkMachine ∅ ∅ ∅ ∅ 0 ∅ [] [] 0 [].

(** ** The monad of the engine: state, and exceptions that keep the state *)

Inductive Outcome (A : Type) := Ret (a : A) | Throw (e : Error).
Arguments Ret {A} a.
Arguments Throw {A} e.

Definition M (A : Type) : Type := Machine → Outcome A * Machine.

Definition ret {A} (a : A) : M A := λ m, (Ret a, m).

Definition bind {A B} (c : M A) (f : A → M B) : M B :=
  λ m, match c m with
       | (Ret a, m') => f a m'
       | (Throw e, m') => (Throw e, m')
       end.

Definition throw {A} (e : Error) : M A := λ m, (Throw e, m).

(** [try { body } finally { fin }] *)
Definition try_finally {A} (body : M A) (fin : M unit) : M A :=
  λ m, match body m with
       | (o, m1) =>
           match fin m1 with
           | (Ret _, m2) => (o, m2)
           | (Throw e, m2) => (Throw e, m2)
           end
       end.

Declare Scope M_scope.
Delimit Scope M_scope with M.
Notation "x <- c1 ;; c2" := (bind c1 (λ x, c2))
  (at level 100, c1 at next level, right associativity) : M_scope.
Notation "c1 ;; c2" := (bind c1 (λ _, c2))
  (at level 100, right associativity) : M_scope.
Open Scope M_scope.

Fixpoint forM_ {A} (l : list A) (f : A → M unit) : M unit :=
  match l with
  | [] => ret tt
  | x :: l' => f x;; forM_ l' f
  end.

Definition when (b : bool) (c : M unit) : M unit := if b then c else ret tt.

(** Reading [o.f] where [o] may be [undefined]. *)
Definition deref {A} (o : option A) : M A :=
  match o with
  | Some a => ret a
  | None => throw TypeError
  end.

Definition getMachine : M Machine := λ m, (Ret m, m).
Definition getVel (v : nat) : M VirtualElement := λ m, (Ret (m_vels m !!! v), m).
Definition getComp (c : nat) : M Component := λ m, (Ret (m_comps m !!! c), m).
Definition getNode (n : nat) : M DOMNode := λ m, (Ret (m_nodes m !!! n), m).
Definition getCtx (x : nat) : M Context := λ m, (Ret (m_ctxs m !!! x), m).

Definition modVel (v : nat) (f : VirtualElement → VirtualElement) : M unit :=
  λ m, (Ret tt, set_m_vels (<[v := f (m_vels m !!! v)]> (m_vels m)) m).
Definition modComp (c : nat) (f : Component → Component) : M unit :=
  λ m, (Ret tt, set_m_comps (<[c := f (m_comps m !!! c)]> (m_comps m)) m).
Definition modNode (n : nat) (f : DOMNode → DOMNode) : M unit :=
  λ m, (Ret tt, set_m_nodes (<[n := f (m_nodes m !!! n)]> (m_nodes m)) m).
Definition modCtx (x : nat) (f : Context → Context) : M unit :=
  λ m, (Ret tt, set_m_ctxs (<[x := f (m_ctxs m !!! x)]> (m_ctxs m)) m).

(** [new ...]: a fresh identity. *)
Definition alloc : M nat := λ m, (Ret (m_next m), set_m_next (S (m_next m)) m).

Definition emit (ev : Event) : M unit := λ m, (Ret tt, set_m_log (m_log m ++ [ev]) m).

(** ** RenderingState

    The engine keeps one state object per pass.  Its tags are stored on the
    tagged objects themselves, under the key [state.id] (fresh for every pass):
    [m_tags] at [(id, obj)] is [obj[id]].  [m_polluted] and [m_contexts] are
    the fields [polluted] and [contexts] of the current state, [m_stateId] its
    [id]. *)

Definition state_get (key : Key) (obj : ObjRef) : M (option Val) :=
  λ m, match m_tags m !! (m_stateId m, obj) with
       | Some info => (Ret (Info_get key info), m)
       | None => (Ret None, m)
       end.

(** [Boolean(this.get(key, obj))]: [true] and snapshots are truthy. *)
Definition state_is (key : Key) (obj : ObjRef) : M bool :=
  v <- state_get key obj;; ret (bool_decide (v ≠ None)).

Definition state_set (key : Key) (obj : ObjRef) (val : Val) : M unit :=
  λ m, match m_tags m !! (m_stateId m, obj) with
       | Some info =>
           (Ret tt, set_m_tags (<[(m_stateId m, obj) := (key, val) :: info]> (m_tags m)) m)
       | None =>
           (Ret tt, set_m_polluted (m_polluted m ++ [obj])
                      (set_m_tags (<[(m_stateId m, obj) := [(key, val)]]> (m_tags m)) m))
       end.

Definition state_dispose : M unit :=
  λ m, (Ret tt,
        set_m_contexts []
          (set_m_tags (foldr (λ obj t, delete (m_stateId m, obj) t) (m_tags m) (m_polluted m)) m)).

Definition state_pushContext (context : nat) : M unit :=
  λ m, (Ret tt, set_m_contexts (m_contexts m ++ [context]) m).

Definition state_popContext : M unit :=
  λ m, (Ret tt, set_m_contexts (removelast (m_contexts m)) m).

(** [this._createState()]: a new state whose [id] is [id]. *)
Definition _createState (id : nat) : M unit :=
  λ m, (Ret tt, set_m_stateId id (set_m_polluted [] (set_m_contexts [] m))).

(** [state.is(key, obj)] where [obj] may be [undefined]: reading [obj[id]]
    raises. *)
Definition state_is_vel (key : Key) (v : option nat) : M bool :=
  v <- deref v;; state_is key (OVel v).
Definition state_is_comp (key : Key) (c : option nat) : M bool :=
  c <- deref c;; state_is key (OComp c).

(** ** The element factory and concrete nodes

    Modelled from the spec: the Element Factory contract (the DOM
    implementations are not under src).  "Element Factory must provide
    create-element, create-text-node, and (on concrete nodes) get/set
    attribute, get/set property, add/remove event listener, get/set text
    content, get child nodes, append/insert/remove/replace child, parent-node
    access, element/text-node kind predicates, and get-tag-name/set-tag-name."
    Every mutating call is recorded in the log. *)

Definition lower_ascii (a : ascii) : ascii :=
  let n := nat_of_ascii a in
  if (65 <=? n) && (n <=? 90) then ascii_of_nat (n + 32) else a.

Fixpoint toLowerCase (s : string) : string :=
  match s with
  | EmptyString => EmptyString
  | String a s' => String (lower_ascii a) (toLowerCase s')
  end.

Definition getTagName (n : DOMNode) : string := toLowerCase (n_tagName n).
Definition isElementNode (n : DOMNode) : bool := bool_decide (n_kind n = ElementNode).
Definition isTextNode (n : DOMNode) : bool := bool_decide (n_kind n = TextNode).

Definition Hash_remove (k : string) (h : Hash) : Hash := filter (λ e, e.1 ≠ k) h.

Fixpoint insert_before (x before : nat) (l : list nat) : list nat :=
  match l with
  | [] => [x]
  | y :: l' => if decide (y = before) then x :: y :: l' else y :: insert_before x before l'
  end.

Definition dom_detach (n : nat) : M unit :=
  node <- getNode n;;
  match n_parentNode node with
  | Some p =>
      modNode p (λ pn, set_n_childNodes (filter (λ x, x ≠ n) (n_childNodes pn)) pn);;
      modNode n (set_n_parentNode None)
  | None => ret tt
  end.

Definition createElement (tagName : string) : M nat :=
  n <- alloc;;
  modNode n (λ _, mkNode ElementNode tagName "" [] [] [] [] None None false "");;
  emit (EvDom (CreateElement n tagName));;
  ret n.

Definition createTextNode (text : string) : M nat :=
  n <- alloc;;
  modNode n (λ _, mkNode TextNode "" text [] [] [] [] None None false "");;
  emit (EvDom (CreateTextNode n text));;
  ret n.

Definition setAttribute (el : nat) (k v : string) : M unit :=
  emit (EvDom (SetAttribute el k v));;
  modNode el (λ n, set_n_attributes (Map_set k v (n_attributes n)) n).

Definition removeAttribute (el : nat) (k : string) : M unit :=
  emit (EvDom (RemoveAttribute el k));;
  modNode el (λ n, set_n_attributes (Hash_remove k (n_attributes n)) n).

Definition setProperty (el : nat) (k v : string) : M unit :=
  emit (EvDom (SetProperty el k v));;
  modNode el (λ n, set_n_htmlProps (Map_set k v (n_htmlProps n)) n).

Definition removeProperty (el : nat) (k : string) : M unit :=
  emit (EvDom (RemoveProperty el k));;
  modNode el (λ n, set_n_htmlProps (Hash_remove k (n_htmlProps n)) n).

Definition removeAllEventListeners (el : nat) : M unit :=
  emit (EvDom (RemoveAllEventListeners el));;
  modNode el (set_n_listeners []).

Definition addEventListener (el : nat) (l : Listener) : M unit :=
  emit (EvDom (AddEventListener el l));;
  modNode el (λ n, set_n_listeners (n_listeners n ++ [l]) n).

Definition setTextContent (el : nat) (text : string) : M unit :=
  emit (EvDom (SetTextContent el text));;
  modNode el (set_n_textContent text).

Definition setTagName (el : nat) (tagName : string) : M unit :=
  emit (EvDom (SetTagName el tagName));;
  modNode el (set_n_tagName tagName).

Definition empty (el : nat) : M unit :=
  emit (EvDom (Empty el));;
  n <- getNode el;;
  forM_ (n_childNodes n) (λ c, modNode c (set_n_parentNode None));;
  modNode el (set_n_childNodes []).

(** The nodes parsed out of the markup are not tracked. *)
Definition setInnerHTML (el : nat) (html : string) : M unit :=
  emit (EvDom (SetInnerHTML el html));;
  n <- getNode el;;
  forM_ (n_childNodes n) (λ c, modNode c (set_n_parentNode None));;
  modNode el (λ n, set_n_innerHTML html (set_n_childNodes [] n)).

Definition appendChild (parent child : nat) : M unit :=
  emit (EvDom (AppendChild parent child));;
  dom_detach child;;
  modNode parent (λ n, set_n_childNodes (n_childNodes n ++ [child]) n);;
  modNode child (set_n_parentNode (Some parent)).

Definition insertBefore (parent child before : nat) : M unit :=
  emit (EvDom (InsertBefore parent child before));;
  dom_detach child;;
  modNode parent (λ n, set_n_childNodes (insert_before child before (n_childNodes n)) n);;
  modNode child (set_n_parentNode (Some parent)).

Definition removeChild (parent child : nat) : M unit :=
  emit (EvDom (RemoveChild parent child));;
  modNode parent (λ n, set_n_childNodes (filter (λ x, x ≠ child) (n_childNodes n)) n);;
  modNode child (λ n, if decide (n_parentNode n = Some parent) then set_n_parentNode None n else n).

Definition replaceChild (parent oldChild newChild : nat) : M unit :=
  emit (EvDom (ReplaceChild parent oldChild newChild));;
  if decide (oldChild = newChild) then ret tt else
  dom_detach newChild;;
  modNode parent (λ n, set_n_childNodes
                         ((λ x, if decide (x = oldChild) then newChild else x) <$> n_childNodes n) n);;
  modNode oldChild (set_n_parentNode None);;
  modNode newChild (set_n_parentNode (Some parent)).

Definition remove (el : nat) : M unit :=
  emit (EvDom (Remove el));;
  dom_detach el.

(** ** Components

    Modelled from the spec: the Component Factory contract ([Component] is not
    under src).  An instance exposes "props, state, parent link,
    render(builderFn)→descriptor, should-re-render(nextProps,nextState)→bool,
    props-received hook, mount/update/dispose notification hooks, and
    mounted-state query".  The hooks are notifications: they are recorded in
    the log; the mount and dispose triggers also flip the mounted state.  What
    user code decides is a parameter of the development. *)

Class Collaborators := {
  (** [comp.render($$)]: reads the store, may build descriptors and contexts,
      returns its result or raises. *)
  comp_render : Machine → nat → nat →
                Outcome RenderResult * (gmap nat VirtualElement * gmap nat Context * nat);
  (** [comp.shouldRerender(nextProps, nextState)] *)
  comp_shouldRerender : Component → Props → Props → bool;
  (** the state a freshly constructed instance starts with *)
  comp_initialState : Class → Props → Props;
  (** [comp._isForwarded()] *)
  comp_isForwarded : Machine → nat → bool
}.

Definition createComponent `{Collaborators} (cls : Class) (parent : nat) (props : Props) : M nat :=
  c <- alloc;;
  modComp c (λ _, mkComp cls props (comp_initialState cls props) None (Some parent)
                         None None None None [] false);;
  emit (EvCreateComponent c cls (Some parent));;
  ret c.

Definition createElementComponent (parent : nat) (vel : nat) : M nat :=
  c <- alloc;;
  modComp c (λ _, mkComp ElementComponent [] [] None (Some parent) None None None None [] false);;
  emit (EvCreateComponent c ElementComponent (Some parent));;
  ret c.

Definition createTextNodeComponent (parent : nat) (vel : nat) : M nat :=
  c <- alloc;;
  modComp c (λ _, mkComp TextNodeComponent [] [] None (Some parent) None None None None [] false);;
  emit (EvCreateComponent c TextNodeComponent (Some parent));;
  ret c.

Definition _setProps (comp : nat) (props : Props) : M unit :=
  emit (EvSetProps comp props);; modComp comp (set_c_props props).

Definition _setParent (comp parent : nat) : M unit :=
  emit (EvSetParent comp parent);; modComp comp (set_c_parent (Some parent)).

Definition triggerDidMount (comp : nat) : M unit :=
  emit (EvTriggerDidMount comp);; modComp comp (set_c_mounted true).

Definition triggerDispose (comp : nat) : M unit :=
  emit (EvTriggerDispose comp);; modComp comp (set_c_mounted false).

Definition didUpdate (comp : nat) (oldProps oldState : option Val) : M unit :=
  emit (EvDidUpdate comp oldProps oldState).

Definition _isElementComponent (c : Component) : bool := bool_decide (c_class c = ElementComponent).
Definition _isTextNodeComponent (c : Component) : bool := bool_decide (c_class c = TextNodeComponent).

(** What [_capture] sees of the returned content: its truthiness and its
    [_isVirtualComponent] / [_isVirtualHTMLElement] flags. *)
Inductive Content := CNil | CComponent (v : nat) | CElement (v : nat) | COther.

Definition classify (vels : gmap nat VirtualElement) (r : RenderResult) : Content :=
  match r with
  | RNil => CNil
  | ROther => COther
  | RVel v =>
      match v_kind (vels !!! v) with
      | VirtualComponent => CComponent v
      | VirtualHTMLElement => CElement v
      | VirtualTextNode => COther
      end
  end.

Definition shape (c : Content) : RenderShape :=
  match c with
  | CNil => ShNil
  | CComponent _ => ShComponent
  | CElement _ => ShElement
  | COther => ShOther
  end.

Definition render `{Collaborators} (comp context : nat) : M Content :=
  λ m, match comp_render m comp context with
       | (o, (vels, ctxs, next)) =>
           let m' := set_m_next next (set_m_ctxs ctxs (set_m_vels vels m)) in
           match o with
           | Ret r => (Ret (classify vels r),
                       set_m_log (m_log m ++ [EvRender comp (shape (classify vels r))]) m')
           | Throw e => (Throw e, m')
           end
       end.

(** Modelled from the spec: [VirtualElement.Context], [_copy], [_clear] and
    [_merge] ([VirtualElement] is not under src).  A context records what one
    render call declared; merging overlays the other side's element properties
    ("preserved by overlaying them back on top after the merge"). *)
Definition newContext (owner : nat) : M nat :=
  x <- alloc;;
  modCtx x (λ _, mkCtx (Some owner) [] [] None []);;
  ret x.

Definition merge_hash (this other : Hash) : Hash :=
  foldl (λ acc e, Map_set e.1 e.2 acc) this other.

Definition eprops_merge (this other : ElementProps) : ElementProps :=
  mkEProps (merge_hash (ep_attributes this) (ep_attributes other))
           (merge_hash (ep_htmlProps this) (ep_htmlProps other))
           (ep_eventListeners this ++ ep_eventListeners other).

Definition _merge (other : ElementProps) (v : VirtualElement) : VirtualElement :=
  set_v_eprops (eprops_merge (v_eprops v) other) v.

Definition hasInnerHTML (v : VirtualElement) : bool := bool_decide (v_innerHTMLString v ≠ None).

(** ** Capture phase *)

Inductive Mode := TOP_LEVEL_ELEMENT | NO_MODE.

Definition _getInternalComponentData (comp : nat) : M InternalComponentData :=
  c <- getComp comp;;
  match c_internal c with
  | Some d => ret d
  | None =>
      modComp comp (set_c_internal (Some new_InternalComponentData));;
      ret new_InternalComponentData
  end.

Definition _isOfSameType (comp : Component) (vc : VirtualElement) : bool :=
  (_isElementComponent comp && bool_decide (v_kind vc = VirtualHTMLElement))
  || (bool_decide (v_kind vc = VirtualComponent)
      && bool_decide (c_class comp = v_ComponentClass vc))
  || (_isTextNodeComponent comp && bool_decide (v_kind vc = VirtualTextNode)).

Definition _link (comp vc : nat) : M unit :=
  modVel vc (set_v_comp (Some comp));;
  state_set MAPPED (OVel vc) VTrue;;
  state_set MAPPED (OComp comp) VTrue;;
  state_set LINKED (OVel vc) VTrue;;
  state_set LINKED (OComp comp) VTrue.

Definition _reject (comp : option nat) (vc : nat) : M unit :=
  modVel vc (set_v_comp None);;
  state_set MAPPED (OVel vc) VTrue;;
  match comp with
  | Some c => state_set MAPPED (OComp c) VTrue
  | None => ret tt
  end.

Definition _isMapped (comp vc : nat) : M bool :=
  vcIsMapped <- state_is MAPPED (OVel vc);;
  compIsMapped <- state_is MAPPED (OComp comp);;
  ret (vcIsMapped || compIsMapped).

Definition _isLinked (comp vc : nat) : M bool :=
  compIsLinked <- state_is LINKED (OComp comp);;
  vcIsLinked <- state_is LINKED (OVel vc);;
  v <- getVel vc;;
  if bool_decide (v_comp v = Some comp) then
    when (negb vcIsLinked) (state_set LINKED (OVel vc) VTrue);;
    when (negb compIsLinked) (state_set LINKED (OVel vc) VTrue);;
    ret true
  else ret false.

Definition _linkComponent (comp : option nat) (vc : nat) : M unit :=
  match comp with
  | None => _reject None vc
  | Some c =>
      mapped <- _isMapped c vc;;
      if mapped then ret tt else
      linked <- _isLinked c vc;;
      if linked then ret tt else
      cr <- getComp c;;
      v <- getVel vc;;
      if _isOfSameType cr v then _link c vc else _reject (Some c) vc
  end.

(** The [while (parent && parent._isElementComponent)] loop of
    [_propagateLinking]. *)
Fixpoint skipElementComponents (fuel : nat) (parent : option nat) : M (option nat) :=
  match parent with
  | None => ret None
  | Some p =>
      pc <- getComp p;;
      if _isElementComponent pc then
        match fuel with
        | 0 => throw OutOfFuel
        | S fuel' => skipElementComponents fuel' (c_parent pc)
        end
      else ret (Some p)
  end.

Fixpoint _propagateLinking (fuel : nat) (comp vel : option nat) (stopIfMapped : bool) : M bool :=
  match fuel with
  | 0 => throw OutOfFuel
  | S fuel' =>
      match vel, comp with
      | None, _ => ret false
      | _, None => ret false
      | Some vel, Some comp =>
          stop <- (if stopIfMapped then _isMapped comp vel else ret false);;
          if stop then _isLinked comp vel else
          v <- getVel vel;;
          c <- getComp comp;;
          proceed <- (if bool_decide (v_kind v ≠ VirtualComponent) then
                        if negb (_isOfSameType c v)
                        then _reject (Some comp) vel;; ret false
                        else _link comp vel;; ret true
                      else ret true);;
          if negb proceed then ret false else
          canLinkParent <-
            match v_parent v with
            | Some vp => _propagateLinking fuel' (c_parent c) (Some vp) true
            | None =>
                match v_preliminaryParent v with
                | Some pp =>
                    parent <- skipElementComponents fuel' (c_parent c);;
                    _propagateLinking fuel' parent (Some pp) true
                | None => ret false
                end
            end;;
          when (bool_decide (v_kind v = VirtualComponent) && negb canLinkParent)
               (state_set RELOCATED (OVel vel) VTrue;;
                state_set RELOCATED (OComp comp) VTrue);;
          ret canLinkParent
      end
  end.

(** The [while (parent)] loop of [_getVirtualComponentTrace]: tag names of the
    enclosing elements up to [root], outermost first. *)
Fixpoint trace_up (fuel : nat) (parent : option nat) (root : nat) (frags : list string)
  : M (list string) :=
  match parent with
  | None => ret frags
  | Some p =>
      if decide (p = root) then ret frags else
      match fuel with
      | 0 => throw OutOfFuel
      | S fuel' =>
          pv <- getVel p;;
          trace_up fuel' (v_parent pv) root (v_tagName pv :: frags)
      end
  end.

Fixpoint join (sep : string) (frags : list string) : string :=
  match frags with
  | [] => ""
  | [f] => f
  | f :: rest => f +:+ sep +:+ join sep rest
  end.

Definition _getVirtualComponentTrace (fuel : nat) (vc root : nat) : M string :=
  v <- getVel vc;;
  frags <- (if v_isForwarded v then ret [Class_name (v_ComponentClass v)]
            else trace_up fuel (v_parent v) root [Class_name (v_ComponentClass v)]);;
  ret (join "/" frags).

Fixpoint _extractInternalRefs_loop (fuel : nat) (components : list nat) (root : nat)
    (idCounts : list (string * nat)) (refs : RefMap) : M RefMap :=
  match components with
  | [] => ret refs
  | vc :: rest =>
      v <- getVel vc;;
      match v_ref v with
      | Some _ => _extractInternalRefs_loop fuel rest root idCounts refs
      | None =>
          ref <- _getVirtualComponentTrace fuel vc root;;
          match Map_get ref idCounts with
          | Some n =>
              let count := n + 1 in
              _extractInternalRefs_loop fuel rest root (Map_set ref count idCounts)
                (Map_set (ref +:+ "@" +:+ pretty count) vc refs)
          | None =>
              _extractInternalRefs_loop fuel rest root (Map_set ref 1 idCounts)
                (Map_set ref vc refs)
          end
      end
  end.

Definition _extractInternalRefs (fuel : nat) (context : Context) (root : nat) : M RefMap :=
  _extractInternalRefs_loop fuel (ctx_components context) root [] [].

(** [_addEntries]: one entry per new reference, with the instance the old map
    holds under the same reference (if any). *)
Definition _addEntries (vels : gmap nat VirtualElement) (_newRefs _oldRefs : RefMap)
  : list (nat * option nat) :=
  (λ e, (e.2, match Map_get e.1 _oldRefs with
              | Some oldVc => v_comp (vels !!! oldVc)
              | None => None
              end)) <$> _newRefs.

Definition _forEachComponent (fuel : nat) (comp vc : nat) (hook : option nat → nat → M unit)
  : M unit :=
  v <- getVel vc;;
  match v_components v with
  | Some _ => ret tt
  | None =>
      context <- deref (v_context v);;
      ctx <- getCtx context;;
      newInternalRefs <-
        match ctx_internalRefs ctx with
        | Some r => ret r
        | None =>
            r <- _extractInternalRefs fuel ctx vc;;
            modCtx context (set_ctx_internalRefs (Some r));;
            ret r
        end;;
      compData <- _getInternalComponentData comp;;
      m <- getMachine;;
      modVel vc (set_v_components (Some (
        _addEntries (m_vels m) (ctx_refs ctx) (icd_refs compData)
        ++ _addEntries (m_vels m) (ctx_foreignRefs ctx) (icd_foreignRefs compData)
        ++ _addEntries (m_vels m) newInternalRefs (default [] (icd_internalRefs compData)))))
  end;;
  v <- getVel vc;;
  forM_ (default [] (v_components v)) (λ entry, hook entry.2 entry.1).

Fixpoint _create `{Collaborators} (fuel : nat) (vel : nat) : M nat :=
  match fuel with
  | 0 => throw OutOfFuel
  | S fuel' =>
      v <- getVel vel;;
      vp <- deref (v_parent v);;
      pv <- getVel vp;;
      parent <- match v_comp pv with
                | Some p => ret p
                | None => _create fuel' vp
                end;;
      comp <- match v_kind v with
              | VirtualComponent =>
                  comp <- createComponent (v_ComponentClass v) parent (v_props v);;
                  c <- getComp comp;;
                  modVel vel (set_v_props (c_props c));;
                  match v_forwardedEl v with
                  | Some forwardedEl =>
                      fv <- getVel forwardedEl;;
                      forwardedComp <- createComponent (v_ComponentClass fv) comp (v_props fv);;
                      fc <- getComp forwardedComp;;
                      modVel forwardedEl (set_v_props (c_props fc));;
                      modComp comp (set_c_forwardedComp (Some forwardedComp))
                  | None => ret tt
                  end;;
                  ret comp
              | VirtualHTMLElement => createElementComponent parent vel
              | VirtualTextNode => createTextNodeComponent parent vel
              end;;
      match v_ref v with
      | Some r => modComp comp (set_c_ref (Some r))
      | None => ret tt
      end;;
      match v_owner v with
      | Some o => ov <- getVel o;; modComp comp (set_c_owner (v_comp ov))
      | None => ret tt
      end;;
      modVel vel (set_v_comp (Some comp));;
      ret comp
  end.

(** [try { state.pushContext(context); content = comp.render(context.$$) }
     finally { state.popContext() }] *)
Definition render_content `{Collaborators} (comp context : nat) : M Content :=
  try_finally (state_pushContext context;; render comp context) state_popContext.

Fixpoint _capture `{Collaborators} (fuel : nat) (vel : nat) (mode : Mode) : M nat :=
  match fuel with
  | 0 => throw OutOfFuel
  | S fuel' =>
      captured <- state_is CAPTURED (OVel vel);;
      if captured then ret vel else
      v <- getVel vel;;
      comp <- match v_comp v with
              | Some c => ret c
              | None => c <- _create fuel' vel;; state_set NEW (OVel vel) VTrue;; ret c
              end;;
      match v_kind v with
      | VirtualComponent =>
          needRerender <-
            match mode with
            | TOP_LEVEL_ELEMENT =>
                state_set MAPPED (OVel vel) VTrue;;
                state_set MAPPED (OComp comp) VTrue;;
                state_set LINKED (OVel vel) VTrue;;
                state_set LINKED (OComp comp) VTrue;;
                compData <- _getInternalComponentData comp;;
                modVel vel (set_v_elementProps (icd_elementProps compData));;
                ret true
            | NO_MODE =>
                c <- getComp comp;;
                v <- getVel vel;;
                let needRerender :=
                  bool_decide (c_el c = None) || comp_shouldRerender c (v_props v) (c_state c) in
                modVel vel (λ v, set_v_eprops no_eprops (set_v_elementProps (Some (v_eprops v)) v));;
                state_set OLDPROPS (OVel vel) (VData (c_props c));;
                state_set OLDSTATE (OVel vel) (VData (c_state c));;
                _setProps comp (v_props v);;
                isNew <- state_is NEW (OVel vel);;
                when (negb isNew) (state_set UPDATED (OVel vel) VTrue);;
                ret needRerender
            end;;
          if needRerender then
            context <- newContext vel;;
            content <- render_content comp context;;
            match content with
            | CNil => throw EmptyRenderResult
            | CComponent content =>
                modVel vel (λ v, set_v_children [content]
                                   (set_v_isForwarding true (set_v_forwardedEl (Some content) v)));;
                modVel content (λ c, set_v_parent (Some vel) (set_v_isForwarded true c));;
                cv <- getVel content;;
                modVel vel (set_v_context (v_context cv))
            | CElement content =>
                cv <- getVel content;;
                modVel vel (λ v, _merge (v_eprops cv) (set_v_tagName (v_tagName cv) v));;
                (if hasInnerHTML cv then
                   modVel vel (λ v, set_v_children []
                                      (set_v_innerHTMLString (v_innerHTMLString cv) v))
                 else
                   modVel vel (set_v_children (v_children cv));;
                   forM_ (v_children cv) (λ child, modVel child (set_v_parent (Some vel))));;
                modVel vel (set_v_context (v_context cv))
            | COther => throw InvalidRenderResult
            end;;
            v <- getVel vel;;
            match v_elementProps v with
            | Some elementProps =>
                modVel vel (_merge elementProps);;
                if v_isForwarding v then
                  v' <- getVel vel;;
                  forwardedEl <- deref (v_forwardedEl v');;
                  modVel forwardedEl (_merge (v_eprops v'))
                else ret tt
            | None => ret tt
            end;;
            isNew <- state_is NEW (OVel vel);;
            c <- getComp comp;;
            when (negb isNew && c_mounted c) (state_set UPDATED (OVel vel) VTrue);;
            _forEachComponent fuel' comp vel _linkComponent;;
            v <- getVel vel;;
            match v_forwardedEl v with
            | Some forwardedEl => _capture fuel' forwardedEl NO_MODE;; ret tt
            | None => forM_ (v_children v) (λ child, _capture fuel' child NO_MODE;; ret tt)
            end;;
            _forEachComponent fuel' comp vel
              (λ comp vel, _propagateLinking fuel' comp (Some vel) false;; ret tt)
          else
            state_set SKIPPED (OVel vel) VTrue
      | VirtualHTMLElement =>
          forM_ (v_children v) (λ child, _capture fuel' child NO_MODE;; ret tt)
      | VirtualTextNode => ret tt
      end;;
      state_set CAPTURED (OVel vel) VTrue;;
      ret vel
  end.

(** ** Update phase *)

Fixpoint mapM {A B} (f : A → M B) (l : list A) : M (list B) :=
  match l with
  | [] => ret []
  | x :: l' => y <- f x;; ys <- mapM f l';; ret (y :: ys)
  end.

(** [comp.el] where an element is required. *)
Definition el_of (comp : nat) : M nat :=
  c <- getComp comp;; deref (c_el c).

Definition _triggerDidMount (parent child : nat) : M unit :=
  detached <- state_is DETACHED (OComp child);;
  p <- getComp parent;;
  c <- getComp child;;
  when (negb detached && c_mounted p && negb (c_mounted c)) (triggerDidMount child).

Definition _appendChild (parent child : nat) : M unit :=
  pel <- el_of parent;;
  cel <- el_of child;;
  appendChild pel cel;;
  _triggerDidMount parent child.

Definition _replaceChild (parent oldChild newChild : nat) : M unit :=
  pel <- el_of parent;;
  oel <- el_of oldChild;;
  nel <- el_of newChild;;
  replaceChild pel oel nel;;
  detached <- state_is DETACHED (OComp oldChild);;
  when (negb detached) (triggerDispose oldChild);;
  _triggerDidMount parent newChild.

Definition _insertChildBefore (parent child before : nat) : M unit :=
  pel <- el_of parent;;
  cel <- el_of child;;
  bel <- el_of before;;
  insertBefore pel cel bel;;
  _triggerDidMount parent child.

Definition _removeChild (parent child : nat) : M unit :=
  pel <- el_of parent;;
  cel <- el_of child;;
  removeChild pel cel;;
  detached <- state_is DETACHED (OComp child);;
  when (negb detached) (triggerDispose child).

Definition _hashGet (hash : Hash) (key : string) : option string := Map_get key hash.

Definition _updateHash (newHash oldHash : option Hash)
    (update : string → string → M unit) (remove : string → M unit) : M unit :=
  match newHash, oldHash with
  | None, None => ret tt
  | _, _ =>
      let newHash := default [] newHash in
      let oldHash := default [] oldHash in
      forM_ (Map_keys newHash) (λ key,
        let oldVal := _hashGet oldHash key in
        let newVal := _hashGet newHash key in
        if bool_decide (oldVal ≠ newVal) then update key (default "" newVal) else ret tt);;
      forM_ (Map_keys oldHash) (λ key,
        if bool_decide (key ∈ Map_keys newHash) then ret tt else remove key)
  end.

Definition _updateListeners (el : nat) (newListeners : list Listener) : M unit :=
  removeAllEventListeners el;;
  forM_ newListeners (addEventListener el).

Definition _updateDOMElement (el vel : nat) : M unit :=
  v <- getVel vel;;
  n <- getNode el;;
  match v_kind v with
  | VirtualTextNode =>
      if bool_decide (n_textContent n ≠ v_text v) then setTextContent el (v_text v) else ret tt
  | _ =>
      when (bool_decide (toLowerCase (v_tagName v) ≠ getTagName n)) (setTagName el (v_tagName v));;
      _updateHash (Some (ep_attributes (v_eprops v))) (Some (n_attributes n))
                  (setAttribute el) (removeAttribute el);;
      _updateHash (Some (ep_htmlProps (v_eprops v))) (Some (n_htmlProps n))
                  (setProperty el) (removeProperty el);;
      _updateListeners el (ep_eventListeners (v_eprops v));;
      match v_innerHTMLString v with
      | Some newInnerHTML =>
          (if negb (n_hasInnerHTML n) then
             empty el;; setInnerHTML el newInnerHTML
           else if bool_decide (n_innerHTML n ≠ newInnerHTML) then setInnerHTML el newInnerHTML
           else ret tt);;
          modNode el (set_n_hasInnerHTML true)
      | None => ret tt
      end
  end.

Definition _createDOMElement (vel : nat) : M nat :=
  v <- getVel vel;;
  el <- match v_kind v with
        | VirtualTextNode => createTextNode (v_text v)
        | _ => createElement (v_tagName v)
        end;;
  match v_comp v with
  | Some c => modNode el (set_n_comp (Some c))
  | None => ret tt
  end;;
  _updateDOMElement el vel;;
  ret el.

Fixpoint _findForwardingChild_loop (fuel : nat) (comp : nat) (current : option nat)
  : M (option nat) :=
  match current with
  | None => ret None
  | Some cur =>
      cc <- getComp cur;;
      if bool_decide (c_parent cc = Some comp) then ret (Some cur) else
      match fuel with
      | 0 => throw OutOfFuel
      | S fuel' => _findForwardingChild_loop fuel' comp (c_parent cc)
      end
  end.

Definition _findForwardingChildOfComponent (fuel : nat) (comp forwarded : nat) : M (option nat) :=
  fc <- getComp forwarded;;
  _findForwardingChild_loop fuel comp (c_parent fc).

Definition _storeInternalData (comp vc : nat) : M unit :=
  v <- getVel vc;;
  _getInternalComponentData comp;;
  context <- deref (v_context v);;
  ctx <- getCtx context;;
  m <- getMachine;;
  modComp comp (λ c,
    set_c_refs (omap (λ e, (λ c, (e.1, c)) <$> v_comp (m_vels m !!! e.2)) (ctx_refs ctx))
      (set_c_internal (Some (mkICD (ctx_refs ctx) (ctx_foreignRefs ctx) (ctx_internalRefs ctx)
                                   (v_elementProps v))) c)).

(** The old child sequence of [_update]: the instances behind the child nodes
    of [el], after the nodes without instance and the nodes of relocated
    instances have been removed. *)
Definition _oldChildren `{Collaborators} (fuel : nat) (comp el : nat) : M (list nat) :=
  n <- getNode el;;
  l <- mapM (λ child,
         cn <- getNode child;;
         match n_comp cn with
         | None => removeChild el child;; ret None
         | Some childComp =>
             m <- getMachine;;
             childComp <- (if comp_isForwarded m childComp
                           then _findForwardingChildOfComponent fuel comp childComp
                           else ret (Some childComp));;
             match childComp with
             | None => removeChild el child;; ret None
             | Some cc =>
                 relocated <- state_is RELOCATED (OComp cc);;
                 if relocated then removeChild el child;; ret None else ret (Some cc)
             end
         end) (n_childNodes n);;
  ret (omap id l).

(** [do { oldComp = oldChildren[pos1++] } while (oldComp && state.is(DETACHED,
    oldComp))], on the part of [oldChildren] from [pos1] on. *)
Fixpoint skip_detached (rest : list nat) (pos1 : nat) : M (option nat * nat) :=
  match rest with
  | [] => ret (None, S pos1)
  | oldComp :: rest' =>
      detached <- state_is DETACHED (OComp oldComp);;
      if detached then skip_detached rest' (S pos1) else ret (Some oldComp, S pos1)
  end.

Fixpoint _update `{Collaborators} (fuel : nat) (vel : nat) : M unit :=
  match fuel with
  | 0 => throw OutOfFuel
  | S fuel' =>
      skipped <- state_is SKIPPED (OVel vel);;
      if skipped then ret tt else
      v <- getVel vel;;
      let comp := v_comp v in
      when (bool_decide (comp = None) && bool_decide (v_ref v ≠ None)
            && bool_decide (v_preliminaryParent v ≠ v_owner v))
           (_capture fuel' vel NO_MODE;; ret tt);;
      v <- getVel vel;;
      (if v_isForwarding v then
         forwardedEl <- deref (v_forwardedEl v);;
         _update fuel' forwardedEl
       else
         comp <- deref comp;;
         c <- getComp comp;;
         el <- match c_el c with
               | None => el <- _createDOMElement vel;; modComp comp (set_c_el (Some el));; ret el
               | Some el => _updateDOMElement el vel;; ret el
               end;;
         if (bool_decide (v_kind v = VirtualComponent) || bool_decide (v_kind v = VirtualHTMLElement))
            && negb (hasInnerHTML v)
         then
           oldChildren <- _oldChildren fuel' comp el;;
           _update_loop fuel' comp oldChildren (v_children v) 0 0
         else ret tt);;
      (if bool_decide (v_kind v = VirtualComponent) then
         comp <- deref comp;;
         _storeInternalData comp vel;;
         match v_forwardedEl v with
         | Some forwardedEl =>
             fv <- getVel forwardedEl;;
             let forwardedComp := v_comp fv in
             c <- getComp comp;;
             match c_el c with
             | None =>
                 fc <- deref forwardedComp;;
                 fcr <- getComp fc;;
                 modComp comp (set_c_el (c_el fcr))
             | Some el =>
                 n <- getNode el;;
                 let oldForwardedComp := n_comp n in
                 if bool_decide (oldForwardedComp ≠ forwardedComp) then
                   ofc <- deref oldForwardedComp;;
                   triggerDispose ofc;;
                   parentNode <- deref (n_parentNode n);;
                   fc <- deref forwardedComp;;
                   fcr <- getComp fc;;
                   fel <- deref (c_el fcr);;
                   replaceChild parentNode el fel;;
                   modComp comp (set_c_el (Some fel));;
                   triggerDidMount fc
                 else ret tt
             end
         | None => ret tt
         end
       else ret tt);;
      state_set RENDERED (OVel vel) VTrue;;
      comp <- deref comp;;
      state_set RENDERED (OComp comp) VTrue
  end

(** The dual-cursor merge: [while (pos1 < oldChildren.length || pos2 <
    newChildren.length)]. *)
with _update_loop `{Collaborators} (fuel : nat) (comp : nat) (oldChildren newChildren : list nat)
    (pos1 pos2 : nat) : M unit :=
  match fuel with
  | 0 => throw OutOfFuel
  | S fuel' =>
      if negb ((pos1 <? length oldChildren) || (pos2 <? length newChildren)) then ret tt else
      r <- skip_detached (drop pos1 oldChildren) pos1;;
      let oldComp := r.1 in
      let pos1 := r.2 in
      let newVel := newChildren !! pos2 in
      let pos2 := S pos2 in
      match oldComp, newVel with
      | Some oc, None =>
          (* remove remaining old ones if no new one is left *)
          forM_ (oc :: drop pos1 oldChildren) (_removeChild comp)
      | _, _ =>
          reuseText <-
            match oldComp, newVel with
            | Some oc, Some nv =>
                oel <- el_of oc;;
                on <- getNode oel;;
                nvr <- getVel nv;;
                ret (isTextNode on && bool_decide (v_kind nvr = VirtualTextNode)
                     && bool_decide (n_textContent on = v_text nvr))
            | _, _ => ret false
            end;;
          if reuseText then _update_loop fuel' comp oldChildren newChildren pos1 pos2 else
          linkOnTheFly <-
            match oldComp, newVel with
            | Some oc, Some nv =>
                occ <- getComp oc;;
                nvr <- getVel nv;;
                if _isElementComponent occ && bool_decide (v_kind nvr = VirtualHTMLElement) then
                  mappedOld <- state_is MAPPED (OComp oc);;
                  if mappedOld then ret false else
                  mappedNew <- state_is MAPPED (OVel nv);;
                  if mappedNew then ret false else
                  oel <- el_of oc;;
                  on <- getNode oel;;
                  ret (bool_decide (getTagName on = v_tagName nvr))
                else ret false
            | _, _ => ret false
            end;;
          match linkOnTheFly, oldComp, newVel with
          | true, Some oc, Some nv =>
              modVel nv (set_v_comp (Some oc));;
              state_set LINKED (OVel nv) VTrue;;
              state_set LINKED (OComp oc) VTrue;;
              _update fuel' nv;;
              _update_loop fuel' comp oldChildren newChildren pos1 pos2
          | _, _, _ =>
              rendered <- state_is_vel RENDERED newVel;;
              nv <- deref newVel;;
              when (negb rendered) (_update fuel' nv);;
              nvr <- getVel nv;;
              newComp <- deref (v_comp nvr);;
              if bool_decide (Some newComp = oldComp)
              then _update_loop fuel' comp oldChildren newChildren pos1 pos2 else
              relocated <- state_is RELOCATED (OComp newComp);;
              when relocated (_setParent newComp comp);;
              match oldComp with
              | None =>
                  (* append remaining new ones if no old one is left *)
                  _appendChild comp newComp;;
                  _update_loop fuel' comp oldChildren newChildren pos1 pos2
              | Some oc =>
                  linkedNew <- state_is LINKED (OVel nv);;
                  linkedOld <- state_is LINKED (OComp oc);;
                  if linkedNew then
                    (if linkedOld then
                       (* the order of elements with ref has changed *)
                       state_set DETACHED (OComp oc) VTrue;;
                       _removeChild comp oc
                     else
                       (* the old one could not be mapped, thus can be removed *)
                       _removeChild comp oc);;
                    _update_loop fuel' comp oldChildren newChildren pos1 (pos2 - 1)
                  else if linkedOld then
                    _insertChildBefore comp newComp oc;;
                    _update_loop fuel' comp oldChildren newChildren (pos1 - 1) pos2
                  else
                    _replaceChild comp oc newComp;;
                    _update_loop fuel' comp oldChildren newChildren pos1 pos2
              end
          end
      end
  end.

(** ** Adoption *)

Fixpoint _getForwardedEl (fuel : nat) (vel : nat) : M nat :=
  v <- getVel vel;;
  if v_isForwarding v then
    match fuel with
    | 0 => throw OutOfFuel
    | S fuel' => forwardedEl <- deref (v_forwardedEl v);; _getForwardedEl fuel' forwardedEl
    end
  else ret vel.

(** The [while (parent && parent._isForwarding)] loop of
    [_propagateForwardedEl]. *)
Fixpoint _propagateForwardedEl_loop (fuel : nat) (parent : option nat) (el : nat) : M unit :=
  match parent with
  | None => ret tt
  | Some p =>
      pv <- getVel p;;
      if v_isForwarding pv then
        pc <- deref (v_comp pv);;
        modComp pc (set_c_el (Some el));;
        match fuel with
        | 0 => throw OutOfFuel
        | S fuel' => _propagateForwardedEl_loop fuel' (v_parent pv) el
        end
      else ret tt
  end.

Definition _propagateForwardedEl (fuel : nat) (vel el : nat) : M unit :=
  v <- getVel vel;;
  if v_isForwarded v then _propagateForwardedEl_loop fuel (v_parent v) el else ret tt.

Definition isStructural (v : VirtualElement) : bool :=
  bool_decide (v_kind v = VirtualComponent) || bool_decide (v_kind v = VirtualHTMLElement).

Fixpoint _createEl (fuel : nat) (vel : nat) : M nat :=
  match fuel with
  | 0 => throw OutOfFuel
  | S fuel' =>
      el <- _createDOMElement vel;;
      v <- getVel vel;;
      comp <- deref (v_comp v);;
      modComp comp (set_c_el (Some el));;
      _propagateForwardedEl fuel' vel el;;
      (if isStructural v then
         forM_ (v_children v) (λ vc, cel <- _createEl fuel' vc;; appendChild el cel)
       else ret tt);;
      ret el
  end.

Fixpoint _adopt (fuel : nat) (vel el : nat) : M unit :=
  match fuel with
  | 0 => throw OutOfFuel
  | S fuel' =>
      v <- getVel vel;;
      n <- getNode el;;
      if isStructural v && negb (isElementNode n) then throw IncompatibleElement else
      comp <- deref (v_comp v);;
      modComp comp (set_c_el (Some el));;
      _updateDOMElement el vel;;
      _propagateForwardedEl fuel' vel el;;
      if isStructural v then
        n <- getNode el;;
        _adopt_loop fuel' el (n_childNodes n) (v_children v)
      else ret tt
  end

(** The lockstep walk of [_adopt] over what is left of [existingChildNodes]
    (from [pos1]) and of [virtualChildNodes] (from [pos2]). *)
with _adopt_loop (fuel : nat) (el : nat) (existingChildNodes virtualChildNodes : list nat)
  : M unit :=
  match fuel with
  | 0 => throw OutOfFuel
  | S fuel' =>
      match virtualChildNodes, existingChildNodes with
      | [], [] => ret tt
      | [], _ =>
          (* remove all remaining DOM nodes *)
          forM_ existingChildNodes remove
      | _, [] =>
          forM_ virtualChildNodes (λ child2, cel <- _createEl fuel' child2;; appendChild el cel)
      | child2 :: virtualRest, child1 :: existingRest =>
          (* continue with the forwarded element *)
          child2 <- _getForwardedEl fuel' child2;;
          c1 <- getNode child1;;
          c2 <- getVel child2;;
          if (isElementNode c1 && isStructural c2)
             || (isTextNode c1 && bool_decide (v_kind c2 = VirtualTextNode))
          then
            _adopt fuel' child2 child1;;
            _adopt_loop fuel' el existingRest virtualRest
          else
            (* remove incompatible DOM elements *)
            remove child1;;
            _adopt_loop fuel' el existingRest virtualChildNodes
      end
  end.

(** ** Notification traversal and entry point *)

Fixpoint _triggerDidUpdate (fuel : nat) (vel : nat) : M unit :=
  match fuel with
  | 0 => throw OutOfFuel
  | S fuel' =>
      v <- getVel vel;;
      match v_kind v with
      | VirtualComponent =>
          skipped <- state_is SKIPPED (OVel vel);;
          when (negb skipped) (forM_ (v_children v) (_triggerDidUpdate fuel'));;
          updated <- state_is UPDATED (OVel vel);;
          if updated then
            comp <- deref (v_comp v);;
            oldProps <- state_get OLDPROPS (OVel vel);;
            oldState <- state_get OLDSTATE (OVel vel);;
            didUpdate comp oldProps oldState
          else ret tt
      | VirtualHTMLElement => forM_ (v_children v) (_triggerDidUpdate fuel')
      | VirtualTextNode => ret tt
      end
  end.

Definition _createWrappingVirtualComponent (comp : nat) : M nat :=
  c <- getComp comp;;
  vel <- alloc;;
  modVel vel (λ _, mkVel VirtualComponent (Some comp) None [] None (c_class c) [] "" ""
                         no_eprops None None false false None None None None None);;
  ret vel.

(** The [try] block of [_render]. *)
Definition _render_try `{Collaborators} (fuel : nat) (vel comp : nat) (adoptElement : bool)
  : M unit :=
  _capture fuel vel TOP_LEVEL_ELEMENT;;
  if adoptElement then
    vel <- _getForwardedEl fuel vel;;
    el <- el_of comp;;
    _adopt fuel vel el
  else
    _update fuel vel;;
    _triggerDidUpdate fuel vel.

(** [RenderingEngine._render(comp, oldProps, oldState, options)]; [id] is the
    identifier ['__' + uuid()] drawn for the state of this pass. *)
Definition _render `{Collaborators} (fuel : nat) (id : nat) (comp : nat)
    (oldProps oldState : option Props) (adoptElement : bool) : M unit :=
  vel <- _createWrappingVirtualComponent comp;;
  _createState id;;
  match oldProps with
  | Some p => state_set OLDPROPS (OVel vel) (VData p)
  | None => ret tt
  end;;
  match oldState with
  | Some s => state_set OLDSTATE (OVel vel) (VData s)
  | None => ret tt
  end;;
  try_finally (_render_try fuel vel comp adoptElement) state_dispose.

(** ** A concrete host for running the engine

    Modelled from the spec: the descriptor builder [$$] and the bookkeeping of
    [VirtualElement.Context] ([VirtualElement] is not under src).  "A
    descriptor-builder entry point usable as a generic tree-construction
    primitive, accepting a tag-or-class, a property bag, and child arguments";
    the context of a render call records the components declared in it
    ([components]) and the explicit references ([refs]).  A render routine is
    given as a pure function from class, props and state to a tree. *)

#[warnings="-register-all"]
Inductive VTree :=
  | TText (text : string)
  | TElem (tagName : string) (attributes : Hash) (listeners : list Listener) (children : list VTree)
  | THtml (tagName : string) (innerHTML : string)
  | TComp (cls : string) (props : Props) (ref : option string).

Inductive RenderSpec := RsNil | RsOther | RsTree (t : VTree).

Abbreviation BState := (gmap nat VirtualElement * gmap nat Context * nat)%type.

Definition b_vel (ctx : nat) (owner : option nat) (kind : VKind) (cls : Class) (props : Props)
    (tagName text : string) (ep : ElementProps) (html : option string) (ref : option string)
    (children : list nat) : VirtualElement :=
  mkVel kind None None children ref cls props tagName text ep html
        None false false (Some ctx) None None owner None.

Fixpoint build (ctx : nat) (owner : option nat) (t : VTree) (s : BState) : nat * BState :=
  match t with
  | TText text =>
      let '(vels, ctxs, next) := s in
      (next, (<[next := b_vel ctx owner VirtualTextNode TextNodeComponent [] "" text
                              no_eprops None None []]> vels, ctxs, S next))
  | THtml tagName html =>
      let '(vels, ctxs, next) := s in
      (next, (<[next := b_vel ctx owner VirtualHTMLElement ElementComponent [] tagName ""
                              no_eprops (Some html) None []]> vels, ctxs, S next))
  | TComp cls props ref =>
      let '(vels, ctxs, next) := s in
      let c := ctxs !!! ctx in
      let c' := mkCtx (ctx_owner c)
                      (match ref with Some r => Map_set r next (ctx_refs c) | None => ctx_refs c end)
                      (ctx_foreignRefs c) (ctx_internalRefs c) (ctx_components c ++ [next]) in
      (next, (<[next := b_vel ctx owner VirtualComponent (UserClass cls) props "" ""
                              no_eprops None ref []]> vels, <[ctx := c']> ctxs, S next))
  | TElem tagName attributes listeners children =>
      let '(vels, ctxs, next) := s in
      let id := next in
      let '(ids, (vels, ctxs, next)) :=
        (fix build_list (l : list VTree) (s : BState) : list nat * BState :=
           match l with
           | [] => ([], s)
           | t :: l' =>
               let '(i, s1) := build ctx owner t s in
               let '(rest, s2) := build_list l' s1 in
               (i :: rest, s2)
           end) children (vels, ctxs, S next) in
      let vels := foldr (λ i vs, <[i := set_v_parent (Some id) (vs !!! i)]> vs) vels ids in
      (id, (<[id := b_vel ctx owner VirtualHTMLElement ElementComponent [] tagName ""
                          (mkEProps attributes [] listeners) None None ids]> vels, ctxs, next))
  end.

Definition host (table : Class → Props → Props → RenderSpec)
    (should : Class → Props → Props → bool) : Collaborators :=
  {| comp_render := λ m comp ctx,
       match table (c_class (m_comps m !!! comp)) (c_props (m_comps m !!! comp))
                   (c_state (m_comps m !!! comp)) with
       | RsNil => (Ret RNil, (m_vels m, m_ctxs m, m_next m))
       | RsOther => (Ret ROther, (m_vels m, m_ctxs m, m_next m))
       | RsTree t =>
           let '(root, s) := build ctx (ctx_owner (m_ctxs m !!! ctx)) t
                                   (m_vels m, m_ctxs m, m_next m) in
           (Ret (RVel root), s)
       end;
     comp_shouldRerender := λ c nextProps _, should (c_class c) (c_props c) nextProps;
     comp_initialState := λ _ _, [];
     comp_isForwarded := λ m c,
       match c_parent (m_comps m !!! c) with
       | Some p =>
           negb (_isElementComponent (m_comps m !!! p))
           && bool_decide (c_el (m_comps m !!! p) = c_el (m_comps m !!! c))
       | None => false
       end |}.

(** A root instance of class [cls], not yet rendered, in an otherwise empty
    store; [mount] attaches the root's node under a fresh document node and
    marks the root mounted, as the host does after the first pass. *)
Definition with_root (cls : string) (props : Props) : Machine :=
  set_m_next 1
    (set_m_comps {[ 0 := mkComp (UserClass cls) props [] None None None None None None [] false ]}
       empty_machine).

Definition mount (comp : nat) : M unit :=
  el <- el_of comp;;
  body <- createElement "body";;
  appendChild body el;;
  modComp comp (set_c_mounted true).

Definition run {A} (c : M A) (m : Machine) : Machine := (c m).2.
Definition new_events (m m' : Machine) : list Event := drop (length (m_log m)) (m_log m').

(** ** Predicates used by the statements *)

(** [state.is(key, obj)] as a function of the store. *)
Definition is_tagged (k : Key) (o : ObjRef) (m : Machine) : bool :=
  match m_tags m !! (m_stateId m, o) with
  | Some info => bool_decide (Info_get k info ≠ None)
  | None => false
  end.

(** [vc._comp] in store [m]. *)
Definition comp_of (m : Machine) (vc : nat) : option nat := v_comp (m_vels m !!! vc).

(** Every object tagged under the current state id is recorded in
    [polluted]: the invariant that makes [dispose] release every tag. *)
Definition TagsInv (m : Machine) : Prop :=
  ∀ o, is_Some (m_tags m !! (m_stateId m, o)) → o ∈ m_polluted m.

(** What a step of the engine may do to the tags: the state id is kept, tags
    stored under other ids are untouched, [TagsInv] is preserved, and a tag
    that is set stays set. *)
Definition TagsFrame (m m' : Machine) : Prop :=
  m_stateId m' = m_stateId m
  ∧ (∀ i o, i ≠ m_stateId m → m_tags m' !! (i, o) = m_tags m !! (i, o))
  ∧ (TagsInv m → TagsInv m')
  ∧ (∀ k o, is_tagged k o m = true → is_tagged k o m' = true).

Definition is_nil_render (ev : Event) : Prop := ∃ c, ev = EvRender c ShNil.
Definition is_other_render (ev : Event) : Prop := ∃ c, ev = EvRender c ShOther.

(** Events other than the update, mount and dispose notifications. *)
Definition quiet (ev : Event) : Prop :=
  match ev with
  | EvDidUpdate _ _ _ | EvTriggerDidMount _ | EvTriggerDispose _ => False
  | _ => True
  end.

(** [sound A c]: whatever the store, running [c] appends events that all
    satisfy [A], respects [TagsFrame], and ends by raising
    [EmptyRenderResult] (resp. [InvalidRenderResult]) as soon as a render
    routine has returned a falsy value (resp. a value that is neither a
    component nor an element descriptor). *)
Definition sound (A : Event → Prop) {X} (c : M X) : Prop :=
  ∀ m, ∃ evs,
    m_log (c m).2 = m_log m ++ evs
    ∧ Forall A evs
    ∧ TagsFrame m (c m).2
    ∧ (Exists is_nil_render evs → (c m).1 = Throw EmptyRenderResult)
    ∧ (Exists is_other_render evs → (c m).1 = Throw InvalidRenderResult).

(** [silent c]: [c] neither logs nor touches the tags. *)
Definition silent {X} (c : M X) : Prop :=
  ∀ m, m_log (c m).2 = m_log m ∧ m_tags (c m).2 = m_tags m
       ∧ m_polluted (c m).2 = m_polluted m ∧ m_stateId (c m).2 = m_stateId m.

(** [total c]: [c] never raises. *)
Definition total {X} (c : M X) : Prop := ∀ m, ∃ a, (c m).1 = Ret a.

(** *** C1 as it is written

    [link_conditions]: the previous pass's map holds an instance under the
    reference ([comp] is that instance), neither the descriptor nor the
    instance is mapped or rejected yet in this pass, and the types agree.
    [C1_as_stated]: the descriptor is linked to the prior instance exactly
    under these conditions, and is otherwise marked rejected with no prior
    instance. *)
Definition link_conditions (m : Machine) (comp : option nat) (vc : nat) : Prop :=
  ∃ c, comp = Some c
       ∧ is_tagged MAPPED (OVel vc) m = false
       ∧ is_tagged MAPPED (OComp c) m = false
       ∧ _isOfSameType (m_comps m !!! c) (m_vels m !!! vc) = true.

Definition C1_as_stated (m : Machine) (comp : option nat) (vc : nat) : Prop :=
  let m' := (_linkComponent comp vc m).2 in
  (link_conditions m comp vc → comp_of m' vc = comp)
  ∧ (¬ link_conditions m comp vc →
     comp_of m' vc = None ∧ is_tagged MAPPED (OVel vc) m' = true).

(** A store with one instance [0] of class [Foo] and one fresh descriptor [1]
    of the same class. *)
Definition m_link0 : Machine :=
  set_m_stateId 7
    (set_m_vels {[ 1 := b_vel 0 None VirtualComponent (UserClass "Foo") [] "" "" no_eprops
                               None (Some "foo") [] ]}
       (with_root "Foo" [])).

(** The same store after the descriptor has been linked once. *)
Definition m_link1 : Machine := run (_linkComponent (Some 0) 1) m_link0.

(** A second fresh descriptor [2] of class [Foo], in a store where
    descriptor [1] has been linked to instance [0]. *)
Definition m_link2 : Machine :=
  run (_linkComponent (Some 0) 1)
    (set_m_vels (<[ 2 := b_vel 0 None VirtualComponent (UserClass "Foo") [] "" "" no_eprops
                                None (Some "bar") [] ]> (m_vels m_link0)) m_link0).

(** *** C2 as it is written

    Among the events [evs] of removing [child], the dispose notification of
    [child] occurs exactly once and no node has been removed or replaced
    before it. *)
Definition is_detach_op (ev : Event) : Prop :=
  match ev with
  | EvDom (RemoveChild _ _) | EvDom (ReplaceChild _ _ _) => True
  | _ => False
  end.

Definition dispose_before_detach (child : nat) (evs : list Event) : Prop :=
  ∃ pre post,
    evs = pre ++ EvTriggerDispose child :: post
    ∧ Forall (λ ev, ¬ is_detach_op ev) pre
    ∧ EvTriggerDispose child ∉ pre ++ post.

(** An instance [0] with node [10] and its child instance [1] with node [11],
    attached under [10]. *)
Definition m_remove0 : Machine :=
  set_m_next 12
    (set_m_nodes {[ 10 := mkNode ElementNode "div" "" [] [] [] [11] None (Some 0) false "";
                    11 := mkNode ElementNode "p" "" [] [] [] [] (Some 10) (Some 1) false "" ]}
       (set_m_comps {[ 0 := set_c_mounted true (set_c_el (Some 10) blank_comp);
                       1 := set_c_mounted true
                              (set_c_parent (Some 0) (set_c_el (Some 11) blank_comp)) ]}
          empty_machine)).

(** [state.get(key, obj)] as a function of the store. *)
Definition tag_value (k : Key) (o : ObjRef) (m : Machine) : option Val :=
  match m_tags m !! (m_stateId m, o) with
  | Some info => Info_get k info
  | None => None
  end.

(** [m'] differs from [m] in its log only. *)
Definition only_log (m m' : Machine) : Prop :=
  m_vels m' = m_vels m ∧ m_ctxs m' = m_ctxs m ∧ m_comps m' = m_comps m
  ∧ m_nodes m' = m_nodes m ∧ m_tags m' = m_tags m ∧ m_stateId m' = m_stateId m.

(** The update notification of the instance of descriptor [v], as
    [_triggerDidUpdate] fires it. *)
Definition didUpdate_of (m : Machine) (v : nat) (ev : Event) : Prop :=
  ∃ c, ev = EvDidUpdate c (tag_value OLDPROPS (OVel v) m) (tag_value OLDSTATE (OVel v) m)
       ∧ v_kind (m_vels m !!! v) = VirtualComponent
       ∧ is_tagged UPDATED (OVel v) m = true
       ∧ comp_of m v = Some c.

(** The descriptor tree under [vel] has height at most [h]. *)
Fixpoint height_le (vels : gmap nat VirtualElement) (h : nat) (vel : nat) : Prop :=
  match h with
  | 0 => v_children (vels !!! vel) = []
  | S h' => Forall (height_le vels h') (v_children (vels !!! vel))
  end.

(** The keys [_updateHash] sets, with their new values, and the keys it
    removes. *)
Definition hash_updates (newHash oldHash : Hash) : list (string * string) :=
  omap (λ key, if bool_decide (_hashGet oldHash key ≠ _hashGet newHash key)
               then Some (key, default "" (_hashGet newHash key)) else None)
       (Map_keys newHash).

Definition hash_removes (newHash oldHash : Hash) : list string :=
  filter (λ key, key ∉ Map_keys newHash) (Map_keys oldHash).

(** [m'] keeps the tags set in [m] and extends its log. *)
Definition grows (m m' : Machine) : Prop :=
  (∀ k o, is_tagged k o m = true → is_tagged k o m' = true)
  ∧ ∃ evs, m_log m' = m_log m ++ evs.

(** *** C9 as it is written, for listeners: a listener registered on the node
    and present again in the new list causes no mutation. *)
Definition listeners_key_diff (el : nat) (newListeners : list Listener) (m : Machine) : Prop :=
  ∀ l, l ∈ n_listeners (m_nodes m !!! el) → l ∈ newListeners →
       new_events m (run (_updateListeners el newListeners) m) = [].

(** A node [10] with one attribute and one listener. *)
Definition m_node0 : Machine :=
  set_m_next 11
    (set_m_nodes {[ 10 := mkNode ElementNode "div" "" [("class", "a")] [] [("click", "h1")] []
                                 None None false "" ]} empty_machine).

(** The confirmation of the ancestor chain in [_propagateLinking]: the call on
    the structural parent, or on the preliminary parent when there is no
    structural one ([canLinkParent]). *)
Definition ancestor_call (fuel : nat) (m : Machine) (comp vel : nat) : M bool :=
  match v_parent (m_vels m !!! vel) with
  | Some vp => _propagateLinking fuel (c_parent (m_comps m !!! comp)) (Some vp) true
  | None =>
      match v_preliminaryParent (m_vels m !!! vel) with
      | Some pp =>
          parent <- skipElementComponents fuel (c_parent (m_comps m !!! comp));;
          _propagateLinking fuel parent (Some pp) true
      | None => ret false
      end
  end.

(** The chain of (structural or preliminary) parents above a descriptor, and
    the chain of parents above an instance, have at most [d] elements. *)
Fixpoint vdepth_le (vels : gmap nat VirtualElement) (d : nat) (vel : option nat) : Prop :=
  match vel with
  | None => True
  | Some v =>
      match d with
      | 0 => False
      | S d' => vdepth_le vels d' (v_parent (vels !!! v))
                ∧ vdepth_le vels d' (v_preliminaryParent (vels !!! v))
      end
  end.

Fixpoint cdepth_le (comps : gmap nat Component) (d : nat) (comp : option nat) : Prop :=
  match comp with
  | None => True
  | Some c =>
      match d with
      | 0 => False
      | S d' => cdepth_le comps d' (c_parent (comps !!! c))
      end
  end.

(** [c] raises nothing but the exhaustion of the recursion bound. *)
Definition only_fuel {X} (c : M X) : Prop :=
  ∀ m, match (c m).1 with Ret _ => True | Throw e => e = OutOfFuel end.

(** [m'] has the parent links of [m]. *)
Definition same_chains (m m' : Machine) : Prop :=
  m_comps m' = m_comps m
  ∧ ∀ v, v_parent (m_vels m' !!! v) = v_parent (m_vels m !!! v)
         ∧ v_preliminaryParent (m_vels m' !!! v) = v_preliminaryParent (m_vels m !!! v)
         ∧ v_kind (m_vels m' !!! v) = v_kind (m_vels m !!! v).

(** ** Scenarios *)

(** A root that renders a [div] holding a text and a referenced [Counter],
    which renders its prop [n] in a [span]. *)
Definition counter_table : Class → Props → Props → RenderSpec := λ cls props _,
  match cls with
  | UserClass "Root" =>
      RsTree (TElem "div" [("class", "x")] [("click", "h")]
                [TText "hello"; TComp "Counter" props (Some "c")])
  | UserClass "Counter" => RsTree (TElem "span" [] [] [TText (default "0" (Map_get "n" props))])
  | _ => RsNil
  end.

Definition counter_host : Collaborators := host counter_table (λ _ _ _, true).

(** The store after the first pass of a root with [n = 1], once the host has
    attached and mounted the root. *)
Definition m_counter1 : Machine :=
  run (mount 0)
    (run (_render (H := counter_host) 20 100 0 None None false) (with_root "Root" [("n", "1")])).

(** *** C5 as it is written: the events of a pass contain no mutation of the
    target tree and no update, mount or dispose notification. *)
Definition no_mutation_no_notification (evs : list Event) : Prop :=
  forallb (λ ev, match ev with
                 | EvDom _ | EvDidUpdate _ _ _ | EvTriggerDidMount _ | EvTriggerDispose _ => false
                 | _ => true
                 end) evs = true.

(** The [Counter] descriptor of the first pass (descriptor 5, instance 7),
    captured again in the store the first pass has left. *)
Definition m_recaptured : Machine :=
  run (_capture (H := counter_host) 20 5 NO_MODE) m_counter1.

(** A forwarding chain: [A] renders [B]; [B] renders a [div], or, in mode
    [forward], the component [C]; [C] renders a [span]. *)
Definition chain_table : Class → Props → Props → RenderSpec := λ cls props _,
  match cls with
  | UserClass "A" => RsTree (TComp "B" props None)
  | UserClass "B" =>
      match Map_get "mode" props with
      | Some "forward" => RsTree (TComp "C" [] None)
      | _ => RsTree (TElem "div" [] [] [TText "b"])
      end
  | UserClass "C" => RsTree (TElem "span" [] [] [TText "c"])
  | _ => RsNil
  end.

Definition chain_host : Collaborators := host chain_table (λ _ _ _, true).

(** The store after a first pass in mode [plain], the root attached and
    mounted, and its props then set to mode [forward]. *)
Definition m_chain1 : Machine :=
  run (modComp 0 (set_c_props [("mode", "forward")]))
    (run (mount 0)
       (run (_render (H := chain_host) 30 100 0 None None false)
            (with_root "A" [("mode", "plain")]))).

(** Render routines that break the contract: [Nil] returns a falsy value,
    [Txt] a text descriptor; [Outer] renders an element holding a [Nil]. *)
Definition broken_table : Class → Props → Props → RenderSpec := λ cls _ _,
  match cls with
  | UserClass "Outer" => RsTree (TElem "div" [] [] [TComp "Nil" [] None])
  | UserClass "Txt" => RsTree (TText "t")
  | UserClass "Obj" => RsOther
  | _ => RsNil
  end.

Definition broken_host : Collaborators := host broken_table (λ _ _ _, true).

(** A list whose two referenced items swap places when the prop [order]
    changes. *)
Definition swap_table : Class → Props → Props → RenderSpec := λ cls props _,
  match cls with
  | UserClass "List" =>
      match Map_get "order" props with
      | Some "ba" =>
          RsTree (TElem "ul" [] [] [TComp "Item" [("t", "b")] (Some "b");
                                    TComp "Item" [("t", "a")] (Some "a")])
      | _ =>
          RsTree (TElem "ul" [] [] [TComp "Item" [("t", "a")] (Some "a");
                                    TComp "Item" [("t", "b")] (Some "b")])
      end
  | UserClass "Item" => RsTree (TElem "li" [] [] [TText (default "" (Map_get "t" props))])
  | _ => RsNil
  end.

Definition swap_host : Collaborators := host swap_table (λ _ _ _, true).

Definition m_swap1 : Machine :=
  run (modComp 0 (set_c_props [("order", "ba")]))
    (run (mount 0)
       (run (_render (H := swap_host) 30 100 0 None None false)
            (with_root "List" [("order", "ab")]))).

(** A root whose referenced [Item] moves from the top of the [div] into the
    [span] when the prop [side] changes: its parent is then an element
    instead of the root. *)
Definition move_table : Class → Props → Props → RenderSpec := λ cls props _,
  match cls with
  | UserClass "Root" =>
      match Map_get "side" props with
      | Some "right" =>
          RsTree (TElem "div" [] [] [TElem "span" [] [] [TComp "Item" [] (Some "x")]])
      | _ =>
          RsTree (TElem "div" [] [] [TComp "Item" [] (Some "x"); TElem "span" [] [] []])
      end
  | UserClass "Item" => RsTree (TElem "b" [] [] [])
  | _ => RsNil
  end.

Definition move_host : Collaborators := host move_table (λ _ _ _, true).

Definition m_move1 : Machine :=
  run (modComp 0 (set_c_props [("side", "right")]))
    (run (mount 0)
       (run (_render (H := move_host) 30 100 0 None None false)
            (with_root "Root" [("side", "left")]))).

(** A mounted root of class [Root] bound to an existing node [10], a [div]
    holding a text node and a stray [p]. *)
Definition m_adopt0 : Machine :=
  set_m_next 13
    (set_m_nodes {[ 10 := mkNode ElementNode "div" "" [] [] [] [11; 12] None None false "";
                    11 := mkNode TextNode "" "hello" [] [] [] [] (Some 10) None false "";
                    12 := mkNode ElementNode "p" "" [] [] [] [] (Some 10) None false "" ]}
       (set_m_comps {[ 0 := set_c_mounted true
                              (set_c_el (Some 10)
                                 (mkComp (UserClass "Root") [("n", "1")] [] None None None None
                                         None None [] false)) ]}
          empty_machine)).

(** ** Further predicates *)

(** [polluted] lists the objects that carry tags of the current state, each
    of them once. *)
Definition PollutedExact (m : Machine) : Prop :=
  NoDup (m_polluted m)
  ∧ ∀ o, o ∈ m_polluted m ↔ is_Some (m_tags m !! (m_stateId m, o)).

(** [state.getCurrentContext()]: [this.contexts[this.contexts.length - 1]]. *)
Definition state_getCurrentContext : M (option nat) :=
  λ m, (Ret (last (m_contexts m)), m).

(** The node [n] shows what the descriptor [v] declares: the text of a text
    descriptor; for the other descriptors the tag name (up to case), the
    attributes and properties (as maps), the listeners, and the inner markup
    when the descriptor has one. *)
Definition node_agrees (v : VirtualElement) (n : DOMNode) : Prop :=
  match v_kind v with
  | VirtualTextNode => n_textContent n = v_text v
  | _ =>
      getTagName n = toLowerCase (v_tagName v)
      ∧ (∀ k, Map_get k (n_attributes n) = Map_get k (ep_attributes (v_eprops v)))
      ∧ (∀ k, Map_get k (n_htmlProps n) = Map_get k (ep_htmlProps (v_eprops v)))
      ∧ n_listeners n = ep_eventListeners (v_eprops v)
      ∧ match v_innerHTMLString v with
        | Some h => n_hasInnerHTML n = true ∧ n_innerHTML n = h
        | None => True
        end
  end.

(** A node without its structural fields: two nodes that are equal after
    [blank_structure] differ at most in their parent, their children and
    their inner markup. *)
Definition blank_structure (n : DOMNode) : DOMNode :=
  set_n_hasInnerHTML false (set_n_innerHTML "" (set_n_childNodes [] (set_n_parentNode None n))).

(** The descriptor that a chain of at most [d] forwarding steps from [vel]
    ends in. *)
Fixpoint forwarded_target (vels : gmap nat VirtualElement) (d : nat) (vel : nat) : option nat :=
  if v_isForwarding (vels !!! vel) then
    match d with
    | 0 => None
    | S d' =>
        match v_forwardedEl (vels !!! vel) with
        | Some f => forwarded_target vels d' f
        | None => None
        end
    end
  else Some vel.

(** The instances of the forwarding descriptors met when going up from
    [parent], until the first descriptor that does not forward; at most [d]
    of them. *)
Fixpoint forwarding_ancestors (vels : gmap nat VirtualElement) (d : nat) (parent : option nat)
  : option (list nat) :=
  match parent with
  | None => Some []
  | Some p =>
      if v_isForwarding (vels !!! p) then
        match d with
        | 0 => None
        | S d' =>
            match v_comp (vels !!! p), forwarding_ancestors vels d' (v_parent (vels !!! p)) with
            | Some c, Some l => Some (c :: l)
            | _, _ => None
            end
        end
      else Some []
  end.

Definition blank_component_vel : VirtualElement :=
  mkVel VirtualComponent None None [] None ElementComponent [] "" "" no_eprops None
        None false false None None None None None.

(** A forwarding chain of three descriptors: [1] (instance [10]) forwards to
    [2] (instance [11]), which forwards to [3] (instance [12]); each instance
    is the parent of the next. *)
Definition m_forwarding : Machine :=
  set_m_next 20
    (set_m_comps {[ 10 := blank_comp; 11 := set_c_parent (Some 10) blank_comp;
                       12 := set_c_parent (Some 11) blank_comp ]}
       (set_m_vels
          {[ 1 := set_v_isForwarding true (set_v_forwardedEl (Some 2)
                    (set_v_comp (Some 10) blank_component_vel));
             2 := set_v_isForwarded true (set_v_parent (Some 1)
                    (set_v_isForwarding true (set_v_forwardedEl (Some 3)
                       (set_v_comp (Some 11) blank_component_vel))));
             3 := set_v_isForwarded true (set_v_parent (Some 2)
                    (set_v_comp (Some 12) blank_component_vel)) ]}
          empty_machine)).

(** The instances met when following [getParent] from [current], at most [d]
    of them, nearest first; [comp_ancestors] are those above the instance
    [c]. *)
Fixpoint comp_chain (comps : gmap nat Component) (d : nat) (current : option nat) : list nat :=
  match current, d with
  | Some c, S d' => c :: comp_chain comps d' (c_parent (comps !!! c))
  | _, _ => []
  end.

Definition comp_ancestors (comps : gmap nat Component) (d : nat) (c : nat) : list nat :=
  comp_chain comps d (c_parent (comps !!! c)).

(** The creation of an instance that has a parent. *)
Definition is_creation (ev : Event) : Prop :=
  match ev with
  | EvCreateComponent _ _ (Some _) => True
  | _ => False
  end.

(** What the creation of instances may change between [m] and [m']: fresh
    identities are drawn, descriptors change in their instance only, the
    records of the instances that existed are kept, and only creations are
    logged. *)
Definition FreshFrame (m m' : Machine) : Prop :=
  m_next m ≤ m_next m'
  ∧ m_tags m' = m_tags m ∧ m_polluted m' = m_polluted m ∧ m_stateId m' = m_stateId m
  ∧ m_contexts m' = m_contexts m ∧ m_nodes m' = m_nodes m ∧ m_ctxs m' = m_ctxs m
  ∧ (∀ x, set_v_comp None (m_vels m' !!! x) = set_v_comp None (m_vels m !!! x))
  ∧ (∀ c, c < m_next m → m_comps m' !!! c = m_comps m !!! c)
  ∧ ∃ evs, m_log m' = m_log m ++ evs ∧ Forall is_creation evs.

(** What [_create] called on [vel] may change: as [FreshFrame], and a
    descriptor other than [vel] that has an instance keeps it. *)
Definition CreateFrame (vel : nat) (m m' : Machine) : Prop :=
  FreshFrame m m'
  ∧ ∀ x, x ≠ vel → is_Some (comp_of m x) → comp_of m' x = comp_of m x.

(** The part of [_create] that follows the search for the parent instance. *)
Definition _create_instance `{Collaborators} (v : VirtualElement) (vel parent : nat) : M nat :=
  comp <- match v_kind v with
          | VirtualComponent =>
              comp <- createComponent (v_ComponentClass v) parent (v_props v);;
              c <- getComp comp;;
              modVel vel (set_v_props (c_props c));;
              match v_forwardedEl v with
              | Some forwardedEl =>
                  fv <- getVel forwardedEl;;
                  forwardedComp <- createComponent (v_ComponentClass fv) comp (v_props fv);;
                  fc <- getComp forwardedComp;;
                  modVel forwardedEl (set_v_props (c_props fc));;
                  modComp comp (set_c_forwardedComp (Some forwardedComp))
              | None => ret tt
              end;;
              ret comp
          | VirtualHTMLElement => createElementComponent parent vel
          | VirtualTextNode => createTextNodeComponent parent vel
          end;;
  match v_ref v with
  | Some r => modComp comp (set_c_ref (Some r))
  | None => ret tt
  end;;
  match v_owner v with
  | Some o => ov <- getVel o;; modComp comp (set_c_owner (v_comp ov))
  | None => ret tt
  end;;
  modVel vel (set_v_comp (Some comp));;
  ret comp.

(** [_create] can instantiate [vel]: it has a parent, and the parent has an
    instance or can be instantiated itself, within [d] steps up. *)
Fixpoint instantiable (vels : gmap nat VirtualElement) (d : nat) (vel : nat) : bool :=
  match v_parent (vels !!! vel) with
  | None => false
  | Some vp =>
      bool_decide (v_comp (vels !!! vp) ≠ None)
      || match d with
         | 0 => false
         | S d' => instantiable vels d' vp
         end
  end.

(** A root descriptor [1] with instance [10], an element [2] under it and a
    text [3] under the element, both without instance. *)
Definition m_create0 : Machine :=
  set_m_next 20
    (set_m_comps {[ 10 := blank_comp ]}
       (set_m_vels
          {[ 1 := set_v_comp (Some 10) blank_component_vel;
             2 := set_v_tagName "p" (set_v_parent (Some 1) blank_vel);
             3 := mkVel VirtualTextNode None (Some 2) [] (Some "t") ElementComponent [] "" "hello"
                        no_eprops None None false false None None None None None ]}
          empty_machine)).

(** A host whose components never ask to be rendered again. *)
Definition idle_host : Collaborators := host counter_table (λ _ _ _, false).

(** A [Counter] instance [10] with node [50] and props [n = 0], and a new
    descriptor [1] for it with props [n = 1]. *)
Definition m_skip0 : Machine :=
  set_m_stateId 100
    (set_m_next 60
       (set_m_nodes {[ 50 := set_n_tagName "span" blank_node ]}
          (set_m_comps {[ 10 := mkComp (UserClass "Counter") [("n", "0")] [] (Some 50) None
                                       None None None None [] true ]}
             (set_m_vels
                {[ 1 := mkVel VirtualComponent (Some 10) None [] None (UserClass "Counter")
                              [("n", "1")] "" "" no_eprops None None false false None None None
                              None None ]}
                empty_machine)))).

(** A mounted instance [10] with node [50], and an instance [11] that is not
    mounted, with a node [51] that is not in the document. *)
Definition m_mount0 : Machine :=
  set_m_stateId 100
    (set_m_next 60
       (set_m_nodes {[ 50 := set_n_tagName "div" blank_node; 51 := set_n_tagName "p" blank_node ]}
          (set_m_comps {[ 10 := set_c_mounted true (set_c_el (Some 50) blank_comp);
                          11 := set_c_parent (Some 10) (set_c_el (Some 51) blank_comp) ]}
             empty_machine))).

(** A text descriptor [1] with a text instance [10], and an element node
    [50]. *)
Definition m_adopt_text : Machine :=
  set_m_next 60
    (set_m_nodes {[ 50 := set_n_tagName "div" blank_node ]}
       (set_m_comps {[ 10 := mkComp TextNodeComponent [] [] None None None None None None []
                                    false ]}
          (set_m_vels
             {[ 1 := mkVel VirtualTextNode (Some 10) None [] None ElementComponent [] "" "hi"
                           no_eprops None None false false None None None None None ]}
             empty_machine))).

(** [keeps P g c]: from a store that satisfies [P], the computation [c] leads
    to a store that satisfies [P] and has the same [g]. *)
Definition keeps {X G} (P : Machine → Prop) (g : Machine → G) (c : M X) : Prop :=
  ∀ m, P m → P (c m).2 ∧ g (c m).2 = g m.

(** The tree of nodes under [el] mirrors the tree of descriptors under [vel],
    down to depth [h]: each node agrees with its descriptor, carries its
    instance and has its kind; the child nodes of the node of a component or
    element descriptor are, in order, the nodes of its children, and they name
    the node as their parent; the node of a text descriptor has no child.  The
    identities of the nodes lie in [lo, hi), those of the descendants of a
    node above its own. *)
Fixpoint mirrors (vels : gmap nat VirtualElement) (nodes : gmap nat DOMNode) (lo hi : nat)
    (h : nat) (vel el : nat) : Prop :=
  match h with
  | 0 => False
  | S h' =>
      let v := vels !!! vel in
      let n := nodes !!! el in
      lo ≤ el < hi
      ∧ node_agrees v n
      ∧ n_comp n = v_comp v
      ∧ n_kind n = (if bool_decide (v_kind v = VirtualTextNode) then TextNode else ElementNode)
      ∧ if isStructural v
        then Forall2 (λ vc c, n_parentNode (nodes !!! c) = Some el
                              ∧ mirrors vels nodes (S el) hi h' vc c)
                     (v_children v) (n_childNodes n)
        else n_childNodes n = []
  end.

(** Every descriptor of the tree under [vel], down to depth [h], has an
    instance and is not forwarded, and the tree is not deeper than [h]. *)
Fixpoint creatable (vels : gmap nat VirtualElement) (h : nat) (vel : nat) : Prop :=
  match h with
  | 0 => False
  | S h' =>
      let v := vels !!! vel in
      v_comp v ≠ None ∧ v_isForwarded v = false
      ∧ (isStructural v = true → Forall (creatable vels h') (v_children v))
  end.

(** What [_createEl] has done when it has returned [el] and led from [m] to
    [m']: [el] is a fresh node without parent, the tree under it mirrors the
    tree of descriptors under [vel] and consists of fresh nodes, the nodes
    that existed are as they were, and so are the descriptors, the tags and
    the contexts; of the instances only the [el] field may differ. *)
Definition created (h : nat) (vel : nat) (m : Machine) (el : nat) (m' : Machine) : Prop :=
  el = m_next m ∧ m_next m < m_next m'
  ∧ (m_vels m', m_tags m', m_polluted m', m_stateId m', m_contexts m', m_ctxs m')
    = (m_vels m, m_tags m, m_polluted m, m_stateId m, m_contexts m, m_ctxs m)
  ∧ (∀ x, x < m_next m → m_nodes m' !!! x = m_nodes m !!! x)
  ∧ n_parentNode (m_nodes m' !!! el) = None
  ∧ mirrors (m_vels m) (m_nodes m') (m_next m) (m_next m') h vel el
  ∧ (∀ c, set_c_el None (m_comps m' !!! c) = set_c_el None (m_comps m !!! c)).

(** An element descriptor [1] with two children, the text [2] and the empty
    element [3]; each has an instance. *)
Definition m_tree0 : Machine :=
  set_m_next 20
    (set_m_comps {[ 10 := blank_comp;
                    11 := mkComp TextNodeComponent [] [] None (Some 10) None None None None []
                                 false;
                    12 := set_c_parent (Some 10) blank_comp ]}
       (set_m_vels
          {[ 1 := set_v_children [2; 3] (set_v_tagName "div" (set_v_comp (Some 10) blank_vel));
             2 := mkVel VirtualTextNode (Some 11) (Some 1) [] None ElementComponent [] "" "a"
                        no_eprops None None false false None None None None None;
             3 := set_v_tagName "p" (set_v_parent (Some 1) (set_v_comp (Some 12) blank_vel)) ]}
          empty_machine)).

(** ** The JSX element factory

    [RenderingEngine.createElement (type, props, ...children)] sorts the
    entries of [props] before it calls the descriptor builder.  The values of
    the props are left abstract. *)

Definition is_letter (a : ascii) : bool :=
  let n := nat_of_ascii a in
  ((65 <=? n) && (n <=? 90)) || ((97 <=? n) && (n <=? 122)).

Fixpoint all_letters (s : string) : bool :=
  match s with
  | EmptyString => true
  | String a s' => is_letter a && all_letters s'
  end.

(** [/^on([A-Za-z]+)$/.exec(key)]: the group [m[1]] of a match. *)
Definition on_handler (key : string) : option string :=
  match key with
  | String "o" (String "n" rest) =>
      if negb (bool_decide (rest = "")) && all_letters rest
      then Some rest else None
  | _ => None
  end.

Record JsxParts (V : Type) := mkJsx {
  j_props : list (string * V);
  j_classNames : option V;
  j_styles : option V;
  j_attributes : list (string * V);
  j_htmlProps : list (string * V);
  j_eventListeners : list (string * V);
  j_ref : option V
}.
Arguments mkJsx {V}.
Arguments j_props {V}.
Arguments j_classNames {V}.
Arguments j_styles {V}.
Arguments j_attributes {V}.
Arguments j_htmlProps {V}.
Arguments j_eventListeners {V}.
Arguments j_ref {V}.

(** The body of [for (let key of keys)], for the entry [key, val];
    [isStringType] is [isString(type)]. *)
Definition createElement_entry {V} (isStringType : bool) (p : JsxParts V) (e : string * V)
  : JsxParts V :=
  let key := e.1 in
  let val := e.2 in
  if decide (key = "className") then
    mkJsx (j_props p) (Some val) (j_styles p) (j_attributes p) (j_htmlProps p)
          (j_eventListeners p) (j_ref p)
  else if decide (key = "style") then
    mkJsx (j_props p) (j_classNames p) (Some val) (j_attributes p) (j_htmlProps p)
          (j_eventListeners p) (j_ref p)
  else if decide (key = "ref") then
    mkJsx (j_props p) (j_classNames p) (j_styles p) (j_attributes p) (j_htmlProps p)
          (j_eventListeners p) (Some val)
  else
    match on_handler key with
    | Some m1 =>
        mkJsx (j_props p) (j_classNames p) (j_styles p) (j_attributes p) (j_htmlProps p)
              (j_eventListeners p ++ [(toLowerCase m1, val)]) (j_ref p)
    | None =>
        if isStringType then
          if bool_decide (key ∈ ["type"; "value"; "checked"; "selected"]) then
            mkJsx (j_props p) (j_classNames p) (j_styles p) (Map_set key val (j_attributes p))
                  (Map_set key val (j_htmlProps p)) (j_eventListeners p) (j_ref p)
          else
            mkJsx (j_props p) (j_classNames p) (j_styles p) (Map_set key val (j_attributes p))
                  (j_htmlProps p) (j_eventListeners p) (j_ref p)
        else if decide (key = "id") then
          mkJsx (j_props p) (j_classNames p) (j_styles p) (Map_set key val (j_attributes p))
                (j_htmlProps p) (j_eventListeners p) (j_ref p)
        else
          mkJsx (Map_set key val (j_props p)) (j_classNames p) (j_styles p) (j_attributes p)
                (j_htmlProps p) (j_eventListeners p) (j_ref p)
    end.

(** What [createElement] has collected when the loop over the keys of [props]
    ends; without [props] nothing is collected. *)
Definition createElement_parts {V} (isStringType : bool) (props : option (list (string * V)))
  : JsxParts V :=
  foldl (createElement_entry isStringType) (mkJsx [] None None [] [] [] None) (default [] props).

(** The keys that [createElement] handles itself. *)
Definition jsx_reserved (key : string) : bool :=
  bool_decide (key ∈ ["className"; "style"; "ref"]).

(** The props of [<input className="a" onClick={h} only="x" value="1" id="i"/>]. *)
Definition jsx_props0 : list (string * string) :=
  [("className", "a"); ("onClick", "h"); ("only", "x"); ("value", "1"); ("id", "i")].

(** What is left of the old children once the DETACHED instances at the
    front are skipped. *)
Fixpoint after_detached (m : Machine) (l : list nat) : list nat :=
  match l with
  | [] => []
  | oc :: l' => if is_tagged DETACHED (OComp oc) m then after_detached m l' else l
  end.

(** What [_removeChild] logs for the child [oc] of the instance with node
    [pel]. *)
Definition removal_events (m : Machine) (pel : nat) (oc : nat) : list Event :=
  match c_el (m_comps m !!! oc) with
  | Some cel =>
      EvDom (RemoveChild pel cel)
      :: (if is_tagged DETACHED (OComp oc) m then [] else [EvTriggerDispose oc])
  | None => []
  end.

(** The old child [oc] shows the text of the new text descriptor [nv]. *)
Definition same_text (m : Machine) (oc nv : nat) : Prop :=
  is_tagged DETACHED (OComp oc) m = false
  ∧ ∃ oel, c_el (m_comps m !!! oc) = Some oel
           ∧ isTextNode (m_nodes m !!! oel) = true
           ∧ v_kind (m_vels m !!! nv) = VirtualTextNode
           ∧ n_textContent (m_nodes m !!! oel) = v_text (m_vels m !!! nv).

(** An instance [10] with node [50] and two text children [11] and [12] with
    the nodes [51] and [52], and two new text descriptors [1] and [2] with the
    same texts. *)
Definition m_texts : Machine :=
  set_m_stateId 100
    (set_m_next 60
       (set_m_nodes
          {[ 50 := set_n_childNodes [51; 52] (set_n_tagName "p" blank_node);
             51 := mkNode TextNode "" "a" [] [] [] [] (Some 50) (Some 11) false "";
             52 := mkNode TextNode "" "b" [] [] [] [] (Some 50) (Some 12) false "" ]}
          (set_m_comps
             {[ 10 := set_c_mounted true (set_c_el (Some 50) blank_comp);
                11 := mkComp TextNodeComponent [] [] (Some 51) (Some 10) None None None None []
                             true;
                12 := mkComp TextNodeComponent [] [] (Some 52) (Some 10) None None None None []
                             true ]}
             (set_m_vels
                {[ 1 := mkVel VirtualTextNode None None [] None ElementComponent [] "" "a"
                              no_eprops None None false false None None None None None;
                   2 := mkVel VirtualTextNode None None [] None ElementComponent [] "" "b"
                              no_eprops None None false false None None None None None ]}
                empty_machine)))).
(** * Properties *)

(** ** The program logic *)

Lemma TagsFrame_refl m : TagsFrame m m.
Proof. by split_and!. Qed.

Lemma TagsFrame_trans m1 m2 m3 : TagsFrame m1 m2 → TagsFrame m2 m3 → TagsFrame m1 m3.
Proof.
  intros (Hid1 & Hfr1 & Hinv1 & Hmono1) (Hid2 & Hfr2 & Hinv2 & Hmono2). split_and!.
  - congruence.
  - intros i o Hi. rewrite Hfr2 by congruence. by rewrite Hfr1.
  - auto.
  - auto.
Qed.

Lemma sound_mono (A B : Event → Prop) {X} (c : M X) :
  (∀ ev, A ev → B ev) → sound A c → sound B c.
Proof.
  intros HAB Hc m. destruct (Hc m) as (evs & Hlog & HA & Hrest).
  exists evs. split_and!; [done| |tauto..].
  eapply Forall_impl; eauto.
Qed.

Lemma sound_of_silent A {X} (c : M X) : silent c → sound A c.
Proof.
  intros Hc m. destruct (Hc m) as (Hlog & Htags & Hpol & Hid).
  exists []. rewrite app_nil_r. split_and!; [done|constructor| |intros H; inversion H..].
  split_and!; [done|by rewrite Htags| |].
  - unfold TagsInv. by rewrite Htags, Hpol, Hid.
  - unfold is_tagged. by rewrite Htags, Hid.
Qed.

Lemma sound_ret A {X} (x : X) : sound A (ret x).
Proof. by apply sound_of_silent. Qed.

Lemma sound_throw A {X} e : sound A (throw (A := X) e).
Proof. by apply sound_of_silent. Qed.

Lemma sound_bind A {X Y} (c : M X) (f : X → M Y) :
  sound A c → (∀ x, sound A (f x)) → sound A (bind c f).
Proof.
  intros Hc Hf m. unfold bind.
  destruct (Hc m) as (evs1 & Hlog1 & HA1 & Hfr1 & Hnil1 & Hoth1).
  destruct (c m) as [[x|e] m1] eqn:Hcm; simpl in *.
  - destruct (Hf x m1) as (evs2 & Hlog2 & HA2 & Hfr2 & Hnil2 & Hoth2).
    exists (evs1 ++ evs2). split_and!.
    + by rewrite Hlog2, Hlog1, app_assoc.
    + by apply Forall_app.
    + by eapply TagsFrame_trans.
    + intros [H|H]%Exists_app; [by apply Hnil1 in H|auto].
    + intros [H|H]%Exists_app; [by apply Hoth1 in H|auto].
  - exists evs1. split_and!; auto.
    + intros H. apply Hnil1 in H. by simplify_eq.
    + intros H. apply Hoth1 in H. by simplify_eq.
Qed.

Lemma sound_try_finally A {X} (body : M X) (fin : M unit) :
  sound A body → sound A fin → total fin → sound A (try_finally body fin).
Proof.
  intros Hb Hf Ht m. unfold try_finally.
  destruct (Hb m) as (evs1 & Hlog1 & HA1 & Hfr1 & Hnil1 & Hoth1).
  destruct (body m) as [o m1] eqn:Hbm; simpl in *.
  destruct (Hf m1) as (evs2 & Hlog2 & HA2 & Hfr2 & Hnil2 & Hoth2).
  destruct (Ht m1) as [[] Hret].
  destruct (fin m1) as [[[]|e] m2] eqn:Hfm; simpl in *; [|done].
  exists (evs1 ++ evs2). split_and!.
  - by rewrite Hlog2, Hlog1, app_assoc.
  - by apply Forall_app.
  - by eapply TagsFrame_trans.
  - intros [H|H]%Exists_app; [auto|by apply Hnil2 in H].
  - intros [H|H]%Exists_app; [auto|by apply Hoth2 in H].
Qed.

Lemma sound_when A b (c : M unit) : sound A c → sound A (when b c).
Proof. destruct b; [done|intros; apply sound_ret]. Qed.

Lemma sound_forM_ A {X} (l : list X) (f : X → M unit) :
  (∀ x, sound A (f x)) → sound A (forM_ l f).
Proof.
  intros Hf. induction l as [|x l IH]; simpl; [apply sound_ret|].
  apply sound_bind; auto.
Qed.

Lemma sound_mapM A {X Y} (l : list X) (f : X → M Y) :
  (∀ x, sound A (f x)) → sound A (mapM f l).
Proof.
  intros Hf. induction l as [|x l IH]; simpl; [apply sound_ret|].
  apply sound_bind; [auto|intros y]. apply sound_bind; [auto|intros ys]. apply sound_ret.
Qed.

Lemma sound_deref A {X} (o : option X) : sound A (deref o).
Proof. destruct o; [apply sound_ret|apply sound_throw]. Qed.

Lemma sound_emit (A : Event → Prop) ev :
  A ev → ¬ is_nil_render ev → ¬ is_other_render ev → sound A (emit ev).
Proof.
  intros HA Hn Ho m. exists [ev]. simpl. split_and!; [done|by constructor|by split_and!| |].
  - intros [H|H]%Exists_cons; [by destruct Hn|inversion H].
  - intros [H|H]%Exists_cons; [by destruct Ho|inversion H].
Qed.

(** ** Tags *)

Lemma state_is_run k o m : state_is k o m = (Ret (is_tagged k o m), m).
Proof.
  unfold state_is, bind, state_get, is_tagged.
  by destruct (m_tags m !! (m_stateId m, o)).
Qed.

Lemma state_set_run k o v m : ∃ m', state_set k o v m = (Ret tt, m').
Proof. unfold state_set. destruct (m_tags m !! _); by eexists. Qed.

Lemma is_tagged_state_set k o k' o' v m :
  is_tagged k o (state_set k' o' v m).2
  = if decide (o = o') then bool_decide (k = k') || is_tagged k o m else is_tagged k o m.
Proof.
  unfold is_tagged, state_set.
  destruct (m_tags m !! (m_stateId m, o')) as [info'|] eqn:Hl'; simpl;
    (destruct (decide (o = o')) as [->|Hne];
     [rewrite lookup_insert_eq, Hl'|by rewrite lookup_insert_ne by congruence]); simpl;
    destruct (decide (k = k')) as [->|Hk];
    rewrite ?bool_decide_eq_true_2 by done; try done;
    by rewrite (bool_decide_eq_false_2 (k = k')) by done.
Qed.

Lemma state_set_heap k o v m :
  m_vels (state_set k o v m).2 = m_vels m ∧ m_comps (state_set k o v m).2 = m_comps m
  ∧ m_nodes (state_set k o v m).2 = m_nodes m ∧ m_log (state_set k o v m).2 = m_log m
  ∧ m_stateId (state_set k o v m).2 = m_stateId m.
Proof. unfold state_set. by destruct (m_tags m !! _). Qed.

Lemma comp_of_state_set k o v m vc : comp_of (state_set k o v m).2 vc = comp_of m vc.
Proof. unfold comp_of. by rewrite (proj1 (state_set_heap k o v m)). Qed.

Lemma is_tagged_modVel k o vc f m : is_tagged k o (modVel vc f m).2 = is_tagged k o m.
Proof. done. Qed.

Lemma comp_of_modVel vc f m vc' :
  comp_of (modVel vc f m).2 vc' = if decide (vc' = vc) then v_comp (f (m_vels m !!! vc)) else comp_of m vc'.
Proof.
  unfold comp_of, modVel. simpl. destruct (decide (vc' = vc)) as [->|Hne].
  - by rewrite lookup_total_insert_eq.
  - by rewrite lookup_total_insert_ne.
Qed.

Lemma is_tagged_state_set_mono k' o' v m k o :
  is_tagged k o m = true → is_tagged k o (state_set k' o' v m).2 = true.
Proof.
  intros Ht. rewrite is_tagged_state_set. case_decide; [|done]. by rewrite Ht, orb_true_r.
Qed.

(** *** Primitive operations *)

Lemma silent_getMachine : silent getMachine.
Proof. done. Qed.
Lemma silent_getVel v : silent (getVel v).
Proof. done. Qed.
Lemma silent_getComp c : silent (getComp c).
Proof. done. Qed.
Lemma silent_getNode n : silent (getNode n).
Proof. done. Qed.
Lemma silent_getCtx x : silent (getCtx x).
Proof. done. Qed.
Lemma silent_modVel v f : silent (modVel v f).
Proof. done. Qed.
Lemma silent_modComp c f : silent (modComp c f).
Proof. done. Qed.
Lemma silent_modNode n f : silent (modNode n f).
Proof. done. Qed.
Lemma silent_modCtx x f : silent (modCtx x f).
Proof. done. Qed.
Lemma silent_alloc : silent alloc.
Proof. done. Qed.
Lemma silent_pushContext x : silent (state_pushContext x).
Proof. done. Qed.
Lemma silent_popContext : silent state_popContext.
Proof. done. Qed.
Lemma silent_state_get k o : silent (state_get k o).
Proof. intros m. unfold state_get. by destruct (m_tags m !! _). Qed.

Lemma sound_state_set A k o v : sound A (state_set k o v).
Proof.
  intros m. exists []. rewrite app_nil_r.
  split_and!; [by destruct (state_set_heap k o v m) as (_&_&_&?&_)|constructor|
               |intros H; inversion H..].
  pose proof (λ k' o', is_tagged_state_set_mono k o v m k' o') as Hmono.
  unfold state_set in *.
  destruct (m_tags m !! (m_stateId m, o)) as [info|] eqn:Hl; simpl in *;
    (split_and!; [done| | |done]); unfold TagsInv; simpl.
  - intros i o' Hi. rewrite lookup_insert_ne; [done|congruence].
  - intros Hinv o'. destruct (decide (o' = o)) as [->|Hne].
    + intros _. apply Hinv. by rewrite Hl.
    + rewrite lookup_insert_ne by congruence. apply Hinv.
  - intros i o' Hi. rewrite lookup_insert_ne; [done|congruence].
  - intros Hinv o'. destruct (decide (o' = o)) as [->|Hne].
    + intros _. set_solver.
    + rewrite lookup_insert_ne by congruence. intros H%Hinv. set_solver.
Qed.

Lemma lookup_foldr_delete_ne (t : gmap (nat * ObjRef) Info) id l i o :
  i ≠ id → foldr (λ obj t, delete (id, obj) t) t l !! (i, o) = t !! (i, o).
Proof.
  intros Hi. induction l as [|x l IH]; simpl; [done|].
  rewrite lookup_delete_ne; [done|congruence].
Qed.

Lemma lookup_foldr_delete_in (t : gmap (nat * ObjRef) Info) id l o :
  o ∈ l → foldr (λ obj t, delete (id, obj) t) t l !! (id, o) = None.
Proof.
  induction l as [|x l IH]; simpl; [by intros ?%elem_of_nil|].
  intros [->|Hin]%elem_of_cons; [by rewrite lookup_delete_eq|].
  destruct (decide (x = o)) as [->|Hne]; [by rewrite lookup_delete_eq|].
  rewrite lookup_delete_ne by congruence. auto.
Qed.

Lemma lookup_foldr_delete_Some (t : gmap (nat * ObjRef) Info) id l k :
  is_Some (foldr (λ obj t, delete (id, obj) t) t l !! k) → is_Some (t !! k).
Proof.
  induction l as [|x l IH]; simpl; [done|].
  destruct (decide ((id, x) = k)) as [<-|Hne].
  - rewrite lookup_delete_eq. by intros [? ?].
  - by rewrite lookup_delete_ne.
Qed.

Lemma total_state_dispose : total state_dispose.
Proof. intros m. by exists tt. Qed.

Lemma total_popContext : total state_popContext.
Proof. intros m. by exists tt. Qed.

(** The render call together with the check that follows it. *)
Lemma sound_render_check `{Collaborators} (A : Event → Prop) {X} comp context (k : Content → M X) :
  (∀ c s, A (EvRender c s)) →
  (∀ m, k CNil m = (Throw EmptyRenderResult, m)) →
  (∀ m, k COther m = (Throw InvalidRenderResult, m)) →
  (∀ v, sound A (k (CComponent v))) →
  (∀ v, sound A (k (CElement v))) →
  sound A (bind (render_content comp context) k).
Proof.
  intros HA Hnil Hoth Hcomp Helem m.
  unfold render_content, try_finally, bind, state_pushContext, state_popContext, render.
  simpl.
  match goal with |- context [comp_render ?mm comp context] =>
    destruct (comp_render mm comp context) as [[r|e] [[vels ctxs] next]] eqn:Hr end; simpl.
  - set (m1 := set_m_contexts _ _).
    assert (Hfr : TagsFrame m m1) by (by split_and!).
    assert (Hlog : m_log m1 = m_log m ++ [EvRender comp (shape (classify vels r))]) by done.
    assert (∀ c : M X, sound A c → ∃ evs,
      m_log (c m1).2 = m_log m ++ evs ∧ Forall A evs ∧ TagsFrame m (c m1).2
      ∧ (shape (classify vels r) ≠ ShNil → shape (classify vels r) ≠ ShOther →
         (Exists is_nil_render evs → (c m1).1 = Throw EmptyRenderResult)
         ∧ (Exists is_other_render evs → (c m1).1 = Throw InvalidRenderResult))) as Hk.
    { intros c Hc. destruct (Hc m1) as (evs & Hl & HAe & Hf & Hn & Ho).
      exists (EvRender comp (shape (classify vels r)) :: evs). split_and!.
      - by rewrite Hl, Hlog, <-app_assoc.
      - constructor; auto.
      - by eapply TagsFrame_trans.
      - intros Hs1 Hs2. split.
        + intros [[c' [=]]|H']%Exists_cons; [congruence|auto].
        + intros [[c' [=]]|H']%Exists_cons; [congruence|auto]. }
    destruct (classify vels r) as [|v|v|] eqn:Hcl; simpl in *.
    + rewrite Hnil. exists [EvRender comp ShNil]. simpl. split_and!; [done|by constructor;auto|done|done|].
      intros [[c' [=]]|H']%Exists_cons. inversion H'.
    + destruct (Hk _ (Hcomp v)) as (evs & ? & ? & ? & Hs). exists evs.
      destruct Hs; [done..|]. by split_and!.
    + destruct (Hk _ (Helem v)) as (evs & ? & ? & ? & Hs). exists evs.
      destruct Hs; [done..|]. by split_and!.
    + rewrite Hoth. exists [EvRender comp ShOther]. simpl. split_and!; [done|by constructor;auto|done| |done].
      intros [[c' [=]]|H']%Exists_cons. inversion H'.
  - exists []. rewrite app_nil_r. simpl.
    split_and!; [done|constructor|by split_and!|intros H'; inversion H'..].
Qed.

Create HintDb sound discriminated.

#[local] Hint Resolve sound_ret sound_throw sound_deref sound_state_set
  sound_of_silent silent_getMachine silent_getVel silent_getComp silent_getNode silent_getCtx
  silent_modVel silent_modComp silent_modNode silent_modCtx silent_alloc silent_pushContext
  silent_popContext silent_state_get : sound.

Ltac sound_step :=
  lazymatch goal with
  | |- sound _ (bind (render_content _ _) _) => fail
  | |- sound _ (bind _ _) => apply sound_bind; [|intros ?]
  | |- sound _ (when _ _) => apply sound_when
  | |- sound _ (forM_ _ _) => apply sound_forM_; intros ?
  | |- sound _ (mapM _ _) => apply sound_mapM; intros ?
  | |- sound _ (emit _) => apply sound_emit; [auto | intros [? [=]] | intros [? [=]]]
  | |- sound _ (if ?b then _ else _) => destruct b
  | |- sound _ (match ?x with _ => _ end) => destruct x
  | |- sound _ _ => solve [eauto with sound]
  end.

Ltac sound_auto := repeat sound_step.

(** *** Operations that fire no lifecycle notification *)

Section quiet_ops.
Context `{Collaborators}.
Variable A : Event → Prop.
Hypothesis HA : ∀ ev, quiet ev → A ev.

#[local] Hint Extern 1 (A _) => (apply HA; exact I) : core.

Lemma sound_state_is k o : sound A (state_is k o).
Proof. unfold state_is. sound_auto. Qed.
Hint Resolve sound_state_is : sound.

Lemma sound_state_is_vel k v : sound A (state_is_vel k v).
Proof. unfold state_is_vel. sound_auto. Qed.

Lemma sound_state_is_comp k c : sound A (state_is_comp k c).
Proof. unfold state_is_comp. sound_auto. Qed.
Hint Resolve sound_state_is_vel sound_state_is_comp : sound.

Lemma sound_dom_detach n : sound A (dom_detach n).
Proof. unfold dom_detach. sound_auto. Qed.
Hint Resolve sound_dom_detach : sound.

Lemma sound_createElement t : sound A (createElement t).
Proof. unfold createElement. sound_auto. Qed.
Lemma sound_createTextNode t : sound A (createTextNode t).
Proof. unfold createTextNode. sound_auto. Qed.
Lemma sound_setAttribute el k v : sound A (setAttribute el k v).
Proof. unfold setAttribute. sound_auto. Qed.
Lemma sound_removeAttribute el k : sound A (removeAttribute el k).
Proof. unfold removeAttribute. sound_auto. Qed.
Lemma sound_setProperty el k v : sound A (setProperty el k v).
Proof. unfold setProperty. sound_auto. Qed.
Lemma sound_removeProperty el k : sound A (removeProperty el k).
Proof. unfold removeProperty. sound_auto. Qed.
Lemma sound_removeAllEventListeners el : sound A (removeAllEventListeners el).
Proof. unfold removeAllEventListeners. sound_auto. Qed.
Lemma sound_addEventListener el l : sound A (addEventListener el l).
Proof. unfold addEventListener. sound_auto. Qed.
Lemma sound_setTextContent el t : sound A (setTextContent el t).
Proof. unfold setTextContent. sound_auto. Qed.
Lemma sound_setTagName el t : sound A (setTagName el t).
Proof. unfold setTagName. sound_auto. Qed.
Lemma sound_empty el : sound A (empty el).
Proof. unfold empty. sound_auto. Qed.
Lemma sound_setInnerHTML el h : sound A (setInnerHTML el h).
Proof. unfold setInnerHTML. sound_auto. Qed.
Lemma sound_appendChild p c : sound A (appendChild p c).
Proof. unfold appendChild. sound_auto. Qed.
Lemma sound_insertBefore p c b : sound A (insertBefore p c b).
Proof. unfold insertBefore. sound_auto. Qed.
Lemma sound_removeChild p c : sound A (removeChild p c).
Proof. unfold removeChild. sound_auto. Qed.
Lemma sound_replaceChild p o n : sound A (replaceChild p o n).
Proof. unfold replaceChild. sound_auto. Qed.
Lemma sound_remove el : sound A (remove el).
Proof. unfold remove. sound_auto. Qed.
Hint Resolve sound_createElement sound_createTextNode sound_setAttribute
  sound_removeAttribute sound_setProperty sound_removeProperty
  sound_removeAllEventListeners sound_addEventListener sound_setTextContent
  sound_setTagName sound_empty sound_setInnerHTML sound_appendChild sound_insertBefore
  sound_removeChild sound_replaceChild sound_remove : sound.

Lemma sound_createComponent cls p props : sound A (createComponent cls p props).
Proof. unfold createComponent. sound_auto. Qed.
Lemma sound_createElementComponent p v : sound A (createElementComponent p v).
Proof. unfold createElementComponent. sound_auto. Qed.
Lemma sound_createTextNodeComponent p v : sound A (createTextNodeComponent p v).
Proof. unfold createTextNodeComponent. sound_auto. Qed.
Lemma sound_setProps c p : sound A (_setProps c p).
Proof. unfold _setProps. sound_auto. Qed.
Lemma sound_setParent c p : sound A (_setParent c p).
Proof. unfold _setParent. sound_auto. Qed.
Lemma sound_newContext o : sound A (newContext o).
Proof. unfold newContext. sound_auto. Qed.
Lemma sound_el_of c : sound A (el_of c).
Proof. unfold el_of. sound_auto. Qed.
Hint Resolve sound_createComponent sound_createElementComponent
  sound_createTextNodeComponent sound_setProps sound_setParent sound_newContext
  sound_el_of : sound.

Lemma sound_getInternalComponentData c : sound A (_getInternalComponentData c).
Proof. unfold _getInternalComponentData. sound_auto. Qed.
Lemma sound_link c v : sound A (_link c v).
Proof. unfold _link. sound_auto. Qed.
Lemma sound_reject c v : sound A (_reject c v).
Proof. unfold _reject. sound_auto. Qed.
Lemma sound_isMapped c v : sound A (_isMapped c v).
Proof. unfold _isMapped. sound_auto. Qed.
Lemma sound_isLinked c v : sound A (_isLinked c v).
Proof. unfold _isLinked. sound_auto. Qed.
Hint Resolve sound_getInternalComponentData sound_link sound_reject sound_isMapped
  sound_isLinked : sound.

Lemma sound_linkComponent c v : sound A (_linkComponent c v).
Proof. unfold _linkComponent. sound_auto. Qed.

Lemma sound_skipElementComponents fuel p : sound A (skipElementComponents fuel p).
Proof. revert p. induction fuel; intros p; simpl; sound_auto. Qed.
Hint Resolve sound_linkComponent sound_skipElementComponents : sound.

Lemma sound_propagateLinking fuel c v s : sound A (_propagateLinking fuel c v s).
Proof. revert c v s. induction fuel; intros c v s; simpl; sound_auto. Qed.

Lemma sound_trace_up fuel p root frags : sound A (trace_up fuel p root frags).
Proof. revert p frags. induction fuel; intros p frags; destruct p; simpl; sound_auto. Qed.
Hint Resolve sound_propagateLinking sound_trace_up : sound.

Lemma sound_getVirtualComponentTrace fuel vc root :
  sound A (_getVirtualComponentTrace fuel vc root).
Proof. unfold _getVirtualComponentTrace. sound_auto. Qed.
Hint Resolve sound_getVirtualComponentTrace : sound.

Lemma sound_extractInternalRefs_loop fuel l root ids refs :
  sound A (_extractInternalRefs_loop fuel l root ids refs).
Proof. revert ids refs. induction l; intros ids refs; simpl; sound_auto. Qed.
Hint Resolve sound_extractInternalRefs_loop : sound.

Lemma sound_extractInternalRefs fuel ctx root : sound A (_extractInternalRefs fuel ctx root).
Proof. unfold _extractInternalRefs. sound_auto. Qed.
Hint Resolve sound_extractInternalRefs : sound.

Lemma sound_forEachComponent fuel comp vc hook :
  (∀ c v, sound A (hook c v)) → sound A (_forEachComponent fuel comp vc hook).
Proof. intros Hh. unfold _forEachComponent. sound_auto. Qed.

Lemma sound_create fuel vel : sound A (_create fuel vel).
Proof. revert vel. induction fuel; intros vel; simpl; sound_auto. Qed.
Hint Resolve sound_create : sound.

Lemma sound_capture fuel vel mode : sound A (_capture fuel vel mode).
Proof.
  revert vel mode. induction fuel as [|fuel IH]; intros vel mode; simpl; [sound_auto|].
  apply sound_bind; [sound_auto|intros captured]. destruct captured; [sound_auto|].
  apply sound_bind; [sound_auto|intros v].
  apply sound_bind; [sound_auto|intros comp].
  apply sound_bind; [|intros _; sound_auto].
  destruct (v_kind v); [|sound_auto..].
  apply sound_bind; [sound_auto|intros needRerender].
  destruct needRerender; [|sound_auto].
  apply sound_bind; [sound_auto|intros context].
  apply sound_render_check; [auto|done|done|intros content..].
  - sound_auto; apply sound_forEachComponent; intros; sound_auto.
  - sound_auto; apply sound_forEachComponent; intros; sound_auto.
Qed.
Hint Resolve sound_capture : sound.

Lemma sound_updateHash newHash oldHash update remove :
  (∀ k v, sound A (update k v)) → (∀ k, sound A (remove k)) →
  sound A (_updateHash newHash oldHash update remove).
Proof. intros Hu Hr. unfold _updateHash. sound_auto. Qed.

Lemma sound_updateListeners el l : sound A (_updateListeners el l).
Proof. unfold _updateListeners. sound_auto. Qed.
Hint Resolve sound_updateListeners : sound.

Lemma sound_updateDOMElement el vel : sound A (_updateDOMElement el vel).
Proof.
  unfold _updateDOMElement.
  repeat first [apply sound_updateHash; intros | sound_step].
Qed.
Hint Resolve sound_updateDOMElement : sound.

Lemma sound_createDOMElement vel : sound A (_createDOMElement vel).
Proof. unfold _createDOMElement. sound_auto. Qed.
Hint Resolve sound_createDOMElement : sound.

Lemma sound_getForwardedEl fuel vel : sound A (_getForwardedEl fuel vel).
Proof. revert vel. induction fuel; intros vel; simpl; sound_auto. Qed.

Lemma sound_propagateForwardedEl_loop fuel p el :
  sound A (_propagateForwardedEl_loop fuel p el).
Proof. revert p. induction fuel; intros p; destruct p; simpl; sound_auto. Qed.
Hint Resolve sound_getForwardedEl sound_propagateForwardedEl_loop : sound.

Lemma sound_propagateForwardedEl fuel vel el : sound A (_propagateForwardedEl fuel vel el).
Proof. unfold _propagateForwardedEl. sound_auto. Qed.
Hint Resolve sound_propagateForwardedEl : sound.

Lemma sound_createEl fuel vel : sound A (_createEl fuel vel).
Proof. revert vel. induction fuel; intros vel; simpl; sound_auto. Qed.
Hint Resolve sound_createEl : sound.

Lemma sound_adopt_both fuel :
  (∀ vel el, sound A (_adopt fuel vel el))
  ∧ (∀ el ex vi, sound A (_adopt_loop fuel el ex vi)).
Proof.
  induction fuel as [|fuel [IH1 IH2]]; (split; [intros vel el|intros el ex vi]); simpl;
    sound_auto.
Qed.

Lemma sound_adopt fuel vel el : sound A (_adopt fuel vel el).
Proof. apply sound_adopt_both. Qed.

Lemma sound_storeInternalData comp vc : sound A (_storeInternalData comp vc).
Proof. unfold _storeInternalData. sound_auto. Qed.

Lemma sound_findForwardingChild_loop fuel comp cur :
  sound A (_findForwardingChild_loop fuel comp cur).
Proof. revert cur. induction fuel; intros cur; destruct cur; simpl; sound_auto. Qed.
Hint Resolve sound_findForwardingChild_loop : sound.

Lemma sound_findForwardingChildOfComponent fuel comp f :
  sound A (_findForwardingChildOfComponent fuel comp f).
Proof. unfold _findForwardingChildOfComponent. sound_auto. Qed.
Hint Resolve sound_findForwardingChildOfComponent : sound.

Lemma sound_oldChildren fuel comp el : sound A (_oldChildren fuel comp el).
Proof. unfold _oldChildren. sound_auto. Qed.

Lemma sound_skip_detached rest pos1 : sound A (skip_detached rest pos1).
Proof. revert pos1. induction rest; intros pos1; simpl; sound_auto. Qed.
End quiet_ops.

(** *** Operations of the update phase *)

Section update_ops.
Context `{Collaborators}.
Variable A : Event → Prop.
Hypothesis HA : ∀ ev, A ev.

#[local] Hint Extern 1 (A _) => apply HA : core sound.
#[local] Hint Resolve sound_state_is sound_state_is_vel sound_state_is_comp sound_el_of
  sound_appendChild sound_insertBefore sound_removeChild sound_replaceChild
  sound_setParent sound_capture sound_updateDOMElement sound_createDOMElement
  sound_storeInternalData sound_oldChildren sound_skip_detached : sound.

Lemma sound_triggerDidMount c : sound A (triggerDidMount c).
Proof. unfold triggerDidMount. sound_auto. Qed.
Lemma sound_triggerDispose c : sound A (triggerDispose c).
Proof. unfold triggerDispose. sound_auto. Qed.
Lemma sound_didUpdate c p s : sound A (didUpdate c p s).
Proof. unfold didUpdate. sound_auto. Qed.
Hint Resolve sound_triggerDidMount sound_triggerDispose sound_didUpdate : sound.

Lemma sound__triggerDidMount p c : sound A (_triggerDidMount p c).
Proof. unfold _triggerDidMount. sound_auto. Qed.
Hint Resolve sound__triggerDidMount : sound.

Lemma sound__appendChild p c : sound A (_appendChild p c).
Proof. unfold _appendChild. sound_auto. Qed.
Lemma sound__replaceChild p o n : sound A (_replaceChild p o n).
Proof. unfold _replaceChild. sound_auto. Qed.
Lemma sound__insertChildBefore p c b : sound A (_insertChildBefore p c b).
Proof. unfold _insertChildBefore. sound_auto. Qed.
Lemma sound__removeChild p c : sound A (_removeChild p c).
Proof. unfold _removeChild. sound_auto. Qed.
Hint Resolve sound__appendChild sound__replaceChild sound__insertChildBefore
  sound__removeChild : sound.

Lemma sound_update_both fuel :
  (∀ vel, sound A (_update fuel vel))
  ∧ (∀ comp old new pos1 pos2, sound A (_update_loop fuel comp old new pos1 pos2)).
Proof.
  induction fuel as [|fuel [IH1 IH2]];
    (split; [intros vel|intros comp old new pos1 pos2]); simpl; sound_auto.
Qed.

Lemma sound_update fuel vel : sound A (_update fuel vel).
Proof. apply sound_update_both. Qed.

Lemma sound_triggerDidUpdate fuel vel : sound A (_triggerDidUpdate fuel vel).
Proof. revert vel. induction fuel; intros vel; simpl; sound_auto. Qed.
End update_ops.

(** ** The entry point *)

Lemma bind_ret_run {X Y} (c : M X) (f : X → M Y) m x m1 :
  c m = (Ret x, m1) → bind c f m = f x m1.
Proof. intros Hc. unfold bind. by rewrite Hc. Qed.

Lemma dispose_releases m o :
  TagsInv m → m_tags (state_dispose m).2 !! (m_stateId m, o) = None.
Proof.
  intros Hinv. simpl.
  destruct (m_tags m !! (m_stateId m, o)) eqn:Hl.
  - apply lookup_foldr_delete_in, Hinv. by rewrite Hl.
  - apply eq_None_not_Some. intros H%lookup_foldr_delete_Some. rewrite Hl in H. by destruct H.
Qed.

Lemma sound_render_try `{Collaborators} (A : Event → Prop) fuel vel comp (adoptElement : bool) :
  (∀ ev, if adoptElement then quiet ev → A ev else A ev) →
  sound A (_render_try fuel vel comp adoptElement).
Proof.
  intros HA. unfold _render_try. destruct adoptElement.
  - apply sound_bind; [by apply sound_capture|intros _].
    apply sound_bind; [by apply sound_getForwardedEl|intros v].
    apply sound_bind; [by apply sound_el_of|intros el].
    by apply sound_adopt.
  - apply sound_bind; [apply sound_capture; auto|intros _].
    apply sound_bind; [by apply sound_update|intros _].
    by apply sound_triggerDidUpdate.
Qed.

(** What one pass does, from the store [m] it starts in: the events it adds
    all satisfy [A], contract violations of render routines surface as the
    corresponding error, the tags of the pass are released and the tags
    stored under other ids are untouched. *)
Lemma render_pass `{Collaborators} (A : Event → Prop) fuel id comp oldProps oldState
    (adoptElement : bool) m :
  (∀ ev, if adoptElement then quiet ev → A ev else A ev) →
  let r := _render fuel id comp oldProps oldState adoptElement m in
  ∃ evs,
    m_log r.2 = m_log m ++ evs
    ∧ Forall A evs
    ∧ (Exists is_nil_render evs → r.1 = Throw EmptyRenderResult)
    ∧ (Exists is_other_render evs → r.1 = Throw InvalidRenderResult)
    ∧ ((∀ o, m_tags m !! (id, o) = None) → ∀ o, m_tags r.2 !! (id, o) = None)
    ∧ (∀ i o, i ≠ id → m_tags r.2 !! (i, o) = m_tags m !! (i, o))
    ∧ m_contexts r.2 = [].
Proof.
  intros HA r. subst r. unfold _render, _createWrappingVirtualComponent.
  erewrite bind_ret_run by (unfold bind; simpl; reflexivity).
  erewrite bind_ret_run by (unfold _createState; reflexivity).
  set (vel := m_next m).
  set (m1 := set_m_stateId id _).
  assert (Hlog1 : m_log m1 = m_log m) by done.
  assert (Htags1 : m_tags m1 = m_tags m) by done.
  assert (Hid1 : m_stateId m1 = id) by done.
  assert (Hinv1 : (∀ o, m_tags m !! (id, o) = None) → TagsInv m1).
  { intros Hf o. rewrite Hid1, Htags1, Hf. by intros [? ?]. }
  clearbody m1.
  assert (Hs : sound A (
    match oldProps with
    | Some p => state_set OLDPROPS (OVel vel) (VData p)
    | None => ret tt
    end;;
    match oldState with
    | Some s => state_set OLDSTATE (OVel vel) (VData s)
    | None => ret tt
    end;;
    _render_try fuel vel comp adoptElement)).
  { apply sound_bind; [destruct oldProps; auto with sound|intros _].
    apply sound_bind; [destruct oldState; auto with sound|intros _].
    by apply sound_render_try. }
  set (pre1 := match oldProps with Some p => _ | None => _ end) in *.
  set (pre2 := match oldState with Some s => _ | None => _ end) in *.
  assert (Hp1 : ∃ m2, pre1 m1 = (Ret tt, m2)).
  { subst pre1. destruct oldProps; [|by eexists]. unfold state_set.
    destruct (m_tags m1 !! _); by eexists. }
  destruct Hp1 as [m2 Hp1].
  assert (Hp2 : ∃ m3, pre2 m2 = (Ret tt, m3)).
  { subst pre2. destruct oldState; [|by eexists]. unfold state_set.
    destruct (m_tags m2 !! _); by eexists. }
  destruct Hp2 as [m3 Hp2].
  destruct (Hs m1) as (evs & Hlog & HAe & (Hid & Hfr & Hinv & _) & Hnil & Hoth).
  rewrite !(bind_ret_run _ _ _ _ _ Hp1), !(bind_ret_run _ _ _ _ _ Hp2) in *.
  unfold try_finally.
  destruct (_render_try fuel vel comp adoptElement m3) as [o m4] eqn:Hbody. simpl in *.
  exists evs. split_and!; try done.
  - by rewrite Hlog, Hlog1.
  - intros Hf o'. rewrite <-Hid1, <-Hid. apply (dispose_releases m4). auto.
  - intros i o' Hi. rewrite lookup_foldr_delete_ne by congruence.
    rewrite Hfr by congruence. by rewrite Htags1.
Qed.

(** ** Running straight-line code *)

Lemma bind_state_is {X} k o (f : bool → M X) m :
  bind (state_is k o) f m = f (is_tagged k o m) m.
Proof. unfold bind. by rewrite state_is_run. Qed.

Lemma bind_state_set {X} k o v (f : unit → M X) m :
  bind (state_set k o v) f m = f tt (state_set k o v m).2.
Proof. unfold bind. by destruct (state_set_run k o v m) as [m' ->]. Qed.

Lemma bind_getVel {X} v (f : VirtualElement → M X) m : bind (getVel v) f m = f (m_vels m !!! v) m.
Proof. done. Qed.

Lemma bind_getComp {X} c (f : Component → M X) m : bind (getComp c) f m = f (m_comps m !!! c) m.
Proof. done. Qed.

Lemma bind_getNode {X} n (f : DOMNode → M X) m : bind (getNode n) f m = f (m_nodes m !!! n) m.
Proof. done. Qed.

Lemma bind_modVel {X} v g (f : unit → M X) m : bind (modVel v g) f m = f tt (modVel v g m).2.
Proof. done. Qed.

Lemma bind_modComp {X} c g (f : unit → M X) m : bind (modComp c g) f m = f tt (modComp c g m).2.
Proof. done. Qed.

Lemma bind_modNode {X} n g (f : unit → M X) m : bind (modNode n g) f m = f tt (modNode n g m).2.
Proof. done. Qed.

Lemma bind_emit {X} ev (f : unit → M X) m : bind (emit ev) f m = f tt (emit ev m).2.
Proof. done. Qed.

Lemma bind_ret {X Y} (x : X) (f : X → M Y) m : bind (ret x) f m = f x m.
Proof. done. Qed.

Lemma bind_throw {X Y} e (f : X → M Y) m : bind (throw e) f m = (Throw e, m).
Proof. done. Qed.

Lemma bind_cases {X Y} (c : M X) (f : X → M Y) m :
  (∃ x m1, c m = (Ret x, m1) ∧ bind c f m = f x m1)
  ∨ (∃ e m1, c m = (Throw e, m1) ∧ bind c f m = (Throw e, m1)).
Proof.
  unfold bind. destruct (c m) as [[x|e] m1]; [left|right]; by eexists _, _.
Qed.

Lemma bind_bind {X Y Z} (c : M X) (f : X → M Y) (g : Y → M Z) m :
  bind (bind c f) g m = bind c (λ x, bind (f x) g) m.
Proof. unfold bind. by destruct (c m) as [[x|e] m']. Qed.

Lemma state_set_ret k o v m : state_set k o v m = (Ret tt, (state_set k o v m).2).
Proof. by destruct (state_set_run k o v m) as [m' ->]. Qed.

Ltac run_simpl :=
  repeat (progress (rewrite ?bind_bind, ?bind_emit, ?bind_modNode, ?bind_modComp, ?bind_modVel,
                      ?bind_getComp, ?bind_getVel, ?bind_getNode, ?bind_ret, ?bind_state_is,
                      ?bind_state_set; cbn beta)).

(** ** Reference linking (C1) *)

Lemma _isMapped_run comp vc m :
  _isMapped comp vc m
  = (Ret (is_tagged MAPPED (OVel vc) m || is_tagged MAPPED (OComp comp) m), m).
Proof. unfold _isMapped. by rewrite !bind_state_is. Qed.

Lemma _link_run comp vc m :
  _link comp vc m
  = (Ret tt, (state_set LINKED (OComp comp) VTrue
               (state_set LINKED (OVel vc) VTrue
                 (state_set MAPPED (OComp comp) VTrue
                   (state_set MAPPED (OVel vc) VTrue
                     (modVel vc (set_v_comp (Some comp)) m).2).2).2).2).2).
Proof.
  unfold _link. rewrite bind_modVel, !bind_state_set. apply state_set_ret.
Qed.

Lemma _reject_run comp vc m :
  _reject comp vc m
  = (Ret tt, match comp with
             | Some c => (state_set MAPPED (OComp c) VTrue
                            (state_set MAPPED (OVel vc) VTrue
                               (modVel vc (set_v_comp None) m).2).2).2
             | None => (state_set MAPPED (OVel vc) VTrue (modVel vc (set_v_comp None) m).2).2
             end).
Proof.
  unfold _reject. rewrite bind_modVel, !bind_state_set.
  destruct comp; [apply state_set_ret|done].
Qed.

Lemma _isLinked_spec comp vc m :
  let r := _isLinked comp vc m in
  r.1 = Ret (bool_decide (comp_of m vc = Some comp))
  ∧ m_vels r.2 = m_vels m ∧ m_comps r.2 = m_comps m
  ∧ (bool_decide (comp_of m vc = Some comp) = false → r.2 = m)
  ∧ (∀ k o, (k, o) ≠ (LINKED, OVel vc) → is_tagged k o r.2 = is_tagged k o m)
  ∧ (∀ o, is_tagged LINKED o m = true → is_tagged LINKED o r.2 = true).
Proof.
  unfold _isLinked. rewrite !bind_state_is, bind_getVel. fold (comp_of m vc).
  destruct (bool_decide (comp_of m vc = Some comp)); [|by simpl].
  assert (Hset : ∀ m0, let m1 := (state_set LINKED (OVel vc) VTrue m0).2 in
    m_vels m1 = m_vels m0 ∧ m_comps m1 = m_comps m0
    ∧ (∀ k o, (k, o) ≠ (LINKED, OVel vc) → is_tagged k o m1 = is_tagged k o m0)
    ∧ (∀ o, is_tagged LINKED o m0 = true → is_tagged LINKED o m1 = true)).
  { intros m0 m1. subst m1. destruct (state_set_heap LINKED (OVel vc) VTrue m0) as (?&?&_).
    split_and!; [done..| |].
    - intros k o Hne. rewrite is_tagged_state_set. case_decide; [subst|done].
      rewrite bool_decide_eq_false_2; [done|congruence].
    - intros o Ho. rewrite is_tagged_state_set. case_decide; [|done]. by rewrite Ho, orb_true_r. }
  destruct (is_tagged LINKED (OVel vc) m), (is_tagged LINKED (OComp comp) m);
    unfold when; simpl; rewrite ?bind_ret, ?bind_state_set, ?bind_ret; simpl.
  - by split_and!.
  - destruct (Hset m) as (?&?&?&?). by split_and!.
  - destruct (Hset m) as (?&?&?&?). by split_and!.
  - destruct (Hset m) as (Hv1&Hc1&Ht1&Hl1).
    destruct (Hset (state_set LINKED (OVel vc) VTrue m).2) as (Hv2&Hc2&Ht2&Hl2).
    split_and!; [done|congruence|congruence|done| |by auto].
    intros k o Hne. by rewrite Ht2, Ht1.
Qed.

Lemma _linkComponent_unfold c vc m :
  _linkComponent (Some c) vc m
  = if is_tagged MAPPED (OVel vc) m || is_tagged MAPPED (OComp c) m then (Ret tt, m)
    else if bool_decide (comp_of m vc = Some c) then (Ret tt, (_isLinked c vc m).2)
    else if _isOfSameType (m_comps m !!! c) (m_vels m !!! vc) then _link c vc m
    else _reject (Some c) vc m.
Proof.
  unfold _linkComponent. unfold bind at 1. rewrite _isMapped_run.
  destruct (_ || _); [done|].
  destruct (_isLinked_spec c vc m) as (Hr & _ & _ & Hsame & _).
  unfold bind at 1. destruct (_isLinked c vc m) as [o m1]. simpl in *. subst o.
  destruct (bool_decide _); [done|]. rewrite Hsame by done.
  rewrite bind_getComp, bind_getVel. by destruct (_isOfSameType _ _).
Qed.

(** A descriptor that is mapped in this pass keeps its instance through any
    further linking step that does not reject it for want of a prior
    instance. *)
Lemma _linkComponent_keeps_mapped m comp vc v :
  is_tagged MAPPED (OVel v) m = true →
  (comp ≠ None ∨ vc ≠ v) →
  let r := _linkComponent comp vc m in
  comp_of r.2 v = comp_of m v ∧ is_tagged MAPPED (OVel v) r.2 = true.
Proof.
  intros Hm Hne r. subst r. destruct comp as [c|].
  - rewrite _linkComponent_unfold.
    destruct (decide (vc = v)) as [->|Hv]; [by rewrite Hm|].
    destruct (_ || _); [done|].
    destruct (_isLinked_spec c vc m) as (_ & Hvels & _ & _ & Htags & _).
    destruct (bool_decide _).
    { simpl. unfold comp_of. rewrite Hvels, Htags; [done|congruence]. }
    destruct (_isOfSameType _ _).
    + rewrite _link_run. cbn [snd]. rewrite !comp_of_state_set, comp_of_modVel, !is_tagged_state_set.
      rewrite decide_False by done. repeat case_decide; simplify_eq; by rewrite ?Hm, ?orb_true_r.
    + rewrite _reject_run. cbn [snd]. rewrite !comp_of_state_set, comp_of_modVel, !is_tagged_state_set.
      rewrite decide_False by done. repeat case_decide; simplify_eq; by rewrite ?Hm, ?orb_true_r.
  - destruct Hne as [?|Hv]; [done|].
    unfold _linkComponent. rewrite _reject_run. cbn [snd].
    rewrite !comp_of_state_set, comp_of_modVel, !is_tagged_state_set.
    rewrite decide_False by done. repeat case_decide; simplify_eq; by rewrite ?Hm, ?orb_true_r.
Qed.

Lemma _linkComponent_total m comp vc : (_linkComponent comp vc m).1 = Ret tt.
Proof.
  destruct comp as [c|]; [|by unfold _linkComponent; rewrite _reject_run].
  rewrite _linkComponent_unfold.
  repeat (match goal with |- context [if ?b then _ else _] => destruct b end);
    by rewrite ?_link_run, ?_reject_run.
Qed.

(** Once linked, the descriptor keeps its instance through the rest of the
    entries. *)
Lemma link_entries_keep_mapped (entries : list (nat * option nat)) m v :
  is_tagged MAPPED (OVel v) m = true →
  (v, None) ∉ entries →
  let r := forM_ entries (λ entry, _linkComponent entry.2 entry.1) m in
  r.1 = Ret tt ∧ comp_of r.2 v = comp_of m v ∧ is_tagged MAPPED (OVel v) r.2 = true.
Proof.
  revert m. induction entries as [|[vc comp] entries IH]; intros m Hm Hnin; simpl; [done|].
  pose proof (_linkComponent_total m comp vc) as Ht.
  destruct (_linkComponent_keeps_mapped m comp vc v Hm) as [Hc Hm'].
  { destruct comp; [by left|right]. intros ->. apply Hnin. by left. }
  unfold bind. destruct (_linkComponent comp vc m) as [o m1]. simpl in *. subst o.
  destruct (IH m1 Hm') as (? & ? & ?); [intros Hin; apply Hnin; by right|].
  split_and!; [done|congruence|done].
Qed.

Lemma _addEntries_lookup vels (newRefs oldRefs : RefMap) ref vc oldVc :
  (ref, vc) ∈ newRefs → Map_get ref oldRefs = Some oldVc →
  (vc, v_comp (vels !!! oldVc)) ∈ _addEntries vels newRefs oldRefs.
Proof.
  intros Hin Hget. unfold _addEntries. apply list_elem_of_fmap.
  exists (ref, vc). simpl. by rewrite Hget.
Qed.


(** The same for a fresh descriptor paired with an instance that is already
    mapped: the descriptor gets no instance, and it is not marked rejected
    either. *)
Example mapped_instance_is_not_rejected :
  ¬ C1_as_stated m_link2 (Some 0) 2
  ∧ comp_of (run (_linkComponent (Some 0) 2) m_link2) 2 = None
  ∧ is_tagged MAPPED (OVel 2) (run (_linkComponent (Some 0) 2) m_link2) = false.
Proof.
  split; [|by vm_compute].
  intros [_ H]. destruct H as [_ H].
  - intros (c & [= <-] & _ & Hm & _). vm_compute in Hm. discriminate.
  - vm_compute in H. discriminate.
Qed.



(** ** Removing and replacing children (C2) *)

Lemma el_of_run comp m el : c_el (m_comps m !!! comp) = Some el → el_of comp m = (Ret el, m).
Proof. intros Hel. unfold el_of. rewrite bind_getComp, Hel. done. Qed.

Lemma bind_el_of {X} comp (f : nat → M X) m el :
  c_el (m_comps m !!! comp) = Some el → bind (el_of comp) f m = f el m.
Proof. intros Hel. unfold bind. by rewrite (el_of_run _ _ _ Hel). Qed.

Lemma _removeChild_run parent child m pel cel :
  c_el (m_comps m !!! parent) = Some pel →
  c_el (m_comps m !!! child) = Some cel →
  let r := _removeChild parent child m in
  r.1 = Ret tt
  ∧ m_log r.2 = m_log m ++ EvDom (RemoveChild pel cel)
                  :: (if is_tagged DETACHED (OComp child) m then [] else [EvTriggerDispose child]).
Proof.
  intros Hp Hc r. subst r. unfold _removeChild.
  rewrite (bind_el_of _ _ _ _ Hp), (bind_el_of _ _ _ _ Hc).
  unfold removeChild. run_simpl.
  set (m1 := (modNode cel _ _).2).
  assert (Ht : is_tagged DETACHED (OComp child) m1 = is_tagged DETACHED (OComp child) m) by done.
  rewrite Ht. destruct (is_tagged DETACHED (OComp child) m); simpl; [done|].
  by rewrite <-app_assoc.
Qed.

Lemma _triggerDidMount_log parent child m :
  let r := _triggerDidMount parent child m in
  r.1 = Ret tt
  ∧ m_log r.2 = m_log m ++
      (if negb (is_tagged DETACHED (OComp child) m) && c_mounted (m_comps m !!! parent)
          && negb (c_mounted (m_comps m !!! child))
       then [EvTriggerDidMount child] else []).
Proof.
  unfold _triggerDidMount. run_simpl.
  destruct (_ && _ && _); simpl; [done|by rewrite app_nil_r].
Qed.

Lemma _replaceChild_run parent oldChild newChild m pel oel nel :
  c_el (m_comps m !!! parent) = Some pel →
  c_el (m_comps m !!! oldChild) = Some oel →
  c_el (m_comps m !!! newChild) = Some nel →
  let r := _replaceChild parent oldChild newChild m in
  r.1 = Ret tt
  ∧ ∃ mount, m_log r.2 = m_log m ++ EvDom (ReplaceChild pel oel nel)
      :: (if is_tagged DETACHED (OComp oldChild) m then [] else [EvTriggerDispose oldChild])
      ++ mount
    ∧ (mount = [] ∨ mount = [EvTriggerDidMount newChild]).
Proof.
  intros Hp Ho Hn r. subst r. unfold _replaceChild.
  rewrite (bind_el_of _ _ _ _ Hp), (bind_el_of _ _ _ _ Ho), (bind_el_of _ _ _ _ Hn).
  assert (Hrep : ∃ m1, replaceChild pel oel nel m = (Ret tt, m1)
                       ∧ m_log m1 = m_log m ++ [EvDom (ReplaceChild pel oel nel)]
                       ∧ m_tags m1 = m_tags m ∧ m_stateId m1 = m_stateId m).
  { unfold replaceChild. run_simpl. destruct (decide (oel = nel)); [by eexists|].
    unfold dom_detach. run_simpl.
    destruct (n_parentNode _); by eexists. }
  destruct Hrep as (m1 & Hrun & Hlog1 & Htags1 & Hid1).
  rewrite (bind_ret_run _ _ _ _ _ Hrun), bind_state_is.
  assert (Ht : is_tagged DETACHED (OComp oldChild) m1 = is_tagged DETACHED (OComp oldChild) m).
  { unfold is_tagged. by rewrite Htags1, Hid1. }
  rewrite Ht.
  destruct (is_tagged DETACHED (OComp oldChild) m); unfold when; cbn [negb].
  - rewrite bind_ret. destruct (_triggerDidMount_log parent newChild m1) as [Hr Hl].
    split; [done|]. rewrite Hl, Hlog1, <-app_assoc. eexists. split; [done|].
    destruct (_ && _ && _); auto.
  - unfold triggerDispose. run_simpl.
    set (m2 := (modComp _ _ _).2).
    destruct (_triggerDidMount_log parent newChild m2) as [Hr Hl].
    split; [done|]. rewrite Hl. subst m2. simpl. rewrite Hlog1, <-!app_assoc. eexists.
    split; [done|]. destruct (_ && _ && _); auto.
Qed.


Lemma _findForwardingChild_loop_run fuel comp cur m :
  ∃ o, _findForwardingChild_loop fuel comp cur m = (o, m)
       ∧ match o with Ret _ => True | Throw e => e = OutOfFuel end.
Proof.
  revert cur. induction fuel as [|fuel IH]; intros [cur|]; simpl; try by eexists.
  - rewrite bind_getComp. destruct (bool_decide _); by eexists.
  - rewrite bind_getComp. destruct (bool_decide _); [by eexists|]. apply IH.
Qed.

Lemma _oldChildren_spec `{Collaborators} fuel comp el m :
  let r := _oldChildren fuel comp el m in
  ∃ evs,
    m_log r.2 = m_log m ++ evs
    ∧ Forall (λ ev, ∃ child, ev = EvDom (RemoveChild el child)) evs
    ∧ m_tags r.2 = m_tags m ∧ m_stateId r.2 = m_stateId m
    ∧ match r.1 with
      | Ret l =>
          Forall (λ cc, is_tagged RELOCATED (OComp cc) m = false) l
          ∧ length l + length evs = length (n_childNodes (m_nodes m !!! el))
      | Throw e => e = OutOfFuel
      end.
Proof.
  intros r. subst r. unfold _oldChildren. rewrite bind_getNode.
  set (g := λ child : nat, _).
  assert (Hcases : ∀ child m1, m_tags m1 = m_tags m → m_stateId m1 = m_stateId m →
    g child m1 = (removeChild el child;; ret None) m1
    ∨ (∃ cc, g child m1 = (Ret (Some cc), m1) ∧ is_tagged RELOCATED (OComp cc) m = false)
    ∨ g child m1 = (Throw OutOfFuel, m1)).
  { intros child m1 Ht Hi.
    enough (∃ r, g child m1 = r
                 ∧ (r = (removeChild el child;; ret None) m1
                    ∨ (∃ cc, r = (Ret (Some cc), m1) ∧ is_tagged RELOCATED (OComp cc) m = false)
                    ∨ r = (Throw OutOfFuel, m1))) as (r & -> & Hr) by done.
    subst g. cbn beta.
    rewrite bind_getNode. destruct (n_comp _) as [childComp|]; [|eexists; split; [done|by left]].
    unfold getMachine. unfold bind at 1. cbn beta iota.
    assert (Hres : ∃ o,
      (if comp_isForwarded m1 childComp
       then _findForwardingChildOfComponent fuel comp childComp
       else ret (Some childComp)) m1 = (o, m1)
      ∧ match o with Ret _ => True | Throw e => e = OutOfFuel end).
    { destruct (comp_isForwarded m1 childComp); [|by eexists].
      unfold _findForwardingChildOfComponent. rewrite bind_getComp.
      apply _findForwardingChild_loop_run. }
    destruct Hres as (o & Hrun & Ho). unfold bind at 1. rewrite Hrun.
    destruct o as [[cc|]|e]; cbn beta iota.
    - rewrite bind_state_is.
      assert (Hrel : is_tagged RELOCATED (OComp cc) m1 = is_tagged RELOCATED (OComp cc) m).
      { unfold is_tagged. by rewrite Ht, Hi. }
      rewrite Hrel. destruct (is_tagged RELOCATED (OComp cc) m) eqn:Hr.
      + eexists; split; [done|by left].
      + eexists; split; [done|]. right; left. by exists cc.
    - eexists; split; [done|by left].
    - subst e. eexists; split; [done|]. by right; right. }
  assert (Hg : ∀ child m1, m_tags m1 = m_tags m → m_stateId m1 = m_stateId m →
    ∃ evs, m_log (g child m1).2 = m_log m1 ++ evs
      ∧ Forall (λ ev, ∃ child, ev = EvDom (RemoveChild el child)) evs
      ∧ m_tags (g child m1).2 = m_tags m ∧ m_stateId (g child m1).2 = m_stateId m
      ∧ match (g child m1).1 with
        | Ret (Some cc) => is_tagged RELOCATED (OComp cc) m = false ∧ evs = []
        | Ret None => length evs = 1
        | Throw e => e = OutOfFuel
        end).
  { intros child m1 Ht Hi.
    destruct (Hcases child m1 Ht Hi) as [->|[(cc & -> & Hr)| ->]].
    - exists [EvDom (RemoveChild el child)].
      unfold removeChild. run_simpl. simpl. split_and!; eauto.
    - exists []. simpl. rewrite app_nil_r. by split_and!.
    - exists []. simpl. rewrite app_nil_r. by split_and!. }
  clear Hcases.
  clearbody g.
  assert (Hmap : ∀ l m1, m_tags m1 = m_tags m → m_stateId m1 = m_stateId m →
    ∃ evs, m_log (mapM g l m1).2 = m_log m1 ++ evs
      ∧ Forall (λ ev, ∃ child, ev = EvDom (RemoveChild el child)) evs
      ∧ m_tags (mapM g l m1).2 = m_tags m ∧ m_stateId (mapM g l m1).2 = m_stateId m
      ∧ match (mapM g l m1).1 with
        | Ret l' =>
            Forall (λ cc, is_tagged RELOCATED (OComp cc) m = false) (omap id l')
            ∧ length (omap id l') + length evs = length l
        | Throw e => e = OutOfFuel
        end).
  { induction l as [|child l IH]; intros m1 Ht Hi; simpl.
    { exists []. rewrite app_nil_r. by split_and!. }
    destruct (Hg child m1 Ht Hi) as (evs1 & Hl1 & Hf1 & Ht1 & Hi1 & Ho1).
    unfold bind. destruct (g child m1) as [[oc|e] m2]; simpl in *.
    - destruct (IH m2 Ht1 Hi1) as (evs2 & Hl2 & Hf2 & Ht2 & Hi2 & Ho2).
      destruct (mapM g l m2) as [[l'|e] m3]; simpl in *.
      + exists (evs1 ++ evs2). destruct Ho2 as [Hfa Hlen]. rewrite length_app.
        split_and!; [by rewrite Hl2, Hl1, <-app_assoc|by apply Forall_app|done..| |].
        * destruct oc as [cc|]; [|done]. destruct Ho1 as [Hr ->]. by constructor.
        * change (list_omap (option nat) nat id l') with (omap id l').
          destruct oc as [cc|]; [destruct Ho1 as [Hr ->]|]; simpl; lia.
      + exists (evs1 ++ evs2).
        split_and!; [by rewrite Hl2, Hl1, <-app_assoc|by apply Forall_app|done..].
    - exists evs1. by split_and!. }
  destruct (Hmap (n_childNodes (m_nodes m !!! el)) m eq_refl eq_refl)
    as (evs & Hl & Hf & Ht & Hi & Ho).
  unfold bind. destruct (mapM g _ m) as [[l'|e] m3]; simpl in *; exists evs.
  - destruct Ho. by split_and!.
  - by split_and!.
Qed.



(** ** The notification traversal (C6) *)

Lemma only_log_refl m : only_log m m.
Proof. by split_and!. Qed.

Lemma only_log_trans m1 m2 m3 : only_log m1 m2 → only_log m2 m3 → only_log m1 m3.
Proof. intros (?&?&?&?&?&?) (?&?&?&?&?&?). split_and!; congruence. Qed.

Lemma only_log_is_tagged m m' k o : only_log m m' → is_tagged k o m' = is_tagged k o m.
Proof. intros (_&_&_&_&Ht&Hi). unfold is_tagged. by rewrite Ht, Hi. Qed.

Lemma only_log_tag_value m m' k o : only_log m m' → tag_value k o m' = tag_value k o m.
Proof. intros (_&_&_&_&Ht&Hi). unfold tag_value. by rewrite Ht, Hi. Qed.

Lemma only_log_didUpdate_of m m' v ev : only_log m m' → didUpdate_of m' v ev → didUpdate_of m v ev.
Proof.
  intros Hl (c & -> & Hk & Hu & Hc). exists c.
  rewrite <-!(only_log_tag_value _ _ _ _ Hl), <-(only_log_is_tagged _ _ _ _ Hl).
  destruct Hl as (Hv&_). unfold comp_of in *. rewrite <-Hv. by split_and!.
Qed.

Lemma state_get_run k o m : state_get k o m = (Ret (tag_value k o m), m).
Proof. unfold state_get, tag_value. by destruct (m_tags m !! _). Qed.

Lemma bind_state_get {X} k o (f : option Val → M X) m :
  bind (state_get k o) f m = f (tag_value k o m) m.
Proof. unfold bind. by rewrite state_get_run. Qed.

(** The notification fired for [vel] itself, after its children. *)
Lemma own_didUpdate_run vel m :
  v_kind (m_vels m !!! vel) = VirtualComponent →
  let c := (updated <- state_is UPDATED (OVel vel);;
            if updated then
              comp <- deref (v_comp (m_vels m !!! vel));;
              oldProps <- state_get OLDPROPS (OVel vel);;
              oldState <- state_get OLDSTATE (OVel vel);;
              didUpdate comp oldProps oldState
            else ret tt) in
  ∃ evs, m_log (c m).2 = m_log m ++ evs ∧ only_log m (c m).2
    ∧ Forall (didUpdate_of m vel) evs
    ∧ match (c m).1 with
      | Ret _ =>
          if is_tagged UPDATED (OVel vel) m then ∃ ev, evs = [ev] else evs = []
      | Throw e => e = TypeError ∧ evs = [] ∧ is_tagged UPDATED (OVel vel) m = true
                   ∧ comp_of m vel = None
      end.
Proof.
  intros Hk c. subst c. cbn beta. rewrite bind_state_is.
  destruct (is_tagged UPDATED (OVel vel) m) eqn:Hu.
  - fold (comp_of m vel). destruct (comp_of m vel) as [comp|] eqn:Hc; cbn [deref].
    + rewrite bind_ret, bind_state_get, bind_state_get. exists [EvDidUpdate comp
        (tag_value OLDPROPS (OVel vel) m) (tag_value OLDSTATE (OVel vel) m)].
      simpl. split_and!; [done|by split_and!| |by eexists].
      constructor; [|done]. by exists comp.
    + rewrite bind_throw. exists []. rewrite app_nil_r. by split_and!; [|apply only_log_refl|..].
  - exists []. simpl. rewrite app_nil_r. by split_and!; [|apply only_log_refl|..].
Qed.

(** What a traversal does: the store changes in its log only, and every event
    added is the update notification of a descriptor tagged UPDATED. *)
Lemma _triggerDidUpdate_events fuel vel m :
  let r := _triggerDidUpdate fuel vel m in
  ∃ evs, m_log r.2 = m_log m ++ evs ∧ only_log m r.2
         ∧ Forall (λ ev, ∃ v, didUpdate_of m v ev) evs.
Proof.
  revert vel m. induction fuel as [|fuel IH]; intros vel m; simpl.
  { exists []. rewrite app_nil_r. by split_and!; [|apply only_log_refl|]. }
  assert (Hch : ∀ l m1, ∃ evs,
    m_log (forM_ l (_triggerDidUpdate fuel) m1).2 = m_log m1 ++ evs
    ∧ only_log m1 (forM_ l (_triggerDidUpdate fuel) m1).2
    ∧ Forall (λ ev, ∃ v, didUpdate_of m1 v ev) evs).
  { induction l as [|child l IHl]; intros m1; simpl.
    { exists []. rewrite app_nil_r. by split_and!; [|apply only_log_refl|]. }
    destruct (IH child m1) as (evs1 & Hl1 & Ho1 & Hf1).
    destruct (bind_cases (_triggerDidUpdate fuel child) (λ _, forM_ l (_triggerDidUpdate fuel)) m1)
      as [([] & m2 & Hc & ->)|(e & m2 & Hc & ->)]; rewrite Hc in *; simpl in *.
    - destruct (IHl m2) as (evs2 & Hl2 & Ho2 & Hf2). exists (evs1 ++ evs2).
      split_and!; [by rewrite Hl2, Hl1, <-app_assoc|by eapply only_log_trans|].
      apply Forall_app. split; [done|]. eapply Forall_impl; [done|].
      intros ev [v Hv]. exists v. by eapply only_log_didUpdate_of.
    - by exists evs1. }
  rewrite bind_getVel. destruct (v_kind (m_vels m !!! vel)) eqn:Hk.
  - rewrite bind_state_is. unfold when.
    set (sub := if negb (is_tagged SKIPPED (OVel vel) m) then _ else _).
    assert (Hsub : ∃ evs, m_log (sub m).2 = m_log m ++ evs ∧ only_log m (sub m).2
                          ∧ Forall (λ ev, ∃ v, didUpdate_of m v ev) evs).
    { subst sub. destruct (negb _); [apply Hch|].
      exists []. rewrite app_nil_r. by split_and!; [|apply only_log_refl|]. }
    destruct Hsub as (evs1 & Hl1 & Ho1 & Hf1). clearbody sub.
    match goal with |- context [bind sub ?f m] =>
      destruct (bind_cases sub f m) as [([] & m1 & Hc & ->)|(e & m1 & Hc & ->)] end;
      rewrite Hc in *; simpl in *; [|by exists evs1].
    assert (Hk1 : v_kind (m_vels m1 !!! vel) = VirtualComponent).
    { destruct Ho1 as (-> & _). done. }
    destruct (own_didUpdate_run vel m1 Hk1) as (evs2 & Hl2 & Ho2 & Hf2 & _).
    cbn beta in *.
    assert (Hvels : m_vels m1 = m_vels m) by apply Ho1. rewrite Hvels in *.
    exists (evs1 ++ evs2).
    split_and!; [by rewrite Hl2, Hl1, <-app_assoc|by eapply only_log_trans|].
    apply Forall_app. split; [done|]. eapply Forall_impl; [done|].
    intros ev Hev. exists vel. by eapply only_log_didUpdate_of.
  - apply Hch.
  - exists []. simpl. rewrite app_nil_r. by split_and!; [|apply only_log_refl|].
Qed.

Lemma _triggerDidUpdate_children_terminate fuel (l : list nat) m :
  (∀ child m1, child ∈ l → only_log m m1 → (_triggerDidUpdate fuel child m1).1 = Ret tt) →
  (forM_ l (_triggerDidUpdate fuel) m).1 = Ret tt.
Proof.
  revert m. induction l as [|child l IHl]; intros m Hch; simpl; [done|].
  pose proof (Hch child m (list_elem_of_here _ _) (only_log_refl m)) as Hr.
  destruct (_triggerDidUpdate_events fuel child m) as (evs & _ & Ho & _).
  destruct (bind_cases (_triggerDidUpdate fuel child) (λ _, forM_ l (_triggerDidUpdate fuel)) m)
    as [([] & m2 & Hc & ->)|(e & m2 & Hc & ->)]; rewrite Hc in *; simpl in *; [|done].
  apply IHl. intros c m1 Hin Hl. apply Hch; [by right|by eapply only_log_trans].
Qed.

(** Enough fuel gives the result: on a descriptor tree of height [h], a
    traversal with more than [h] units of fuel returns. *)
Lemma _triggerDidUpdate_terminates fuel h vel m :
  height_le (m_vels m) h vel → h < fuel →
  (∀ v, is_tagged UPDATED (OVel v) m = true → comp_of m v ≠ None) →
  (_triggerDidUpdate fuel vel m).1 = Ret tt.
Proof.
  revert h vel m. induction fuel as [|fuel IH]; intros h vel m Hh Hlt Hupd; [lia|].
  assert (Hch : (forM_ (v_children (m_vels m !!! vel)) (_triggerDidUpdate fuel) m).1 = Ret tt).
  { apply _triggerDidUpdate_children_terminate. intros child m1 Hin Hl.
    destruct h as [|h]; simpl in Hh.
    { rewrite Hh in Hin. by apply elem_of_nil in Hin. }
    rewrite Forall_forall in Hh. apply (IH h); [|lia|].
    - destruct Hl as (-> & _). by apply Hh.
    - intros v Hv. rewrite (only_log_is_tagged _ _ _ _ Hl) in Hv.
      unfold comp_of. destruct Hl as (-> & _). by apply Hupd. }
  simpl. rewrite bind_getVel. destruct (v_kind (m_vels m !!! vel)) eqn:Hk; [|done..].
  rewrite bind_state_is. unfold when.
  set (sub := if negb (is_tagged SKIPPED (OVel vel) m) then _ else _).
  assert (Hsub : (sub m).1 = Ret tt ∧ only_log m (sub m).2).
  { subst sub. destruct (negb _); [|by split; [|apply only_log_refl]].
    split; [done|].
    clear Hch. generalize (v_children (m_vels m !!! vel)). intros l.
    assert (∀ m1, only_log m1 (forM_ l (_triggerDidUpdate fuel) m1).2) as Hgen; [|apply Hgen].
    induction l as [|child l IHl]; intros m1; simpl; [apply only_log_refl|].
    destruct (_triggerDidUpdate_events fuel child m1) as (evs & _ & Ho & _).
    destruct (bind_cases (_triggerDidUpdate fuel child) (λ _, forM_ l (_triggerDidUpdate fuel)) m1)
      as [([] & m2 & Hc & ->)|(e & m2 & Hc & ->)]; rewrite Hc in *; simpl in *; [|done].
    by eapply only_log_trans. }
  destruct Hsub as [Hr Hl]. clearbody sub.
  match goal with |- context [bind sub ?f m] =>
    destruct (bind_cases sub f m) as [([] & m1 & Hc & ->)|(e & m1 & Hc & ->)] end;
    rewrite Hc in *; simpl in *; [|done].
  rewrite bind_state_is. rewrite (only_log_is_tagged _ _ _ _ Hl).
  destruct (is_tagged UPDATED (OVel vel) m) eqn:Hu; [|done].
  apply Hupd in Hu. unfold comp_of in Hu.
  destruct (v_comp (m_vels m !!! vel)); [|done].
  cbn [deref]. by rewrite bind_ret, !bind_state_get.
Qed.

(** On a component descriptor the traversal is the traversal of the children
    followed by the descriptor's own notification. *)
Lemma _triggerDidUpdate_component fuel vel m :
  let r := _triggerDidUpdate (S fuel) vel m in
  v_kind (m_vels m !!! vel) = VirtualComponent → r.1 = Ret tt →
  ∃ sub own,
    m_log r.2 = m_log m ++ sub ++ own
    ∧ (if is_tagged SKIPPED (OVel vel) m then sub = []
       else m_log (forM_ (v_children (m_vels m !!! vel)) (_triggerDidUpdate fuel) m).2
            = m_log m ++ sub)
    ∧ (if is_tagged UPDATED (OVel vel) m then ∃ ev, own = [ev] ∧ didUpdate_of m vel ev
       else own = []).
Proof.
  intros r Hk. subst r. simpl. rewrite bind_getVel, Hk, bind_state_is. unfold when.
  set (sub := if negb (is_tagged SKIPPED (OVel vel) m) then _ else _).
  assert (Hsub : ∃ evs, m_log (sub m).2 = m_log m ++ evs ∧ only_log m (sub m).2
    ∧ (if is_tagged SKIPPED (OVel vel) m then evs = []
       else m_log (forM_ (v_children (m_vels m !!! vel)) (_triggerDidUpdate fuel) m).2
            = m_log m ++ evs)).
  { subst sub. destruct (is_tagged SKIPPED (OVel vel) m); simpl.
    { exists []. rewrite app_nil_r. by split_and!; [|apply only_log_refl|]. }
    generalize (v_children (m_vels m !!! vel)). intros l.
    assert (∀ m1, ∃ evs, m_log (forM_ l (_triggerDidUpdate fuel) m1).2 = m_log m1 ++ evs
              ∧ only_log m1 (forM_ l (_triggerDidUpdate fuel) m1).2) as Hgen.
    { induction l as [|child l IHl]; intros m1; simpl.
      { exists []. rewrite app_nil_r. by split; [|apply only_log_refl]. }
      destruct (_triggerDidUpdate_events fuel child m1) as (evs1 & Hl1 & Ho1 & _).
      destruct (bind_cases (_triggerDidUpdate fuel child)
                  (λ _, forM_ l (_triggerDidUpdate fuel)) m1)
        as [([] & m2 & Hc & ->)|(e & m2 & Hc & ->)]; rewrite Hc in *; simpl in *.
      - destruct (IHl m2) as (evs2 & Hl2 & Ho2). exists (evs1 ++ evs2).
        split; [by rewrite Hl2, Hl1, <-app_assoc|by eapply only_log_trans].
      - by exists evs1. }
    destruct (Hgen m) as (evs & ? & ?). by exists evs. }
  destruct Hsub as (evs1 & Hl1 & Ho1 & Hs1). clearbody sub.
  match goal with |- context [bind sub ?f m] =>
    destruct (bind_cases sub f m) as [([] & m1 & Hc & ->)|(e & m1 & Hc & ->)] end;
    rewrite Hc in *; simpl in *; [|done].
  assert (Hk1 : v_kind (m_vels m1 !!! vel) = VirtualComponent).
  { destruct Ho1 as (-> & _). done. }
  destruct (own_didUpdate_run vel m1 Hk1) as (evs2 & Hl2 & Ho2 & Hf2 & Hres).
  cbn beta in *. assert (Hvels : m_vels m1 = m_vels m) by apply Ho1. rewrite Hvels in Hl2, Ho2, Hres.
  intros Hret. rewrite Hret in Hres. rewrite (only_log_is_tagged _ _ _ _ Ho1) in Hres.
  exists evs1, evs2. split_and!; [by rewrite Hl2, Hl1, <-app_assoc|done|].
  destruct (is_tagged UPDATED (OVel vel) m); [|done].
  destruct Hres as [ev ->]. exists ev. split; [done|].
  apply Forall_inv in Hf2. by apply (only_log_didUpdate_of m m1).
Qed.


(** ** Synchronizing a node with its descriptor (C9) *)

Lemma Map_get_Some_keys {A} k (h : list (string * A)) v : Map_get k h = Some v → k ∈ Map_keys h.
Proof.
  unfold Map_keys. induction h as [|[k' v'] h IH]; simpl; [done|].
  case_decide; [subst; intros _; by left|]. intros Hg. right. auto.
Qed.

Lemma Map_get_None_keys {A} k (h : list (string * A)) : Map_get k h = None ↔ k ∉ Map_keys h.
Proof.
  unfold Map_keys. induction h as [|[k' v'] h IH]; simpl.
  - split; [intros _ H; by apply elem_of_nil in H|done].
  - case_decide; [subst|].
    + split; [done|]. intros Hn. destruct Hn. by left.
    + rewrite IH. split; [intros Hn [->|Hin]%elem_of_cons; done|].
      intros Hn Hin. apply Hn. by right.
Qed.

Section updateHash.
Variables (update : string → string → M unit) (remove : string → M unit).
Variables (uev : string → string → Event) (rev : string → Event).
Hypothesis update_run :
  ∀ k v m, (update k v m).1 = Ret tt ∧ m_log (update k v m).2 = m_log m ++ [uev k v].
Hypothesis remove_run :
  ∀ k m, (remove k m).1 = Ret tt ∧ m_log (remove k m).2 = m_log m ++ [rev k].

Lemma _updateHash_log (newHash oldHash : Hash) m :
  let r := _updateHash (Some newHash) (Some oldHash) update remove m in
  r.1 = Ret tt
  ∧ m_log r.2 = m_log m ++ ((λ e, uev e.1 e.2) <$> hash_updates newHash oldHash)
                  ++ (rev <$> hash_removes newHash oldHash).
Proof.
  unfold _updateHash, hash_updates, hash_removes.
  change (default [] (Some newHash)) with newHash.
  change (default [] (Some oldHash)) with oldHash. cbv zeta.
  assert (Hup : ∀ (keys : list string) m1,
    let f := λ key, if bool_decide (_hashGet oldHash key ≠ _hashGet newHash key)
                    then update key (default "" (_hashGet newHash key)) else ret tt in
    (forM_ keys f m1).1 = Ret tt
    ∧ m_log (forM_ keys f m1).2
      = m_log m1 ++ ((λ e, uev e.1 e.2) <$>
          omap (λ key, if bool_decide (_hashGet oldHash key ≠ _hashGet newHash key)
                       then Some (key, default "" (_hashGet newHash key)) else None) keys)).
  { induction keys as [|k keys IH]; intros m1 f; simpl; [by rewrite app_nil_r|].
    subst f. cbn beta. destruct (bool_decide _).
    - destruct (update_run k (default "" (_hashGet newHash k)) m1) as [Hr Hl].
      match goal with |- context [bind ?c ?g m1] =>
        destruct (bind_cases c g m1) as [([] & m2 & Hc & ->)|(e & m2 & Hc & ->)] end;
        rewrite Hc in Hr, Hl; simpl in *; [|done].
      destruct (IH m2) as [Hr2 Hl2]. split; [done|]. by rewrite Hl2, Hl, <-app_assoc.
    - rewrite bind_ret. apply IH. }
  assert (Hrm : ∀ (keys : list string) m1,
    let f := λ key, if bool_decide (key ∈ Map_keys newHash) then ret tt else remove key in
    (forM_ keys f m1).1 = Ret tt
    ∧ m_log (forM_ keys f m1).2
      = m_log m1 ++ (rev <$> filter (λ key, key ∉ Map_keys newHash) keys)).
  { induction keys as [|k keys IH]; intros m1 f; simpl; [by rewrite app_nil_r|].
    subst f. cbn beta. rewrite filter_cons. destruct (decide (k ∈ Map_keys newHash)) as [Hin|Hnin].
    - rewrite bool_decide_eq_true_2 by done. rewrite decide_False by auto.
      rewrite bind_ret. apply IH.
    - rewrite bool_decide_eq_false_2 by done. rewrite decide_True by done.
      destruct (remove_run k m1) as [Hr Hl].
      match goal with |- context [bind ?c ?g m1] =>
        destruct (bind_cases c g m1) as [([] & m2 & Hc & ->)|(e & m2 & Hc & ->)] end;
        rewrite Hc in Hr, Hl; simpl in *; [|done].
      destruct (IH m2) as [Hr2 Hl2]. split; [done|]. by rewrite Hl2, Hl, <-app_assoc. }
  destruct (Hup (Map_keys newHash) m) as [Hr1 Hl1].
  match goal with |- context [bind ?c ?g m] =>
    destruct (bind_cases c g m) as [([] & m2 & Hc & ->)|(e & m2 & Hc & ->)] end;
    cbv zeta in Hr1, Hl1; rewrite Hc in Hr1, Hl1; simpl in *; [|done].
  destruct (Hrm (Map_keys oldHash) m2) as [Hr2 Hl2]. split; [done|].
  by rewrite Hl2, Hl1, <-app_assoc.
Qed.
End updateHash.

Lemma hash_updates_changed (newHash oldHash : Hash) k v :
  Map_get k newHash = Some v → Map_get k oldHash ≠ Some v → (k, v) ∈ hash_updates newHash oldHash.
Proof.
  intros Hn Ho. unfold hash_updates. apply list_elem_of_omap. exists k.
  split; [by eapply Map_get_Some_keys|].
  unfold _hashGet. rewrite Hn. rewrite bool_decide_eq_true_2; [done|congruence].
Qed.

Lemma hash_updates_same (newHash oldHash : Hash) k v :
  Map_get k newHash = Map_get k oldHash → (k, v) ∉ hash_updates newHash oldHash.
Proof.
  intros Heq. unfold hash_updates. intros (k' & Hin & Hk)%list_elem_of_omap.
  case_bool_decide as Hd; [|done]. injection Hk as -> _. unfold _hashGet in Hd. congruence.
Qed.

Lemma hash_updates_inv (newHash oldHash : Hash) k v :
  (k, v) ∈ hash_updates newHash oldHash →
  Map_get k newHash = Some v ∧ Map_get k oldHash ≠ Some v.
Proof.
  unfold hash_updates. intros (k' & Hin & Hk)%list_elem_of_omap.
  case_bool_decide as Hd; [|done]. injection Hk as -> <-. unfold _hashGet in *.
  destruct (Map_get k newHash) as [v'|] eqn:Hg.
  - split; [done|]. simpl. congruence.
  - apply Map_get_None_keys in Hg. done.
Qed.

Lemma hash_removes_spec (newHash oldHash : Hash) k :
  k ∈ hash_removes newHash oldHash ↔ k ∈ Map_keys oldHash ∧ k ∉ Map_keys newHash.
Proof. unfold hash_removes. rewrite list_elem_of_filter. tauto. Qed.

Lemma setAttribute_run el k v m :
  (setAttribute el k v m).1 = Ret tt
  ∧ m_log (setAttribute el k v m).2 = m_log m ++ [EvDom (SetAttribute el k v)].
Proof. done. Qed.

Lemma removeAttribute_run el k m :
  (removeAttribute el k m).1 = Ret tt
  ∧ m_log (removeAttribute el k m).2 = m_log m ++ [EvDom (RemoveAttribute el k)].
Proof. done. Qed.

Lemma setProperty_run el k v m :
  (setProperty el k v m).1 = Ret tt
  ∧ m_log (setProperty el k v m).2 = m_log m ++ [EvDom (SetProperty el k v)].
Proof. done. Qed.

Lemma removeProperty_run el k m :
  (removeProperty el k m).1 = Ret tt
  ∧ m_log (removeProperty el k m).2 = m_log m ++ [EvDom (RemoveProperty el k)].
Proof. done. Qed.

Lemma _updateListeners_log el (newListeners : list Listener) m :
  let r := _updateListeners el newListeners m in
  r.1 = Ret tt
  ∧ m_log r.2 = m_log m ++ EvDom (RemoveAllEventListeners el)
                  :: ((λ l, EvDom (AddEventListener el l)) <$> newListeners).
Proof.
  unfold _updateListeners, removeAllEventListeners. run_simpl.
  set (m1 := (modNode el _ _).2).
  assert (Hl1 : m_log m1 = m_log m ++ [EvDom (RemoveAllEventListeners el)]) by done.
  clearbody m1.
  enough (∀ m2, (forM_ newListeners (addEventListener el) m2).1 = Ret tt
    ∧ m_log (forM_ newListeners (addEventListener el) m2).2
      = m_log m2 ++ ((λ l, EvDom (AddEventListener el l)) <$> newListeners)) as Hgen.
  { destruct (Hgen m1) as [Hr Hl]. split; [done|]. by rewrite Hl, Hl1, <-app_assoc. }
  induction newListeners as [|l ls IH]; intros m2; simpl; [by rewrite app_nil_r|].
  unfold addEventListener at 1 3. run_simpl.
  destruct (IH ((modNode el (λ n, set_n_listeners (n_listeners n ++ [l]) n)
                   (emit (EvDom (AddEventListener el l)) m2).2).2)) as [Hr Hl].
  split; [done|]. rewrite Hl. simpl. by rewrite <-app_assoc.
Qed.

Lemma hash_updates_spec (newHash oldHash : Hash) k v :
  (k, v) ∈ hash_updates newHash oldHash
  ↔ Map_get k newHash = Some v ∧ Map_get k oldHash ≠ Some v.
Proof.
  split; [apply hash_updates_inv|]. intros [Hn Ho]. by apply hash_updates_changed.
Qed.

Lemma _updateDOMElement_text el vel m :
  v_kind (m_vels m !!! vel) = VirtualTextNode →
  let r := _updateDOMElement el vel m in
  r.1 = Ret tt
  ∧ m_log r.2 = m_log m ++
      (if bool_decide (n_textContent (m_nodes m !!! el) ≠ v_text (m_vels m !!! vel))
       then [EvDom (SetTextContent el (v_text (m_vels m !!! vel)))] else []).
Proof.
  intros Hk. unfold _updateDOMElement. rewrite bind_getVel, bind_getNode, Hk.
  destruct (bool_decide _); simpl; [done|by rewrite app_nil_r].
Qed.




(** ** Ancestor-link propagation and relocation (C8) *)

Lemma only_fuel_ret {X} (x : X) : only_fuel (ret x).
Proof. done. Qed.

Lemma only_fuel_bind {X Y} (c : M X) (f : X → M Y) :
  only_fuel c → (∀ x, only_fuel (f x)) → only_fuel (bind c f).
Proof.
  intros Hc Hf m. specialize (Hc m).
  destruct (bind_cases c f m) as [(x & m1 & Hr & ->)|(e & m1 & Hr & ->)]; rewrite Hr in Hc.
  - apply Hf.
  - done.
Qed.

Lemma only_fuel_state_is k o : only_fuel (state_is k o).
Proof. intros m. by rewrite state_is_run. Qed.

Lemma only_fuel_state_set k o v : only_fuel (state_set k o v).
Proof. intros m. by rewrite state_set_ret. Qed.

Lemma only_fuel_isMapped c v : only_fuel (_isMapped c v).
Proof. intros m. by rewrite _isMapped_run. Qed.

Lemma only_fuel_isLinked c v : only_fuel (_isLinked c v).
Proof. intros m. by rewrite (proj1 (_isLinked_spec c v m)). Qed.

Lemma only_fuel_link c v : only_fuel (_link c v).
Proof. intros m. by rewrite _link_run. Qed.

Lemma only_fuel_reject c v : only_fuel (_reject c v).
Proof. intros m. by rewrite _reject_run. Qed.

Lemma only_fuel_skipElementComponents fuel p : only_fuel (skipElementComponents fuel p).
Proof.
  revert p. induction fuel as [|fuel IH]; intros [p|] m; simpl; try done.
  - rewrite bind_getComp. by destruct (_isElementComponent _).
  - rewrite bind_getComp. destruct (_isElementComponent _); [apply IH|done].
Qed.

Create HintDb only_fuel.

#[local] Hint Resolve only_fuel_ret only_fuel_state_is only_fuel_state_set only_fuel_isMapped
  only_fuel_isLinked only_fuel_link only_fuel_reject only_fuel_skipElementComponents : only_fuel.

Ltac only_fuel_step :=
  lazymatch goal with
  | |- only_fuel (bind _ _) => apply only_fuel_bind; [|intros ?]
  | |- only_fuel (when ?b _) => destruct b; unfold when
  | |- only_fuel (if ?b then _ else _) => destruct b
  | |- only_fuel (match ?x with _ => _ end) => destruct x
  | |- only_fuel (getVel _) => done
  | |- only_fuel (getComp _) => done
  | |- only_fuel (throw OutOfFuel) => done
  | |- only_fuel _ => solve [eauto with only_fuel]
  end.

(** Relocation never raises an error. *)
Lemma only_fuel_propagateLinking fuel comp vel stop :
  only_fuel (_propagateLinking fuel comp vel stop).
Proof.
  revert comp vel stop. induction fuel as [|fuel IH]; intros comp vel stop; simpl;
    repeat only_fuel_step.
Qed.

Lemma _propagateLinking_component fuel comp vel m :
  v_kind (m_vels m !!! vel) = VirtualComponent →
  _propagateLinking (S fuel) (Some comp) (Some vel) false m
  = (canLinkParent <- ancestor_call fuel m comp vel;;
     when (negb canLinkParent)
          (state_set RELOCATED (OVel vel) VTrue;; state_set RELOCATED (OComp comp) VTrue);;
     ret canLinkParent) m.
Proof.
  intros Hk. cbn [_propagateLinking]. rewrite bind_ret, bind_getVel, bind_getComp, Hk.
  rewrite bool_decide_eq_false_2 by auto. rewrite bind_ret. cbn [negb].
  rewrite bool_decide_eq_true_2 by done. cbn [andb]. unfold ancestor_call.
  by destruct (v_parent (m_vels m !!! vel)), (v_preliminaryParent (m_vels m !!! vel)).
Qed.

Lemma same_chains_refl m : same_chains m m.
Proof. by split. Qed.

Lemma same_chains_trans m1 m2 m3 : same_chains m1 m2 → same_chains m2 m3 → same_chains m1 m3.
Proof.
  intros [Hc1 Hv1] [Hc2 Hv2]. split; [congruence|]. intros v.
  destruct (Hv1 v) as (?&?&?), (Hv2 v) as (?&?&?). split_and!; congruence.
Qed.

Lemma same_chains_state_set k o v m : same_chains m (state_set k o v m).2.
Proof. destruct (state_set_heap k o v m) as (Hv & Hc & _). split; [done|]. by rewrite Hv. Qed.

Lemma same_chains_set_comp vc c m : same_chains m (modVel vc (set_v_comp c) m).2.
Proof.
  split; [done|]. intros v. simpl. destruct (decide (v = vc)) as [->|Hne].
  - by rewrite lookup_total_insert_eq.
  - by rewrite lookup_total_insert_ne.
Qed.

Lemma same_chains_link c vc m : same_chains m (_link c vc m).2.
Proof.
  rewrite _link_run. cbn [snd].
  repeat (eapply same_chains_trans; [|apply same_chains_state_set]).
  apply same_chains_set_comp.
Qed.

Lemma same_chains_reject c vc m : same_chains m (_reject c vc m).2.
Proof.
  rewrite _reject_run. cbn [snd]. destruct c;
    repeat (eapply same_chains_trans; [|apply same_chains_state_set]);
    apply same_chains_set_comp.
Qed.

Lemma vdepth_le_same m m' d vel :
  same_chains m m' → vdepth_le (m_vels m) d vel → vdepth_le (m_vels m') d vel.
Proof.
  intros [_ Hv]. revert vel. induction d as [|d IH]; intros [v|]; simpl; try done.
  destruct (Hv v) as (-> & -> & _). intros [? ?]. split; auto.
Qed.

Lemma vdepth_le_mono vels d d' vel : d ≤ d' → vdepth_le vels d vel → vdepth_le vels d' vel.
Proof.
  revert d' vel. induction d as [|d IH]; intros [|d'] [v|] Hle; simpl; try done; try lia.
  intros [? ?]. split; (apply IH; [lia|done]).
Qed.

Lemma cdepth_le_mono comps d d' c : d ≤ d' → cdepth_le comps d c → cdepth_le comps d' c.
Proof.
  revert d' c. induction d as [|d IH]; intros [|d'] [c|] Hle; simpl; try done; try lia.
  apply IH. lia.
Qed.

Lemma skipElementComponents_terminates fuel d p m :
  cdepth_le (m_comps m) d p → d ≤ fuel →
  ∃ p', skipElementComponents fuel p m = (Ret p', m).
Proof.
  revert d p. induction fuel as [|fuel IH]; intros [|d] [p|] Hd Hle; simpl in *;
    try done; try lia; try by eexists.
  rewrite bind_getComp. destruct (_isElementComponent _); [|by eexists].
  apply (IH d); [done|lia].
Qed.

Lemma same_chains_isLinked c vc m : same_chains m (_isLinked c vc m).2.
Proof.
  destruct (_isLinked_spec c vc m) as (_ & Hv & Hc & _). split; [done|]. by rewrite Hv.
Qed.

(** Enough fuel gives the result: [_propagateLinking] returns when the parent
    chains above the descriptor and above the instances are finite. *)
Lemma _propagateLinking_terminates fuel d D comp vel stop m :
  vdepth_le (m_vels m) d vel → (∀ c, cdepth_le (m_comps m) D c) → d + D < fuel →
  ∃ b, (_propagateLinking fuel comp vel stop m).1 = Ret b
       ∧ same_chains m (_propagateLinking fuel comp vel stop m).2.
Proof.
  revert d comp vel stop m.
  induction fuel as [|fuel IH]; intros d comp vel stop m Hd HD Hlt; [lia|].
  cbn [_propagateLinking].
  destruct vel as [vel|]; [|exists false; split; [done|apply same_chains_refl]].
  destruct comp as [comp|]; [|exists false; split; [done|apply same_chains_refl]].
  destruct d as [|d]; [done|]. cbn [vdepth_le] in Hd. destruct Hd as [Hd1 Hd2].
  assert (Hstop : ∃ b0, (if stop then _isMapped comp vel else ret false) m = (Ret b0, m)).
  { destruct stop; [rewrite _isMapped_run|]; by eexists. }
  destruct Hstop as [b0 Hstop]. rewrite (bind_ret_run _ _ _ _ _ Hstop).
  destruct b0.
  { destruct (_isLinked_spec comp vel m) as (Hr & _). eexists. split; [exact Hr|].
    apply same_chains_isLinked. }
  rewrite bind_getVel, bind_getComp.
  set (v := m_vels m !!! vel) in *. set (c := m_comps m !!! comp).
  set (proceed := if bool_decide (v_kind v ≠ VirtualComponent) then _ else _).
  assert (Hp : ∃ p m1, proceed m = (Ret p, m1) ∧ same_chains m m1).
  { subst proceed. destruct (bool_decide _); [|by exists true, m; split; [|apply same_chains_refl]].
    destruct (negb _).
    - exists false, (_reject (Some comp) vel m).2. rewrite bind_ret_run with (x := tt)
        (m1 := (_reject (Some comp) vel m).2) by (by rewrite _reject_run).
      split; [done|apply same_chains_reject].
    - exists true, (_link comp vel m).2. rewrite bind_ret_run with (x := tt)
        (m1 := (_link comp vel m).2) by (by rewrite _link_run).
      split; [done|apply same_chains_link]. }
  destruct Hp as (p & m1 & Hp & Hs1). clearbody proceed.
  rewrite (bind_ret_run _ _ _ _ _ Hp).
  destruct p; cbn [negb]; [|by exists false].
  assert (HD1 : ∀ c', cdepth_le (m_comps m1) D c').
  { intros c'. destruct Hs1 as [-> _]. apply HD. }
  set (anc := match v_parent v with Some vp => _ | None => _ end).
  assert (Ha : ∃ b m2, anc m1 = (Ret b, m2) ∧ same_chains m1 m2).
  { subst anc. destruct (v_parent v) as [vp|] eqn:Hvp.
    - destruct (IH d (c_parent c) (Some vp) true m1) as (b & Hb & Hs); [|done|lia|].
      { by apply (vdepth_le_same m). }
      destruct (_propagateLinking fuel (c_parent c) (Some vp) true m1) as [o m2].
      simpl in *. subst o. by exists b, m2.
    - destruct (v_preliminaryParent v) as [pp|] eqn:Hpp;
        [|exists false, m1; split; [done|apply same_chains_refl]].
      destruct (skipElementComponents_terminates fuel D (c_parent c) m1) as [p' Hsk];
        [apply HD1|lia|].
      rewrite (bind_ret_run _ _ _ _ _ Hsk).
      destruct (IH d p' (Some pp) true m1) as (b & Hb & Hs); [|done|lia|].
      { by apply (vdepth_le_same m). }
      destruct (_propagateLinking fuel p' (Some pp) true m1) as [o m2].
      simpl in *. subst o. by exists b, m2. }
  destruct Ha as (b & m2 & Ha & Hs2). clearbody anc.
  rewrite (bind_ret_run _ _ _ _ _ Ha).
  exists b. destruct (bool_decide (v_kind v = VirtualComponent) && negb b); unfold when.
  - rewrite bind_bind, bind_state_set, bind_state_set. split; [done|]. cbn [ret snd].
    eapply same_chains_trans; [exact Hs1|]. eapply same_chains_trans; [exact Hs2|].
    eapply same_chains_trans; apply same_chains_state_set.
  - rewrite bind_ret. split; [done|]. by eapply same_chains_trans.
Qed.


(** ** The second pass over an unchanged tree (C5) *)

Lemma hash_in_sync (newHash oldHash : Hash) :
  (∀ k, Map_get k newHash = Map_get k oldHash) →
  hash_updates newHash oldHash = [] ∧ hash_removes newHash oldHash = [].
Proof.
  intros Heq. split.
  - unfold hash_updates, _hashGet. induction (Map_keys newHash) as [|k l IH]; [done|].
    cbn [omap list_omap]. rewrite bool_decide_eq_false_2 by (rewrite Heq; tauto). apply IH.
  - unfold hash_removes. assert (Hall : ∀ k, k ∈ Map_keys oldHash → k ∈ Map_keys newHash).
    { intros k Hin. destruct (decide (k ∈ Map_keys newHash)) as [|Hn]; [done|].
      apply Map_get_None_keys in Hn. rewrite Heq in Hn. by apply Map_get_None_keys in Hn. }
    induction (Map_keys oldHash) as [|k l IH]; [done|].
    rewrite filter_cons, decide_False.
    + apply IH. intros k' Hin. apply Hall. by right.
    + intros Hn. apply Hn, Hall. by left.
Qed.

(** In-place synchronization of an element node that already agrees with its
    descriptor: the listeners are registered again, nothing else happens. *)
Lemma _updateDOMElement_in_sync el vel m :
  let v := m_vels m !!! vel in
  let n := m_nodes m !!! el in
  v_kind v ≠ VirtualTextNode →
  toLowerCase (v_tagName v) = getTagName n →
  (∀ k, Map_get k (ep_attributes (v_eprops v)) = Map_get k (n_attributes n)) →
  (∀ k, Map_get k (ep_htmlProps (v_eprops v)) = Map_get k (n_htmlProps n)) →
  (∀ h, v_innerHTMLString v = Some h → n_hasInnerHTML n = true ∧ n_innerHTML n = h) →
  let r := _updateDOMElement el vel m in
  r.1 = Ret tt
  ∧ m_log r.2 = m_log m ++ EvDom (RemoveAllEventListeners el)
                  :: ((λ l, EvDom (AddEventListener el l)) <$> ep_eventListeners (v_eprops v)).
Proof.
  intros v n Hk Htag Hattr Hprops Hhtml r. subst r.
  assert (∃ m3, _updateDOMElement el vel m
    = (match v_innerHTMLString v with
       | Some newInnerHTML =>
           (if negb (n_hasInnerHTML n) then empty el;; setInnerHTML el newInnerHTML
            else if bool_decide (n_innerHTML n ≠ newInnerHTML) then setInnerHTML el newInnerHTML
            else ret tt);;
           modNode el (set_n_hasInnerHTML true)
       | None => ret tt
       end)%M m3
    ∧ m_log m3 = m_log m ++ EvDom (RemoveAllEventListeners el)
                  :: ((λ l, EvDom (AddEventListener el l)) <$> ep_eventListeners (v_eprops v)))
    as (m3 & -> & Hl3).
  { unfold _updateDOMElement. rewrite bind_getVel, bind_getNode. fold v n.
    destruct (hash_in_sync _ _ Hattr) as [Hu1 Hr1].
    destruct (hash_in_sync _ _ Hprops) as [Hu2 Hr2].
    pose proof (_updateHash_log (setAttribute el) (removeAttribute el)
             (λ k v, EvDom (SetAttribute el k v)) (λ k, EvDom (RemoveAttribute el k))
             (setAttribute_run el) (removeAttribute_run el)) as Ha.
    pose proof (_updateHash_log (setProperty el) (removeProperty el)
             (λ k v, EvDom (SetProperty el k v)) (λ k, EvDom (RemoveProperty el k))
              (setProperty_run el) (removeProperty_run el)) as Hp.
    assert (Hrest : ∃ m3,
      (when (bool_decide (toLowerCase (v_tagName v) ≠ getTagName n)) (setTagName el (v_tagName v));;
       _updateHash (Some (ep_attributes (v_eprops v))) (Some (n_attributes n))
                   (setAttribute el) (removeAttribute el);;
       _updateHash (Some (ep_htmlProps (v_eprops v))) (Some (n_htmlProps n))
                   (setProperty el) (removeProperty el);;
       _updateListeners el (ep_eventListeners (v_eprops v));;
       match v_innerHTMLString v with
       | Some newInnerHTML =>
           (if negb (n_hasInnerHTML n) then empty el;; setInnerHTML el newInnerHTML
            else if bool_decide (n_innerHTML n ≠ newInnerHTML) then setInnerHTML el newInnerHTML
            else ret tt);;
           modNode el (set_n_hasInnerHTML true)
       | None => ret tt
       end)%M m
      = (match v_innerHTMLString v with
         | Some newInnerHTML =>
             (if negb (n_hasInnerHTML n) then empty el;; setInnerHTML el newInnerHTML
              else if bool_decide (n_innerHTML n ≠ newInnerHTML) then setInnerHTML el newInnerHTML
              else ret tt);;
             modNode el (set_n_hasInnerHTML true)
         | None => ret tt
         end)%M m3
      ∧ m_log m3 = m_log m ++ EvDom (RemoveAllEventListeners el)
                    :: ((λ l, EvDom (AddEventListener el l)) <$> ep_eventListeners (v_eprops v))).
    { rewrite bool_decide_eq_false_2 by tauto. unfold when. rewrite bind_ret.
      destruct (Ha (ep_attributes (v_eprops v)) (n_attributes n) m) as [Hra Hla].
      rewrite Hu1, Hr1 in Hla.
      match goal with |- context [bind ?c ?g m] =>
        destruct (bind_cases c g m) as [([] & m1 & Hc & ->)|(e & m1 & Hc & ->)] end;
        rewrite Hc in Hra, Hla; simpl in Hra, Hla; [|done].
      destruct (Hp (ep_htmlProps (v_eprops v)) (n_htmlProps n) m1) as [Hrp Hlp].
      rewrite Hu2, Hr2 in Hlp.
      match goal with |- context [bind ?c ?g m1] =>
        destruct (bind_cases c g m1) as [([] & m2 & Hc2 & ->)|(e & m2 & Hc2 & ->)] end;
        rewrite Hc2 in Hrp, Hlp; simpl in Hrp, Hlp; [|done].
      destruct (_updateListeners_log el (ep_eventListeners (v_eprops v)) m2) as [Hrl Hll].
      match goal with |- context [bind ?c ?g m2] =>
        destruct (bind_cases c g m2) as [([] & m3 & Hc3 & ->)|(e & m3 & Hc3 & ->)] end;
        rewrite Hc3 in Hrl, Hll; simpl in Hrl, Hll; [|done].
      exists m3. split; [done|]. by rewrite Hll, Hlp, Hla, !app_nil_r. }
    destruct (v_kind v); [exact Hrest|exact Hrest|done]. }
  destruct (v_innerHTMLString v) as [h|] eqn:Hh; [|done].
  destruct (Hhtml h eq_refl) as [-> ->]. simpl.
  rewrite bool_decide_eq_false_2 by tauto. done.
Qed.

Lemma grows_trans m1 m2 m3 : grows m1 m2 → grows m2 m3 → grows m1 m3.
Proof.
  intros [Ht1 [evs1 Hl1]] [Ht2 [evs2 Hl2]]. split; [auto|].
  exists (evs1 ++ evs2). by rewrite Hl2, Hl1, <-app_assoc.
Qed.

(** What the first of two commands has tagged and logged is still there after
    the second. *)
Lemma sound_bind_grows {X Y} (A : Event → Prop) (c : M X) (f : X → M Y) m :
  (∀ x, sound A (f x)) → grows (c m).2 (bind c f m).2.
Proof.
  intros Hf.
  destruct (bind_cases c f m) as [(x & m1 & Hcm & ->)|(e & m1 & Hcm & ->)];
    rewrite Hcm; simpl.
  - destruct (Hf x m1) as (evs & Hl & _ & (_ & _ & _ & Hmono) & _).
    split; [done|by exists evs].
  - split; [done|]. exists []. by rewrite app_nil_r.
Qed.

Section capture_marks_updated.
Context `{Collaborators}.

#[local] Hint Resolve sound_state_is sound_state_is_vel sound_state_is_comp
  sound_createComponent sound_createElementComponent sound_createTextNodeComponent
  sound_setProps sound_setParent sound_newContext sound_el_of
  sound_getInternalComponentData sound_link sound_reject sound_isMapped sound_isLinked
  sound_linkComponent sound_skipElementComponents sound_propagateLinking sound_trace_up
  sound_getVirtualComponentTrace sound_extractInternalRefs_loop sound_extractInternalRefs
  sound_create sound_capture : sound.

(** A component descriptor that is captured below the top level and carries
    an instance of an earlier pass is tagged UPDATED, whatever
    [shouldRerender] answers and however the capture ends. *)
Lemma _capture_marks_updated fuel vel c m :
  v_kind (m_vels m !!! vel) = VirtualComponent →
  comp_of m vel = Some c →
  is_tagged CAPTURED (OVel vel) m = false →
  is_tagged NEW (OVel vel) m = false →
  let r := _capture (S fuel) vel NO_MODE m in
  is_tagged UPDATED (OVel vel) r.2 = true
  ∧ ∃ evs, m_log r.2 = m_log m ++ EvSetProps c (v_props (m_vels m !!! vel)) :: evs.
Proof.
  intros Hk Hc Hcap Hnew r. subst r. unfold comp_of in Hc.
  cbn [_capture]. rewrite bind_state_is, Hcap, bind_getVel, Hc, bind_ret, Hk.
  match goal with |- context [(bind (bind ?nr ?k1) ?k2 m).2] =>
    assert (Hk1 : ∀ x, sound quiet (k1 x));
    [|assert (Hk2 : ∀ x, sound quiet (k2 x));
      [|pose proof (grows_trans _ _ _ (sound_bind_grows quiet nr k1 m Hk1)
                      (sound_bind_grows quiet (bind nr k1) k2 m Hk2)) as Hg;
        assert (Hnr : is_tagged UPDATED (OVel vel) (nr m).2 = true
                 ∧ m_log (nr m).2 = m_log m ++ [EvSetProps c (v_props (m_vels m !!! vel))])]]
  end.
  - intros needRerender. destruct needRerender; [|sound_auto].
    apply sound_bind; [sound_auto|intros context].
    apply sound_render_check; [done|done|done|intros content..].
    + sound_auto; apply sound_forEachComponent; intros; sound_auto.
    + sound_auto; apply sound_forEachComponent; intros; sound_auto.
  - intros _. sound_auto.
  - unfold _setProps. run_simpl.
    set (m5 := (modComp _ _ _).2).
    assert (Hnew5 : is_tagged NEW (OVel vel) m5 = false).
    { subst m5. change (is_tagged NEW (OVel vel) (modComp ?c ?f (emit ?ev ?m1).2).2)
        with (is_tagged NEW (OVel vel) m1).
      rewrite !is_tagged_state_set, !decide_True by done. by rewrite is_tagged_modVel. }
    assert (Hlog5 : m_log m5 = m_log m ++ [EvSetProps c (v_props (m_vels m !!! vel))]).
    { subst m5. cbn [modComp emit snd set_m_comps set_m_log m_log].
      by rewrite !(proj1 (proj2 (proj2 (proj2 (state_set_heap _ _ _ _))))). }
    rewrite Hnew5. cbn [negb when]. rewrite bind_state_set. cbn [ret snd]. split.
    + rewrite is_tagged_state_set, decide_True by done. done.
    + by rewrite (proj1 (proj2 (proj2 (proj2 (state_set_heap _ _ _ _))))).
  - destruct Hnr as [Htag Hlog]. destruct Hg as [Hmono [evs Hevs]]. split; [by apply Hmono|].
    exists evs. by rewrite Hevs, Hlog, <-app_assoc.
Qed.
End capture_marks_updated.

(** The traversal fires the update notification of a component descriptor
    tagged UPDATED, as its last event. *)
Lemma _triggerDidUpdate_fires fuel h vel c m :
  v_kind (m_vels m !!! vel) = VirtualComponent →
  is_tagged UPDATED (OVel vel) m = true →
  comp_of m vel = Some c →
  height_le (m_vels m) h vel → h ≤ fuel →
  (∀ v, is_tagged UPDATED (OVel v) m = true → comp_of m v ≠ None) →
  let r := _triggerDidUpdate (S fuel) vel m in
  r.1 = Ret tt
  ∧ ∃ sub, m_log r.2 = m_log m ++ sub
             ++ [EvDidUpdate c (tag_value OLDPROPS (OVel vel) m)
                               (tag_value OLDSTATE (OVel vel) m)].
Proof.
  intros Hk Hu Hc Hh Hle Hupd r. subst r.
  assert (Hr : (_triggerDidUpdate (S fuel) vel m).1 = Ret tt).
  { apply (_triggerDidUpdate_terminates (S fuel) h); [done|lia|done]. }
  split; [done|].
  destruct (_triggerDidUpdate_component fuel vel m Hk Hr) as (sub & own & Hl & _ & Hown).
  rewrite Hu in Hown. destruct Hown as (ev & -> & c' & -> & _ & _ & Hc').
  exists sub. rewrite Hl. repeat f_equal. congruence.
Qed.


Lemma is_tagged_elem k o m :
  is_tagged k o m = true →
  ∃ id info, (id, o, info) ∈ map_to_list (m_tags m) ∧ Info_get k info ≠ None.
Proof.
  unfold is_tagged. intros Hv. destruct (m_tags m !! (m_stateId m, o)) as [info|] eqn:E; [|done].
  exists (m_stateId m), info. split; [by apply elem_of_map_to_list|].
  by apply bool_decide_eq_true in Hv.
Qed.

(** In [m_recaptured] the only descriptor tagged UPDATED is 5. *)
Lemma m_recaptured_updated v :
  is_tagged UPDATED (OVel v) m_recaptured = true → comp_of m_recaptured v ≠ None.
Proof.
  intros Hv. apply is_tagged_elem in Hv as (id & info & E & Hi).
  assert (Hl : map_to_list (m_tags m_recaptured)
    = [(100, OVel 5, [(CAPTURED, VTrue); (UPDATED, VTrue); (OLDSTATE, VData []);
                      (OLDPROPS, VData [("n", "1")])]);
       (100, OVel 19, [(CAPTURED, VTrue); (NEW, VTrue)])]) by (vm_compute; reflexivity).
  rewrite Hl in E. clear Hl.
  repeat (apply elem_of_cons in E as [E|E];
          [injection E as _ -> ->;
           first [by vm_compute | by (exfalso; apply Hi; vm_compute)]|]).
  apply elem_of_nil in E. destruct E.
Defined.


(** ** Contract violations (C3), release of the tags (C4), adoption (C10) *)

(** The event logged by a render call tells what the routine returned. *)
Lemma render_shape_nil `{Collaborators} comp context m :
  (render comp context m).1 = Ret CNil
  ↔ (comp_render m comp context).1 = Ret RNil.
Proof.
  unfold render. destruct (comp_render m comp context) as [[r|e] [[vels ctxs] next]]; simpl;
    [|split; intros [=]].
  destruct r as [|v|]; simpl; [done| |split; intros [=]].
  destruct (v_kind _); split; intros [=].
Qed.

(** C3: whenever, during a pass, a render routine returns a falsy value, the
    pass fails with EmptyRenderResult; whenever one returns a value that is
    neither a component descriptor nor an element descriptor, the pass fails
    with InvalidRenderResult; either way the tags of the pass are released and
    its context stack is emptied. *)
Theorem C3_contract_violation `{Collaborators} (fuel id comp : nat)
    (oldProps oldState : option Props) (adoptElement : bool) (m : Machine) :
  let r := _render fuel id comp oldProps oldState adoptElement m in
  ∃ evs,
    m_log r.2 = m_log m ++ evs
    ∧ (Exists is_nil_render evs → r.1 = Throw EmptyRenderResult)
    ∧ (Exists is_other_render evs → r.1 = Throw InvalidRenderResult)
    ∧ ((∀ o, m_tags m !! (id, o) = None) → ∀ o, m_tags r.2 !! (id, o) = None)
    ∧ m_contexts r.2 = [].
Proof.
  intros r.
  destruct (render_pass (λ _, True) fuel id comp oldProps oldState adoptElement m)
    as (evs & Hlog & _ & Hnil & Hoth & Hrel & _ & Hctx).
  { intros ev. by destruct adoptElement. }
  exists evs. by split_and!.
Qed.

(** C4: whatever the outcome of a pass, no object carries a tag under the id
    of the pass once [_render] has returned, the tags stored under other ids
    are untouched, and the context stack is empty. *)
Theorem C4_tags_released `{Collaborators} (fuel id comp : nat)
    (oldProps oldState : option Props) (adoptElement : bool) (m : Machine) :
  (∀ o, m_tags m !! (id, o) = None) →
  let r := _render fuel id comp oldProps oldState adoptElement m in
  (∀ o, m_tags r.2 !! (id, o) = None)
  ∧ (∀ i o, i ≠ id → m_tags r.2 !! (i, o) = m_tags m !! (i, o))
  ∧ m_contexts r.2 = [].
Proof.
  intros Hfresh r.
  destruct (render_pass (λ _, True) fuel id comp oldProps oldState adoptElement m)
    as (evs & _ & _ & _ & _ & Hrel & Hother & Hctx).
  { intros ev. by destruct adoptElement. }
  split_and!; auto.
Qed.

(** C10: a pass in adoption mode fires no update, mount or dispose
    notification: every event it adds is [quiet]. *)
Theorem C10_adoption_fires_no_notification `{Collaborators} (fuel id comp : nat)
    (oldProps oldState : option Props) (m : Machine) :
  let r := _render fuel id comp oldProps oldState true m in
  ∃ evs, m_log r.2 = m_log m ++ evs ∧ Forall quiet evs.
Proof.
  intros r.
  destruct (render_pass quiet fuel id comp oldProps oldState true m)
    as (evs & Hlog & Hq & _); [done|].
  by exists evs.
Qed.

(** ** Runs of the engine on concrete trees *)

(** [C4_tags_released] on a pass that fails: the root renders an element
    holding a component whose render routine returns a falsy value. *)
Lemma C4_tags_released_witness :
  (∀ o, m_tags (with_root "Outer" []) !! (100, o) = None)
  ∧ (let r := _render (H := broken_host) 30 100 0 None None false (with_root "Outer" []) in
     (∀ o, m_tags r.2 !! (100, o) = None)
     ∧ (∀ i o, i ≠ 100 → m_tags r.2 !! (i, o) = m_tags (with_root "Outer" []) !! (i, o))
     ∧ m_contexts r.2 = []).
Proof.
  assert (Hfresh : ∀ o, m_tags (with_root "Outer" []) !! (100, o) = None)
    by (intros o; apply lookup_empty).
  split; [exact Hfresh|].
  exact (C4_tags_released (H := broken_host) 30 100 0 None None false (with_root "Outer" [])
           Hfresh).
Defined.

(** Before the [finally] block runs, the pass has tagged objects. *)
Example tags_present_before_dispose :
  m_tags (run (vel <- _createWrappingVirtualComponent 0;;
               _createState 100;;
               _render_try (H := counter_host) 20 vel 0 false)
              (with_root "Root" [("n", "1")])) !! (100, OComp 0)
  = Some [(RENDERED, VTrue); (LINKED, VTrue); (MAPPED, VTrue)].
Proof. vm_compute. reflexivity. Qed.

(** A nested component whose render routine returns a falsy value. *)
Example contract_violation_nil :
  let r := _render (H := broken_host) 30 100 0 None None false (with_root "Outer" []) in
  r.1 = Throw EmptyRenderResult
  ∧ m_log r.2 = [EvRender 0 ShElement; EvCreateComponent 5 (UserClass "Nil") (Some 0);
                 EvSetProps 5 []; EvRender 5 ShNil]
  ∧ m_tags r.2 = ∅.
Proof. vm_compute. done. Qed.

(** A render routine that returns a text descriptor, and one that returns a
    value that is no descriptor. *)
Example contract_violation_other :
  (_render (H := broken_host) 30 100 0 None None false (with_root "Txt" [])).1
  = Throw InvalidRenderResult
  ∧ (_render (H := broken_host) 30 100 0 None None false (with_root "Obj" [])).1
    = Throw InvalidRenderResult.
Proof. vm_compute. done. Qed.


(** What the second pass over the unchanged tree does. *)
Example second_pass_events :
  new_events m_counter1 (run (_render (H := counter_host) 20 101 0 None None false) m_counter1)
  = [EvRender 0 ShElement; EvCreateComponent 22 TextNodeComponent (Some 0);
     EvSetProps 7 [("n", "1")]; EvRender 7 ShElement;
     EvCreateComponent 26 TextNodeComponent (Some 7);
     EvDom (RemoveAllEventListeners 12); EvDom (AddEventListener 12 ("click", "h"));
     EvDom (RemoveAllEventListeners 14);
     EvDidUpdate 7 (Some (VData [("n", "1")])) (Some (VData []));
     EvDidUpdate 0 None None].
Proof. vm_compute. reflexivity. Qed.

(** Reference stability on a run: two referenced items swap places; the second
    pass creates no [Item], disposes nothing, and moves one node. *)
Example swapped_references_keep_their_instances :
  let r := _render (H := swap_host) 30 101 0 None None false m_swap1 in
  r.1 = Ret tt
  ∧ forallb (λ ev, match ev with
                   | EvCreateComponent _ (UserClass _) _ | EvTriggerDispose _
                   | EvTriggerDidMount _ => false
                   | _ => true
                   end) (new_events m_swap1 r.2) = true
  ∧ n_childNodes (m_nodes m_swap1 !!! 16) = [17; 19]
  ∧ n_childNodes (m_nodes r.2 !!! 16) = [19; 17]
  ∧ n_comp (m_nodes r.2 !!! 17) = Some 6 ∧ n_comp (m_nodes r.2 !!! 19) = Some 11.
Proof. vm_compute. done. Qed.

(** Forwarding on a first pass: a chain [A] → [B] → [C] rendered from
    scratch shares one node, and so do [A] and [B] in [m_chain1], where [B]
    owns the [div]. *)
Example forwarding_chain_first_pass :
  let m := run (_render (H := chain_host) 30 100 0 None None false)
               (with_root "A" [("mode", "forward")]) in
  c_el (m_comps m !!! 7) = Some 12
  ∧ c_el (m_comps m !!! 4) = Some 12
  ∧ c_el (m_comps m !!! 0) = Some 12
  ∧ c_el (m_comps m_chain1 !!! 4) = Some 9
  ∧ c_el (m_comps m_chain1 !!! 0) = Some 9.
Proof. vm_compute. done. Qed.

(** C7 fails on a forwarding chain: [A] forwards to [B]; in the second pass
    [B], which owned a [div], forwards to a new [C].  [B] takes the node of
    [C], but [A] keeps the replaced node. *)
Lemma C7_forwarding_chain_diverges :
  let r := _render (H := chain_host) 30 101 0 None None false m_chain1 in
  let root := m_next m_chain1 in
  r.1 = Ret tt
  ∧ comp_of r.2 root = Some 0
  ∧ (∃ b, v_forwardedEl (m_vels r.2 !!! root) = Some b ∧ comp_of r.2 b = Some 4)
  ∧ c_el (m_comps r.2 !!! 0) = Some 9
  ∧ c_el (m_comps r.2 !!! 4) = Some 22
  ∧ c_el (m_comps r.2 !!! 17) = Some 22
  ∧ n_parentNode (m_nodes r.2 !!! 9) = None.
Proof. vm_compute. split_and!; try done. by eexists. Qed.

(** An adoption pass on an existing node: nodes are adopted, retagged or
    created, and no notification is fired; the same root rendered without
    adoption does receive its update notification. *)
Example adoption_pass_events :
  let r := _render (H := counter_host) 30 100 0 None None true m_adopt0 in
  r.1 = Ret tt
  ∧ m_log r.2
    = [EvRender 0 ShElement; EvCreateComponent 18 TextNodeComponent (Some 0);
       EvCreateComponent 19 (UserClass "Counter") (Some 0);
       EvSetProps 19 [("n", "1")]; EvRender 19 ShElement;
       EvCreateComponent 23 TextNodeComponent (Some 19);
       EvDom (SetAttribute 10 "class" "x"); EvDom (RemoveAllEventListeners 10);
       EvDom (AddEventListener 10 ("click", "h"));
       EvDom (SetTagName 12 "span"); EvDom (RemoveAllEventListeners 12);
       EvDom (CreateTextNode 24 "1"); EvDom (AppendChild 12 24)]
  ∧ EvDidUpdate 0 None None
    ∈ m_log (run (_render (H := counter_host) 30 100 0 None None false) m_adopt0).
Proof. vm_compute. split_and!; try done. apply list_elem_of_In. vm_compute. tauto. Qed.

Example relocated_component_is_moved :
  let r := _render (H := move_host) 30 101 0 None None false m_move1 in
  r.1 = Ret tt
  ∧ new_events m_move1 r.2
    = [EvRender 0 ShElement; EvCreateComponent 19 ElementComponent (Some 0);
       EvSetProps 6 []; EvRender 6 ShElement;
       EvDom (RemoveAllEventListeners 10); EvDom (RemoveChild 10 11);
       EvDom (RemoveAllEventListeners 12); EvDom (RemoveAllEventListeners 11);
       EvSetParent 6 9; EvDom (AppendChild 12 11);
       EvDidUpdate 6 (Some (VData [])) (Some (VData [])); EvDidUpdate 0 None None]
  ∧ n_childNodes (m_nodes m_move1 !!! 10) = [11; 12]
  ∧ n_childNodes (m_nodes r.2 !!! 10) = [12]
  ∧ n_childNodes (m_nodes r.2 !!! 12) = [11]
  ∧ n_comp (m_nodes r.2 !!! 11) = Some 6.
Proof. vm_compute. done. Qed.

Example relocated_component_is_tagged :
  let m := run (vel <- _createWrappingVirtualComponent 0;;
                _createState 101;;
                _capture (H := move_host) 30 vel TOP_LEVEL_ELEMENT) m_move1 in
  is_tagged RELOCATED (OComp 6) m = true ∧ is_tagged RELOCATED (OVel 18) m = true.
Proof. vm_compute. done. Qed.

(** ** The general statements at concrete stores *)

(** [C3_contract_violation] on two failing passes: a nested render routine
    that returns a falsy value, and a root whose render routine returns a
    value that is no descriptor. *)
Lemma C3_contract_violation_witness :
  (_render (H := broken_host) 30 100 0 None None false (with_root "Outer" [])).1
  = Throw EmptyRenderResult
  ∧ (_render (H := broken_host) 30 100 0 None None false (with_root "Obj" [])).1
    = Throw InvalidRenderResult.
Proof.
  split.
  - pose proof (C3_contract_violation (H := broken_host) 30 100 0 None None false
                  (with_root "Outer" [])) as Hpass.
    cbv zeta in Hpass. destruct Hpass as (evs & Hlog & Hnil & _).
    apply Hnil. vm_compute in Hlog. subst evs.
    do 3 apply Exists_cons_tl. apply Exists_cons_hd. eexists. reflexivity.
  - pose proof (C3_contract_violation (H := broken_host) 30 100 0 None None false
                  (with_root "Obj" [])) as Hpass.
    cbv zeta in Hpass. destruct Hpass as (evs & Hlog & _ & Hoth & _).
    apply Hoth. vm_compute in Hlog. subst evs.
    apply Exists_cons_hd. eexists. reflexivity.
Defined.


(** In [m_link0] no instance has a parent. *)
Lemma m_link0_cdepth c : cdepth_le (m_comps m_link0) 1 c.
Proof.
  destruct c as [c|]; [|exact I]. cbn [cdepth_le].
  assert (Hc : m_comps m_link0 = {[ 0 := m_comps m_link0 !!! 0 ]}) by (vm_compute; reflexivity).
  destruct (decide (c = 0)) as [->|Hne].
  - vm_compute. exact I.
  - rewrite Hc, lookup_total_singleton_ne by done. exact I.
Defined.


(** * Further properties of the engine *)

(** ** RenderingState *)

Lemma Info_get_cons k k' v (info : Info) :
  Info_get k' ((k, v) :: info) = if decide (k' = k) then Some v else Info_get k' info.
Proof. done. Qed.

(** X1: what [state.set(key, obj, val)] stores is what [state.get(key, obj)]
    returns afterwards, [state.is(key, obj)] then holds, and the value read
    under any other key or on any other object is what it was before. *)
Theorem state_set_get_roundtrip (k k' : Key) (o o' : ObjRef) (v : Val) (m : Machine) :
  let m' := (state_set k o v m).2 in
  (state_get k o m').1 = Ret (Some v)
  ∧ (state_is k o m').1 = Ret true
  ∧ ((k', o') ≠ (k, o) → (state_get k' o' m').1 = (state_get k' o' m).1)
  ∧ (state_get k' o' m').2 = m'.
Proof.
  intros m'. subst m'.
  assert (Hid : m_stateId (state_set k o v m).2 = m_stateId m) by apply state_set_heap.
  assert (Hget : ∀ k1 o1, (state_get k1 o1 (state_set k o v m).2).1
    = Ret (if decide (o1 = o)
           then (if decide (k1 = k) then Some v else tag_value k1 o m)
           else tag_value k1 o1 m)).
  { intros k1 o1. rewrite state_get_run. cbn [fst]. f_equal.
    unfold tag_value. rewrite Hid. unfold state_set.
    destruct (m_tags m !! (m_stateId m, o)) as [info|] eqn:Hl; cbn [snd];
      (destruct (decide (o1 = o)) as [->|Hne];
       [|simpl; rewrite lookup_insert_ne by congruence; done]);
      simpl; rewrite lookup_insert_eq, ?Hl; by rewrite ?Info_get_cons. }
  split_and!.
  - rewrite Hget. by rewrite !decide_True.
  - rewrite state_is_run, is_tagged_state_set, decide_True by done.
    by rewrite bool_decide_eq_true_2.
  - intros Hne. rewrite Hget, state_get_run. cbn [fst].
    destruct (decide (o' = o)) as [->|]; [|done].
    rewrite decide_False; [done|congruence].
  - by rewrite state_get_run.
Qed.

(** X2: a state created under a fresh id starts with [polluted] holding
    exactly the tagged objects (none), each once, and [state.set] keeps it so:
    an object is pushed when, and only when, it gets its first tag. *)
Theorem polluted_lists_tagged_objects_once :
  (∀ id m, (∀ o, m_tags m !! (id, o) = None) → PollutedExact (_createState id m).2)
  ∧ (∀ k o v m, PollutedExact m →
       PollutedExact (state_set k o v m).2
       ∧ m_polluted (state_set k o v m).2
         = if decide (o ∈ m_polluted m) then m_polluted m else m_polluted m ++ [o]).
Proof.
  split.
  - intros id m Hfresh. split; [apply NoDup_nil_2|]. intros o. simpl. rewrite Hfresh.
    split; [by intros ?%elem_of_nil|by intros [? [=]]].
  - intros k o v m [Hnd Hin]. unfold state_set.
    destruct (m_tags m !! (m_stateId m, o)) as [info|] eqn:Hl; cbn [snd].
    + assert (Ho : o ∈ m_polluted m) by (apply Hin; by rewrite Hl).
      rewrite decide_True by done. split; [|done]. split; [done|]. intros o'. simpl.
      destruct (decide (o' = o)) as [->|Hne].
      * rewrite lookup_insert_eq. split; [by eexists|done].
      * rewrite lookup_insert_ne by congruence. apply Hin.
    + assert (Ho : o ∉ m_polluted m) by (intros Ho%Hin; rewrite Hl in Ho; by destruct Ho).
      rewrite decide_False by done. split; [|done]. split; simpl.
      * apply NoDup_app. split_and!; [done| |apply NoDup_singleton].
        intros x Hx ->%list_elem_of_singleton. done.
      * intros o'. rewrite elem_of_app, list_elem_of_singleton.
        destruct (decide (o' = o)) as [->|Hne].
        -- rewrite lookup_insert_eq. split; [by eexists|by right].
        -- rewrite lookup_insert_ne by congruence.
           split; [intros [Ho'|?]; [by apply Hin|done]|intros Ho'; left; by apply Hin].
Qed.

(** [polluted_lists_tagged_objects_once] on a fresh state in which one
    descriptor is tagged twice and its instance once. *)
Lemma polluted_lists_tagged_objects_once_witness :
  PollutedExact
    (state_set LINKED (OVel 1) VTrue
       (state_set MAPPED (OComp 0) VTrue
          (state_set MAPPED (OVel 1) VTrue (_createState 7 (with_root "Foo" [])).2).2).2).2.
Proof.
  destruct polluted_lists_tagged_objects_once as [Hnew Hset].
  apply Hset, Hset, Hset, Hnew. intros o. apply lookup_empty.
Defined.

(** ** The context stack *)

(** X3: the render call of [_capture] runs with its context on top of the
    stack, and the stack is afterwards what it was before, whether the render
    routine returns or raises. *)
Theorem render_content_restores_contexts `{Collaborators} (comp context : nat) (m : Machine) :
  let m1 := (state_pushContext context m).2 in
  let r := render_content comp context m in
  (state_getCurrentContext m1).1 = Ret (Some context)
  ∧ r.1 = (render comp context m1).1
  ∧ m_contexts r.2 = m_contexts m.
Proof.
  intros m1 r. subst m1 r. split_and!.
  - simpl. by rewrite last_snoc.
  - unfold render_content, try_finally, bind, state_pushContext, state_popContext. simpl.
    by destruct (render comp context _) as [[c|e] m2].
  - unfold render_content, try_finally, bind, state_pushContext, state_popContext, render.
    simpl.
    match goal with |- context [comp_render ?mm comp context] =>
      destruct (comp_render mm comp context) as [[r|e] [[vels ctxs] next]] end; simpl;
      by rewrite removelast_last.
Qed.

(** ** Linking helpers *)

(** X4: [_link] and [_reject] settle a descriptor for the rest of the pass.
    After [_link] the descriptor points at the instance, and [_isMapped] and
    [_isLinked] answer true without changing anything; after [_reject] the
    descriptor has no instance, [_isMapped] answers true and [_isLinked]
    false, for every instance asked about. *)
Theorem link_and_reject_settle (vc : nat) (m : Machine) :
  (∀ comp, let m' := (_link comp vc m).2 in
     comp_of m' vc = Some comp
     ∧ _isMapped comp vc m' = (Ret true, m')
     ∧ _isLinked comp vc m' = (Ret true, m'))
  ∧ (∀ comp, let m' := (_reject comp vc m).2 in
     comp_of m' vc = None
     ∧ (∀ c, _isMapped c vc m' = (Ret true, m'))
     ∧ (∀ c, _isLinked c vc m' = (Ret false, m'))).
Proof.
  split.
  - intros comp m'. subst m'. rewrite _link_run. cbn [snd].
    assert (Hc : comp_of (state_set LINKED (OComp comp) VTrue
                   (state_set LINKED (OVel vc) VTrue
                      (state_set MAPPED (OComp comp) VTrue
                         (state_set MAPPED (OVel vc) VTrue
                            (modVel vc (set_v_comp (Some comp)) m).2).2).2).2).2 vc = Some comp).
    { rewrite !comp_of_state_set, comp_of_modVel. by rewrite decide_True. }
    split_and!; [done| |].
    + rewrite _isMapped_run. do 2 f_equal. rewrite !is_tagged_state_set.
      repeat case_decide; simplify_eq; simpl; by rewrite ?orb_true_r.
    + unfold _isLinked. rewrite !bind_state_is, bind_getVel.
      unfold comp_of in Hc. rewrite Hc, bool_decide_eq_true_2 by done.
      rewrite !is_tagged_state_set.
      repeat case_decide; simplify_eq; simpl; by rewrite ?orb_true_r.
  - intros comp m'. subst m'. rewrite _reject_run. cbn [snd].
    set (m1 := (state_set MAPPED (OVel vc) VTrue (modVel vc (set_v_comp None) m).2).2).
    assert (Hm1 : comp_of m1 vc = None ∧ is_tagged MAPPED (OVel vc) m1 = true).
    { subst m1. rewrite comp_of_state_set, comp_of_modVel, is_tagged_state_set.
      by rewrite !decide_True. }
    assert (Hm2 : ∀ m2, m2 = m1 ∨ (∃ c, m2 = (state_set MAPPED (OComp c) VTrue m1).2) →
      comp_of m2 vc = None
      ∧ (∀ c, _isMapped c vc m2 = (Ret true, m2))
      ∧ (∀ c, _isLinked c vc m2 = (Ret false, m2))).
    { intros m2 Hm2.
      assert (comp_of m2 vc = None ∧ is_tagged MAPPED (OVel vc) m2 = true) as [Hc Ht].
      { destruct Hm2 as [->|[c ->]]; [done|].
        rewrite comp_of_state_set, is_tagged_state_set. by rewrite decide_False. }
      split_and!; [done| |]; intros c.
      - rewrite _isMapped_run. by rewrite Ht.
      - unfold _isLinked. rewrite !bind_state_is, bind_getVel. unfold comp_of in Hc.
        rewrite Hc. by rewrite bool_decide_eq_false_2. }
    destruct comp as [c|]; apply Hm2; [right; by exists c|by left].
Qed.

(** X5: [_isLinked] answers whether the descriptor points at the instance.
    When it does, the descriptor is tagged LINKED afterwards; the tags of
    instances are never touched, so an instance that was not tagged LINKED
    is still not tagged.  Descriptors and instances are left as they are. *)
Theorem _isLinked_never_tags_instance (comp vc : nat) (m : Machine) :
  let r := _isLinked comp vc m in
  r.1 = Ret (bool_decide (comp_of m vc = Some comp))
  ∧ (if bool_decide (comp_of m vc = Some comp)
     then is_tagged LINKED (OVel vc) r.2 = true else r.2 = m)
  ∧ (∀ k c, is_tagged k (OComp c) r.2 = is_tagged k (OComp c) m)
  ∧ m_vels r.2 = m_vels m ∧ m_comps r.2 = m_comps m.
Proof.
  intros r. subst r.
  destruct (_isLinked_spec comp vc m) as (Hr & Hv & Hc & Hsame & Htags & Hmono).
  split_and!; [done| |by intros k c; apply Htags|done..].
  destruct (bool_decide (comp_of m vc = Some comp)) eqn:Hb; [|by apply Hsame].
  unfold _isLinked. rewrite !bind_state_is, bind_getVel. fold (comp_of m vc). rewrite Hb.
  destruct (is_tagged LINKED (OVel vc) m) eqn:Hl; cbn [negb when].
  - rewrite bind_ret. destruct (is_tagged LINKED (OComp comp) m); cbn [negb when].
    + by rewrite bind_ret.
    + rewrite bind_state_set. cbn [ret snd]. by apply is_tagged_state_set_mono.
  - rewrite bind_state_set. destruct (is_tagged LINKED (OComp comp) m); cbn [negb when].
    + rewrite bind_ret. cbn [ret snd]. rewrite is_tagged_state_set, decide_True by done. done.
    + rewrite bind_state_set. cbn [ret snd]. apply is_tagged_state_set_mono.
      rewrite is_tagged_state_set, decide_True by done. done.
Qed.

(** ** Synchronizing a node: what the node looks like afterwards *)

Lemma Map_get_set {A} k k' (v : A) (h : list (string * A)) :
  Map_get k' (Map_set k v h) = if decide (k' = k) then Some v else Map_get k' h.
Proof.
  induction h as [|[k0 v0] h IH]; simpl.
  - by destruct (decide (k' = k)).
  - destruct (decide (k = k0)) as [->|Hne]; simpl.
    + by destruct (decide (k' = k0)).
    + destruct (decide (k' = k0)) as [->|]; [by rewrite decide_False by done|]. apply IH.
Qed.

Lemma Map_get_remove k k' (h : Hash) :
  Map_get k' (Hash_remove k h) = if decide (k' = k) then None else Map_get k' h.
Proof.
  unfold Hash_remove. induction h as [|[k0 v0] h IH]; simpl.
  - by destruct (decide (k' = k)).
  - rewrite filter_cons. simpl. destruct (decide (k0 ≠ k)) as [Hne|Heq]; simpl.
    + destruct (decide (k' = k0)) as [->|]; [by rewrite decide_False by done|]. apply IH.
    + apply dec_stable in Heq. subst k0. rewrite IH.
      by destruct (decide (k' = k)).
Qed.

Lemma if_bool_decide_ext {A} (P Q : Prop) `{Decision P, Decision Q} (a b : A) :
  (P ↔ Q) → (if bool_decide P then a else b) = (if bool_decide Q then a else b).
Proof. intros HPQ. by rewrite (bool_decide_ext P Q HPQ). Qed.

Section updateHash_view.
Variables (update : string → string → M unit) (remove : string → M unit).
Variable view : Machine → Hash.
Hypothesis update_view :
  ∀ k v m, (update k v m).1 = Ret tt ∧ view (update k v m).2 = Map_set k v (view m).
Hypothesis remove_view :
  ∀ k m, (remove k m).1 = Ret tt ∧ view (remove k m).2 = Hash_remove k (view m).

Lemma _updateHash_view (newHash oldHash : option Hash) (m : Machine) :
  view m = default [] oldHash →
  let r := _updateHash newHash oldHash update remove m in
  r.1 = Ret tt ∧ ∀ k, Map_get k (view r.2) = Map_get k (default [] newHash).
Proof.
  intros Hview r. subst r.
  assert (Hgoal : ∀ new old, view m = old →
    let r := (forM_ (Map_keys new) (λ key,
                if bool_decide (Map_get key old ≠ Map_get key new)
                then update key (default "" (Map_get key new)) else ret tt);;
              forM_ (Map_keys old) (λ key,
                if bool_decide (key ∈ Map_keys new) then ret tt else remove key))%M m in
    r.1 = Ret tt ∧ ∀ k, Map_get k (view r.2) = Map_get k new).
  { clear Hview newHash oldHash. intros new old Hview.
    assert (Hup : ∀ (keys : list string) m1, keys ⊆ Map_keys new →
      let f := λ key, if bool_decide (Map_get key old ≠ Map_get key new)
                      then update key (default "" (Map_get key new)) else ret tt in
      (forM_ keys f m1).1 = Ret tt
      ∧ ∀ k, Map_get k (view (forM_ keys f m1).2)
             = if bool_decide (k ∈ keys ∧ Map_get k old ≠ Map_get k new)
               then Map_get k new else Map_get k (view m1)).
    { induction keys as [|key keys IH]; intros m1 Hsub f.
      { split; [done|]. intros k. rewrite bool_decide_eq_false_2; [done|].
        intros [?%elem_of_nil _]. done. }
      cbn [forM_].
      assert (Hkey : key ∈ Map_keys new) by (apply Hsub; left).
      assert (Hkeys : keys ⊆ Map_keys new) by (intros x Hx; apply Hsub; by right).
      destruct (Map_get key new) as [v|] eqn:Hnew;
        [|apply Map_get_None_keys in Hnew; done].
      subst f. cbn beta. rewrite Hnew. change (default "" (Some v)) with v.
      destruct (decide (Map_get key old = Some v)) as [Heq|Hne].
      - rewrite bool_decide_eq_false_2 by tauto. rewrite bind_ret.
        destruct (IH m1 Hkeys) as [Hr Hv]. split; [exact Hr|]. intros k. rewrite Hv.
        destruct (decide (k = key)) as [->|Hk].
        + rewrite Hnew, Heq.
          rewrite (bool_decide_eq_false_2 (key ∈ key :: keys ∧ _)) by tauto.
          case_bool_decide as Hc; [tauto|done].
        + apply if_bool_decide_ext. rewrite elem_of_cons. tauto.
      - rewrite bool_decide_eq_true_2 by done.
        destruct (update_view key v m1) as [Hr1 Hv1].
        match goal with |- context [bind ?c ?g m1] =>
          destruct (bind_cases c g m1) as [([] & m2 & Hc & ->)|(e & m2 & Hc & ->)] end;
          rewrite Hc in Hr1, Hv1; simpl in Hr1, Hv1; [|done].
        destruct (IH m2 Hkeys) as [Hr Hv]. split; [exact Hr|]. intros k. rewrite Hv, Hv1.
        rewrite Map_get_set.
        destruct (decide (k = key)) as [->|Hk].
        + rewrite Hnew.
          rewrite (bool_decide_eq_true_2 (key ∈ key :: keys ∧ _))
            by (split; [left|done]).
          by case_bool_decide.
        + apply if_bool_decide_ext. rewrite elem_of_cons. tauto. }
    assert (Hrm : ∀ (keys : list string) m1,
      let f := λ key, if bool_decide (key ∈ Map_keys new) then ret tt else remove key in
      (forM_ keys f m1).1 = Ret tt
      ∧ ∀ k, Map_get k (view (forM_ keys f m1).2)
             = if bool_decide (k ∈ keys ∧ k ∉ Map_keys new)
               then None else Map_get k (view m1)).
    { induction keys as [|key keys IH]; intros m1 f.
      { split; [done|]. intros k. rewrite bool_decide_eq_false_2; [done|].
        intros [?%elem_of_nil _]. done. }
      cbn [forM_].
      subst f. cbn beta. destruct (decide (key ∈ Map_keys new)) as [Hin|Hnin].
      - rewrite bool_decide_eq_true_2 by done. rewrite bind_ret.
        destruct (IH m1) as [Hr Hv]. split; [exact Hr|]. intros k. rewrite Hv.
        apply if_bool_decide_ext. rewrite elem_of_cons. split; [tauto|].
        intros [[->|?] ?]; tauto.
      - rewrite bool_decide_eq_false_2 by done.
        destruct (remove_view key m1) as [Hr1 Hv1].
        match goal with |- context [bind ?c ?g m1] =>
          destruct (bind_cases c g m1) as [([] & m2 & Hc & ->)|(e & m2 & Hc & ->)] end;
          rewrite Hc in Hr1, Hv1; simpl in Hr1, Hv1; [|done].
        destruct (IH m2) as [Hr Hv]. split; [exact Hr|]. intros k. rewrite Hv, Hv1.
        rewrite Map_get_remove.
        destruct (decide (k = key)) as [->|Hk].
        + rewrite (bool_decide_eq_true_2 (key ∈ key :: keys ∧ _)) by (split; [left|done]).
          by case_bool_decide.
        + apply if_bool_decide_ext. rewrite elem_of_cons. tauto. }
    intros r. subst r.
    destruct (Hup (Map_keys new) m (reflexivity _)) as [Hr1 Hv1]. cbv zeta in Hr1, Hv1.
    match goal with |- context [bind ?c ?g m] =>
      destruct (bind_cases c g m) as [([] & m2 & Hc & ->)|(e & m2 & Hc & ->)] end;
      rewrite Hc in Hr1, Hv1; simpl in Hr1, Hv1; [|done].
    destruct (Hrm (Map_keys old) m2) as [Hr2 Hv2]. cbv zeta in Hr2, Hv2.
    split; [exact Hr2|]. intros k. rewrite Hv2, Hv1, Hview.
    destruct (decide (k ∈ Map_keys new)) as [Hin|Hnin].
    - rewrite (bool_decide_eq_false_2 (k ∈ Map_keys old ∧ _)) by tauto.
      case_bool_decide as Hc'; [done|].
      destruct (decide (Map_get k old = Map_get k new)); [done|tauto].
    - rewrite (bool_decide_eq_false_2 (k ∈ Map_keys new ∧ _)) by tauto.
      assert (Hn : Map_get k new = None) by by apply Map_get_None_keys.
      rewrite Hn. case_bool_decide as Hc'; [done|].
      apply Map_get_None_keys. tauto. }
  unfold _updateHash, _hashGet. destruct newHash as [new|], oldHash as [old|]; cbn [default] in *.
  - by apply Hgoal.
  - specialize (Hgoal new [] Hview). exact Hgoal.
  - specialize (Hgoal [] old Hview). exact Hgoal.
  - split; [done|]. intros k. cbn [ret snd]. by rewrite Hview.
Qed.

End updateHash_view.

(** *** What a step leaves alone *)

Lemma bind_frame {A B X} (g : Machine → X) (c : M A) (f : A → M B) m :
  g (c m).2 = g m → (∀ a m1, g (f a m1).2 = g m1) → g (bind c f m).2 = g m.
Proof.
  intros Hc Hf. unfold bind. destruct (c m) as [[a|e] m1]; simpl in *; [|done].
  by rewrite Hf.
Qed.

Lemma forM__frame {A X} (g : Machine → X) (l : list A) (f : A → M unit) m :
  (∀ a m1, g (f a m1).2 = g m1) → g (forM_ l f m).2 = g m.
Proof.
  intros Hf. revert m. induction l as [|a l IH]; intros m; simpl; [done|].
  apply bind_frame; [apply Hf|]. intros _ m1. apply IH.
Qed.

Lemma _updateHash_frame {X} (g : Machine → X) newHash oldHash update remove m :
  (∀ k v m1, g (update k v m1).2 = g m1) → (∀ k m1, g (remove k m1).2 = g m1) →
  g (_updateHash newHash oldHash update remove m).2 = g m.
Proof.
  intros Hu Hr. unfold _updateHash.
  assert (g ((forM_ (Map_keys (default [] newHash)) (λ key,
                let oldVal := _hashGet (default [] oldHash) key in
                let newVal := _hashGet (default [] newHash) key in
                if bool_decide (oldVal ≠ newVal) then update key (default "" newVal) else ret tt);;
              forM_ (Map_keys (default [] oldHash)) (λ key,
                if bool_decide (key ∈ Map_keys (default [] newHash))
                then ret tt else remove key))%M m).2 = g m) as Hg.
  { apply bind_frame.
    - apply forM__frame. intros key m1. cbv zeta. by destruct (bool_decide _).
    - intros _ m1. apply forM__frame. intros key m2. by destruct (bool_decide _). }
  by destruct newHash, oldHash.
Qed.

(** The node [el] after a mutation that is logged and then applied. *)
Lemma emit_modNode_lookup ev x f m el :
  ((emit ev;; modNode x f)%M m).1 = Ret tt
  ∧ m_vels ((emit ev;; modNode x f)%M m).2 = m_vels m
  ∧ m_nodes ((emit ev;; modNode x f)%M m).2 !!! el
    = if decide (el = x) then f (m_nodes m !!! x) else m_nodes m !!! el.
Proof.
  split_and!; [done..|]. simpl. destruct (decide (el = x)) as [->|Hne].
  - by rewrite lookup_total_insert_eq.
  - by rewrite lookup_total_insert_ne.
Qed.

Lemma setAttribute_view el k v m :
  (setAttribute el k v m).1 = Ret tt
  ∧ n_attributes (m_nodes (setAttribute el k v m).2 !!! el)
    = Map_set k v (n_attributes (m_nodes m !!! el)).
Proof.
  unfold setAttribute. destruct (emit_modNode_lookup (EvDom (SetAttribute el k v)) el
    (λ n, set_n_attributes (Map_set k v (n_attributes n)) n) m el) as (Hr & _ & Hn).
  split; [done|]. rewrite Hn, decide_True by done. done.
Qed.

Lemma removeAttribute_view el k m :
  (removeAttribute el k m).1 = Ret tt
  ∧ n_attributes (m_nodes (removeAttribute el k m).2 !!! el)
    = Hash_remove k (n_attributes (m_nodes m !!! el)).
Proof.
  unfold removeAttribute. destruct (emit_modNode_lookup (EvDom (RemoveAttribute el k)) el
    (λ n, set_n_attributes (Hash_remove k (n_attributes n)) n) m el) as (Hr & _ & Hn).
  split; [done|]. rewrite Hn, decide_True by done. done.
Qed.

Lemma setProperty_view el k v m :
  (setProperty el k v m).1 = Ret tt
  ∧ n_htmlProps (m_nodes (setProperty el k v m).2 !!! el)
    = Map_set k v (n_htmlProps (m_nodes m !!! el)).
Proof.
  unfold setProperty. destruct (emit_modNode_lookup (EvDom (SetProperty el k v)) el
    (λ n, set_n_htmlProps (Map_set k v (n_htmlProps n)) n) m el) as (Hr & _ & Hn).
  split; [done|]. rewrite Hn, decide_True by done. done.
Qed.

Lemma removeProperty_view el k m :
  (removeProperty el k m).1 = Ret tt
  ∧ n_htmlProps (m_nodes (removeProperty el k m).2 !!! el)
    = Hash_remove k (n_htmlProps (m_nodes m !!! el)).
Proof.
  unfold removeProperty. destruct (emit_modNode_lookup (EvDom (RemoveProperty el k)) el
    (λ n, set_n_htmlProps (Hash_remove k (n_htmlProps n)) n) m el) as (Hr & _ & Hn).
  split; [done|]. rewrite Hn, decide_True by done. done.
Qed.


Lemma _updateListeners_node el (newListeners : list Listener) m x :
  (_updateListeners el newListeners m).1 = Ret tt
  ∧ m_vels (_updateListeners el newListeners m).2 = m_vels m
  ∧ m_nodes (_updateListeners el newListeners m).2 !!! x
    = if decide (x = el) then set_n_listeners newListeners (m_nodes m !!! el)
      else m_nodes m !!! x.
Proof.
  unfold _updateListeners, removeAllEventListeners.
  assert (Hadd : ∀ (l : list Listener) m1,
    (forM_ l (addEventListener el) m1).1 = Ret tt
    ∧ m_vels (forM_ l (addEventListener el) m1).2 = m_vels m1
    ∧ m_nodes (forM_ l (addEventListener el) m1).2 !!! x
      = if decide (x = el)
        then set_n_listeners (n_listeners (m_nodes m1 !!! el) ++ l) (m_nodes m1 !!! el)
        else m_nodes m1 !!! x).
  { induction l as [|a l IH]; intros m1.
    { simpl. split_and!; [done..|]. case_decide; [subst|done].
      rewrite app_nil_r. by destruct (m_nodes m1 !!! el). }
    cbn [forM_]. unfold addEventListener at 1 3 5.
    destruct (emit_modNode_lookup (EvDom (AddEventListener el a)) el
      (λ n, set_n_listeners (n_listeners n ++ [a]) n) m1 el) as (Hr1 & Hv1 & Hn1).
    destruct (emit_modNode_lookup (EvDom (AddEventListener el a)) el
      (λ n, set_n_listeners (n_listeners n ++ [a]) n) m1 x) as (_ & _ & Hx1).
    match goal with |- context [bind ?c ?g m1] =>
      destruct (bind_cases c g m1) as [([] & m2 & Hc & ->)|(e & m2 & Hc & ->)] end;
      rewrite Hc in Hr1, Hv1, Hn1, Hx1; simpl in Hr1, Hv1, Hn1, Hx1; [|done].
    destruct (IH m2) as (Hr & Hv & Hn). split_and!; [done|congruence|].
    rewrite Hn. rewrite decide_True in Hn1 by done. case_decide; [|done].
    rewrite Hn1. simpl. by rewrite <-app_assoc. }
  destruct (emit_modNode_lookup (EvDom (RemoveAllEventListeners el)) el (set_n_listeners []) m el)
    as (Hr1 & Hv1 & Hn1).
  destruct (emit_modNode_lookup (EvDom (RemoveAllEventListeners el)) el (set_n_listeners []) m x)
    as (_ & _ & Hx1).
  match goal with |- context [bind ?c ?g m] =>
    destruct (bind_cases c g m) as [([] & m2 & Hc & ->)|(e & m2 & Hc & ->)] end;
    rewrite Hc in Hr1, Hv1, Hn1, Hx1; simpl in Hr1, Hv1, Hn1, Hx1; [|done].
  destruct (Hadd newListeners m2) as (Hr & Hv & Hn). split_and!; [done|congruence|].
  rewrite Hn. rewrite decide_True in Hn1 by done. case_decide; [|done].
  by rewrite Hn1.
Qed.

Lemma clear_parents_run el (l : list nat) m :
  ∃ m', forM_ l (λ c, modNode c (set_n_parentNode None)) m = (Ret tt, m')
    ∧ m_vels m' = m_vels m ∧ m_next m' = m_next m ∧ m_log m' = m_log m
    ∧ blank_structure (m_nodes m' !!! el) = blank_structure (m_nodes m !!! el)
    ∧ n_innerHTML (m_nodes m' !!! el) = n_innerHTML (m_nodes m !!! el)
    ∧ n_hasInnerHTML (m_nodes m' !!! el) = n_hasInnerHTML (m_nodes m !!! el).
Proof.
  revert m. induction l as [|c l IH]; intros m; cbn [forM_].
  { exists m. by split_and!. }
  rewrite bind_modNode.
  destruct (IH (modNode c (set_n_parentNode None) m).2) as (m' & Hr & Hv & Hx & Hl & Hb & Hi & Hh).
  exists m'. split; [done|]. rewrite Hv, Hx, Hl, Hb, Hi, Hh. split_and!; [done..| | |]; simpl;
    (destruct (decide (el = c)) as [->|Hne];
     [by rewrite lookup_total_insert_eq|by rewrite lookup_total_insert_ne]).
Qed.

Lemma empty_run el m :
  ∃ m', empty el m = (Ret tt, m')
    ∧ m_vels m' = m_vels m ∧ m_next m' = m_next m
    ∧ blank_structure (m_nodes m' !!! el) = blank_structure (m_nodes m !!! el)
    ∧ n_innerHTML (m_nodes m' !!! el) = n_innerHTML (m_nodes m !!! el).
Proof.
  unfold empty. rewrite bind_emit, bind_getNode.
  destruct (clear_parents_run el (n_childNodes (m_nodes (emit (EvDom (Empty el)) m).2 !!! el))
              (emit (EvDom (Empty el)) m).2) as (m1 & Hr & Hv & Hx & _ & Hb & Hi & _).
  rewrite (bind_ret_run _ _ _ _ _ Hr). eexists. split; [reflexivity|].
  simpl. rewrite lookup_total_insert_eq. by split_and!.
Qed.

Lemma setInnerHTML_run el h m :
  ∃ m', setInnerHTML el h m = (Ret tt, m')
    ∧ m_vels m' = m_vels m ∧ m_next m' = m_next m
    ∧ blank_structure (m_nodes m' !!! el) = blank_structure (m_nodes m !!! el)
    ∧ n_innerHTML (m_nodes m' !!! el) = h.
Proof.
  unfold setInnerHTML. rewrite bind_emit, bind_getNode.
  destruct (clear_parents_run el
              (n_childNodes (m_nodes (emit (EvDom (SetInnerHTML el h)) m).2 !!! el))
              (emit (EvDom (SetInnerHTML el h)) m).2) as (m1 & Hr & Hv & Hx & _ & Hb & _ & _).
  rewrite (bind_ret_run _ _ _ _ _ Hr). eexists. split; [reflexivity|].
  simpl. rewrite lookup_total_insert_eq. by split_and!.
Qed.

Lemma _updateDOMElement_post el vel m :
  let v := m_vels m !!! vel in
  let n := m_nodes m !!! el in
  let r := _updateDOMElement el vel m in
  let n' := m_nodes r.2 !!! el in
  r.1 = Ret tt
  ∧ m_vels r.2 = m_vels m
  ∧ m_next r.2 = m_next m
  ∧ n_kind n' = n_kind n ∧ n_comp n' = n_comp n
  ∧ node_agrees v n'.
Proof.
  intros v n r n'. subst r n'. unfold _updateDOMElement, node_agrees.
  rewrite bind_getVel, bind_getNode. fold v n.
  destruct (bool_decide (v_kind v = VirtualTextNode)) eqn:Hkind.
  { apply bool_decide_eq_true in Hkind. rewrite Hkind.
    case_bool_decide as Ht.
    - unfold setTextContent.
      destruct (emit_modNode_lookup (EvDom (SetTextContent el (v_text v))) el
        (set_n_textContent (v_text v)) m el) as (Hr & Hv & Hn).
      rewrite Hn, decide_True by done. by split_and!.
    - try apply dec_stable in Ht. by split_and!. }
  apply bool_decide_eq_false in Hkind.
  set (body := (when (bool_decide (toLowerCase (v_tagName v) ≠ getTagName n))
                     (setTagName el (v_tagName v));;
       _updateHash (Some (ep_attributes (v_eprops v))) (Some (n_attributes n))
                   (setAttribute el) (removeAttribute el);;
       _updateHash (Some (ep_htmlProps (v_eprops v))) (Some (n_htmlProps n))
                   (setProperty el) (removeProperty el);;
       _updateListeners el (ep_eventListeners (v_eprops v));;
       match v_innerHTMLString v with
       | Some newInnerHTML =>
           (if negb (n_hasInnerHTML n) then
              empty el;; setInnerHTML el newInnerHTML
            else if bool_decide (n_innerHTML n ≠ newInnerHTML) then setInnerHTML el newInnerHTML
            else ret tt);;
           modNode el (set_n_hasInnerHTML true)
       | None => ret tt
       end)%M).
  set (N := λ m0 : Machine, m_nodes m0 !!! el).
  enough (Hbody : (body m).1 = Ret tt ∧ m_vels (body m).2 = m_vels m
    ∧ m_next (body m).2 = m_next m
    ∧ n_kind (N (body m).2) = n_kind n ∧ n_comp (N (body m).2) = n_comp n
    ∧ getTagName (N (body m).2) = toLowerCase (v_tagName v)
    ∧ (∀ k, Map_get k (n_attributes (N (body m).2)) = Map_get k (ep_attributes (v_eprops v)))
    ∧ (∀ k, Map_get k (n_htmlProps (N (body m).2)) = Map_get k (ep_htmlProps (v_eprops v)))
    ∧ n_listeners (N (body m).2) = ep_eventListeners (v_eprops v)
    ∧ match v_innerHTMLString v with
      | Some h => n_hasInnerHTML (N (body m).2) = true ∧ n_innerHTML (N (body m).2) = h
      | None => True
      end).
  { destruct (v_kind v); [exact Hbody|exact Hbody|done]. }
  subst body.
  (* the tag name *)
  set (stepA := when (bool_decide (toLowerCase (v_tagName v) ≠ getTagName n))
                     (setTagName el (v_tagName v))).
  assert (HA : ∃ m1, stepA m = (Ret tt, m1) ∧ m_vels m1 = m_vels m ∧ m_next m1 = m_next m
    ∧ set_n_tagName "" (N m1) = set_n_tagName "" n
    ∧ getTagName (N m1) = toLowerCase (v_tagName v)).
  { subst stepA. unfold when. case_bool_decide as Ht.
    - unfold setTagName.
      exists ((emit (EvDom (SetTagName el (v_tagName v)));;
               modNode el (set_n_tagName (v_tagName v)))%M m).2.
      split; [done|].
      destruct (emit_modNode_lookup (EvDom (SetTagName el (v_tagName v))) el
        (set_n_tagName (v_tagName v)) m el) as (_ & Hv & Hn).
      unfold N. rewrite Hn, decide_True by done. by split_and!.
    - try apply dec_stable in Ht. exists m. by split_and!. }
  destruct HA as (m1 & HrA & HvA & HxA & HfA & HtA). rewrite (bind_ret_run _ _ _ _ _ HrA).
  clearbody stepA.
  (* the attributes *)
  set (stepB := _updateHash (Some (ep_attributes (v_eprops v))) (Some (n_attributes n))
                  (setAttribute el) (removeAttribute el)).
  assert (HB : (stepB m1).1 = Ret tt
    ∧ (∀ k, Map_get k (n_attributes (N (stepB m1).2)) = Map_get k (ep_attributes (v_eprops v)))
    ∧ (set_n_attributes [] (N (stepB m1).2), m_vels (stepB m1).2, m_next (stepB m1).2)
      = (set_n_attributes [] (N m1), m_vels m1, m_next m1)).
  { subst stepB. split_and!.
    - apply (_updateHash_view _ _ (λ m0, n_attributes (N m0))
               (setAttribute_view el) (removeAttribute_view el)).
      cbn [default]. by apply (f_equal n_attributes) in HfA.
    - apply (_updateHash_view _ _ (λ m0, n_attributes (N m0))
               (setAttribute_view el) (removeAttribute_view el)).
      cbn [default]. by apply (f_equal n_attributes) in HfA.
    - apply (_updateHash_frame
               (λ m0, (set_n_attributes [] (N m0), m_vels m0, m_next m0))).
      + intros k w m0. unfold setAttribute, N.
        destruct (emit_modNode_lookup (EvDom (SetAttribute el k w)) el
          (λ n, set_n_attributes (Map_set k w (n_attributes n)) n) m0 el) as (_ & Hv & Hn).
        rewrite Hn, decide_True by done. done.
      + intros k m0. unfold removeAttribute, N.
        destruct (emit_modNode_lookup (EvDom (RemoveAttribute el k)) el
          (λ n, set_n_attributes (Hash_remove k (n_attributes n)) n) m0 el) as (_ & Hv & Hn).
        rewrite Hn, decide_True by done. done. }
  destruct HB as (HrB & HaB & HfB).
  destruct (stepB m1) as [oB m2] eqn:HeB. cbn [fst snd] in HrB, HaB, HfB. subst oB.
  rewrite (bind_ret_run _ _ _ _ _ HeB).
  pose proof (f_equal (λ p, p.1.2) HfB) as HvB. pose proof (f_equal snd HfB) as HxB.
  apply (f_equal (λ p, p.1.1)) in HfB. cbn [fst snd] in HfB, HvB, HxB. clearbody stepB.
  (* the properties *)
  set (stepC := _updateHash (Some (ep_htmlProps (v_eprops v))) (Some (n_htmlProps n))
                  (setProperty el) (removeProperty el)).
  assert (HC : (stepC m2).1 = Ret tt
    ∧ (∀ k, Map_get k (n_htmlProps (N (stepC m2).2)) = Map_get k (ep_htmlProps (v_eprops v)))
    ∧ (set_n_htmlProps [] (N (stepC m2).2), m_vels (stepC m2).2, m_next (stepC m2).2)
      = (set_n_htmlProps [] (N m2), m_vels m2, m_next m2)).
  { assert (Hold : n_htmlProps (N m2) = n_htmlProps n).
    { apply (f_equal n_htmlProps) in HfB, HfA. simpl in HfB, HfA. congruence. }
    subst stepC. split_and!.
    - apply (_updateHash_view _ _ (λ m0, n_htmlProps (N m0))
               (setProperty_view el) (removeProperty_view el)). done.
    - apply (_updateHash_view _ _ (λ m0, n_htmlProps (N m0))
               (setProperty_view el) (removeProperty_view el)). done.
    - apply (_updateHash_frame
               (λ m0, (set_n_htmlProps [] (N m0), m_vels m0, m_next m0))).
      + intros k w m0. unfold setProperty, N.
        destruct (emit_modNode_lookup (EvDom (SetProperty el k w)) el
          (λ n, set_n_htmlProps (Map_set k w (n_htmlProps n)) n) m0 el) as (_ & Hv & Hn).
        rewrite Hn, decide_True by done. done.
      + intros k m0. unfold removeProperty, N.
        destruct (emit_modNode_lookup (EvDom (RemoveProperty el k)) el
          (λ n, set_n_htmlProps (Hash_remove k (n_htmlProps n)) n) m0 el) as (_ & Hv & Hn).
        rewrite Hn, decide_True by done. done. }
  destruct HC as (HrC & HaC & HfC).
  destruct (stepC m2) as [oC m3] eqn:HeC. cbn [fst snd] in HrC, HaC, HfC. subst oC.
  rewrite (bind_ret_run _ _ _ _ _ HeC).
  pose proof (f_equal (λ p, p.1.2) HfC) as HvC. pose proof (f_equal snd HfC) as HxC.
  apply (f_equal (λ p, p.1.1)) in HfC. cbn [fst snd] in HfC, HvC, HxC. clearbody stepC.
  (* the listeners *)
  destruct (_updateListeners_node el (ep_eventListeners (v_eprops v)) m3 el)
    as (HrD & HvD & HnD).
  assert (HxD : m_next (_updateListeners el (ep_eventListeners (v_eprops v)) m3).2 = m_next m3).
  { unfold _updateListeners. apply (bind_frame m_next); [done|]. intros _ m0.
    by apply forM__frame. }
  destruct (_updateListeners el (ep_eventListeners (v_eprops v)) m3) as [oD m4] eqn:HeD.
  cbn [fst snd] in HrD, HvD, HnD, HxD. subst oD. rewrite (bind_ret_run _ _ _ _ _ HeD).
  rewrite decide_True in HnD by done. fold (N m4) (N m3) in HnD.
  (* the fields of the node before the inner markup is looked at *)
  assert (H4 : n_kind (N m4) = n_kind n ∧ n_comp (N m4) = n_comp n
    ∧ n_tagName (N m4) = n_tagName (N m1)
    ∧ n_attributes (N m4) = n_attributes (N m2)
    ∧ n_htmlProps (N m4) = n_htmlProps (N m3)
    ∧ n_listeners (N m4) = ep_eventListeners (v_eprops v)
    ∧ n_hasInnerHTML (N m4) = n_hasInnerHTML n ∧ n_innerHTML (N m4) = n_innerHTML n).
  { rewrite HnD.
    split_and!; simpl;
      repeat match goal with
      | H : set_n_tagName _ _ = _ |- _ => revert H
      | H : set_n_attributes _ _ = _ |- _ => revert H
      | H : set_n_htmlProps _ _ = _ |- _ => revert H
      end;
      destruct (N m3), (N m2), (N m1), n; simpl; intros; simplify_eq; done. }
  destruct H4 as (Hk4 & Hc4 & Ht4 & Ha4 & Hp4 & Hl4 & Hh4 & Hi4).
  assert (Hfin : ∀ m5, m_vels m5 = m_vels m4 → m_next m5 = m_next m4 →
    blank_structure (N m5) = blank_structure (N m4) →
    m_vels m5 = m_vels m ∧ m_next m5 = m_next m
    ∧ n_kind (N m5) = n_kind n ∧ n_comp (N m5) = n_comp n
    ∧ getTagName (N m5) = toLowerCase (v_tagName v)
    ∧ (∀ k, Map_get k (n_attributes (N m5)) = Map_get k (ep_attributes (v_eprops v)))
    ∧ (∀ k, Map_get k (n_htmlProps (N m5)) = Map_get k (ep_htmlProps (v_eprops v)))
    ∧ n_listeners (N m5) = ep_eventListeners (v_eprops v)).
  { intros m5 Hv5 Hx5 Hf5.
    assert (n_kind (N m5) = n_kind (N m4) ∧ n_comp (N m5) = n_comp (N m4)
      ∧ n_tagName (N m5) = n_tagName (N m4) ∧ n_attributes (N m5) = n_attributes (N m4)
      ∧ n_htmlProps (N m5) = n_htmlProps (N m4) ∧ n_listeners (N m5) = n_listeners (N m4))
      as (E1 & E2 & E3 & E4 & E5 & E6).
    { revert Hf5. unfold blank_structure. destruct (N m5), (N m4). simpl. intros [=]. by subst. }
    split_and!; [congruence..| | | |congruence].
    - unfold getTagName in *. by rewrite E3, Ht4.
    - intros k. by rewrite E4, Ha4.
    - intros k. by rewrite E5, Hp4. }
  destruct (v_innerHTMLString v) as [h|] eqn:Hhtml.
  2:{ cbn [ret fst snd]. split; [done|].
      destruct (Hfin m4 eq_refl eq_refl eq_refl) as (?&?&?&?&?&?&?&?). by split_and!. }
  set (inner := if negb (n_hasInnerHTML n) then (empty el;; setInnerHTML el h)%M
                else if bool_decide (n_innerHTML n ≠ h) then setInnerHTML el h else ret tt).
  assert (Hinner : ∃ m5, inner m4 = (Ret tt, m5)
    ∧ m_vels m5 = m_vels m4 ∧ m_next m5 = m_next m4
    ∧ blank_structure (N m5) = blank_structure (N m4)
    ∧ n_innerHTML (N m5) = h).
  { subst inner. destruct (n_hasInnerHTML n) eqn:Hhas; cbn [negb].
    - case_bool_decide as Hne.
      + apply setInnerHTML_run.
      + assert (n_innerHTML n = h) as Heq
          by (destruct (decide (n_innerHTML n = h)); [done|contradiction]).
        exists m4. split_and!; [done..|]. unfold N in *. congruence.
    - destruct (empty_run el m4) as (ma & Hra & Hva & Hxa & Hba & _).
      rewrite (bind_ret_run _ _ _ _ _ Hra).
      destruct (setInnerHTML_run el h ma) as (mb & Hrb & Hvb & Hxb & Hbb & Hib).
      exists mb. unfold N in *. split_and!; [done|congruence..|done]. }
  destruct Hinner as (m5 & Hr5 & Hv5 & Hx5 & Hb5 & Hi5). clearbody inner.
  rewrite (bind_ret_run _ _ _ _ _ Hr5). cbn [modNode fst snd].
  split; [done|].
  destruct (Hfin m5 Hv5 Hx5 Hb5) as (F1 & F2 & F3 & F4 & F5 & F6 & F7 & F8).
  unfold N in *. simpl. rewrite lookup_total_insert_eq. simpl. by split_and!.
Qed.


(** X8: synchronizing a node a second time with the same descriptor changes
    nothing but the listeners: a text node is left alone, and on any other
    node the only calls are the removal of all listeners and the registration
    of each of the descriptor's listeners. *)
Theorem second_sync_only_registers_listeners (el vel : nat) (m : Machine) :
  let v := m_vels m !!! vel in
  let m1 := (_updateDOMElement el vel m).2 in
  let r := _updateDOMElement el vel m1 in
  r.1 = Ret tt
  ∧ m_log r.2 = m_log m1 ++
      (if bool_decide (v_kind v = VirtualTextNode) then []
       else EvDom (RemoveAllEventListeners el)
              :: ((λ l, EvDom (AddEventListener el l)) <$> ep_eventListeners (v_eprops v))).
Proof.
  intros v m1 r. subst r m1.
  destruct (_updateDOMElement_post el vel m) as (_ & Hv & _ & _ & _ & Ha).
  fold v in Ha. unfold node_agrees in Ha.
  set (m1 := (_updateDOMElement el vel m).2) in *.
  assert (Hv1 : m_vels m1 !!! vel = v) by (by rewrite Hv).
  case_bool_decide as Hk.
  - rewrite Hk in Ha.
    destruct (_updateDOMElement_text el vel m1) as [Hr Hl]; [by rewrite Hv1|].
    split; [done|]. rewrite Hl, Hv1, bool_decide_eq_false_2 by (rewrite Ha; tauto). done.
  - assert (Hel : getTagName (m_nodes m1 !!! el) = toLowerCase (v_tagName v)
      ∧ (∀ k, Map_get k (n_attributes (m_nodes m1 !!! el))
              = Map_get k (ep_attributes (v_eprops v)))
      ∧ (∀ k, Map_get k (n_htmlProps (m_nodes m1 !!! el))
              = Map_get k (ep_htmlProps (v_eprops v)))
      ∧ n_listeners (m_nodes m1 !!! el) = ep_eventListeners (v_eprops v)
      ∧ match v_innerHTMLString v with
        | Some h => n_hasInnerHTML (m_nodes m1 !!! el) = true
                    ∧ n_innerHTML (m_nodes m1 !!! el) = h
        | None => True
        end) by (destruct (v_kind v); done).
    destruct Hel as (Ht & Hat & Hp & _ & Hh).
    destruct (_updateDOMElement_in_sync el vel m1) as [Hr Hl]; rewrite ?Hv1; try done.
    + intros h Hs. by rewrite Hs in Hh.
    + split; [done|]. by rewrite Hl, Hv1.
Qed.

(** X9: [_createDOMElement] creates exactly one node, a text node for a text
    descriptor and an element otherwise, stamps the descriptor's instance on
    it and returns it in agreement with the descriptor; creating the node is
    the first call it makes. *)
Theorem _createDOMElement_creates_agreeing_node (vel : nat) (m : Machine) :
  let v := m_vels m !!! vel in
  let el := m_next m in
  let r := _createDOMElement vel m in
  r.1 = Ret el
  ∧ m_next r.2 = S el
  ∧ m_vels r.2 = m_vels m
  ∧ n_kind (m_nodes r.2 !!! el)
    = (if bool_decide (v_kind v = VirtualTextNode) then TextNode else ElementNode)
  ∧ n_comp (m_nodes r.2 !!! el) = v_comp v
  ∧ node_agrees v (m_nodes r.2 !!! el)
  ∧ ∃ evs, m_log r.2 = m_log m ++
      EvDom (if bool_decide (v_kind v = VirtualTextNode) then CreateTextNode el (v_text v)
             else CreateElement el (v_tagName v)) :: evs.
Proof.
  intros v el r. subst r. unfold _createDOMElement. rewrite bind_getVel. fold v.
  set (create := match v_kind v with
                 | VirtualTextNode => createTextNode (v_text v)
                 | _ => createElement (v_tagName v)
                 end).
  assert (Hcreate : ∃ m1, create m = (Ret el, m1)
    ∧ m_next m1 = S el ∧ m_vels m1 = m_vels m
    ∧ n_kind (m_nodes m1 !!! el)
      = (if bool_decide (v_kind v = VirtualTextNode) then TextNode else ElementNode)
    ∧ n_comp (m_nodes m1 !!! el) = None
    ∧ m_log m1 = m_log m ++
        [EvDom (if bool_decide (v_kind v = VirtualTextNode) then CreateTextNode el (v_text v)
                else CreateElement el (v_tagName v))]).
  { subst create. destruct (v_kind v); eexists; (split; [reflexivity|]); simpl;
      rewrite lookup_total_insert_eq; by split_and!. }
  destruct Hcreate as (m1 & Hr1 & Hx1 & Hv1 & Hk1 & Hc1 & Hl1). clearbody create.
  rewrite (bind_ret_run _ _ _ _ _ Hr1).
  set (stamp := match v_comp v with
                | Some c => modNode el (set_n_comp (Some c))
                | None => ret tt
                end).
  assert (Hstamp : ∃ m2, stamp m1 = (Ret tt, m2)
    ∧ m_next m2 = S el ∧ m_vels m2 = m_vels m ∧ m_log m2 = m_log m1
    ∧ n_kind (m_nodes m2 !!! el) = n_kind (m_nodes m1 !!! el)
    ∧ n_comp (m_nodes m2 !!! el) = v_comp v).
  { subst stamp. destruct (v_comp v) as [c|]; eexists; (split; [reflexivity|]); simpl;
      rewrite ?lookup_total_insert_eq; by split_and!. }
  destruct Hstamp as (m2 & Hr2 & Hx2 & Hv2 & Hl2 & Hk2 & Hc2). clearbody stamp.
  rewrite (bind_ret_run _ _ _ _ _ Hr2).
  destruct (_updateDOMElement_post el vel m2) as (Hr & Hv & Hx & Hk & Hc & Ha).
  destruct (sound_updateDOMElement quiet (λ _ Hq, Hq) el vel m2) as (evs & Hl & _).
  destruct (_updateDOMElement el vel m2) as [o m3] eqn:He. cbn [fst snd] in *. subst o.
  rewrite (bind_ret_run _ _ _ _ _ He). cbn [ret fst snd]. rewrite Hv2 in Ha. fold v in Ha.
  split_and!; [done|congruence..|done|].
  exists evs. by rewrite Hl, Hl2, Hl1, <-app_assoc.
Qed.

(** ** Forwarding *)

Lemma _getForwardedEl_unfold fuel vel m :
  _getForwardedEl fuel vel m
  = if v_isForwarding (m_vels m !!! vel) then
      match fuel with
      | 0 => (Throw OutOfFuel, m)
      | S fuel' =>
          match v_forwardedEl (m_vels m !!! vel) with
          | Some f => _getForwardedEl fuel' f m
          | None => (Throw TypeError, m)
          end
      end
    else (Ret vel, m).
Proof.
  destruct fuel; simpl; rewrite bind_getVel; destruct (v_isForwarding _); try done.
  by destruct (v_forwardedEl _).
Qed.

(** X10: [_getForwardedEl] follows the forwarding chain without touching the
    store.  What it returns does not forward (so asking again returns the same
    descriptor); a descriptor that does not forward is returned as it is; a
    forwarding descriptor without forwarded descriptor raises a TypeError; and
    on a chain of at most [fuel] steps the call returns the end of the
    chain. *)
Theorem _getForwardedEl_end_of_chain (fuel : nat) (vel : nat) (m : Machine) :
  (_getForwardedEl fuel vel m).2 = m
  ∧ (∀ t, (_getForwardedEl fuel vel m).1 = Ret t →
       v_isForwarding (m_vels m !!! t) = false ∧ ∀ fuel', _getForwardedEl fuel' t m = (Ret t, m))
  ∧ (v_isForwarding (m_vels m !!! vel) = true → v_forwardedEl (m_vels m !!! vel) = None →
     _getForwardedEl (S fuel) vel m = (Throw TypeError, m))
  ∧ (∀ d t, forwarded_target (m_vels m) d vel = Some t → d ≤ fuel →
       _getForwardedEl fuel vel m = (Ret t, m)).
Proof.
  split_and!.
  - revert vel. induction fuel as [|fuel IH]; intros vel; rewrite _getForwardedEl_unfold;
      destruct (v_isForwarding _); try done.
    destruct (v_forwardedEl _); [apply IH|done].
  - revert vel. induction fuel as [|fuel IH]; intros vel t; rewrite _getForwardedEl_unfold;
      destruct (v_isForwarding (m_vels m !!! vel)) eqn:Hf; try done.
    + intros [= <-]. split; [done|]. intros fuel'. by rewrite _getForwardedEl_unfold, Hf.
    + destruct (v_forwardedEl _); [apply IH|done].
    + intros [= <-]. split; [done|]. intros fuel'. by rewrite _getForwardedEl_unfold, Hf.
  - intros Hf Hn. by rewrite _getForwardedEl_unfold, Hf, Hn.
  - intros d. revert fuel vel. induction d as [|d IH]; intros fuel vel t Ht Hle;
      rewrite _getForwardedEl_unfold; simpl in Ht;
      destruct (v_isForwarding (m_vels m !!! vel)); try done; try by simplify_eq.
    destruct fuel as [|fuel]; [lia|].
    destruct (v_forwardedEl _); [|done]. apply (IH fuel); [done|lia].
Qed.

(** [_getForwardedEl_end_of_chain] on the chain of [m_forwarding]. *)
Lemma _getForwardedEl_end_of_chain_witness :
  _getForwardedEl 5 1 m_forwarding = (Ret 3, m_forwarding).
Proof.
  refine (proj2 (proj2 (proj2 (_getForwardedEl_end_of_chain 5 1 m_forwarding))) 2 3 _ _).
  - vm_compute. reflexivity.
  - lia.
Defined.

Local Ltac no_ancestor :=
  split_and!; try done; intros ? Hc; by apply elem_of_nil in Hc.

Lemma _propagateForwardedEl_loop_spec fuel d parent el cs m :
  forwarding_ancestors (m_vels m) d parent = Some cs → d ≤ fuel →
  let r := _propagateForwardedEl_loop fuel parent el m in
  r.1 = Ret tt
  ∧ m_vels r.2 = m_vels m ∧ m_nodes r.2 = m_nodes m ∧ m_log r.2 = m_log m
  ∧ m_tags r.2 = m_tags m
  ∧ (∀ c, c ∈ cs → c_el (m_comps r.2 !!! c) = Some el)
  ∧ (∀ c, c ∉ cs → m_comps r.2 !!! c = m_comps m !!! c)
  ∧ (∀ c, set_c_el None (m_comps r.2 !!! c) = set_c_el None (m_comps m !!! c)).
Proof.
  revert fuel parent cs m. induction d as [|d IH]; intros fuel parent cs m Hanc Hle;
    destruct parent as [p|]; simpl in Hanc.
  - destruct (v_isForwarding (m_vels m !!! p)) eqn:Hf; [done|]. simplify_eq.
    destruct fuel; simpl; rewrite bind_getVel, Hf; no_ancestor.
  - simplify_eq. destruct fuel; no_ancestor.
  - destruct (v_isForwarding (m_vels m !!! p)) eqn:Hf.
    + destruct (v_comp (m_vels m !!! p)) as [pc|] eqn:Hpc; [|done].
      destruct (forwarding_ancestors (m_vels m) d (v_parent (m_vels m !!! p))) as [l|] eqn:Hl;
        [|done].
      simplify_eq. destruct fuel as [|fuel]; [lia|].
      simpl. rewrite bind_getVel, Hf, Hpc. cbn [deref]. rewrite bind_ret, bind_modComp.
      cbn [fst snd]. set (m1 := (modComp pc (set_c_el (Some el)) m).2).
      change (m_vels m) with (m_vels m1) in Hl.
      destruct (IH fuel (v_parent (m_vels m !!! p)) l m1 Hl ltac:(lia))
        as (Hr & Hv & Hn & Hlog & Ht & Hin & Hout & Hsame).
      change (m_vels m1 !!! p) with (m_vels m !!! p) in *.
      split_and!; [done..| | |].
      * intros c [->|Hc]%elem_of_cons; [|by apply Hin].
        destruct (decide (pc ∈ l)) as [Hpl|Hpl]; [by apply Hin|].
        rewrite Hout by done. subst m1. simpl. by rewrite lookup_total_insert_eq.
      * intros c Hc. apply not_elem_of_cons in Hc as [Hne Hc]. rewrite Hout by done.
        subst m1. simpl. by rewrite lookup_total_insert_ne.
      * intros c. rewrite Hsame. subst m1. simpl.
        destruct (decide (c = pc)) as [->|Hne].
        -- rewrite lookup_total_insert_eq. by destruct (m_comps m !!! pc).
        -- by rewrite lookup_total_insert_ne.
    + simplify_eq. destruct fuel; simpl; rewrite bind_getVel, Hf; no_ancestor.
  - simplify_eq. destruct fuel; no_ancestor.
Qed.

(** X11: for a forwarded descriptor, [_propagateForwardedEl] hands the node to
    the instance of every forwarding ancestor, up to the first ancestor that
    does not forward; nothing else changes: no other instance, no other field
    of an instance, no descriptor, no node, no tag, and nothing is logged.
    For a descriptor that is not forwarded it does nothing. *)
Theorem _propagateForwardedEl_up_the_chain (fuel : nat) (vel el : nat) (m : Machine) :
  (v_isForwarded (m_vels m !!! vel) = false → _propagateForwardedEl fuel vel el m = (Ret tt, m))
  ∧ (∀ d cs,
       v_isForwarded (m_vels m !!! vel) = true →
       forwarding_ancestors (m_vels m) d (v_parent (m_vels m !!! vel)) = Some cs → d ≤ fuel →
       let r := _propagateForwardedEl fuel vel el m in
       r.1 = Ret tt
       ∧ m_vels r.2 = m_vels m ∧ m_nodes r.2 = m_nodes m ∧ m_log r.2 = m_log m
       ∧ m_tags r.2 = m_tags m
       ∧ (∀ c, c ∈ cs → c_el (m_comps r.2 !!! c) = Some el)
       ∧ (∀ c, c ∉ cs → m_comps r.2 !!! c = m_comps m !!! c)
       ∧ (∀ c, set_c_el None (m_comps r.2 !!! c) = set_c_el None (m_comps m !!! c))).
Proof.
  split.
  - intros Hf. unfold _propagateForwardedEl. by rewrite bind_getVel, Hf.
  - intros d cs Hf Hanc Hle. unfold _propagateForwardedEl. rewrite bind_getVel, Hf.
    by apply (_propagateForwardedEl_loop_spec fuel d).
Qed.

(** [_propagateForwardedEl_up_the_chain] on the chain of [m_forwarding]: the
    node of descriptor [3] reaches the instances [11] and [10], and instance
    [12] is not touched. *)
Lemma _propagateForwardedEl_up_the_chain_witness :
  let r := _propagateForwardedEl 5 3 7 m_forwarding in
  c_el (m_comps r.2 !!! 11) = Some 7 ∧ c_el (m_comps r.2 !!! 10) = Some 7
  ∧ m_comps r.2 !!! 12 = m_comps m_forwarding !!! 12.
Proof.
  assert (Hf : v_isForwarded (m_vels m_forwarding !!! 3) = true) by (vm_compute; reflexivity).
  assert (Hanc : forwarding_ancestors (m_vels m_forwarding) 2
                   (v_parent (m_vels m_forwarding !!! 3)) = Some [11; 10])
    by (vm_compute; reflexivity).
  assert (Hle : 2 ≤ 5) by lia.
  pose proof (proj2 (_propagateForwardedEl_up_the_chain 5 3 7 m_forwarding) 2 [11; 10]
                Hf Hanc Hle) as Hup.
  cbv zeta in Hup. destruct Hup as (_ & _ & _ & _ & _ & Hin & Hout & _).
  split_and!.
  - apply Hin. apply elem_of_cons. by left.
  - apply Hin. apply elem_of_cons. right. apply elem_of_cons. by left.
  - apply Hout. intros Hc. apply elem_of_cons in Hc as [Hc|Hc]; [discriminate Hc|].
    apply elem_of_cons in Hc as [Hc|Hc]; [discriminate Hc|]. by apply elem_of_nil in Hc.
Defined.

Lemma _findForwardingChild_loop_spec fuel comp current m :
  let l := comp_chain (m_comps m) (S fuel) current in
  length l ≤ fuel →
  ∃ x, _findForwardingChild_loop fuel comp current m = (Ret x, m)
       ∧ (x = None ↔ comp ∉ tail l)
       ∧ ∀ cur, x = Some cur →
           ∃ i, l !! i = Some cur ∧ l !! S i = Some comp ∧ ∀ j, j < i → l !! S j ≠ Some comp.
Proof.
  revert current. induction fuel as [|fuel IH]; intros [cur|] l Hl; subst l;
    try (exists None; cbn; split_and!; [done| |done]; split; [intros _ []%elem_of_nil|done]).
  - cbn in Hl. lia.
  - cbn [_findForwardingChild_loop]. rewrite bind_getComp.
    change (comp_chain (m_comps m) (S (S fuel)) (Some cur))
      with (cur :: comp_chain (m_comps m) (S fuel) (c_parent (m_comps m !!! cur))) in *.
    cbn [length tail] in *.
    case_bool_decide as Hp.
    + exists (Some cur). rewrite Hp. cbn [comp_chain]. split_and!; [done| |].
      * split; [done|]. intros Hn. exfalso. apply Hn, elem_of_cons. by left.
      * intros ? [= <-]. exists 0. split_and!; [done..|]. intros; lia.
    + destruct (IH (c_parent (m_comps m !!! cur)) ltac:(lia)) as (x & Hrun & Hnone & Hsome).
      exists x. split_and!; [done| |].
      * rewrite Hnone. destruct (c_parent (m_comps m !!! cur)) as [p|] eqn:Hcp; [|done].
        cbn [comp_chain tail]. rewrite not_elem_of_cons. split; [|by intros [_ ?]].
        intros Hc. split; [congruence|done].
      * intros c Hc. destruct (Hsome c Hc) as (i & Hi & HSi & Hfirst).
        exists (S i). split_and!; [done..|]. intros [|j] Hj.
        -- cbn. destruct (c_parent (m_comps m !!! cur)) as [p|] eqn:Hcp; [|done].
           cbn. congruence.
        -- apply (Hfirst j). lia.
Qed.

(** X12: [_findForwardingChildOfComponent] walks up the parents of the
    forwarded instance and leaves the store as it is.  When the chain of
    ancestors ends, it returns the nearest ancestor whose parent is [comp];
    it returns nothing exactly when [comp] is not among the ancestors above
    the direct parent, so also when [comp] is the direct parent itself. *)
Theorem _findForwardingChildOfComponent_nearest (fuel : nat) (comp forwarded : nat) (m : Machine) :
  let l := comp_ancestors (m_comps m) (S fuel) forwarded in
  length l ≤ fuel →
  ∃ x, _findForwardingChildOfComponent fuel comp forwarded m = (Ret x, m)
       ∧ (x = None ↔ comp ∉ tail l)
       ∧ ∀ cur, x = Some cur →
           c_parent (m_comps m !!! cur) = Some comp
           ∧ ∃ i, l !! i = Some cur ∧ l !! S i = Some comp ∧ ∀ j, j < i → l !! S j ≠ Some comp.
Proof.
  intros l Hl. unfold _findForwardingChildOfComponent. rewrite bind_getComp.
  destruct (_findForwardingChild_loop_spec fuel comp (c_parent (m_comps m !!! forwarded)) m Hl)
    as (x & Hrun & Hnone & Hsome).
  exists x. split_and!; [done..|]. intros cur Hcur. split; [|by apply Hsome].
  subst x. clear -Hrun. revert Hrun. generalize (c_parent (m_comps m !!! forwarded)).
  induction fuel as [|fuel IH]; intros [c|]; cbn [_findForwardingChild_loop]; try done;
    rewrite bind_getComp; case_bool_decide; try done; try (by intros [= <-]).
  apply IH.
Qed.

(** [_findForwardingChildOfComponent_nearest] on the instances of
    [m_forwarding]: from instance [12] the child of [10] is [11], and [11]
    itself, the direct parent, has no forwarding child. *)
Lemma _findForwardingChildOfComponent_nearest_witness :
  (∃ x, _findForwardingChildOfComponent 3 10 12 m_forwarding = (Ret x, m_forwarding)
        ∧ (x = None ↔ 10 ∉ tail (comp_ancestors (m_comps m_forwarding) 4 12)))
  ∧ (∃ x, _findForwardingChildOfComponent 3 11 12 m_forwarding = (Ret x, m_forwarding)
        ∧ (x = None ↔ 11 ∉ tail (comp_ancestors (m_comps m_forwarding) 4 12))).
Proof.
  assert (Hl : length (comp_ancestors (m_comps m_forwarding) 4 12) ≤ 3)
    by (vm_compute; lia).
  split.
  - destruct (_findForwardingChildOfComponent_nearest 3 10 12 m_forwarding Hl)
      as (x & Hrun & Hnone & _).
    exists x. split; [exact Hrun|exact Hnone].
  - destruct (_findForwardingChildOfComponent_nearest 3 11 12 m_forwarding Hl)
      as (x & Hrun & Hnone & _).
    exists x. split; [exact Hrun|exact Hnone].
Defined.

(** ** Creation of instances *)

Section create.
Context `{Collaborators}.

Lemma _create_unfold fuel vel m :
  _create (S fuel) vel m
  = match v_parent (m_vels m !!! vel) with
    | None => (Throw TypeError, m)
    | Some vp =>
        (parent <- match v_comp (m_vels m !!! vp) with
                   | Some p => ret p
                   | None => _create fuel vp
                   end;;
         _create_instance (m_vels m !!! vel) vel parent) m
    end.
Proof.
  cbn [_create]. rewrite bind_getVel. destruct (v_parent _); [|done].
  cbn [deref]. by rewrite bind_ret, bind_getVel.
Qed.

Lemma FreshFrame_refl m : FreshFrame m m.
Proof. split_and!; try done. exists []. by rewrite app_nil_r. Qed.

Lemma FreshFrame_new m0 m rec ev :
  is_creation ev → FreshFrame m0 m →
  FreshFrame m0 (set_m_log (m_log m ++ [ev])
                   (set_m_comps (<[m_next m := rec]> (m_comps m)) (set_m_next (S (m_next m)) m))).
Proof.
  intros Hev (Hn & ? & ? & ? & ? & ? & ? & Hv & Hc & evs & Hl & Hevs).
  split_and!; try done; cbn.
  - lia.
  - intros c Hlt. rewrite lookup_total_insert_ne by lia. by apply Hc.
  - exists (evs ++ [ev]). rewrite Hl, <-app_assoc. split; [done|].
    apply Forall_app. split; [done|]. by apply Forall_singleton.
Qed.

Lemma FreshFrame_modComp m0 m c f :
  m_next m0 ≤ c → FreshFrame m0 m → FreshFrame m0 (modComp c f m).2.
Proof.
  intros Hle (Hn & ? & ? & ? & ? & ? & ? & Hv & Hc & Hl).
  split_and!; try done; cbn.
  intros c0 Hlt. rewrite lookup_total_insert_ne by lia. by apply Hc.
Qed.

Lemma FreshFrame_modVel m0 m x g :
  set_v_comp None (g (m_vels m !!! x)) = set_v_comp None (m_vels m !!! x) →
  FreshFrame m0 m → FreshFrame m0 (modVel x g m).2.
Proof.
  intros Hg (Hn & ? & ? & ? & ? & ? & ? & Hv & Hc & Hl).
  split_and!; try done; cbn.
  intros y. destruct (decide (y = x)) as [->|Hne].
  - by rewrite lookup_total_insert_eq, Hg.
  - by rewrite lookup_total_insert_ne.
Qed.

Local Abbreviation new_instance m rec ev :=
  (set_m_log (m_log m ++ [ev])
     (set_m_comps (<[m_next m := rec]> (m_comps m)) (set_m_next (S (m_next m)) m))).

Lemma createComponent_run cls parent props m :
  createComponent cls parent props m
  = (Ret (m_next m),
     new_instance m (mkComp cls props (comp_initialState cls props) None (Some parent)
                            None None None None [] false)
                    (EvCreateComponent (m_next m) cls (Some parent))).
Proof. reflexivity. Qed.

Lemma createElementComponent_run parent vel m :
  createElementComponent parent vel m
  = (Ret (m_next m),
     new_instance m (mkComp ElementComponent [] [] None (Some parent) None None None None [] false)
                    (EvCreateComponent (m_next m) ElementComponent (Some parent))).
Proof. reflexivity. Qed.

Lemma createTextNodeComponent_run parent vel m :
  createTextNodeComponent parent vel m
  = (Ret (m_next m),
     new_instance m (mkComp TextNodeComponent [] [] None (Some parent) None None None None [] false)
                    (EvCreateComponent (m_next m) TextNodeComponent (Some parent))).
Proof. reflexivity. Qed.

Lemma v_props_frame v v' : set_v_comp None v' = set_v_comp None v → v_props v' = v_props v.
Proof. intros E. by apply (f_equal v_props) in E. Qed.

Lemma v_kind_frame v v' : set_v_comp None v' = set_v_comp None v → v_kind v' = v_kind v.
Proof. intros E. by apply (f_equal v_kind) in E. Qed.

Lemma v_class_frame v v' :
  set_v_comp None v' = set_v_comp None v → v_ComponentClass v' = v_ComponentClass v.
Proof. intros E. by apply (f_equal v_ComponentClass) in E. Qed.

Lemma set_v_props_same p v : p = v_props v → set_v_comp None (set_v_props p v) = set_v_comp None v.
Proof. intros ->. by destruct v. Qed.

Lemma comp_of_modVel_props x p m y : comp_of (modVel x (set_v_props p) m).2 y = comp_of m y.
Proof.
  unfold comp_of. cbn. destruct (decide (y = x)) as [->|Hne].
  - by rewrite lookup_total_insert_eq.
  - by rewrite lookup_total_insert_ne.
Qed.

Lemma create_phase1 v vel parent m :
  set_v_comp None (m_vels m !!! vel) = set_v_comp None v →
  ∃ m1,
    (match v_kind v with
     | VirtualComponent =>
         comp <- createComponent (v_ComponentClass v) parent (v_props v);;
         c <- getComp comp;;
         modVel vel (set_v_props (c_props c));;
         match v_forwardedEl v with
         | Some forwardedEl =>
             fv <- getVel forwardedEl;;
             forwardedComp <- createComponent (v_ComponentClass fv) comp (v_props fv);;
             fc <- getComp forwardedComp;;
             modVel forwardedEl (set_v_props (c_props fc));;
             modComp comp (set_c_forwardedComp (Some forwardedComp))
         | None => ret tt
         end;;
         ret comp
     | VirtualHTMLElement => createElementComponent parent vel
     | VirtualTextNode => createTextNodeComponent parent vel
     end) m = (Ret (m_next m), m1)
    ∧ FreshFrame m m1 ∧ m_next m < m_next m1
    ∧ (∀ x, comp_of m1 x = comp_of m x)
    ∧ c_class (m_comps m1 !!! m_next m)
      = match v_kind v with
        | VirtualComponent => v_ComponentClass v
        | VirtualHTMLElement => ElementComponent
        | VirtualTextNode => TextNodeComponent
        end
    ∧ c_parent (m_comps m1 !!! m_next m) = Some parent
    ∧ c_ref (m_comps m1 !!! m_next m) = None.
Proof.
  intros Hv. destruct (v_kind v).
  - rewrite (bind_ret_run _ _ _ _ _ (createComponent_run _ _ _ m)).
    set (rec := mkComp _ _ _ _ _ _ _ _ _ _ _). set (ev := EvCreateComponent _ _ _).
    set (m1 := new_instance m rec ev).
    assert (F1 : FreshFrame m m1) by (by apply FreshFrame_new, FreshFrame_refl).
    assert (C1 : m_comps m1 !!! m_next m = rec) by (cbn; by rewrite lookup_total_insert_eq).
    assert (V1 : m_vels m1 = m_vels m) by done.
    assert (N1 : m_next m1 = S (m_next m)) by done.
    clearbody m1. rewrite bind_getComp, C1. cbn [c_props rec]. rewrite bind_modVel.
    set (m2 := (modVel vel _ m1).2).
    assert (F2 : FreshFrame m m2).
    { apply FreshFrame_modVel; [|done]. apply set_v_props_same. rewrite V1.
      symmetry. by apply v_props_frame. }
    assert (C2 : m_comps m2 !!! m_next m = rec) by done.
    assert (V2 : ∀ x, comp_of m2 x = comp_of m x).
    { intros x. unfold m2. rewrite comp_of_modVel_props. unfold comp_of. by rewrite V1. }
    assert (N2 : m_next m2 = S (m_next m)) by done.
    clearbody m2. destruct (v_forwardedEl v) as [fe|].
    + rewrite !bind_bind, bind_getVel. set (fv := m_vels m2 !!! fe).
      rewrite !bind_bind.
      rewrite (bind_ret_run _ _ _ _ _ (createComponent_run _ _ _ m2)).
      set (rec' := mkComp _ _ _ _ _ _ _ _ _ _ _). set (ev' := EvCreateComponent _ _ _).
      set (m3 := new_instance m2 rec' ev').
      assert (F3 : FreshFrame m m3) by (by apply FreshFrame_new).
      assert (C3 : m_comps m3 !!! m_next m = rec)
        by (cbn; rewrite lookup_total_insert_ne by lia; done).
      assert (C3' : m_comps m3 !!! m_next m2 = rec') by (cbn; by rewrite lookup_total_insert_eq).
      assert (V3 : m_vels m3 = m_vels m2) by done.
      assert (N3 : m_next m3 = S (S (m_next m))) by (cbn; by rewrite N2).
      clearbody m3. rewrite !bind_bind, bind_getComp, C3'. cbn [c_props rec']. rewrite !bind_bind, bind_modVel.
      set (m4 := (modVel fe _ m3).2).
      assert (F4 : FreshFrame m m4).
      { apply FreshFrame_modVel; [|done]. apply set_v_props_same. by rewrite V3. }
      assert (C4 : m_comps m4 !!! m_next m = rec) by done.
      assert (V4 : ∀ x, comp_of m4 x = comp_of m x).
      { intros x. unfold m4. rewrite comp_of_modVel_props. unfold comp_of. rewrite V3.
        apply V2. }
      assert (N4 : m_next m4 = S (S (m_next m))) by done.
      clearbody m4. rewrite bind_modComp.
      eexists. split; [reflexivity|]. split_and!.
      * by apply FreshFrame_modComp.
      * cbn. lia.
      * done.
      * cbn. by rewrite lookup_total_insert_eq, C4.
      * cbn. by rewrite lookup_total_insert_eq, C4.
      * cbn. by rewrite lookup_total_insert_eq, C4.
    + rewrite !bind_ret. exists m2. rewrite C2. split_and!; try done. lia.
  - rewrite createElementComponent_run. eexists. split; [reflexivity|].
    split_and!; try (cbn; by rewrite ?lookup_total_insert_eq); [|cbn; lia].
    by apply FreshFrame_new, FreshFrame_refl.
  - rewrite createTextNodeComponent_run. eexists. split; [reflexivity|].
    split_and!; try (cbn; by rewrite ?lookup_total_insert_eq); [|cbn; lia].
    by apply FreshFrame_new, FreshFrame_refl.
Qed.

Lemma _create_instance_spec v vel parent m :
  set_v_comp None (m_vels m !!! vel) = set_v_comp None v →
  ∃ m', _create_instance v vel parent m = (Ret (m_next m), m')
    ∧ comp_of m' vel = Some (m_next m) ∧ m_next m < m_next m'
    ∧ _isOfSameType (m_comps m' !!! m_next m) (m_vels m' !!! vel) = true
    ∧ c_ref (m_comps m' !!! m_next m) = v_ref v
    ∧ c_parent (m_comps m' !!! m_next m) = Some parent
    ∧ FreshFrame m m'
    ∧ (∀ x, x ≠ vel → comp_of m' x = comp_of m x).
Proof.
  intros Hv. unfold _create_instance.
  destruct (create_phase1 v vel parent m Hv) as (m1 & Hrun & F1 & N1 & V1 & Hcls & Hpar & Href).
  rewrite (bind_ret_run _ _ _ _ _ Hrun). clear Hrun.
  set (c := m_next m) in *.
  assert (∃ m2, (match v_ref v with
                 | Some r => modComp c (set_c_ref (Some r))
                 | None => ret tt
                 end) m1 = (Ret tt, m2)
                ∧ FreshFrame m m2 ∧ m_next m2 = m_next m1 ∧ m_vels m2 = m_vels m1
                ∧ c_class (m_comps m2 !!! c) = c_class (m_comps m1 !!! c)
                ∧ c_parent (m_comps m2 !!! c) = Some parent
                ∧ c_ref (m_comps m2 !!! c) = v_ref v) as (m2 & Hrun & F2 & N2 & V2 & C2 & P2 & R2).
  { destruct (v_ref v) as [r|].
    - eexists. split; [reflexivity|]. split_and!; try done.
      + apply FreshFrame_modComp; [subst c; lia|done].
      + cbn. by rewrite lookup_total_insert_eq.
      + cbn. by rewrite lookup_total_insert_eq.
      + cbn. by rewrite lookup_total_insert_eq.
    - exists m1. by split_and!. }
  rewrite (bind_ret_run _ _ _ _ _ Hrun). clear Hrun.
  assert (∃ m3, (match v_owner v with
                 | Some o => ov <- getVel o;; modComp c (set_c_owner (v_comp ov))
                 | None => ret tt
                 end) m2 = (Ret tt, m3)
                ∧ FreshFrame m m3 ∧ m_next m3 = m_next m1 ∧ m_vels m3 = m_vels m1
                ∧ c_class (m_comps m3 !!! c) = c_class (m_comps m1 !!! c)
                ∧ c_parent (m_comps m3 !!! c) = Some parent
                ∧ c_ref (m_comps m3 !!! c) = v_ref v) as (m3 & Hrun & F3 & N3 & V3 & C3 & P3 & R3).
  { destruct (v_owner v) as [o|].
    - rewrite bind_getVel. eexists. split; [reflexivity|]. split_and!; try done.
      + apply FreshFrame_modComp; [subst c; lia|done].
      + cbn. by rewrite lookup_total_insert_eq.
      + cbn. by rewrite lookup_total_insert_eq.
      + cbn. by rewrite lookup_total_insert_eq.
    - exists m2. by split_and!. }
  rewrite (bind_ret_run _ _ _ _ _ Hrun). clear Hrun.
  rewrite bind_modVel. eexists. split; [reflexivity|].
  assert (Hk : v_kind (m_vels m3 !!! vel) = v_kind v ∧
               v_ComponentClass (m_vels m3 !!! vel) = v_ComponentClass v).
  { destruct F3 as (_ & _ & _ & _ & _ & _ & _ & Hfr & _). specialize (Hfr vel).
    rewrite Hv in Hfr. split; [by apply v_kind_frame|by apply v_class_frame]. }
  destruct Hk as [Hk Hc]. split_and!.
  - unfold comp_of. cbn. by rewrite lookup_total_insert_eq.
  - cbn. lia.
  - cbn. rewrite lookup_total_insert_eq. unfold _isOfSameType, _isElementComponent,
      _isTextNodeComponent. cbn. rewrite C3, Hcls, Hk, Hc.
    destruct (v_kind v); repeat case_bool_decide; done.
  - done.
  - done.
  - apply FreshFrame_modVel; [|done]. by destruct (m_vels m3 !!! vel).
  - intros x Hne. unfold comp_of. cbn. rewrite lookup_total_insert_ne by done.
    rewrite V3. apply V1.
Qed.

Lemma FreshFrame_trans m1 m2 m3 : FreshFrame m1 m2 → FreshFrame m2 m3 → FreshFrame m1 m3.
Proof.
  intros (Hn & ? & ? & ? & ? & ? & ? & Hv & Hc & evs & Hl & Hevs)
         (Hn' & ? & ? & ? & ? & ? & ? & Hv' & Hc' & evs' & Hl' & Hevs').
  split_and!; try congruence.
  - lia.
  - intros c Hlt. rewrite Hc' by lia. by apply Hc.
  - exists (evs ++ evs'). rewrite Hl', Hl, <-app_assoc. split; [done|]. by apply Forall_app.
Qed.

Lemma _create_frame fuel vel m : CreateFrame vel m (_create fuel vel m).2.
Proof.
  revert vel m. induction fuel as [|fuel IH]; intros vel m.
  { split; [apply FreshFrame_refl|done]. }
  rewrite _create_unfold. set (v := m_vels m !!! vel).
  destruct (v_parent v) as [vp|] eqn:Hvp; [|split; [apply FreshFrame_refl|done]].
  assert (∀ parent m1, FreshFrame m m1 →
            (∀ x, is_Some (comp_of m x) → comp_of m1 x = comp_of m x) →
            CreateFrame vel m (_create_instance v vel parent m1).2) as Htail.
  { intros parent m1 F1 K1.
    assert (Hv : set_v_comp None (m_vels m1 !!! vel) = set_v_comp None v).
    { destruct F1 as (_ & _ & _ & _ & _ & _ & _ & Hfr & _). apply Hfr. }
    destruct (_create_instance_spec v vel parent m1 Hv) as (m2 & -> & _ & _ & _ & _ & _ & F2 & K2).
    split; [by eapply FreshFrame_trans|]. intros x Hne Hx. cbn [snd].
    rewrite K2 by done. by apply K1. }
  destruct (v_comp (m_vels m !!! vp)) as [p|] eqn:Hp.
  - rewrite bind_ret. apply Htail; [apply FreshFrame_refl|done].
  - pose proof (IH vp m) as [F1 K1].
    assert (K1' : ∀ x, is_Some (comp_of m x) → comp_of (_create fuel vp m).2 x = comp_of m x).
    { intros x Hx. apply K1; [|done]. intros ->. unfold comp_of in Hx. rewrite Hp in Hx.
      by destruct Hx. }
    destruct (_create fuel vp m) as [[parent|e] m1] eqn:Hrec.
    + rewrite (bind_ret_run _ _ _ _ _ Hrec). by apply Htail.
    + unfold bind. rewrite Hrec. split; [done|]. intros x _. apply K1'.
Qed.

Lemma _create_returns fuel d vel m :
  instantiable (m_vels m) d vel = true → d < fuel → ∃ c m', _create fuel vel m = (Ret c, m').
Proof.
  revert d vel m. induction fuel as [|fuel IH]; intros d vel m Hd Hlt; [lia|].
  rewrite _create_unfold. destruct d as [|d]; cbn [instantiable] in Hd;
    destruct (v_parent (m_vels m !!! vel)) as [vp|]; try done.
  - rewrite orb_false_r in Hd. apply bool_decide_eq_true in Hd.
    destruct (v_comp (m_vels m !!! vp)) as [p|]; [|done]. rewrite bind_ret.
    destruct (_create_instance_spec (m_vels m !!! vel) vel p m eq_refl) as (m' & -> & _).
    by eexists _, _.
  - destruct (v_comp (m_vels m !!! vp)) as [p|] eqn:Hp.
    + rewrite bind_ret.
      destruct (_create_instance_spec (m_vels m !!! vel) vel p m eq_refl) as (m' & -> & _).
      by eexists _, _.
    + rewrite bool_decide_eq_false_2, orb_false_l in Hd by (by intros []).
      destruct (IH d vp m Hd ltac:(lia)) as (parent & m1 & Hrec).
      rewrite (bind_ret_run _ _ _ _ _ Hrec).
      pose proof (_create_frame fuel vp m) as [F1 _]. rewrite Hrec in F1. cbn [snd] in F1.
      assert (Hv : set_v_comp None (m_vels m1 !!! vel) = set_v_comp None (m_vels m !!! vel)).
      { destruct F1 as (_ & _ & _ & _ & _ & _ & _ & Hfr & _). apply Hfr. }
      destruct (_create_instance_spec (m_vels m !!! vel) vel parent m1 Hv) as (m' & -> & _).
      by eexists _, _.
Qed.

Lemma _create_spec fuel vel m c m' :
  _create fuel vel m = (Ret c, m') →
  comp_of m' vel = Some c ∧ m_next m ≤ c < m_next m'
  ∧ _isOfSameType (m_comps m' !!! c) (m_vels m' !!! vel) = true
  ∧ c_ref (m_comps m' !!! c) = v_ref (m_vels m !!! vel)
  ∧ (∃ vp p, v_parent (m_vels m !!! vel) = Some vp ∧ c_parent (m_comps m' !!! c) = Some p
             ∧ (vp ≠ vel → comp_of m' vp = Some p))
  ∧ CreateFrame vel m m'.
Proof.
  revert vel m c m'. induction fuel as [|fuel IH]; intros vel m c m'; [done|].
  rewrite _create_unfold. set (v := m_vels m !!! vel).
  destruct (v_parent v) as [vp|] eqn:Hvp; [|done].
  assert (∀ parent m1, FreshFrame m m1 →
            (∀ x, is_Some (comp_of m x) → comp_of m1 x = comp_of m x) →
            comp_of m1 vp = Some parent →
            _create_instance v vel parent m1 = (Ret c, m') →
            comp_of m' vel = Some c ∧ m_next m ≤ c < m_next m'
            ∧ _isOfSameType (m_comps m' !!! c) (m_vels m' !!! vel) = true
            ∧ c_ref (m_comps m' !!! c) = v_ref v
            ∧ (∃ vp0 p, Some vp = Some vp0 ∧ c_parent (m_comps m' !!! c) = Some p
                        ∧ (vp0 ≠ vel → comp_of m' vp0 = Some p))
            ∧ CreateFrame vel m m') as Htail.
  { intros parent m1 F1 K1 P1 Hrun.
    assert (Hv : set_v_comp None (m_vels m1 !!! vel) = set_v_comp None v).
    { destruct F1 as (_ & _ & _ & _ & _ & _ & _ & Hfr & _). apply Hfr. }
    destruct (_create_instance_spec v vel parent m1 Hv)
      as (m2 & Hrun' & Hcomp & Hn & Hty & Href & Hpar & F2 & K2).
    rewrite Hrun' in Hrun. injection Hrun as <- <-.
    pose proof F1 as (Hn1 & _). split_and!; try done; try lia.
    - exists vp, parent. split_and!; [done..|]. intros Hne. by rewrite K2.
    - split; [by eapply FreshFrame_trans|]. intros x Hne Hx. rewrite K2 by done. by apply K1. }
  destruct (v_comp (m_vels m !!! vp)) as [p|] eqn:Hp.
  - rewrite bind_ret. apply Htail; [apply FreshFrame_refl|done..].
  - destruct (_create fuel vp m) as [[parent|e] m1] eqn:Hrec.
    + rewrite (bind_ret_run _ _ _ _ _ Hrec).
      destruct (IH _ _ _ _ Hrec) as (Hcomp & _ & _ & _ & _ & F1 & K1).
      apply Htail; [done| |done].
      intros x Hx. apply K1; [|done]. intros ->. unfold comp_of in Hx. rewrite Hp in Hx.
      by destruct Hx.
    + unfold bind. by rewrite Hrec.
Qed.

(** X13: [_create] on a descriptor without parent raises a TypeError and
    leaves the store as it was.  When the descriptor has a parent and, going
    up, an ancestor with an instance is reached, the call returns; and
    whenever it returns, the result is a fresh instance, attached to the
    descriptor and of the descriptor's type, that carries the descriptor's
    reference and whose parent is the instance of the parent descriptor. *)
Theorem _create_gives_fresh_instance (fuel : nat) (vel : nat) (m : Machine) :
  (v_parent (m_vels m !!! vel) = None → _create (S fuel) vel m = (Throw TypeError, m))
  ∧ (∀ d, instantiable (m_vels m) d vel = true → d < fuel →
          ∃ c m', _create fuel vel m = (Ret c, m'))
  ∧ (∀ c m', _create fuel vel m = (Ret c, m') →
       comp_of m' vel = Some c ∧ m_next m ≤ c < m_next m'
       ∧ _isOfSameType (m_comps m' !!! c) (m_vels m' !!! vel) = true
       ∧ c_ref (m_comps m' !!! c) = v_ref (m_vels m !!! vel)
       ∧ ∃ vp p, v_parent (m_vels m !!! vel) = Some vp ∧ c_parent (m_comps m' !!! c) = Some p
                 ∧ (vp ≠ vel → comp_of m' vp = Some p)).
Proof.
  split_and!.
  - intros Hp. by rewrite _create_unfold, Hp.
  - intros d. apply _create_returns.
  - intros c m' Hrun. destruct (_create_spec _ _ _ _ _ Hrun) as (? & ? & ? & ? & ? & _).
    split_and!; try done; lia.
Qed.

(** X14: whatever [_create] does, it only draws fresh identities, fills the
    records of the new instances, attaches instances to descriptors and logs
    creations of instances that have a parent: the tags, the nodes, the
    contexts, the records of the instances that existed and every other
    field of every descriptor stay as they were, and a descriptor other than
    [vel] that had an instance keeps it. *)
Theorem _create_touches_nothing_else (fuel : nat) (vel : nat) (m : Machine) :
  CreateFrame vel m (_create fuel vel m).2.
Proof. apply _create_frame. Qed.

End create.

(** [_create_gives_fresh_instance] on the text descriptor of [m_create0]: the
    element above it is instantiated first. *)
Lemma _create_gives_fresh_instance_witness :
  ∃ c m', _create (H := counter_host) 5 3 m_create0 = (Ret c, m')
          ∧ comp_of m' 3 = Some c
          ∧ _isOfSameType (m_comps m' !!! c) (m_vels m' !!! 3) = true
          ∧ c_ref (m_comps m' !!! c) = Some "t".
Proof.
  pose proof (_create_gives_fresh_instance (H := counter_host) 5 3 m_create0)
    as (_ & Hterm & Hres).
  assert (Hinst : instantiable (m_vels m_create0) 1 3 = true) by (vm_compute; reflexivity).
  destruct (Hterm 1 Hinst ltac:(lia)) as (c & m' & Hrun).
  destruct (Hres c m' Hrun) as (Hc & _ & Hty & Href & _).
  exists c, m'. split; [exact Hrun|]. split; [exact Hc|]. split; [exact Hty|].
  rewrite Href. vm_compute. reflexivity.
Defined.

(** ** Adoption *)

(** X19: [_adopt] checks the node before it touches anything: a component or
    element descriptor offered a node that is not an element raises
    [IncompatibleElement], and a descriptor without instance raises a
    TypeError, both with the store unchanged.  A text descriptor is never
    refused: whatever the node, element nodes included, the instance gets the
    node, the text of the node becomes the text of the descriptor, and the
    only DOM operation is the change of text, when the text differs. *)
Theorem _adopt_checks_then_takes_over (fuel : nat) (vel el : nat) (m : Machine) :
  let v := m_vels m !!! vel in
  let n := m_nodes m !!! el in
  (isStructural v = true → isElementNode n = false →
   _adopt (S fuel) vel el m = (Throw IncompatibleElement, m))
  ∧ (isStructural v && negb (isElementNode n) = false → v_comp v = None →
     _adopt (S fuel) vel el m = (Throw TypeError, m))
  ∧ (∀ comp, v_kind v = VirtualTextNode → v_comp v = Some comp → v_isForwarded v = false →
       let r := _adopt (S fuel) vel el m in
       r.1 = Ret tt
       ∧ c_el (m_comps r.2 !!! comp) = Some el
       ∧ n_textContent (m_nodes r.2 !!! el) = v_text v
       ∧ m_log r.2 = m_log m ++ (if bool_decide (n_textContent n ≠ v_text v)
                                 then [EvDom (SetTextContent el (v_text v))] else [])
       ∧ m_vels r.2 = m_vels m ∧ m_tags r.2 = m_tags m).
Proof.
  intros v n. split_and!.
  - intros Hs He. cbn [_adopt]. rewrite bind_getVel, bind_getNode. fold v n.
    by rewrite Hs, He.
  - intros Hs Hc. cbn [_adopt]. rewrite bind_getVel, bind_getNode. fold v n.
    by rewrite Hs, Hc.
  - intros comp Hk Hc Hf r. subst r. cbn [_adopt]. rewrite bind_getVel, bind_getNode. fold v n.
    assert (Hs : isStructural v = false).
    { unfold isStructural. rewrite Hk. by rewrite !bool_decide_eq_false_2 by done. }
    rewrite Hs, Hc. cbn [andb deref]. rewrite bind_ret, bind_modComp.
    set (m1 := (modComp comp _ m).2).
    assert (F1 : m_vels m1 = m_vels m ∧ m_nodes m1 = m_nodes m ∧ m_log m1 = m_log m
                 ∧ m_tags m1 = m_tags m ∧ c_el (m_comps m1 !!! comp) = Some el).
    { unfold m1. cbn. by rewrite lookup_total_insert_eq. }
    clearbody m1. destruct F1 as (V1 & N1 & L1 & T1 & C1).
    unfold _updateDOMElement, _propagateForwardedEl. run_simpl.
    rewrite V1, N1. fold v n. rewrite Hk. case_bool_decide as Ht.
    + unfold setTextContent. run_simpl. cbn. rewrite V1. fold v. rewrite Hf. cbn.
      rewrite lookup_total_insert_eq. cbn. split_and!; try done; congruence.
    + run_simpl. rewrite V1. fold v. rewrite Hf. cbn. rewrite app_nil_r.
      split_and!; try done. rewrite N1. fold n.
      by destruct (decide (n_textContent n = v_text v)).
Qed.

(** [_adopt_checks_then_takes_over] on [m_adopt_text]: the text descriptor
    takes over an element node. *)
Lemma _adopt_checks_then_takes_over_witness :
  let r := _adopt 1 1 50 m_adopt_text in
  isElementNode (m_nodes m_adopt_text !!! 50) = true
  ∧ r.1 = Ret tt
  ∧ c_el (m_comps r.2 !!! 10) = Some 50
  ∧ n_textContent (m_nodes r.2 !!! 50) = v_text (m_vels m_adopt_text !!! 1).
Proof.
  assert (H1 : v_kind (m_vels m_adopt_text !!! 1) = VirtualTextNode) by (vm_compute; reflexivity).
  assert (H2 : v_comp (m_vels m_adopt_text !!! 1) = Some 10) by (vm_compute; reflexivity).
  assert (H3 : v_isForwarded (m_vels m_adopt_text !!! 1) = false) by (vm_compute; reflexivity).
  pose proof (proj2 (proj2 (_adopt_checks_then_takes_over 0 1 50 m_adopt_text)) 10 H1 H2 H3)
    as Hadopt.
  cbv zeta in Hadopt. destruct Hadopt as (Hret & Hel & Htext & _).
  cbv zeta. split; [vm_compute; reflexivity|].
  split; [exact Hret|]. split; [exact Hel|exact Htext].
Defined.

(** ** Mounting and removing children *)

Lemma filter_ne_id (x : nat) (l : list nat) : x ∉ l → filter (λ y, y ≠ x) l = l.
Proof.
  induction l as [|y l IH]; [done|]. intros Hx. apply not_elem_of_cons in Hx as [Hne Hx].
  rewrite filter_cons, decide_True by done. by rewrite IH.
Qed.

(** X18: appending a child and removing it again brings every node back to
    what it was, when the child's node was not in the document before.  The
    log shows the two DOM operations; between them the mount notification of
    the child, when the child is not DETACHED, the parent is mounted and the
    child is not; after them the dispose notification of the child, when the
    child is not DETACHED, whether or not it had been mounted.  No other
    instance, no descriptor and no tag changes. *)
Theorem append_then_remove_restores_nodes (parent child pel cel : nat) (m : Machine) :
  c_el (m_comps m !!! parent) = Some pel → c_el (m_comps m !!! child) = Some cel →
  pel ≠ cel → n_parentNode (m_nodes m !!! cel) = None →
  cel ∉ n_childNodes (m_nodes m !!! pel) →
  let detached := is_tagged DETACHED (OComp child) m in
  let mounts := negb detached && c_mounted (m_comps m !!! parent)
                && negb (c_mounted (m_comps m !!! child)) in
  let r := (_appendChild parent child;; _removeChild parent child) m in
  r.1 = Ret tt
  ∧ m_log r.2 = m_log m ++ [EvDom (AppendChild pel cel)]
                  ++ (if mounts then [EvTriggerDidMount child] else [])
                  ++ [EvDom (RemoveChild pel cel)]
                  ++ (if detached then [] else [EvTriggerDispose child])
  ∧ (∀ n, m_nodes r.2 !!! n = m_nodes m !!! n)
  ∧ c_mounted (m_comps r.2 !!! child) = detached && c_mounted (m_comps m !!! child)
  ∧ (∀ c, c ≠ child → m_comps r.2 !!! c = m_comps m !!! c)
  ∧ m_tags r.2 = m_tags m ∧ m_vels r.2 = m_vels m.
Proof.
  intros Hp Hc Hne Hpar Hnin detached mounts r.
  assert (Hpc : parent ≠ child) by congruence.
  assert (∃ m', (_appendChild parent child;; _removeChild parent child) m = (Ret tt, m')
    ∧ m_log m' = m_log m ++ [EvDom (AppendChild pel cel)]
                  ++ (if mounts then [EvTriggerDidMount child] else [])
                  ++ [EvDom (RemoveChild pel cel)]
                  ++ (if detached then [] else [EvTriggerDispose child])
    ∧ (∀ n, m_nodes m' !!! n = m_nodes m !!! n)
    ∧ c_mounted (m_comps m' !!! child) = detached && c_mounted (m_comps m !!! child)
    ∧ (∀ c, c ≠ child → m_comps m' !!! c = m_comps m !!! c)
    ∧ m_tags m' = m_tags m ∧ m_vels m' = m_vels m) as (m' & Hrun & Hall);
    [|subst r; rewrite Hrun; split; [done|exact Hall]].
  unfold _appendChild. rewrite !bind_bind, (bind_el_of _ _ _ _ Hp), !bind_bind,
    (bind_el_of _ _ _ _ Hc).
  unfold appendChild, dom_detach. run_simpl.
  change (m_nodes (emit (EvDom (AppendChild pel cel)) m).2) with (m_nodes m).
  rewrite Hpar. run_simpl.
  set (m1 := (modNode cel _ _).2).
  assert (N1 : m_nodes m1 !!! pel
               = set_n_childNodes (n_childNodes (m_nodes m !!! pel) ++ [cel]) (m_nodes m !!! pel)).
  { unfold m1. cbn. rewrite lookup_total_insert_ne by done. by rewrite lookup_total_insert_eq. }
  assert (N1' : m_nodes m1 !!! cel = set_n_parentNode (Some pel) (m_nodes m !!! cel)).
  { unfold m1. cbn. rewrite lookup_total_insert_eq. by rewrite lookup_total_insert_ne by done. }
  assert (N1o : ∀ n, n ≠ pel → n ≠ cel → m_nodes m1 !!! n = m_nodes m !!! n).
  { intros n H1 H2. unfold m1. cbn. by rewrite !lookup_total_insert_ne by done. }
  assert (F1 : m_comps m1 = m_comps m ∧ m_tags m1 = m_tags m ∧ m_vels m1 = m_vels m
               ∧ m_stateId m1 = m_stateId m
               ∧ m_log m1 = m_log m ++ [EvDom (AppendChild pel cel)]) by done.
  clearbody m1. destruct F1 as (C1 & T1 & V1 & S1 & L1).
  assert (D1 : is_tagged DETACHED (OComp child) m1 = detached).
  { unfold detached, is_tagged. by rewrite T1, S1. }
  unfold _triggerDidMount. run_simpl. rewrite D1, C1. fold mounts.
  assert (∃ m2, when mounts (triggerDidMount child) m1 = (Ret tt, m2)
                ∧ m_nodes m2 = m_nodes m1 ∧ m_tags m2 = m_tags m ∧ m_vels m2 = m_vels m
                ∧ m_stateId m2 = m_stateId m
                ∧ m_log m2 = m_log m1 ++ (if mounts then [EvTriggerDidMount child] else [])
                ∧ (∀ c, c ≠ child → m_comps m2 !!! c = m_comps m !!! c)
                ∧ c_el (m_comps m2 !!! child) = Some cel
                ∧ (mounts = false → m_comps m2 = m_comps m))
    as (m2 & Hrun & N2 & T2 & V2 & S2 & L2 & C2 & E2 & M2).
  { destruct mounts; cbn [when].
    - eexists. split; [reflexivity|]. cbn. rewrite C1. split_and!; try done.
      + intros c Hcc. by rewrite lookup_total_insert_ne.
      + by rewrite lookup_total_insert_eq.
    - exists m1. rewrite app_nil_r, C1. by split_and!. }
  rewrite (bind_ret_run _ _ _ _ _ Hrun). clear Hrun.
  assert (Hp2 : c_el (m_comps m2 !!! parent) = Some pel) by (by rewrite C2).
  unfold _removeChild. rewrite ?bind_bind, (bind_el_of _ _ _ _ Hp2), ?bind_bind,
    (bind_el_of _ _ _ _ E2).
  unfold removeChild. run_simpl.
  set (m3 := (modNode cel _ _).2).
  assert (N3 : ∀ n, m_nodes m3 !!! n = m_nodes m !!! n).
  { intros n. unfold m3. cbn. rewrite N2.
    destruct (decide (n = cel)) as [->|Hn1].
    - rewrite lookup_total_insert_eq, lookup_total_insert_ne by done.
      rewrite N1', decide_True by done. destruct (m_nodes m !!! cel). cbn in *. by subst.
    - rewrite lookup_total_insert_ne by done. destruct (decide (n = pel)) as [->|Hn2].
      + rewrite lookup_total_insert_eq, N1. cbn. rewrite filter_app, filter_ne_id by done.
        rewrite filter_cons, decide_False by (intros Hx; by apply Hx).
        rewrite filter_nil, app_nil_r. by destruct (m_nodes m !!! pel).
      + rewrite lookup_total_insert_ne by done. by apply N1o. }
  assert (F3 : m_comps m3 = m_comps m2 ∧ m_tags m3 = m_tags m2 ∧ m_vels m3 = m_vels m2
               ∧ m_stateId m3 = m_stateId m2
               ∧ m_log m3 = m_log m2 ++ [EvDom (RemoveChild pel cel)]) by done.
  clearbody m3. destruct F3 as (C3 & T3 & V3 & S3 & L3).
  assert (D3 : is_tagged DETACHED (OComp child) m3 = detached).
  { unfold detached, is_tagged. by rewrite T3, S3, T2, S2. }
  rewrite D3.
  assert (Hm : detached = true → mounts = false) by (unfold mounts; by intros ->).
  clearbody mounts. clearbody detached. destruct detached; cbn [negb when].
  - specialize (Hm eq_refl). subst mounts. exists m3. split; [done|]. split_and!.
    + rewrite L3, L2, L1, <-!app_assoc. done.
    + done.
    + rewrite C3. cbn [andb]. by rewrite M2.
    + intros c Hcc. rewrite C3. by apply C2.
    + congruence.
    + congruence.
  - unfold triggerDispose. run_simpl. eexists. split; [reflexivity|]. split_and!.
    + cbn. rewrite L3, L2, L1, <-!app_assoc. done.
    + done.
    + cbn. by rewrite lookup_total_insert_eq.
    + intros c Hcc. cbn. rewrite lookup_total_insert_ne by done. rewrite C3. by apply C2.
    + cbn. congruence.
    + cbn. congruence.
Qed.

(** [append_then_remove_restores_nodes] on [m_mount0]: the child is mounted
    and disposed, and the node of the parent has no child again. *)
Lemma append_then_remove_restores_nodes_witness :
  let r := (_appendChild 10 11;; _removeChild 10 11) m_mount0 in
  m_log r.2 = [EvDom (AppendChild 50 51); EvTriggerDidMount 11;
               EvDom (RemoveChild 50 51); EvTriggerDispose 11]
  ∧ m_nodes r.2 !!! 50 = m_nodes m_mount0 !!! 50.
Proof.
  assert (H1 : c_el (m_comps m_mount0 !!! 10) = Some 50) by (vm_compute; reflexivity).
  assert (H2 : c_el (m_comps m_mount0 !!! 11) = Some 51) by (vm_compute; reflexivity).
  assert (H3 : 50 ≠ 51) by lia.
  assert (H4 : n_parentNode (m_nodes m_mount0 !!! 51) = None) by (vm_compute; reflexivity).
  assert (H5 : 51 ∉ n_childNodes (m_nodes m_mount0 !!! 50)).
  { vm_compute. intros Hin. inversion Hin. }
  pose proof (append_then_remove_restores_nodes 10 11 50 51 m_mount0 H1 H2 H3 H4 H5) as Hrt.
  cbv zeta in Hrt. destruct Hrt as (_ & Hlog & Hnodes & _).
  cbv zeta. split; [|exact (Hnodes 50)].
  rewrite Hlog. vm_compute. reflexivity.
Defined.

(** X26: a child that is tagged DETACHED moves silently.  Tagging it,
    removing it and appending it again logs the two DOM operations and
    nothing else: no dispose and no mount notification is fired, no instance
    changes, and the node of the child ends up as the last child of the node
    of the parent. *)
Theorem detached_child_moves_silently (parent child pel cel : nat) (m : Machine) :
  c_el (m_comps m !!! parent) = Some pel → c_el (m_comps m !!! child) = Some cel →
  pel ≠ cel → n_parentNode (m_nodes m !!! cel) = Some pel →
  let r := (state_set DETACHED (OComp child) VTrue;;
            _removeChild parent child;; _appendChild parent child) m in
  r.1 = Ret tt
  ∧ m_log r.2 = m_log m ++ [EvDom (RemoveChild pel cel); EvDom (AppendChild pel cel)]
  ∧ m_comps r.2 = m_comps m ∧ m_vels r.2 = m_vels m
  ∧ n_childNodes (m_nodes r.2 !!! pel)
    = filter (λ x, x ≠ cel) (n_childNodes (m_nodes m !!! pel)) ++ [cel]
  ∧ n_parentNode (m_nodes r.2 !!! cel) = Some pel
  ∧ (∀ x, x ≠ pel → x ≠ cel → m_nodes r.2 !!! x = m_nodes m !!! x)
  ∧ (∀ k o, is_tagged k o r.2
            = if decide (o = OComp child) then bool_decide (k = DETACHED) || is_tagged k o m
              else is_tagged k o m).
Proof.
  intros Hp Hc Hne Hpar r.
  assert (∃ m', (state_set DETACHED (OComp child) VTrue;;
                 _removeChild parent child;; _appendChild parent child) m = (Ret tt, m')
    ∧ m_log m' = m_log m ++ [EvDom (RemoveChild pel cel); EvDom (AppendChild pel cel)]
    ∧ m_comps m' = m_comps m ∧ m_vels m' = m_vels m
    ∧ n_childNodes (m_nodes m' !!! pel)
      = filter (λ x, x ≠ cel) (n_childNodes (m_nodes m !!! pel)) ++ [cel]
    ∧ n_parentNode (m_nodes m' !!! cel) = Some pel
    ∧ (∀ x, x ≠ pel → x ≠ cel → m_nodes m' !!! x = m_nodes m !!! x)
    ∧ (∀ k o, is_tagged k o m'
              = if decide (o = OComp child) then bool_decide (k = DETACHED) || is_tagged k o m
                else is_tagged k o m)) as (m' & Hrun & Hall);
    [|subst r; rewrite Hrun; split; [done|exact Hall]].
  rewrite bind_state_set.
  set (m0 := (state_set DETACHED (OComp child) VTrue m).2).
  destruct (state_set_heap DETACHED (OComp child) VTrue m) as (V0 & C0 & N0 & L0 & S0).
  fold m0 in V0, C0, N0, L0, S0.
  assert (T0 : ∀ k o, is_tagged k o m0
                      = if decide (o = OComp child) then bool_decide (k = DETACHED) || is_tagged k o m
                        else is_tagged k o m).
  { intros k o. unfold m0. apply is_tagged_state_set. }
  assert (D0 : is_tagged DETACHED (OComp child) m0 = true).
  { rewrite T0, decide_True by done. by rewrite bool_decide_eq_true_2. }
  clearbody m0.
  assert (Hp0 : c_el (m_comps m0 !!! parent) = Some pel) by (by rewrite C0).
  assert (Hc0 : c_el (m_comps m0 !!! child) = Some cel) by (by rewrite C0).
  unfold _removeChild. rewrite ?bind_bind, (bind_el_of _ _ _ _ Hp0), ?bind_bind,
    (bind_el_of _ _ _ _ Hc0).
  unfold removeChild. run_simpl.
  set (m1 := (modNode cel _ _).2).
  assert (N1 : m_nodes m1 !!! pel
               = set_n_childNodes (filter (λ x, x ≠ cel) (n_childNodes (m_nodes m !!! pel)))
                   (m_nodes m !!! pel)).
  { unfold m1. cbn. rewrite lookup_total_insert_ne by done.
    by rewrite lookup_total_insert_eq, N0. }
  assert (N1' : m_nodes m1 !!! cel = set_n_parentNode None (m_nodes m !!! cel)).
  { unfold m1. cbn. rewrite lookup_total_insert_eq, lookup_total_insert_ne by done.
    rewrite N0, Hpar. by rewrite decide_True. }
  assert (N1o : ∀ x, x ≠ pel → x ≠ cel → m_nodes m1 !!! x = m_nodes m !!! x).
  { intros x H1 H2. unfold m1. cbn. rewrite !lookup_total_insert_ne by done. by rewrite N0. }
  assert (F1 : m_comps m1 = m_comps m0 ∧ m_tags m1 = m_tags m0 ∧ m_vels m1 = m_vels m0
               ∧ m_stateId m1 = m_stateId m0
               ∧ m_log m1 = m_log m0 ++ [EvDom (RemoveChild pel cel)]) by done.
  clearbody m1. destruct F1 as (C1 & T1 & V1 & S1 & L1).
  assert (D1 : ∀ k o, is_tagged k o m1 = is_tagged k o m0).
  { intros k o. unfold is_tagged. by rewrite T1, S1. }
  rewrite D1, D0. cbn [negb when]. rewrite bind_ret.
  assert (Hp1 : c_el (m_comps m1 !!! parent) = Some pel) by (by rewrite C1).
  assert (Hc1 : c_el (m_comps m1 !!! child) = Some cel) by (by rewrite C1).
  unfold _appendChild. rewrite ?bind_bind, (bind_el_of _ _ _ _ Hp1), ?bind_bind,
    (bind_el_of _ _ _ _ Hc1).
  unfold appendChild, dom_detach. run_simpl.
  change (m_nodes (emit (EvDom (AppendChild pel cel)) m1).2) with (m_nodes m1).
  rewrite N1'. cbn [n_parentNode set_n_parentNode]. run_simpl.
  set (m2 := (modNode cel _ _).2).
  assert (N2 : m_nodes m2 !!! pel
               = set_n_childNodes (n_childNodes (m_nodes m1 !!! pel) ++ [cel]) (m_nodes m1 !!! pel)).
  { unfold m2. cbn. rewrite lookup_total_insert_ne by done. by rewrite lookup_total_insert_eq. }
  assert (N2' : m_nodes m2 !!! cel = set_n_parentNode (Some pel) (m_nodes m1 !!! cel)).
  { unfold m2. cbn. rewrite lookup_total_insert_eq. by rewrite lookup_total_insert_ne by done. }
  assert (N2o : ∀ x, x ≠ pel → x ≠ cel → m_nodes m2 !!! x = m_nodes m1 !!! x).
  { intros x H1 H2. unfold m2. cbn. by rewrite !lookup_total_insert_ne by done. }
  assert (F2 : m_comps m2 = m_comps m1 ∧ m_tags m2 = m_tags m1 ∧ m_vels m2 = m_vels m1
               ∧ m_stateId m2 = m_stateId m1
               ∧ m_log m2 = m_log m1 ++ [EvDom (AppendChild pel cel)]) by done.
  clearbody m2. destruct F2 as (C2 & T2 & V2 & S2 & L2).
  assert (D2 : ∀ k o, is_tagged k o m2 = is_tagged k o m0).
  { intros k o. unfold is_tagged. by rewrite T2, S2, T1, S1. }
  unfold _triggerDidMount. run_simpl. rewrite D2, D0. cbn [negb andb when].
  exists m2. split; [done|]. split_and!.
  - rewrite L2, L1, L0, <-app_assoc. done.
  - congruence.
  - congruence.
  - rewrite N2, N1. done.
  - rewrite N2'. done.
  - intros x H1 H2. rewrite N2o, N1o by done. done.
  - intros k o. by rewrite D2, T0.
Qed.

(** [detached_child_moves_silently] on the first text child of [m_texts]: its
    node becomes the last child. *)
Lemma detached_child_moves_silently_witness :
  let r := (state_set DETACHED (OComp 11) VTrue;; _removeChild 10 11;; _appendChild 10 11)
             m_texts in
  m_log r.2 = [EvDom (RemoveChild 50 51); EvDom (AppendChild 50 51)]
  ∧ n_childNodes (m_nodes r.2 !!! 50) = [52; 51].
Proof.
  assert (H1 : c_el (m_comps m_texts !!! 10) = Some 50) by (vm_compute; reflexivity).
  assert (H2 : c_el (m_comps m_texts !!! 11) = Some 51) by (vm_compute; reflexivity).
  assert (H3 : 50 ≠ 51) by lia.
  assert (H4 : n_parentNode (m_nodes m_texts !!! 51) = Some 50) by (vm_compute; reflexivity).
  pose proof (detached_child_moves_silently 10 11 50 51 m_texts H1 H2 H3 H4) as Hmove.
  cbv zeta in Hmove. destruct Hmove as (_ & Hlog & _ & _ & Hch & _).
  cbv zeta. split.
  - rewrite Hlog. vm_compute. reflexivity.
  - rewrite Hch. vm_compute. reflexivity.
Defined.

(** ** Capture *)

Section skipped.
Context `{Collaborators}.

Local Ltac decide_simpl :=
  repeat first [rewrite decide_True by done | rewrite decide_False by done].

Lemma tag_value_state_set k o k' o' v m :
  tag_value k o (state_set k' o' v m).2
  = if decide (o = o') then if decide (k = k') then Some v else tag_value k o m
    else tag_value k o m.
Proof.
  unfold tag_value, state_set.
  destruct (m_tags m !! (m_stateId m, o')) as [info'|] eqn:Hl'; cbn;
    (destruct (decide (o = o')) as [->|Hne];
     [rewrite lookup_insert_eq, Hl'|by rewrite lookup_insert_ne by congruence]); cbn;
    by destruct (decide (k = k')).
Qed.

(** X16: a component that has its node and whose [shouldRerender] answers no
    is not rendered: capturing its descriptor returns, sets the new props on
    the instance and logs nothing else, keeps the old props and state under
    OLDPROPS and OLDSTATE, and tags the descriptor SKIPPED and CAPTURED, and
    UPDATED unless it is NEW.  No node, context or instance is created.
    [_update] on the descriptor then does nothing at all, and
    [_triggerDidUpdate] still fires the update notification of the instance,
    with the old props and state, when the descriptor is not NEW. *)
Theorem skipped_component_is_not_rendered (fuel fuel' : nat) (vel comp : nat) (m : Machine) :
  let v := m_vels m !!! vel in
  let c := m_comps m !!! comp in
  is_tagged CAPTURED (OVel vel) m = false →
  v_kind v = VirtualComponent → v_comp v = Some comp →
  c_el c ≠ None → comp_shouldRerender c (v_props v) (c_state c) = false →
  let r := _capture (S fuel) vel NO_MODE m in
  r.1 = Ret vel
  ∧ m_log r.2 = m_log m ++ [EvSetProps comp (v_props v)]
  ∧ is_tagged SKIPPED (OVel vel) r.2 = true ∧ is_tagged CAPTURED (OVel vel) r.2 = true
  ∧ is_tagged UPDATED (OVel vel) r.2
    = negb (is_tagged NEW (OVel vel) m) || is_tagged UPDATED (OVel vel) m
  ∧ tag_value OLDPROPS (OVel vel) r.2 = Some (VData (c_props c))
  ∧ tag_value OLDSTATE (OVel vel) r.2 = Some (VData (c_state c))
  ∧ m_comps r.2 = <[comp := set_c_props (v_props v) c]> (m_comps m)
  ∧ m_nodes r.2 = m_nodes m ∧ m_ctxs r.2 = m_ctxs m ∧ m_next r.2 = m_next m
  ∧ _update (S fuel') vel r.2 = (Ret tt, r.2)
  ∧ (is_tagged NEW (OVel vel) m = false →
     _triggerDidUpdate (S fuel') vel r.2
     = (Ret tt, set_m_log (m_log r.2 ++ [EvDidUpdate comp (Some (VData (c_props c)))
                                                     (Some (VData (c_state c)))]) r.2)).
Proof.
  intros v c Hcap Hk Hc Hel Hsh r. subst r. cbn [_capture].
  rewrite bind_state_is, Hcap. cbn iota. rewrite bind_getVel. fold v. rewrite Hc, bind_ret, Hk.
  unfold _setProps. run_simpl. fold v c.
  rewrite Hsh, bool_decide_eq_false_2 by done. cbn [orb].
  set (m0 := (modVel vel _ m).2).
  set (m1 := (state_set OLDPROPS (OVel vel) (VData (c_props c)) m0).2).
  set (m2 := (state_set OLDSTATE (OVel vel) (VData (c_state c)) m1).2).
  set (m3 := (modComp comp _ (emit _ m2).2).2).
  assert (T3 : ∀ k, is_tagged k (OVel vel) m3
                    = bool_decide (k = OLDSTATE) || (bool_decide (k = OLDPROPS)
                      || is_tagged k (OVel vel) m)).
  { intros k. change (is_tagged k (OVel vel) m3) with (is_tagged k (OVel vel) m2).
    unfold m2, m1. rewrite !is_tagged_state_set, !decide_True by done. done. }
  assert (V3 : ∀ k, k ≠ OLDSTATE → k ≠ OLDPROPS →
                    tag_value k (OVel vel) m3 = tag_value k (OVel vel) m).
  { intros k H1 H2. change (tag_value k (OVel vel) m3) with (tag_value k (OVel vel) m2).
    unfold m2, m1. rewrite !tag_value_state_set. by decide_simpl. }
  assert (P3 : tag_value OLDPROPS (OVel vel) m3 = Some (VData (c_props c))
               ∧ tag_value OLDSTATE (OVel vel) m3 = Some (VData (c_state c))).
  { change (tag_value OLDPROPS (OVel vel) m3) with (tag_value OLDPROPS (OVel vel) m2).
    change (tag_value OLDSTATE (OVel vel) m3) with (tag_value OLDSTATE (OVel vel) m2).
    unfold m2, m1. rewrite !tag_value_state_set. by decide_simpl. }
  assert (H3 : m_log m3 = m_log m ++ [EvSetProps comp (v_props v)]
               ∧ m_comps m3 = <[comp := set_c_props (v_props v) c]> (m_comps m)
               ∧ m_nodes m3 = m_nodes m ∧ m_ctxs m3 = m_ctxs m ∧ m_next m3 = m_next m
               ∧ v_kind (m_vels m3 !!! vel) = VirtualComponent
               ∧ v_comp (m_vels m3 !!! vel) = Some comp).
  { assert (Hx : ∀ k o val m', m_ctxs (state_set k o val m').2 = m_ctxs m'
                               ∧ m_next (state_set k o val m').2 = m_next m').
    { intros k o val m'. unfold state_set. by destruct (m_tags m' !! _). }
    assert (A3 : m_log m3 = m_log m2 ++ [EvSetProps comp (v_props v)]
                 ∧ m_comps m3 = <[comp := set_c_props (v_props v) (m_comps m2 !!! comp)]> (m_comps m2)
                 ∧ m_nodes m3 = m_nodes m2 ∧ m_ctxs m3 = m_ctxs m2 ∧ m_next m3 = m_next m2
                 ∧ m_vels m3 = m_vels m2) by done.
    destruct A3 as (-> & -> & -> & -> & -> & ->).
    destruct (state_set_heap OLDSTATE (OVel vel) (VData (c_state c)) m1) as (E1 & E2 & E3 & E4 & _).
    destruct (state_set_heap OLDPROPS (OVel vel) (VData (c_props c)) m0) as (F1 & F2 & F3 & F4 & _).
    fold m1 in F1, F2, F3, F4. fold m2 in E1, E2, E3, E4.
    rewrite E1, E2, E3, E4, F1, F2, F3, F4.
    unfold m2. rewrite (proj1 (Hx _ _ _ _)), (proj2 (Hx _ _ _ _)).
    unfold m1. rewrite (proj1 (Hx _ _ _ _)), (proj2 (Hx _ _ _ _)).
    unfold m0. cbn. rewrite lookup_total_insert_eq. cbn. fold v. by split_and!. }
  clearbody m3. clear m0 m1 m2.
  destruct H3 as (L3 & C3 & N3 & X3 & Nx3 & K3 & VC3).
  assert (Hx : ∀ k o val m', m_ctxs (state_set k o val m').2 = m_ctxs m'
                             ∧ m_next (state_set k o val m').2 = m_next m').
  { intros k o val m'. unfold state_set. by destruct (m_tags m' !! _). }
  assert (∃ m4, when (negb (is_tagged NEW (OVel vel) m3)) (state_set UPDATED (OVel vel) VTrue) m3
                = (Ret tt, m4)
                ∧ (∀ k, is_tagged k (OVel vel) m4
                        = (negb (is_tagged NEW (OVel vel) m) && bool_decide (k = UPDATED))
                          || is_tagged k (OVel vel) m3)
                ∧ (∀ k, k ≠ UPDATED → tag_value k (OVel vel) m4 = tag_value k (OVel vel) m3)
                ∧ m_log m4 = m_log m3 ∧ m_comps m4 = m_comps m3 ∧ m_nodes m4 = m_nodes m3
                ∧ m_ctxs m4 = m_ctxs m3 ∧ m_next m4 = m_next m3 ∧ m_vels m4 = m_vels m3)
    as (m4 & Hrun & T4 & V4 & L4 & C4 & N4 & X4 & Nx4 & Ve4).
  { rewrite (T3 NEW). cbn [bool_decide decide_rel orb]. rewrite !bool_decide_eq_false_2 by done.
    cbn [orb]. destruct (is_tagged NEW (OVel vel) m) eqn:HN; cbn [negb when andb].
    - exists m3. by split_and!.
    - destruct (state_set_run UPDATED (OVel vel) VTrue m3) as [m4 Hm4].
      exists m4. split; [done|].
      replace m4 with (state_set UPDATED (OVel vel) VTrue m3).2 by (by rewrite Hm4).
      destruct (state_set_heap UPDATED (OVel vel) VTrue m3) as (E1 & E2 & E3 & E4 & _).
      split_and!; try done; try apply Hx.
      + intros k. by rewrite is_tagged_state_set, decide_True by done.
      + intros k Hne. rewrite tag_value_state_set. by decide_simpl. }
  rewrite (bind_ret_run _ _ _ _ _ Hrun), bind_ret. cbn iota. rewrite !bind_state_set.
  set (m5 := (state_set SKIPPED (OVel vel) VTrue m4).2).
  set (m6 := (state_set CAPTURED (OVel vel) VTrue m5).2).
  destruct (state_set_heap SKIPPED (OVel vel) VTrue m4) as (E1 & E2 & E3 & E4 & _).
  destruct (state_set_heap CAPTURED (OVel vel) VTrue m5) as (F1 & F2 & F3 & F4 & _).
  fold m5 in E1, E2, E3, E4, F1, F2, F3, F4. fold m6 in F1, F2, F3, F4.
  assert (T6 : ∀ k, is_tagged k (OVel vel) m6
                    = bool_decide (k = CAPTURED) || (bool_decide (k = SKIPPED)
                      || is_tagged k (OVel vel) m4)).
  { intros k. unfold m6, m5. by rewrite !is_tagged_state_set, !decide_True by done. }
  assert (V6 : ∀ k, k ≠ CAPTURED → k ≠ SKIPPED →
                    tag_value k (OVel vel) m6 = tag_value k (OVel vel) m4).
  { intros k H1 H2. unfold m6, m5. rewrite !tag_value_state_set. by decide_simpl. }
  assert (S6 : is_tagged SKIPPED (OVel vel) m6 = true).
  { rewrite T6. rewrite (bool_decide_eq_true_2 (SKIPPED = SKIPPED)) by done.
    by rewrite orb_true_r. }
  assert (U6 : is_tagged UPDATED (OVel vel) m6
               = negb (is_tagged NEW (OVel vel) m) || is_tagged UPDATED (OVel vel) m).
  { rewrite T6, T4, T3. rewrite !(bool_decide_eq_false_2 (UPDATED = _)) by done.
    rewrite (bool_decide_eq_true_2 (UPDATED = UPDATED)) by done.
    cbn [orb]. by rewrite andb_true_r. }
  assert (P6 : tag_value OLDPROPS (OVel vel) m6 = Some (VData (c_props c))
               ∧ tag_value OLDSTATE (OVel vel) m6 = Some (VData (c_state c))).
  { rewrite !V6, !V4 by done. exact P3. }
  change (ret vel m6) with (Ret vel, m6). cbn [fst snd].
  split_and!.
  - done.
  - congruence.
  - done.
  - rewrite T6. by rewrite (bool_decide_eq_true_2 (CAPTURED = CAPTURED)) by done.
  - done.
  - apply P6.
  - apply P6.
  - congruence.
  - congruence.
  - unfold m6. rewrite (proj1 (Hx _ _ _ _)). unfold m5. rewrite (proj1 (Hx _ _ _ _)). congruence.
  - unfold m6. rewrite (proj2 (Hx _ _ _ _)). unfold m5. rewrite (proj2 (Hx _ _ _ _)). congruence.
  - cbn [_update]. by rewrite bind_state_is, S6.
  - intros HN. cbn [_triggerDidUpdate]. rewrite bind_getVel.
    assert (Hv6 : m_vels m6 = m_vels m3) by congruence. rewrite Hv6, K3.
    rewrite bind_state_is, S6. cbn [negb when]. rewrite bind_ret, bind_state_is, U6, HN.
    cbn [negb orb]. rewrite VC3. cbn [deref]. rewrite bind_ret, !bind_state_get.
    rewrite (proj1 P6), (proj2 P6). done.
Qed.

(** X17: a capture that returns gives back the descriptor it was called on
    and has tagged it CAPTURED, so capturing the same descriptor again, in
    whatever mode, returns at once and changes nothing. *)
Theorem _capture_is_done_once (fuel : nat) (vel x : nat) (mode : Mode) (m : Machine) :
  (_capture fuel vel mode m).1 = Ret x →
  let m' := (_capture fuel vel mode m).2 in
  x = vel
  ∧ is_tagged CAPTURED (OVel vel) m' = true
  ∧ ∀ fuel2 mode2, _capture (S fuel2) vel mode2 m' = (Ret vel, m').
Proof.
  intros Hret m'. subst m'.
  assert (Hdone : x = vel ∧ is_tagged CAPTURED (OVel vel) (_capture fuel vel mode m).2 = true).
  { destruct fuel as [|fuel]; [done|]. revert Hret. cbn [_capture].
    rewrite bind_state_is. destruct (is_tagged CAPTURED (OVel vel) m) eqn:Hcap.
    { intros [= <-]. done. }
    rewrite bind_getVel.
    lazymatch goal with |- (bind ?c ?f ?m0).1 = _ → _ => destruct (bind_cases c f m0)
      as [(u & m1 & Hc & ->)|(e & m1 & Hc & ->)] end; [|done].
    lazymatch goal with |- (bind ?c ?f ?m0).1 = _ → _ => destruct (bind_cases c f m0)
      as [(u' & m2 & Hc' & ->)|(e & m2 & Hc' & ->)] end; [|done].
    rewrite bind_state_set.
    intros [= <-]. split; [done|]. cbn [snd].
    change (ret vel ?a) with (Ret vel, a). cbn [snd].
    rewrite is_tagged_state_set, decide_True by done.
    by rewrite bool_decide_eq_true_2. }
  destruct Hdone as [-> Hcap]. split_and!; [done..|].
  intros fuel2 mode2. cbn [_capture]. by rewrite bind_state_is, Hcap.
Qed.

End skipped.

(** [skipped_component_is_not_rendered] on the [Counter] of [m_skip0], whose
    host never asks for a new render. *)
Lemma skipped_component_is_not_rendered_witness :
  (_capture (H := idle_host) 3 1 NO_MODE m_skip0).1 = Ret 1
  ∧ m_log (_capture (H := idle_host) 3 1 NO_MODE m_skip0).2
    = m_log m_skip0 ++ [EvSetProps 10 (v_props (m_vels m_skip0 !!! 1))].
Proof.
  assert (H1 : is_tagged CAPTURED (OVel 1) m_skip0 = false) by (vm_compute; reflexivity).
  assert (H2 : v_kind (m_vels m_skip0 !!! 1) = VirtualComponent) by (vm_compute; reflexivity).
  assert (H3 : v_comp (m_vels m_skip0 !!! 1) = Some 10) by (vm_compute; reflexivity).
  assert (H4 : c_el (m_comps m_skip0 !!! 10) ≠ None) by (vm_compute; discriminate).
  assert (H5 : comp_shouldRerender (Collaborators := idle_host) (m_comps m_skip0 !!! 10)
                 (v_props (m_vels m_skip0 !!! 1)) (c_state (m_comps m_skip0 !!! 10)) = false)
    by (vm_compute; reflexivity).
  pose proof (skipped_component_is_not_rendered (H := idle_host) 2 2 1 10 m_skip0
                H1 H2 H3 H4 H5) as Hskip.
  cbv zeta in Hskip. destruct Hskip as (Hret & Hlog & _).
  split; [exact Hret|exact Hlog].
Defined.

(** [_capture_is_done_once] on the [Counter] of [m_skip0]. *)
Lemma _capture_is_done_once_witness :
  is_tagged CAPTURED (OVel 1) (_capture (H := idle_host) 3 1 NO_MODE m_skip0).2 = true.
Proof.
  assert (Hret : (_capture (H := idle_host) 3 1 NO_MODE m_skip0).1 = Ret 1)
    by (vm_compute; reflexivity).
  pose proof (_capture_is_done_once (H := idle_host) 3 1 1 NO_MODE m_skip0 Hret) as Hdone.
  cbv zeta in Hdone. destruct Hdone as (_ & Hcap & _). exact Hcap.
Defined.

(** ** Internal component data *)

(** X15: [_storeInternalData] on a descriptor with a capturing context
    returns, and reading the data back with [_getInternalComponentData] gives
    the reference maps of the context and the element properties of the
    descriptor, without changing the store again.  [comp.refs] then holds an
    entry for exactly the references whose descriptor has an instance, with
    that instance.  No other instance, no descriptor, no tag changes and
    nothing is logged.  Without capturing context the call raises a
    TypeError. *)
Theorem _storeInternalData_roundtrip (comp vc : nat) (m : Machine) :
  let v := m_vels m !!! vc in
  let r := _storeInternalData comp vc m in
  match v_context v with
  | None => r.1 = Throw TypeError
  | Some context =>
      let ctx := m_ctxs m !!! context in
      r.1 = Ret tt
      ∧ _getInternalComponentData comp r.2
        = (Ret (mkICD (ctx_refs ctx) (ctx_foreignRefs ctx) (ctx_internalRefs ctx)
                      (v_elementProps v)), r.2)
      ∧ (∀ key c, (key, c) ∈ c_refs (m_comps r.2 !!! comp)
                  ↔ ∃ vc', (key, vc') ∈ ctx_refs ctx ∧ comp_of m vc' = Some c)
      ∧ (∀ c, c ≠ comp → m_comps r.2 !!! c = m_comps m !!! c)
      ∧ set_c_refs [] (set_c_internal None (m_comps r.2 !!! comp))
        = set_c_refs [] (set_c_internal None (m_comps m !!! comp))
      ∧ m_vels r.2 = m_vels m ∧ m_ctxs r.2 = m_ctxs m ∧ m_nodes r.2 = m_nodes m
      ∧ m_tags r.2 = m_tags m ∧ m_log r.2 = m_log m
  end.
Proof.
  intros v r. subst r. unfold _storeInternalData. rewrite bind_getVel. fold v.
  assert (Hget : ∃ d m1, _getInternalComponentData comp m = (Ret d, m1)
            ∧ m_vels m1 = m_vels m ∧ m_ctxs m1 = m_ctxs m ∧ m_nodes m1 = m_nodes m
            ∧ m_tags m1 = m_tags m ∧ m_log m1 = m_log m
            ∧ (∀ c, c ≠ comp → m_comps m1 !!! c = m_comps m !!! c)
            ∧ set_c_internal None (m_comps m1 !!! comp) = set_c_internal None (m_comps m !!! comp)).
  { unfold _getInternalComponentData. rewrite bind_getComp.
    destruct (c_internal (m_comps m !!! comp)) as [d|] eqn:Hd.
    - exists d, m. by split_and!.
    - rewrite bind_modComp. eexists _, _. split; [reflexivity|]. cbn.
      split_and!; try done.
      + intros c Hne. by rewrite lookup_total_insert_ne.
      + by rewrite lookup_total_insert_eq. }
  destruct Hget as (d & m1 & Hrun & Hv & Hx & Hn & Ht & Hl & Hoth & Hsame).
  rewrite (bind_ret_run _ _ _ _ _ Hrun).
  destruct (v_context v) as [context|]; [|done]. cbn [deref]. rewrite bind_ret.
  unfold getCtx, getMachine, bind. cbn. rewrite Hx, Hv.
  split_and!; try done.
  - unfold _getInternalComponentData, bind, getComp. cbn.
    by rewrite lookup_total_insert_eq.
  - intros key c. rewrite lookup_total_insert_eq. cbn. rewrite list_elem_of_omap. split.
    + intros ([key' vc'] & Hin & Hc). cbn in Hc.
      destruct (v_comp (m_vels m !!! vc')) as [c'|] eqn:Hc'; [|done].
      cbn in Hc. simplify_eq. by exists vc'.
    + intros (vc' & Hin & Hc). exists (key, vc'). split; [done|]. cbn.
      unfold comp_of in Hc. by rewrite Hc.
  - intros c Hne. rewrite lookup_total_insert_ne by done. by apply Hoth.
  - rewrite lookup_total_insert_eq. cbn.
    apply (f_equal (set_c_refs [])) in Hsame. cbn in Hsame. exact Hsame.
Qed.

(** ** Creation of the nodes of a tree *)

Lemma keeps_ret {X G} (P : Machine → Prop) (g : Machine → G) (x : X) : keeps P g (ret x).
Proof. by intros m Hm. Qed.

Lemma keeps_bind {X Y G} (P : Machine → Prop) (g : Machine → G) (c : M X) (f : X → M Y) :
  keeps P g c → (∀ a, keeps P g (f a)) → keeps P g (bind c f).
Proof.
  intros Hc Hf m Hm. destruct (Hc m Hm) as [HP Hg]. unfold bind.
  destruct (c m) as [[a|e] m1]; cbn [fst snd] in *; [|done].
  destruct (Hf a m1 HP) as [HP' Hg']. split; [done|congruence].
Qed.

Lemma keeps_forM_ {A G} (P : Machine → Prop) (g : Machine → G) (l : list A) (f : A → M unit) :
  (∀ a, keeps P g (f a)) → keeps P g (forM_ l f).
Proof.
  intros Hf. induction l as [|a l IH]; cbn [forM_]; [apply keeps_ret|].
  apply keeps_bind; [apply Hf|]. intros _. apply IH.
Qed.

Lemma keeps_when {G} (P : Machine → Prop) (g : Machine → G) (b : bool) (c : M unit) :
  keeps P g c → keeps P g (when b c).
Proof. intros Hc. destruct b; [done|apply keeps_ret]. Qed.

Lemma keeps_updateHash {G} (P : Machine → Prop) (g : Machine → G) newHash oldHash update remove :
  (∀ k v, keeps P g (update k v)) → (∀ k, keeps P g (remove k)) →
  keeps P g (_updateHash newHash oldHash update remove).
Proof.
  intros Hu Hr. unfold _updateHash.
  assert (keeps P g (forM_ (Map_keys (default [] newHash)) (λ key,
                let oldVal := _hashGet (default [] oldHash) key in
                let newVal := _hashGet (default [] newHash) key in
                if bool_decide (oldVal ≠ newVal) then update key (default "" newVal) else ret tt);;
              forM_ (Map_keys (default [] oldHash)) (λ key,
                if bool_decide (key ∈ Map_keys (default [] newHash))
                then ret tt else remove key))%M) as Hg.
  { apply keeps_bind.
    - apply keeps_forM_. intros key. cbv zeta. destruct (bool_decide _); [apply Hu|apply keeps_ret].
    - intros _. apply keeps_forM_. intros key. destruct (bool_decide _); [apply keeps_ret|apply Hr]. }
  destruct newHash, oldHash; first [exact Hg|apply keeps_ret].
Qed.

Section node_frame.
Variables el x : nat.
Hypothesis x_ne_el : x ≠ el.

Local Abbreviation childless := (λ m : Machine, n_childNodes (m_nodes m !!! el) = []).
Local Abbreviation rest := (λ m : Machine,
  (m_comps m, m_tags m, m_polluted m, m_stateId m, m_contexts m, m_ctxs m,
   n_parentNode (m_nodes m !!! el), m_nodes m !!! x)).

Lemma keeps_emit_modNode ev (f : DOMNode → DOMNode) :
  (∀ n, n_childNodes (f n) = n_childNodes n ∧ n_parentNode (f n) = n_parentNode n) →
  keeps childless rest (emit ev;; modNode el f).
Proof.
  intros Hf m Hm. cbn. rewrite lookup_total_insert_eq, lookup_total_insert_ne by done.
  destruct (Hf (m_nodes m !!! el)) as [-> ->]. done.
Qed.

Lemma keeps_clear_children ev (f : DOMNode → DOMNode) :
  (∀ n, n_childNodes (f n) = [] ∧ n_parentNode (f n) = n_parentNode n) →
  keeps childless rest
    (emit ev;; n <- getNode el;;
     forM_ (n_childNodes n) (λ c, modNode c (set_n_parentNode None));; modNode el f).
Proof.
  intros Hf m Hm. rewrite bind_emit, bind_getNode.
  change (m_nodes (emit ev m).2) with (m_nodes m). rewrite Hm. cbn [forM_]. rewrite bind_ret.
  cbn. rewrite lookup_total_insert_eq, lookup_total_insert_ne by done.
  destruct (Hf (m_nodes m !!! el)) as [-> ->]. done.
Qed.

Lemma keeps_updateDOMElement vel : keeps childless rest (_updateDOMElement el vel).
Proof.
  unfold _updateDOMElement. apply keeps_bind; [done|]. intros v.
  apply keeps_bind; [done|]. intros n.
  assert (keeps childless rest
    (when (bool_decide (toLowerCase (v_tagName v) ≠ getTagName n)) (setTagName el (v_tagName v));;
     _updateHash (Some (ep_attributes (v_eprops v))) (Some (n_attributes n))
                 (setAttribute el) (removeAttribute el);;
     _updateHash (Some (ep_htmlProps (v_eprops v))) (Some (n_htmlProps n))
                 (setProperty el) (removeProperty el);;
     _updateListeners el (ep_eventListeners (v_eprops v));;
     match v_innerHTMLString v with
     | Some newInnerHTML =>
         (if negb (n_hasInnerHTML n) then
            empty el;; setInnerHTML el newInnerHTML
          else if bool_decide (n_innerHTML n ≠ newInnerHTML) then setInnerHTML el newInnerHTML
          else ret tt);;
         modNode el (set_n_hasInnerHTML true)
     | None => ret tt
     end)%M) as Hbody.
  { apply keeps_bind; [apply keeps_when, keeps_emit_modNode; done|]. intros _.
    apply keeps_bind.
    { apply keeps_updateHash; intros; apply keeps_emit_modNode; done. }
    intros _. apply keeps_bind.
    { apply keeps_updateHash; intros; apply keeps_emit_modNode; done. }
    intros _. apply keeps_bind.
    { unfold _updateListeners. apply keeps_bind; [apply keeps_emit_modNode; done|].
      intros _. apply keeps_forM_. intros l. apply keeps_emit_modNode. done. }
    intros _. destruct (v_innerHTMLString v) as [h|]; [|apply keeps_ret].
    assert (Hset : keeps childless rest (setInnerHTML el h))
      by (apply keeps_clear_children; done).
    apply keeps_bind.
    - destruct (negb _).
      + apply keeps_bind; [apply keeps_clear_children; done|]. intros _. exact Hset.
      + destruct (bool_decide _); [exact Hset|apply keeps_ret].
    - intros _ m Hm. cbn. rewrite lookup_total_insert_eq, lookup_total_insert_ne by done. done. }
  destruct (v_kind v); [exact Hbody|exact Hbody|clear Hbody].
  destruct (bool_decide (n_textContent n ≠ v_text v));
    [apply keeps_emit_modNode; done|apply keeps_ret].
Qed.

End node_frame.

Lemma _createDOMElement_fresh vel m :
  let v := m_vels m !!! vel in
  let el := m_next m in
  ∃ m', _createDOMElement vel m = (Ret el, m')
    ∧ m_next m' = S el ∧ m_vels m' = m_vels m ∧ m_comps m' = m_comps m
    ∧ m_tags m' = m_tags m ∧ m_polluted m' = m_polluted m ∧ m_stateId m' = m_stateId m
    ∧ m_contexts m' = m_contexts m ∧ m_ctxs m' = m_ctxs m
    ∧ (∀ x, x ≠ el → m_nodes m' !!! x = m_nodes m !!! x)
    ∧ n_childNodes (m_nodes m' !!! el) = [] ∧ n_parentNode (m_nodes m' !!! el) = None
    ∧ n_kind (m_nodes m' !!! el)
      = (if bool_decide (v_kind v = VirtualTextNode) then TextNode else ElementNode)
    ∧ n_comp (m_nodes m' !!! el) = v_comp v
    ∧ node_agrees v (m_nodes m' !!! el).
Proof.
  intros v el. unfold _createDOMElement. rewrite bind_getVel. fold v.
  assert (∃ mA, (match v_kind v with
                  | VirtualTextNode => createTextNode (v_text v)
                  | _ => createElement (v_tagName v)
                  end) m = (Ret el, mA)
    ∧ m_next mA = S el ∧ m_vels mA = m_vels m
    ∧ (m_comps mA, m_tags mA, m_polluted mA, m_stateId mA, m_contexts mA, m_ctxs mA)
      = (m_comps m, m_tags m, m_polluted m, m_stateId m, m_contexts m, m_ctxs m)
    ∧ (∀ x, x ≠ el → m_nodes mA !!! x = m_nodes m !!! x)
    ∧ n_childNodes (m_nodes mA !!! el) = [] ∧ n_parentNode (m_nodes mA !!! el) = None
    ∧ n_kind (m_nodes mA !!! el)
      = (if bool_decide (v_kind v = VirtualTextNode) then TextNode else ElementNode)
    ∧ n_comp (m_nodes mA !!! el) = None)
    as (mA & HrA & HxA & HvA & HfA & HoA & HcA & HpA & HkA & HiA).
  { unfold createTextNode, createElement, alloc.
    destruct (v_kind v) eqn:Hk; run_simpl;
      (eexists; split; [reflexivity|]); cbn; fold el;
      rewrite ?lookup_total_insert_eq; cbn;
      (split_and!; try done; intros x Hx; by rewrite !lookup_total_insert_ne by done). }
  rewrite (bind_ret_run _ _ _ _ _ HrA). clear HrA.
  assert (∃ mB, (match v_comp v with
                 | Some c => modNode el (set_n_comp (Some c))
                 | None => ret tt
                 end) mA = (Ret tt, mB)
    ∧ m_next mB = S el ∧ m_vels mB = m_vels m
    ∧ (m_comps mB, m_tags mB, m_polluted mB, m_stateId mB, m_contexts mB, m_ctxs mB)
      = (m_comps m, m_tags m, m_polluted m, m_stateId m, m_contexts m, m_ctxs m)
    ∧ (∀ x, x ≠ el → m_nodes mB !!! x = m_nodes m !!! x)
    ∧ n_childNodes (m_nodes mB !!! el) = [] ∧ n_parentNode (m_nodes mB !!! el) = None
    ∧ n_kind (m_nodes mB !!! el)
      = (if bool_decide (v_kind v = VirtualTextNode) then TextNode else ElementNode)
    ∧ n_comp (m_nodes mB !!! el) = v_comp v)
    as (mB & HrB & HxB & HvB & HfB & HoB & HcB & HpB & HkB & HiB).
  { destruct (v_comp v) as [c|] eqn:Hc.
    - eexists. split; [reflexivity|]. cbn. rewrite lookup_total_insert_eq. cbn.
      split_and!; try done. intros x Hx. rewrite lookup_total_insert_ne by done. by apply HoA.
    - exists mA. by split_and!. }
  rewrite (bind_ret_run _ _ _ _ _ HrB). clear HrB.
  clear dependent mA.
  pose proof (_updateDOMElement_post el vel mB) as Hpost. cbv zeta in Hpost.
  destruct Hpost as (HrC & HvC & HxC & HkC & HiC & HaC).
  assert (Hfr : ∀ x, x ≠ el →
            n_childNodes (m_nodes (_updateDOMElement el vel mB).2 !!! el) = []
            ∧ (m_comps (_updateDOMElement el vel mB).2, m_tags (_updateDOMElement el vel mB).2,
               m_polluted (_updateDOMElement el vel mB).2,
               m_stateId (_updateDOMElement el vel mB).2,
               m_contexts (_updateDOMElement el vel mB).2, m_ctxs (_updateDOMElement el vel mB).2,
               n_parentNode (m_nodes (_updateDOMElement el vel mB).2 !!! el),
               m_nodes (_updateDOMElement el vel mB).2 !!! x)
              = (m_comps mB, m_tags mB, m_polluted mB, m_stateId mB, m_contexts mB, m_ctxs mB,
                 n_parentNode (m_nodes mB !!! el), m_nodes mB !!! x)).
  { intros x Hx. exact (keeps_updateDOMElement el x Hx vel mB HcB). }
  destruct (_updateDOMElement el vel mB) as [o mC] eqn:HeC. cbn [fst snd] in *. subst o.
  rewrite (bind_ret_run _ _ _ _ _ HeC). exists mC. split; [done|].
  destruct (Hfr (S el) ltac:(lia)) as [HcC HfC].
  rewrite HvB in HaC. fold v in HaC.
  split_and!; try congruence.
  intros x Hx. destruct (Hfr x Hx) as [_ Hf]. rewrite <-HoB by done. congruence.
Qed.

Lemma node_fields_modulo_parent v n n' :
  set_n_parentNode None n' = set_n_parentNode None n →
  (node_agrees v n → node_agrees v n')
  ∧ n_comp n' = n_comp n ∧ n_kind n' = n_kind n ∧ n_childNodes n' = n_childNodes n.
Proof.
  destruct n, n'. cbn. intros [= -> -> -> -> -> -> -> -> -> ->].
  split_and!; [|done..]. unfold node_agrees. cbn. done.
Qed.

Lemma node_fields_modulo_children v n n' :
  set_n_childNodes [] n' = set_n_childNodes [] n →
  (node_agrees v n → node_agrees v n')
  ∧ n_comp n' = n_comp n ∧ n_kind n' = n_kind n ∧ n_parentNode n' = n_parentNode n.
Proof.
  destruct n, n'. cbn. intros [= -> -> -> -> -> -> -> -> -> ->].
  split_and!; [|done..]. unfold node_agrees. cbn. done.
Qed.

Lemma mirrors_ext vels nodes nodes' lo hi h vel el :
  set_n_parentNode None (nodes' !!! el) = set_n_parentNode None (nodes !!! el) →
  (∀ x, el < x < hi → nodes' !!! x = nodes !!! x) →
  mirrors vels nodes lo hi h vel el → mirrors vels nodes' lo hi h vel el.
Proof.
  revert lo vel el. induction h as [|h IH]; intros lo vel el Hroot Hrest; [done|].
  cbn [mirrors]. intros (Hr & Hag & Hc & Hk & Hch).
  destruct (node_fields_modulo_parent (vels !!! vel) _ _ Hroot) as (Hag' & Hc' & Hk' & Hch').
  split; [done|]. split; [by apply Hag'|]. split; [congruence|]. split; [congruence|].
  rewrite Hch'. destruct (isStructural (vels !!! vel)); [|done].
  eapply Forall2_impl; [exact Hch|]. intros vc c [Hp Hm].
  assert (Hc_range : S el ≤ c < hi) by (destruct h; [done|apply Hm]).
  assert (Hcx : nodes' !!! c = nodes !!! c) by (apply Hrest; lia).
  split; [by rewrite Hcx|]. apply IH; [by rewrite Hcx| |done].
  intros x Hx. apply Hrest. lia.
Qed.

Lemma mirrors_weaken vels nodes lo lo' hi hi' h vel el :
  lo' ≤ lo → hi ≤ hi' →
  mirrors vels nodes lo hi h vel el → mirrors vels nodes lo' hi' h vel el.
Proof.
  revert lo lo' vel el. induction h as [|h IH]; intros lo lo' vel el Hlo Hhi; [done|].
  cbn [mirrors]. intros (Hr & Hag & Hc & Hk & Hch).
  split; [lia|]. split; [done|]. split; [done|]. split; [done|].
  destruct (isStructural (vels !!! vel)); [|done].
  eapply Forall2_impl; [exact Hch|]. intros vc c [Hp Hm]. split; [done|].
  by apply (IH (S el) (S el)).
Qed.

Lemma _propagateForwardedEl_loop_frame fuel parent el m :
  let r := _propagateForwardedEl_loop fuel parent el m in
  (m_vels r.2, m_nodes r.2, m_next r.2, m_tags r.2, m_polluted r.2, m_stateId r.2,
   m_contexts r.2, m_ctxs r.2, m_log r.2)
  = (m_vels m, m_nodes m, m_next m, m_tags m, m_polluted m, m_stateId m,
     m_contexts m, m_ctxs m, m_log m)
  ∧ ∀ c, set_c_el None (m_comps r.2 !!! c) = set_c_el None (m_comps m !!! c).
Proof.
  revert parent m. induction fuel as [|fuel IH]; intros [p|] m; cbn [_propagateForwardedEl_loop];
    try done; rewrite bind_getVel; destruct (v_isForwarding (m_vels m !!! p)); try done;
    (destruct (v_comp (m_vels m !!! p)) as [pc|]; [|done]); cbn [deref];
    rewrite bind_ret, bind_modComp.
  - cbn. split; [done|]. intros c. destruct (decide (c = pc)) as [->|Hne].
    + rewrite lookup_total_insert_eq. by destruct (m_comps m !!! pc).
    + by rewrite lookup_total_insert_ne.
  - destruct (IH (v_parent (m_vels m !!! p)) (modComp pc (set_c_el (Some el)) m).2) as [Hf Hc].
    cbv zeta. rewrite Hf. split; [done|]. intros c. rewrite Hc. cbn.
    destruct (decide (c = pc)) as [->|Hne].
    + rewrite lookup_total_insert_eq. by destruct (m_comps m !!! pc).
    + by rewrite lookup_total_insert_ne.
Qed.

Lemma _propagateForwardedEl_frame fuel vel el m :
  let r := _propagateForwardedEl fuel vel el m in
  (m_vels r.2, m_nodes r.2, m_next r.2, m_tags r.2, m_polluted r.2, m_stateId r.2,
   m_contexts r.2, m_ctxs r.2, m_log r.2)
  = (m_vels m, m_nodes m, m_next m, m_tags m, m_polluted m, m_stateId m,
     m_contexts m, m_ctxs m, m_log m)
  ∧ ∀ c, set_c_el None (m_comps r.2 !!! c) = set_c_el None (m_comps m !!! c).
Proof.
  unfold _propagateForwardedEl. rewrite bind_getVel.
  destruct (v_isForwarded _); [apply _propagateForwardedEl_loop_frame|done].
Qed.

Local Abbreviation store_rest m :=
  (m_vels m, m_tags m, m_polluted m, m_stateId m, m_contexts m, m_ctxs m).

Lemma appendChild_fresh el cel m :
  el ≠ cel → n_parentNode (m_nodes m !!! cel) = None →
  ∃ m', appendChild el cel m = (Ret tt, m')
    ∧ m_nodes m' !!! el
      = set_n_childNodes (n_childNodes (m_nodes m !!! el) ++ [cel]) (m_nodes m !!! el)
    ∧ m_nodes m' !!! cel = set_n_parentNode (Some el) (m_nodes m !!! cel)
    ∧ (∀ x, x ≠ el → x ≠ cel → m_nodes m' !!! x = m_nodes m !!! x)
    ∧ m_next m' = m_next m ∧ m_comps m' = m_comps m ∧ store_rest m' = store_rest m.
Proof.
  intros Hne Hpar. unfold appendChild, dom_detach. run_simpl.
  change (m_nodes (emit (EvDom (AppendChild el cel)) m).2) with (m_nodes m).
  rewrite Hpar. run_simpl. eexists. split; [reflexivity|]. cbn. split_and!; try done.
  - rewrite lookup_total_insert_ne by done. by rewrite lookup_total_insert_eq.
  - rewrite lookup_total_insert_eq. by rewrite lookup_total_insert_ne by done.
  - intros x H1 H2. by rewrite !lookup_total_insert_ne by done.
Qed.

Lemma _createEl_loop f :
  (∀ vel m el m', _createEl f vel m = (Ret el, m') → created f vel m el m') →
  ∀ vs el m m',
    forM_ vs (λ vc, cel <- _createEl f vc;; appendChild el cel) m = (Ret tt, m') →
    el < m_next m →
    ∃ cs, n_childNodes (m_nodes m' !!! el) = n_childNodes (m_nodes m !!! el) ++ cs
      ∧ Forall2 (λ vc c, n_parentNode (m_nodes m' !!! c) = Some el
                         ∧ mirrors (m_vels m) (m_nodes m') (S el) (m_next m') f vc c) vs cs
      ∧ set_n_childNodes [] (m_nodes m' !!! el) = set_n_childNodes [] (m_nodes m !!! el)
      ∧ (∀ x, x < m_next m → x ≠ el → m_nodes m' !!! x = m_nodes m !!! x)
      ∧ m_next m ≤ m_next m' ∧ store_rest m' = store_rest m
      ∧ (∀ c, set_c_el None (m_comps m' !!! c) = set_c_el None (m_comps m !!! c)).
Proof.
  intros IHf vs. induction vs as [|vc vs IH]; intros el m m' Hrun Hel.
  { cbn in Hrun. injection Hrun as <-. exists []. rewrite app_nil_r. by split_and!. }
  cbn [forM_] in Hrun. rewrite bind_bind in Hrun.
  destruct (_createEl f vc m) as [[cel|e] ma] eqn:Hc;
    [rewrite (bind_ret_run _ _ _ _ _ Hc) in Hrun|unfold bind in Hrun; by rewrite Hc in Hrun].
  destruct (IHf _ _ _ _ Hc) as (-> & Hna & Hsa & Hfa & Hpa & Hma & Hca).
  destruct (appendChild_fresh el (m_next m) ma ltac:(lia) Hpa)
    as (mb & Hab & Hbel & Hbcel & Hbo & Hnb & Hcb & Hsb).
  rewrite (bind_ret_run _ _ _ _ _ Hab) in Hrun.
  destruct (IH el mb m' Hrun ltac:(lia)) as (cs & Hch & Hall & Hblank & Hfr & Hn & Hs & Hcc).
  assert (Hvels : m_vels mb = m_vels m) by congruence.
  exists (m_next m :: cs). split_and!.
  - rewrite Hch, Hbel. cbn. rewrite Hfa by lia. by rewrite <-app_assoc.
  - constructor.
    + assert (Hcel : m_nodes m' !!! m_next m = m_nodes mb !!! m_next m) by (apply Hfr; lia).
      split; [by rewrite Hcel, Hbcel|].
      apply (mirrors_weaken _ _ (m_next m) _ (m_next ma)); [lia|lia|].
      eapply mirrors_ext; [| |exact Hma].
      * rewrite Hcel, Hbcel. by destruct (m_nodes ma !!! m_next m).
      * intros x Hx. rewrite Hfr by lia. apply Hbo; lia.
    + rewrite Hvels in Hall. exact Hall.
  - rewrite Hblank, Hbel. cbn. rewrite Hfa by lia. by destruct (m_nodes m !!! el).
  - intros x Hx Hne. rewrite Hfr by lia. rewrite Hbo by lia. apply Hfa. lia.
  - lia.
  - congruence.
  - intros c. by rewrite Hcc, Hcb, Hca.
Qed.

Lemma _createEl_spec fuel :
  ∀ vel m el m', _createEl fuel vel m = (Ret el, m') → created fuel vel m el m'.
Proof.
  induction fuel as [|f IHf]; intros vel m el m' Hrun; [done|].
  unfold created. cbn [_createEl] in Hrun.
  destruct (_createDOMElement_fresh vel m)
    as (m1 & Hr1 & Hn1 & Hv1 & Hc1 & Ht1 & Hp1 & Hs1 & Hx1 & Hy1 & Ho1 & Hch1 & Hpar1 & Hk1 & Hi1 & Ha1).
  rewrite (bind_ret_run _ _ _ _ _ Hr1), bind_getVel, Hv1 in Hrun.
  set (v := m_vels m !!! vel) in *.
  destruct (v_comp v) as [comp|] eqn:Hcomp; [|done].
  cbn [deref] in Hrun. rewrite bind_ret, bind_modComp in Hrun.
  set (m2 := (modComp comp (set_c_el (Some (m_next m))) m1).2) in Hrun.
  assert (F2 : m_nodes m2 = m_nodes m1 ∧ m_next m2 = m_next m1 ∧ store_rest m2 = store_rest m1
               ∧ ∀ c, set_c_el None (m_comps m2 !!! c) = set_c_el None (m_comps m1 !!! c)).
  { split_and!; [done..|]. intros c. unfold m2. cbn. destruct (decide (c = comp)) as [->|Hne].
    - rewrite lookup_total_insert_eq. by destruct (m_comps m1 !!! comp).
    - by rewrite lookup_total_insert_ne. }
  clearbody m2. destruct F2 as (N2 & X2 & S2 & C2).
  pose proof (_propagateForwardedEl_frame f vel (m_next m) m2) as [F3 C3]. cbv zeta in F3, C3.
  destruct (_propagateForwardedEl f vel (m_next m) m2) as [[[]|e] m3] eqn:Hp;
    [rewrite (bind_ret_run _ _ _ _ _ Hp) in Hrun|unfold bind in Hrun; by rewrite Hp in Hrun].
  cbn [fst snd] in F3, C3.
  assert (N3 : m_nodes m3 = m_nodes m1) by congruence.
  assert (X3 : m_next m3 = S (m_next m)) by congruence.
  assert (S3 : store_rest m3 = store_rest m) by congruence.
  assert (C3' : ∀ c, set_c_el None (m_comps m3 !!! c) = set_c_el None (m_comps m !!! c)).
  { intros c. by rewrite C3, C2, Hc1. }
  clear F3 C3 C2 S2 X2 N2 Hp m2.
  destruct (isStructural v) eqn:Hstr; cbv iota in Hrun.
  - match type of Hrun with bind ?c ?k _ = _ =>
      destruct (bind_cases c k m3) as [([] & m4 & Hloop & Hb)|(e & m4 & Hloop & Hb)] end;
      rewrite Hb in Hrun; [|done].
    injection Hrun as <- <-.
    destruct (_createEl_loop f IHf _ _ _ _ Hloop ltac:(lia))
      as (cs & Hch & Hall & Hblank & Hfr & Hn & Hs & Hcc).
    rewrite N3 in Hch, Hblank. rewrite Hch1 in Hch. cbn [app] in Hch.
    destruct (node_fields_modulo_children v _ _ Hblank) as (Hag & Hi & Hk & Hpar).
    split_and!; try done; try lia; try congruence.
    + intros x Hx. rewrite Hfr by lia. rewrite N3. apply Ho1. lia.
    + cbn [mirrors]. fold v. rewrite Hstr, Hch.
      split; [lia|]. split; [by apply Hag|]. split; [congruence|]. split; [congruence|].
      assert (Hvels : m_vels m3 = m_vels m) by congruence. by rewrite <-Hvels.
  - rewrite bind_ret in Hrun. injection Hrun as <- <-.
    split_and!; try done; try lia; try congruence.
    + intros x Hx. rewrite N3. apply Ho1. lia.
    + cbn [mirrors]. fold v. rewrite Hstr, N3.
      split; [lia|]. split_and!; [done|congruence|done|done].
Qed.

Lemma _createEl_returns fuel :
  ∀ h vel m, creatable (m_vels m) h vel → h ≤ fuel → ∃ el m', _createEl fuel vel m = (Ret el, m').
Proof.
  induction fuel as [|f IHf]; intros [|h] vel m Hcr Hle; try done; [lia|].
  cbn [creatable] in Hcr. destruct Hcr as (Hcomp & Hfwd & Hkids).
  cbn [_createEl].
  destruct (_createDOMElement_fresh vel m)
    as (m1 & Hr1 & Hn1 & Hv1 & _).
  rewrite (bind_ret_run _ _ _ _ _ Hr1), bind_getVel, Hv1.
  set (v := m_vels m !!! vel) in *.
  destruct (v_comp v) as [comp|] eqn:Hc; [|done].
  cbn [deref]. rewrite bind_ret, bind_modComp.
  set (m2 := (modComp comp (set_c_el (Some (m_next m))) m1).2).
  assert (F2 : m_vels m2 = m_vels m ∧ m_next m2 = S (m_next m)) by (by split).
  clearbody m2. destruct F2 as [V2 N2].
  unfold _propagateForwardedEl. rewrite !bind_bind, bind_getVel, V2. fold v. rewrite Hfwd, bind_ret.
  destruct (isStructural v); [|rewrite bind_ret; by eexists _, _].
  specialize (Hkids eq_refl).
  assert (Hloop : ∀ vs m3, Forall (creatable (m_vels m3) h) vs → m_next m < m_next m3 →
            ∃ m4, forM_ vs (λ vc, cel <- _createEl f vc;; appendChild (m_next m) cel) m3
                  = (Ret tt, m4)).
  { clear -IHf Hle. intros vs. induction vs as [|vc vs IH]; intros m3 Hall Hlt.
    { by exists m3. }
    apply Forall_cons in Hall as [Hvc Hall]. cbn [forM_]. rewrite bind_bind.
    destruct (IHf h vc m3 Hvc ltac:(lia)) as (cel & ma & Hc).
    rewrite (bind_ret_run _ _ _ _ _ Hc).
    destruct (_createEl_spec _ _ _ _ _ Hc) as (-> & Hna & Hsa & _ & Hpa & _).
    destruct (appendChild_fresh (m_next m) (m_next m3) ma ltac:(lia) Hpa)
      as (mb & Hab & _ & _ & _ & Hnb & _ & Hsb).
    rewrite (bind_ret_run _ _ _ _ _ Hab).
    apply IH; [|lia]. assert (m_vels mb = m_vels m3) as -> by congruence. done. }
  destruct (Hloop (v_children v) m2) as (m4 & Hrun); [by rewrite V2|lia|].
  rewrite (bind_ret_run _ _ _ _ _ Hrun). by eexists _, _.
Qed.

(** X20: [_createEl] builds a tree of nodes that mirrors the tree of
    descriptors.  When every descriptor of the tree has an instance and none
    is forwarded, the call returns; and whenever it returns, the returned node
    is fresh and has no parent, each node of the tree agrees with its
    descriptor, carries its instance and has its kind, the child nodes of a
    node are, in order, the nodes created for the children of its
    descriptor, and a text node has no child.  The nodes that existed are
    untouched, and so are descriptors, tags and contexts; of an instance
    only the node it points at may change. *)
Theorem _createEl_mirrors_descriptors (fuel : nat) (vel : nat) (m : Machine) :
  (∀ h, creatable (m_vels m) h vel → h ≤ fuel → ∃ el m', _createEl fuel vel m = (Ret el, m'))
  ∧ (∀ el m', _createEl fuel vel m = (Ret el, m') → created fuel vel m el m').
Proof.
  split.
  - intros h. apply _createEl_returns.
  - apply _createEl_spec.
Qed.

(** [_createEl_mirrors_descriptors] on the tree of [m_tree0]. *)
Lemma _createEl_mirrors_descriptors_witness :
  ∃ el m', _createEl 3 1 m_tree0 = (Ret el, m') ∧ created 3 1 m_tree0 el m'.
Proof.
  pose proof (_createEl_mirrors_descriptors 3 1 m_tree0) as [Hterm Hres].
  assert (Hcr : creatable (m_vels m_tree0) 2 1).
  { vm_compute. split; [discriminate|]. split; [reflexivity|]. intros _.
    repeat constructor; try discriminate; intros [=]. }
  destruct (Hterm 2 Hcr ltac:(lia)) as (el & m' & Hrun).
  exists el, m'. split; [exact Hrun|exact (Hres el m' Hrun)].
Defined.

(** ** The JSX element factory *)

Section jsx.
Context {V : Type}.
Implicit Types (p : JsxParts V) (l : list (string * V)) (key : string).

Lemma Map_get_fresh key l : key ∉ Map_keys l → Map_get key l = None.
Proof.
  unfold Map_keys. induction l as [|[k v] l IH]; [done|]. cbn.
  intros Hk. apply not_elem_of_cons in Hk as [Hne Hk]. rewrite decide_False by done. by apply IH.
Qed.

Lemma foldl_Map_get (proj : JsxParts V → list (string * V)) (cond : string → bool)
    (step : JsxParts V → string * V → JsxParts V) key l p :
  (∀ p k0 v0, Map_get key (proj (step p (k0, v0)))
              = if decide (key = k0) then (if cond k0 then Some v0 else Map_get key (proj p))
                else Map_get key (proj p)) →
  NoDup (Map_keys l) →
  Map_get key (proj (foldl step p l))
  = if cond key then match Map_get key l with
                     | Some v => Some v
                     | None => Map_get key (proj p)
                     end
    else Map_get key (proj p).
Proof.
  intros Hstep. revert p. induction l as [|[k0 v0] l IH]; intros p Hnd.
  { cbn. by destruct (cond key). }
  apply NoDup_cons in Hnd as [Hk0 Hnd]. cbn [foldl]. rewrite IH by done.
  rewrite Hstep. cbn [Map_get]. destruct (decide (key = k0)) as [->|Hne]; [|done].
  rewrite (Map_get_fresh k0 l Hk0). by destruct (cond k0).
Qed.

Lemma foldl_slot (proj : JsxParts V → option V) (name : string)
    (step : JsxParts V → string * V → JsxParts V) l p :
  (∀ p k0 v0, proj (step p (k0, v0)) = if decide (k0 = name) then Some v0 else proj p) →
  NoDup (Map_keys l) →
  proj (foldl step p l) = match Map_get name l with Some v => Some v | None => proj p end.
Proof.
  intros Hstep. revert p. induction l as [|[k0 v0] l IH]; intros p Hnd; [done|].
  apply NoDup_cons in Hnd as [Hk0 Hnd]. cbn [foldl]. rewrite IH by done.
  rewrite Hstep. cbn [Map_get]. destruct (decide (name = k0)) as [->|Hne].
  - rewrite (Map_get_fresh k0 l Hk0). by rewrite decide_True.
  - by rewrite decide_False by done.
Qed.

Lemma on_handler_reserved key : jsx_reserved key = true → on_handler key = None.
Proof.
  unfold jsx_reserved. intros Hr%bool_decide_eq_true.
  repeat (apply elem_of_cons in Hr as [->|Hr]; [done|]). by apply elem_of_nil in Hr.
Qed.

(** X21: [createElement] sorts the entries of a props object, whose keys are
    distinct, as follows.  [className], [style] and [ref] are kept apart and
    reach neither the attributes nor the props.  A key made of [on] and one or
    more letters becomes a listener for the rest of the key in lower case, in
    the order of the keys, whatever the type, and reaches neither the
    attributes nor the props.  Of the other keys, a string type gets all as
    attributes, and [type], [value], [checked], [selected] also as element
    properties, and no props; a component type gets [id] as attribute, the
    others as props, and no element properties. *)
Theorem createElement_sorts_props (isStringType : bool) (props : list (string * V)) :
  NoDup (Map_keys props) →
  let r := createElement_parts isStringType (Some props) in
  let plain key := negb (jsx_reserved key) && bool_decide (on_handler key = None) in
  (∀ key, Map_get key (j_attributes r)
          = if plain key && (isStringType || bool_decide (key = "id"))
            then Map_get key props else None)
  ∧ (∀ key, Map_get key (j_htmlProps r)
            = if plain key && isStringType
                 && bool_decide (key ∈ ["type"; "value"; "checked"; "selected"])
              then Map_get key props else None)
  ∧ (∀ key, Map_get key (j_props r)
            = if plain key && negb isStringType && negb (bool_decide (key = "id"))
              then Map_get key props else None)
  ∧ j_eventListeners r
    = omap (λ e, if jsx_reserved e.1 then None
                 else (λ m1, (toLowerCase m1, e.2)) <$> on_handler e.1) props
  ∧ j_classNames r = Map_get "className" props
  ∧ j_styles r = Map_get "style" props
  ∧ j_ref r = Map_get "ref" props.
Proof.
  intros Hnd r plain. subst r. unfold createElement_parts.
  change (default [] (Some props)) with props.
  set (step := createElement_entry isStringType).
  set (p0 := mkJsx [] None None [] [] [] None).
  assert (Hcases : ∀ k0,
            (jsx_reserved k0 = true ∧ (k0 = "className" ∨ k0 = "style" ∨ k0 = "ref")) ∨
            (jsx_reserved k0 = false ∧ k0 ≠ "className" ∧ k0 ≠ "style" ∧ k0 ≠ "ref")).
  { intros k0. unfold jsx_reserved. case_bool_decide as Hr.
    - left. split; [done|].
      repeat (apply elem_of_cons in Hr as [->|Hr]; [tauto|]). by apply elem_of_nil in Hr.
    - right. split; [done|]. split_and!; intros ->; apply Hr; set_solver. }
  split_and!.
  - intros key.
    rewrite (foldl_Map_get j_attributes
               (λ k, negb (jsx_reserved k) && bool_decide (on_handler k = None)
                     && (isStringType || bool_decide (k = "id"))) step key props p0); [| |done].
    { unfold plain, p0. cbv beta. by destruct (_ && _ && _), (Map_get key props). }
    intros p k0 v0. unfold step, createElement_entry. cbn [fst snd].
    destruct (Hcases k0) as [(Hr & [-> | [-> | ->]]) | (Hr & H1 & H2 & H3)];
      [rewrite Hr; cbn [negb andb]; repeat case_decide; by cbn..|].
    rewrite Hr, !decide_False by done. cbn [negb andb].
    destruct (on_handler k0) as [m1|] eqn:Hon; cbn; [by case_decide|].
    destruct isStringType; cbn.
    + case_bool_decide; cbn; rewrite Map_get_set; by case_decide.
    + case_decide as Hid; cbn.
      * rewrite Map_get_set, bool_decide_eq_true_2 by done. by case_decide.
      * rewrite bool_decide_eq_false_2 by done. by case_decide.
  - intros key.
    rewrite (foldl_Map_get j_htmlProps
               (λ k, negb (jsx_reserved k) && bool_decide (on_handler k = None) && isStringType
                     && bool_decide (k ∈ ["type"; "value"; "checked"; "selected"]))
               step key props p0); [| |done].
    { unfold plain, p0. cbv beta. by destruct (_ && _ && _ && _), (Map_get key props). }
    intros p k0 v0. unfold step, createElement_entry. cbn [fst snd].
    destruct (Hcases k0) as [(Hr & [-> | [-> | ->]]) | (Hr & H1 & H2 & H3)];
      [rewrite Hr; cbn [negb andb]; repeat case_decide; by cbn..|].
    rewrite Hr, !decide_False by done. cbn [negb andb].
    destruct (on_handler k0) as [m1|] eqn:Hon; cbn; [by case_decide|].
    destruct isStringType; cbn.
    + case_bool_decide; cbn; rewrite ?Map_get_set; by case_decide.
    + by repeat case_decide.
  - intros key.
    rewrite (foldl_Map_get j_props
               (λ k, negb (jsx_reserved k) && bool_decide (on_handler k = None)
                     && negb isStringType && negb (bool_decide (k = "id")))
               step key props p0); [| |done].
    { unfold plain, p0. cbv beta. by destruct (_ && _ && _ && _), (Map_get key props). }
    intros p k0 v0. unfold step, createElement_entry. cbn [fst snd].
    destruct (Hcases k0) as [(Hr & [-> | [-> | ->]]) | (Hr & H1 & H2 & H3)];
      [rewrite Hr; cbn [negb andb]; repeat case_decide; by cbn..|].
    rewrite Hr, !decide_False by done. cbn [negb andb].
    destruct (on_handler k0) as [m1|] eqn:Hon; cbn; [by case_decide|].
    destruct isStringType; cbn.
    + case_bool_decide; cbn; by case_decide.
    + case_decide as Hid; cbn.
      * rewrite bool_decide_eq_true_2 by done. by case_decide.
      * rewrite bool_decide_eq_false_2, Map_get_set by done. by case_decide.
  - assert (Hl : ∀ l p, j_eventListeners (foldl step p l)
                        = j_eventListeners p
                          ++ omap (λ e, if jsx_reserved e.1 then None
                                        else (λ m1, (toLowerCase m1, e.2)) <$> on_handler e.1) l).
    { clear Hnd. intros l. induction l as [|[k0 v0] l IH]; intros p; cbn [foldl].
      { cbn. by rewrite app_nil_r. }
      rewrite IH. unfold step, createElement_entry. cbn [omap list_omap fst snd].
      destruct (Hcases k0) as [(Hr & [-> | [-> | ->]]) | (Hr & H1 & H2 & H3)];
        [rewrite Hr; repeat case_decide; by rewrite ?app_nil_r..|].
      rewrite Hr, !decide_False by done.
      destruct (on_handler k0) as [m1|]; cbn; [by rewrite <-app_assoc|].
      destruct isStringType; [by case_bool_decide|by case_decide]. }
    by rewrite Hl.
  - rewrite (foldl_slot j_classNames "className" step props p0); [by destruct (Map_get _ _)| |done].
    intros p k0 v0. unfold step, createElement_entry. cbn [fst snd].
    destruct (Hcases k0) as [(Hr & [-> | [-> | ->]]) | (Hr & H1 & H2 & H3)];
      [repeat case_decide; by cbn..|].
    rewrite (decide_False (P := k0 = "className")), (decide_False (P := k0 = "style")),
      (decide_False (P := k0 = "ref")) by done.
    destruct (on_handler k0), isStringType; repeat case_bool_decide; repeat case_decide; done.
  - rewrite (foldl_slot j_styles "style" step props p0); [by destruct (Map_get _ _)| |done].
    intros p k0 v0. unfold step, createElement_entry. cbn [fst snd].
    destruct (Hcases k0) as [(Hr & [-> | [-> | ->]]) | (Hr & H1 & H2 & H3)];
      [repeat case_decide; by cbn..|].
    rewrite (decide_False (P := k0 = "className")), (decide_False (P := k0 = "style")),
      (decide_False (P := k0 = "ref")) by done.
    destruct (on_handler k0), isStringType; repeat case_bool_decide; repeat case_decide; done.
  - rewrite (foldl_slot j_ref "ref" step props p0); [by destruct (Map_get _ _)| |done].
    intros p k0 v0. unfold step, createElement_entry. cbn [fst snd].
    destruct (Hcases k0) as [(Hr & [-> | [-> | ->]]) | (Hr & H1 & H2 & H3)];
      [repeat case_decide; by cbn..|].
    rewrite (decide_False (P := k0 = "className")), (decide_False (P := k0 = "style")),
      (decide_False (P := k0 = "ref")) by done.
    destruct (on_handler k0), isStringType; repeat case_bool_decide; repeat case_decide; done.
Qed.

End jsx.

(** [createElement_sorts_props] on [jsx_props0] for a string type: [onClick]
    and [only] become listeners, [value] is an attribute and a property. *)
Lemma createElement_sorts_props_witness :
  let r := createElement_parts true (Some jsx_props0) in
  j_eventListeners r = [("click", "h"); ("ly", "x")]
  ∧ Map_get "value" (j_htmlProps r) = Some "1"
  ∧ Map_get "only" (j_attributes r) = None.
Proof.
  assert (Hnd : NoDup (Map_keys jsx_props0)).
  { apply (bool_decide_unpack _). vm_compute. exact I. }
  pose proof (createElement_sorts_props true jsx_props0 Hnd) as Hsort.
  cbv zeta in Hsort. destruct Hsort as (Hattr & Hhtml & _ & Hlis & _).
  cbv zeta. split; [|split].
  - rewrite Hlis. vm_compute. reflexivity.
  - rewrite Hhtml. vm_compute. reflexivity.
  - rewrite Hattr. vm_compute. reflexivity.
Defined.

(** ** Update *)

Section update.
Context `{Collaborators}.


(** X23: [_update] reads the instance of the descriptor before anything
    else, so on a descriptor that has no instance and is not SKIPPED it never
    returns normally: not even when its workaround captures the descriptor,
    which creates the instance. *)
Theorem _update_needs_the_instance (fuel : nat) (vel : nat) (m : Machine) :
  comp_of m vel = None → is_tagged SKIPPED (OVel vel) m = false →
  ∃ e, (_update fuel vel m).1 = Throw e.
Proof.
  intros Hc Hs. destruct fuel as [|fuel]; [by eexists|].
  cbn [_update]. rewrite bind_state_is, Hs. cbn iota. rewrite bind_getVel.
  unfold comp_of in Hc. rewrite Hc.
  match goal with |- ∃ e, (bind ?c ?f ?m0).1 = Throw e =>
    destruct (bind_cases c f m0) as [(u & m1 & Hrun & ->)|(e & m1 & Hrun & ->)];
    [|by eexists] end.
  rewrite bind_getVel. destruct (v_isForwarding (m_vels m1 !!! vel)); [|by eexists].
  match goal with |- ∃ e, (bind ?c ?f ?m0).1 = Throw e =>
    destruct (bind_cases c f m0) as [(u' & m2 & Hrun' & ->)|(e & m2 & Hrun' & ->)];
    [|by eexists] end.
  destruct (bool_decide (v_kind (m_vels m1 !!! vel) = VirtualComponent)); [by eexists|].
  rewrite bind_ret, bind_state_set. by eexists.
Qed.

Lemma skip_detached_run olds (l : list nat) p m :
  l = drop p olds →
  ∃ o p', skip_detached l p m = (Ret (o, p'), m)
    ∧ match after_detached m l with
      | [] => o = None
      | oc :: tl => o = Some oc ∧ tl = drop p' olds
      end.
Proof.
  revert p. induction l as [|oc l IH]; intros p Hl; cbn [skip_detached after_detached].
  { by eexists _, _. }
  assert (Hl' : l = drop (S p) olds).
  { replace (S p) with (p + 1) by lia. rewrite <-drop_drop, <-Hl. done. }
  rewrite bind_state_is. destruct (is_tagged DETACHED (OComp oc) m).
  - apply IH, Hl'.
  - by eexists _, _.
Qed.

Lemma _removeChild_effect parent child m pel cel :
  c_el (m_comps m !!! parent) = Some pel → c_el (m_comps m !!! child) = Some cel →
  ∃ m', _removeChild parent child m = (Ret tt, m')
    ∧ m_log m' = m_log m ++ removal_events m pel child
    ∧ m_tags m' = m_tags m ∧ m_stateId m' = m_stateId m ∧ m_vels m' = m_vels m
    ∧ ∀ c, c_el (m_comps m' !!! c) = c_el (m_comps m !!! c).
Proof.
  intros Hp Hc. unfold _removeChild, removal_events.
  rewrite (bind_el_of _ _ _ _ Hp), (bind_el_of _ _ _ _ Hc), Hc.
  unfold removeChild. run_simpl.
  set (m1 := (modNode cel _ _).2).
  assert (F1 : m_comps m1 = m_comps m ∧ m_tags m1 = m_tags m ∧ m_stateId m1 = m_stateId m
               ∧ m_vels m1 = m_vels m
               ∧ m_log m1 = m_log m ++ [EvDom (RemoveChild pel cel)]) by done.
  clearbody m1. destruct F1 as (C1 & T1 & S1 & V1 & L1).
  assert (D1 : is_tagged DETACHED (OComp child) m1 = is_tagged DETACHED (OComp child) m).
  { unfold is_tagged. by rewrite T1, S1. }
  rewrite D1. destruct (is_tagged DETACHED (OComp child) m); cbn [negb when].
  - exists m1. rewrite C1. by split_and!.
  - unfold triggerDispose. run_simpl. eexists. split; [reflexivity|]. cbn.
    rewrite L1, <-app_assoc, C1. split_and!; try done.
    intros c. destruct (decide (c = child)) as [->|Hne].
    + by rewrite lookup_total_insert_eq.
    + by rewrite lookup_total_insert_ne.
Qed.

Lemma removal_events_ext m m' pel oc :
  m_tags m' = m_tags m → m_stateId m' = m_stateId m →
  c_el (m_comps m' !!! oc) = c_el (m_comps m !!! oc) →
  removal_events m' pel oc = removal_events m pel oc.
Proof. intros Ht Hs Hc. unfold removal_events, is_tagged. by rewrite Ht, Hs, Hc. Qed.

Lemma remove_all_run comp pel (l : list nat) m :
  c_el (m_comps m !!! comp) = Some pel →
  Forall (λ oc, c_el (m_comps m !!! oc) ≠ None) l →
  ∃ m', forM_ l (_removeChild comp) m = (Ret tt, m')
    ∧ m_log m' = m_log m ++ concat (removal_events m pel <$> l)
    ∧ m_tags m' = m_tags m ∧ m_vels m' = m_vels m.
Proof.
  revert m. induction l as [|oc l IH]; intros m Hp Hall; cbn [forM_ fmap list_fmap concat].
  { exists m. by rewrite app_nil_r. }
  apply Forall_cons in Hall as [Hoc Hall].
  destruct (c_el (m_comps m !!! oc)) as [cel|] eqn:Hcel; [|done].
  destruct (_removeChild_effect comp oc m pel cel Hp Hcel) as (m1 & Hr & Hl & Ht & Hs & Hv & Hc).
  rewrite (bind_ret_run _ _ _ _ _ Hr).
  destruct (IH m1) as (m' & Hr' & Hl' & Ht' & Hv').
  { by rewrite Hc. }
  { eapply Forall_impl; [exact Hall|]. intros c. by rewrite Hc. }
  exists m'. split; [done|]. split_and!; [|congruence..].
  rewrite Hl', Hl, <-app_assoc. do 2 f_equal. f_equal.
  apply list_fmap_ext. intros _ c _. by apply removal_events_ext.
Qed.

(** X24: when no new child is left, [_update] removes the old children from
    the first one that is not DETACHED on, in order, DETACHED ones included,
    and disposes each one that is not DETACHED; nothing else is logged and
    no tag or descriptor changes.  Without old children nothing happens.
    When old children are left and all of them are DETACHED, a TypeError is
    raised. *)
Theorem _update_loop_removes_leftovers (fuel : nat) (comp pel : nat) (olds : list nat)
    (m : Machine) :
  c_el (m_comps m !!! comp) = Some pel →
  Forall (λ oc, c_el (m_comps m !!! oc) ≠ None) olds →
  let r := _update_loop (S fuel) comp olds [] 0 0 m in
  match after_detached m olds with
  | [] => r = (if decide (olds = []) then Ret tt else Throw TypeError, m)
  | rest =>
      r.1 = Ret tt
      ∧ m_log r.2 = m_log m ++ concat (removal_events m pel <$> rest)
      ∧ m_tags r.2 = m_tags m ∧ m_vels r.2 = m_vels m
  end.
Proof.
  intros Hp Hall r. subst r. cbn [_update_loop].
  destruct olds as [|oc0 olds0] eqn:Holds; [done|]. rewrite <-Holds in *.
  assert (Hlen : (0 <? length olds) = true) by (subst olds; done).
  rewrite Hlen. cbn [orb negb].
  destruct (skip_detached_run olds (drop 0 olds) 0 m eq_refl) as (o & p' & Hskip & Hafter).
  rewrite (bind_ret_run _ _ _ _ _ Hskip). cbn [fst snd]. rewrite drop_0 in Hafter.
  destruct (after_detached m olds) as [|oc tl] eqn:Hrest.
  - subst o. rewrite decide_False by (subst olds; done). done.
  - destruct Hafter as [-> ->]. cbn [lookup list_lookup].
    assert (Hsub : Forall (λ oc, c_el (m_comps m !!! oc) ≠ None) (oc :: drop p' olds)).
    { rewrite Forall_forall in Hall |- *. intros c Hc. apply Hall.
      clear -Hc Hrest. revert Hc Hrest. generalize (oc :: drop p' olds). intros rest.
      induction olds as [|a olds IH]; cbn; [by intros ? <-|].
      destruct (is_tagged DETACHED (OComp a) m); [|by intros ? <-].
      intros Hc Hr. right. by apply IH. }
    destruct (remove_all_run comp pel (oc :: drop p' olds) m Hp Hsub) as (m' & Hr & Hl & Ht & Hv).
    rewrite Hr. by split_and!.
Qed.

(** X25: old children that are text nodes showing the texts of the new text
    descriptors, one by one, are reused as they are: the walk over the two
    lists returns and leaves the whole store as it was.  No DOM operation is
    performed, and the new text descriptors get neither an instance nor a
    tag. *)
Theorem _update_loop_reuses_equal_texts (fuel : nat) (comp : nat) (olds news : list nat)
    (m : Machine) :
  Forall2 (same_text m) olds news → length olds < fuel →
  _update_loop fuel comp olds news 0 0 m = (Ret tt, m).
Proof.
  intros Hall Hlen.
  enough (Hgen : ∀ l1 l2, Forall2 (same_text m) l1 l2 →
            ∀ fuel k, l1 = drop k olds → l2 = drop k news → length l1 < fuel →
            _update_loop fuel comp olds news k k m = (Ret tt, m)).
  { apply (Hgen olds news Hall); by rewrite ?drop_0. }
  clear fuel Hlen Hall. intros l1 l2 Hall. induction Hall as [|oc nv l1 l2 Hsame Hall IH];
    intros fuel k H1 H2 Hlen; (destruct fuel as [|fuel]; [cbn in Hlen; lia|]);
    cbn [_update_loop].
  - assert (Hk1 : (k <? length olds) = false).
    { apply Nat.ltb_ge. symmetry in H1. apply drop_nil_inv in H1. done. }
    assert (Hk2 : (k <? length news) = false).
    { apply Nat.ltb_ge. symmetry in H2. apply drop_nil_inv in H2. done. }
    by rewrite Hk1, Hk2.
  - assert (Hk1 : (k <? length olds) = true).
    { apply Nat.ltb_lt. destruct (decide (k < length olds)); [done|].
      rewrite drop_ge in H1 by lia. done. }
    rewrite Hk1. cbn [orb negb]. rewrite <-H1. cbn [skip_detached].
    destruct Hsame as (Hdet & oel & Hel & Htext & Hkind & Heq).
    rewrite bind_bind, bind_state_is, Hdet, bind_ret. cbn [fst snd].
    assert (Hnv : news !! k = Some nv).
    { rewrite <-(Nat.add_0_r k), <-lookup_drop, <-H2. done. }
    rewrite Hnv. rewrite !bind_bind, (bind_el_of _ _ _ _ Hel). run_simpl.
    rewrite Htext, Hkind, Heq, !bool_decide_eq_true_2 by done. cbn [andb].
    apply IH.
    + replace (S k) with (k + 1) by lia. rewrite <-drop_drop, <-H1. done.
    + replace (S k) with (k + 1) by lia. rewrite <-drop_drop, <-H2. done.
    + cbn in Hlen. lia.
Qed.

(** X27: the first [_update] of a text or element descriptor without
    children, whose instance has no node yet, creates the node: the call
    returns, the instance points at a fresh node that agrees with the
    descriptor and carries the instance, the descriptor and the instance are
    tagged RENDERED, and no descriptor changes. *)
Theorem _update_creates_the_node_of_a_leaf (fuel : nat) (vel comp : nat) (m : Machine) :
  let v := m_vels m !!! vel in
  is_tagged SKIPPED (OVel vel) m = false →
  v_comp v = Some comp → v_isForwarding v = false → c_el (m_comps m !!! comp) = None →
  v_kind v ≠ VirtualComponent → v_children v = [] →
  let r := _update (S (S fuel)) vel m in
  let el := m_next m in
  r.1 = Ret tt
  ∧ c_el (m_comps r.2 !!! comp) = Some el
  ∧ node_agrees v (m_nodes r.2 !!! el) ∧ n_comp (m_nodes r.2 !!! el) = Some comp
  ∧ n_childNodes (m_nodes r.2 !!! el) = []
  ∧ is_tagged RENDERED (OVel vel) r.2 = true ∧ is_tagged RENDERED (OComp comp) r.2 = true
  ∧ m_vels r.2 = m_vels m
  ∧ (∀ x, x ≠ el → m_nodes r.2 !!! x = m_nodes m !!! x).
Proof.
  intros v Hs Hc Hf Hel Hk Hch r el.
  assert (∃ m', _update (S (S fuel)) vel m = (Ret tt, m')
    ∧ c_el (m_comps m' !!! comp) = Some el
    ∧ node_agrees v (m_nodes m' !!! el) ∧ n_comp (m_nodes m' !!! el) = Some comp
    ∧ n_childNodes (m_nodes m' !!! el) = []
    ∧ is_tagged RENDERED (OVel vel) m' = true ∧ is_tagged RENDERED (OComp comp) m' = true
    ∧ m_vels m' = m_vels m
    ∧ (∀ x, x ≠ el → m_nodes m' !!! x = m_nodes m !!! x)) as (m' & Hrun & Hall);
    [|subst r; rewrite Hrun; split; [done|exact Hall]].
  cbn [_update]. rewrite bind_state_is, Hs. cbn iota. rewrite bind_getVel. fold v.
  rewrite Hc, (bool_decide_eq_false_2 (Some comp = None)) by done. cbn [andb when].
  rewrite bind_ret, bind_getVel. fold v. rewrite Hf. cbn [deref].
  run_simpl. rewrite Hel.
  destruct (_createDOMElement_fresh vel m)
    as (m1 & Hr1 & Hn1 & Hv1 & Hc1 & Ht1 & Hp1 & Hs1 & Hx1 & Hy1 & Ho1 & Hch1 & Hpar1 & Hk1 & Hi1 & Ha1).
  fold v el in Hr1, Hn1, Ho1, Hch1, Hpar1, Hk1, Hi1, Ha1.
  rewrite ?bind_bind, (bind_ret_run _ _ _ _ _ Hr1). run_simpl.
  set (m2 := (modComp comp (set_c_el (Some el)) m1).2).
  assert (F2 : m_nodes m2 = m_nodes m1 ∧ m_vels m2 = m_vels m ∧ m_tags m2 = m_tags m1
               ∧ m_stateId m2 = m_stateId m1 ∧ c_el (m_comps m2 !!! comp) = Some el).
  { unfold m2. cbn. by rewrite lookup_total_insert_eq. }
  clearbody m2. destruct F2 as (N2 & V2 & T2 & S2 & C2).
  assert (Hloop : ∃ m3, (if (bool_decide (v_kind v = VirtualComponent)
                               || bool_decide (v_kind v = VirtualHTMLElement))
                              && negb (hasInnerHTML v)
                         then oldChildren <- _oldChildren (S fuel) comp el;;
                              _update_loop (S fuel) comp oldChildren (v_children v) 0 0
                         else ret tt) m2 = (Ret tt, m3)
            ∧ m_nodes m3 = m_nodes m2 ∧ m_vels m3 = m_vels m2 ∧ m_tags m3 = m_tags m2
            ∧ m_stateId m3 = m_stateId m2 ∧ m_comps m3 = m_comps m2).
  { destruct (_ && _); [|by exists m2].
    unfold _oldChildren. rewrite !bind_bind, bind_getNode, N2, Hch1. cbn [mapM].
    rewrite ?bind_bind, !bind_ret, Hch. cbn [omap list_omap _update_loop length]. by exists m2. }
  destruct Hloop as (m3 & Hr3 & N3 & V3 & T3 & S3 & C3).
  rewrite (bind_ret_run _ _ _ _ _ Hr3).
  rewrite (bool_decide_eq_false_2 (v_kind v = VirtualComponent)) by done.
  rewrite bind_ret, bind_state_set, bind_ret.
  set (m4 := (state_set RENDERED (OVel vel) VTrue m3).2).
  destruct (state_set_run RENDERED (OComp comp) VTrue m4) as [m5 Hm5].
  exists m5. split; [done|].
  assert (Em5 : m5 = (state_set RENDERED (OComp comp) VTrue m4).2) by (by rewrite Hm5).
  destruct (state_set_heap RENDERED (OVel vel) VTrue m3) as (E1 & E2 & E3 & _).
  destruct (state_set_heap RENDERED (OComp comp) VTrue m4) as (G1 & G2 & G3 & _).
  fold m4 in E1, E2, E3, G1, G2, G3. rewrite <-Em5 in G1, G2, G3.
  assert (R5 : is_tagged RENDERED (OVel vel) m5 = true ∧ is_tagged RENDERED (OComp comp) m5 = true).
  { rewrite Em5. unfold m4. rewrite !is_tagged_state_set. rewrite decide_False by done.
    rewrite !decide_True by done. by rewrite !bool_decide_eq_true_2. }
  clear Em5 Hm5. clearbody m4.
  assert (Hn5 : m_nodes m5 = m_nodes m1) by congruence.
  split_and!; try apply R5.
  - rewrite G2, E2, C3. done.
  - by rewrite Hn5.
  - rewrite Hn5, Hi1. done.
  - by rewrite Hn5.
  - congruence.
  - intros x Hx. rewrite Hn5. by apply Ho1.
Qed.

End update.

(** [_update_needs_the_instance] on the text descriptor of [m_create0], which
    has no instance. *)
Lemma _update_needs_the_instance_witness :
  ∃ e, (_update (H := counter_host) 5 3 m_create0).1 = Throw e.
Proof.
  assert (H1 : comp_of m_create0 3 = None) by (vm_compute; reflexivity).
  assert (H2 : is_tagged SKIPPED (OVel 3) m_create0 = false) by (vm_compute; reflexivity).
  exact (_update_needs_the_instance (H := counter_host) 5 3 m_create0 H1 H2).
Defined.

(** [_update_loop_removes_leftovers] on the two text children of [m_texts]. *)
Lemma _update_loop_removes_leftovers_witness :
  m_log (_update_loop (H := counter_host) 1 10 [11; 12] [] 0 0 m_texts).2
  = [EvDom (RemoveChild 50 51); EvTriggerDispose 11;
     EvDom (RemoveChild 50 52); EvTriggerDispose 12].
Proof.
  assert (H1 : c_el (m_comps m_texts !!! 10) = Some 50) by (vm_compute; reflexivity).
  assert (H2 : Forall (λ oc, c_el (m_comps m_texts !!! oc) ≠ None) [11; 12]).
  { repeat constructor; vm_compute; discriminate. }
  pose proof (_update_loop_removes_leftovers (H := counter_host) 0 10 50 [11; 12] m_texts H1 H2)
    as Hrem.
  cbv zeta in Hrem.
  assert (Hrest : after_detached m_texts [11; 12] = [11; 12]) by (vm_compute; reflexivity).
  rewrite Hrest in Hrem. destruct Hrem as (_ & Hlog & _).
  rewrite Hlog. vm_compute. reflexivity.
Defined.

(** [_update_loop_reuses_equal_texts] on [m_texts]. *)
Lemma _update_loop_reuses_equal_texts_witness :
  _update_loop (H := counter_host) 3 10 [11; 12] [1; 2] 0 0 m_texts = (Ret tt, m_texts).
Proof.
  refine (_update_loop_reuses_equal_texts (H := counter_host) 3 10 [11; 12] [1; 2] m_texts _ _).
  - repeat constructor; try (vm_compute; reflexivity).
    + exists 51. repeat split; vm_compute; reflexivity.
    + exists 52. repeat split; vm_compute; reflexivity.
  - cbn. lia.
Defined.

(** [_update_creates_the_node_of_a_leaf] on the text descriptor of
    [m_adopt_text], whose instance has no node. *)
Lemma _update_creates_the_node_of_a_leaf_witness :
  let r := _update (H := counter_host) 2 1 m_adopt_text in
  r.1 = Ret tt ∧ c_el (m_comps r.2 !!! 10) = Some (m_next m_adopt_text).
Proof.
  assert (H1 : is_tagged SKIPPED (OVel 1) m_adopt_text = false) by (vm_compute; reflexivity).
  assert (H2 : v_comp (m_vels m_adopt_text !!! 1) = Some 10) by (vm_compute; reflexivity).
  assert (H3 : v_isForwarding (m_vels m_adopt_text !!! 1) = false) by (vm_compute; reflexivity).
  assert (H4 : c_el (m_comps m_adopt_text !!! 10) = None) by (vm_compute; reflexivity).
  assert (H5 : v_kind (m_vels m_adopt_text !!! 1) ≠ VirtualComponent) by (vm_compute; discriminate).
  assert (H6 : v_children (m_vels m_adopt_text !!! 1) = []) by (vm_compute; reflexivity).
  pose proof (_update_creates_the_node_of_a_leaf (H := counter_host) 0 1 10 m_adopt_text
                H1 H2 H3 H4 H5 H6) as Hleaf.
  cbv zeta in Hleaf. destruct Hleaf as (Hret & Hel & _).
  cbv zeta. split; [exact Hret|exact Hel].
Defined.
